(** * Combat and perception core of the arena RPG

    A shallow embedding of the combat logic of [js/Enemy.js],
    [js/CombatSystem.js], [js/Fireball.js], the telegraph module and the
    tick driver of [js/main.js], followed by the properties the
    specification states about them.

    Numbers.  A JavaScript number is modelled as a rational ([Q]) with
    exact arithmetic: rounding of the IEEE operations is not modelled.
    A timer that the code counts up or down over many updates therefore
    differs from its model by the accumulated rounding, and may cross
    its threshold one update earlier or later.  The properties of the
    cooldowns, of the invulnerability window, of the telegraphs and of
    the falling fireball are stated accordingly: for one call, or as
    invariants over the value the timer itself holds, not as a closed
    sum of the [deltaTime] of many updates.
    Integer-valued quantities that the code only ever increments, compares
    or divides with [Math.floor] (animation frames) are [Z].  The functions
    of the [Math] object that are not rational (square root, arc cosine,
    cosine, sine, arc tangent) are an interface, [MathLib]; every theorem
    holds for every implementation of it.

    Objects.  A JavaScript object is a record; a reference that may be
    [null] is a [bool] (attached or not) when the referent is unique, and
    an index into a store ([nat]) when several holders share it.

    Rendering (materials, UV coordinates, billboarding, health bars,
    particles, camera) is left out throughout: it never feeds back into
    the fields modelled here. *)

From Stdlib Require Import QArith Qround Qabs ZArith List Bool Lia Lqa.
From Stdlib Require Import Permutation Sorted.
Import ListNotations.

Set Implicit Arguments.
Open Scope Q_scope.

(* ================================================================== *)
(** * Numbers *)

Module Num.

(** [a <= b], [a < b], [a > b], [a >= b] of the source, as booleans. *)
Definition leb (a b : Q) : bool := Qle_bool a b.
Definition ltb (a b : Q) : bool := negb (Qle_bool b a).
Definition gtb (a b : Q) : bool := ltb b a.
Definition geb (a b : Q) : bool := leb b a.

(** [Math.round]: nearest integer, halves towards plus infinity. *)
Definition round (x : Q) : Z := Qfloor (x + (1 # 2)).

(** [Math.floor]. *)
Definition floor (x : Q) : Z := Qfloor x.

(** [Math.max] and [Math.min]. *)
Definition max (a b : Q) : Q := if leb a b then b else a.
Definition min (a b : Q) : Q := if leb a b then a else b.

(** [Math.abs]. *)
Definition abs (a : Q) : Q := Qabs a.

(** [Math.min(a / b, 1) >= 1], the test of a progress that has reached
    its end.  With [b] zero the quotient is [Infinity] for a positive
    [a], which the minimum brings to 1, and [NaN] or [-Infinity]
    otherwise, which the comparison refuses. *)
Definition reached (a b : Q) : bool :=
  if Qeq_bool b 0 then ltb 0 a else geb (min (a / b) 1) 1.

(** [x || 1] on a number: [1] when [x] is zero. *)
Definition or_one (x : Q) : Q := if Qeq_bool x 0 then 1 else x.

End Num.

(** The irrational part of the [Math] object. *)
Class MathLib : Type := {
  Math_sqrt  : Q -> Q;
  Math_acos  : Q -> Q;
  Math_cos   : Q -> Q;
  Math_sin   : Q -> Q;
  Math_atan2 : Q -> Q -> Q
}.

(** [Math.PI] is the double nearest to pi, a rational. *)
Definition Math_PI : Q := 884279719003555 # 281474976710656.

(* ================================================================== *)
(** * THREE.Vector3 *)

Record Vector3 : Type := vec3 { vx : Q; vy : Q; vz : Q }.

Module V3.
Section WithMath.
Context {M : MathLib}.

Definition zero : Vector3 := vec3 0 0 0.
Definition add (a b : Vector3) : Vector3 :=
  vec3 (vx a + vx b) (vy a + vy b) (vz a + vz b).
Definition sub (a b : Vector3) : Vector3 :=
  vec3 (vx a - vx b) (vy a - vy b) (vz a - vz b).
Definition multiplyScalar (a : Vector3) (s : Q) : Vector3 :=
  vec3 (vx a * s) (vy a * s) (vz a * s).
Definition dot (a b : Vector3) : Q :=
  vx a * vx b + vy a * vy b + vz a * vz b.
Definition setY (a : Vector3) (y : Q) : Vector3 := vec3 (vx a) y (vz a).
Definition length (a : Vector3) : Q := Math_sqrt (dot a a).
Definition distanceTo (a b : Vector3) : Q := length (sub a b).
(** [divideScalar(s)] is [multiplyScalar(1 / s)]. *)
Definition divideScalar (a : Vector3) (s : Q) : Vector3 :=
  multiplyScalar a (1 / s).
(** [normalize()] is [divideScalar(length() || 1)]. *)
Definition normalize (a : Vector3) : Vector3 :=
  divideScalar a (Num.or_one (length a)).
(** [lerpVectors(v1, v2, alpha)]: [v1 + (v2 - v1) * alpha]. *)
Definition lerpVectors (v1 v2 : Vector3) (alpha : Q) : Vector3 :=
  vec3 (vx v1 + (vx v2 - vx v1) * alpha)
       (vy v1 + (vy v2 - vy v1) * alpha)
       (vz v1 + (vz v2 - vz v1) * alpha).
End WithMath.
End V3.

(* ================================================================== *)
(** * CombatSystem: the player's side *)

Record CombatSystem : Type := mkCombat {
  cs_attackRange : Q;
  cs_attackAngle : Q;
  cs_attackCooldown : Q;
  cs_attackCooldownDuration : Q;
  lightningStrikeCooldown : Q;
  lightningStrikeCooldownDuration : Q;
  lightningStrikeRange : Q;
  lightningStrikeTargets : nat;
  lightningStrikeBaseDamage : Q;
  lightningStrikeDamageVariance : Q;
  isLightningStriking : bool;
  baseDamage : Q;
  damageVariance : Q;
  criticalChance : Q;
  criticalMultiplier : Q;
  playerHealth : Q;
  playerMaxHealth : Q;
  playerInvulnerable : bool;
  invulnerabilityDuration : Q;
  invulnerabilityTimer : Q;
  cs_isAttacking : bool;
  attackTimer : Q;
  attackDuration : Q;
  (** [this.game]: the reference used for the freeze frame. *)
  cs_game : bool
}.

(** The constructor's values. *)
Definition CombatSystem_new (game : bool) : CombatSystem :=
  {| cs_attackRange := 5 # 2; cs_attackAngle := 90;
     cs_attackCooldown := 0; cs_attackCooldownDuration := 3 # 10;
     lightningStrikeCooldown := 0; lightningStrikeCooldownDuration := 3;
     lightningStrikeRange := 5; lightningStrikeTargets := 3;
     lightningStrikeBaseDamage := 12;
     lightningStrikeDamageVariance := 1 # 4;
     isLightningStriking := false;
     baseDamage := 10; damageVariance := 2 # 10;
     criticalChance := 15 # 100; criticalMultiplier := 2;
     playerHealth := 5; playerMaxHealth := 5;
     playerInvulnerable := false; invulnerabilityDuration := 1;
     invulnerabilityTimer := 0;
     cs_isAttacking := false; attackTimer := 0; attackDuration := 3 # 10;
     cs_game := game |}.

(** The result object [{ damage, isCritical }]. *)
Record DamageInfo : Type := mkDamageInfo { di_damage : Z; di_isCritical : bool }.

(** [calculateDamage()].  [r1] and [r2] are the two values [Math.random()]
    returns, in call order. *)
Definition calculateDamage (c : CombatSystem) (r1 r2 : Q) : DamageInfo :=
  let variance := (r1 - (1 # 2)) * 2 * damageVariance c in
  let damage := Num.round (baseDamage c * (1 + variance)) in
  let isCritical := Num.ltb r2 (criticalChance c) in
  let damage :=
    if isCritical then Num.round (inject_Z damage * criticalMultiplier c)
    else damage in
  mkDamageInfo damage isCritical.

(* ================================================================== *)
(** * Lists used as JavaScript arrays *)

(** [a[i] = x] for an index in range; out of range the array is left
    alone (the code never writes past the end). *)
Fixpoint list_set {A : Type} (i : nat) (x : A) (l : list A) : list A :=
  match l, i with
  | [], _ => []
  | _ :: t, O => x :: t
  | h :: t, S j => h :: list_set j x t
  end.

(** In-place change of the object stored at index [i]. *)
Definition list_alter {A : Type} (f : A -> A) (i : nat) (l : list A)
  : list A :=
  match nth_error l i with
  | Some x => list_set i (f x) l
  | None => l
  end.

(** [a.splice(i, 1)]. *)
Fixpoint splice1 {A : Type} (i : nat) (l : list A) : list A :=
  match l, i with
  | [], _ => []
  | _ :: t, O => t
  | h :: t, S j => h :: splice1 j t
  end.

(** [a.indexOf(x)] on an array of object references. *)
Fixpoint indexOf (x : nat) (l : list nat) : option nat :=
  match l with
  | [] => None
  | y :: t => if Nat.eqb x y then Some O
              else option_map S (indexOf x t)
  end.

(** [a.pop()]: the last element and the shortened array. *)
Fixpoint pop {A : Type} (l : list A) : option (A * list A) :=
  match l with
  | [] => None
  | [x] => Some (x, [])
  | h :: t => match pop t with
              | Some (x, t') => Some (x, h :: t')
              | None => None
              end
  end.

(* ================================================================== *)
(** * AttackTelegraph *)

Inductive AttackType : Type := melee | ranged | area.

Module Tg.

Record t : Type := mk {
attackType : AttackType;
range : Q;
warningTime : Q;
elapsedTime : Q;
isActive : bool;
hasGlowEffect : bool;
explosionTriggered : bool;
explosionTime : Q;
glowFadeOutDuration : Q;
(** the enemy the telegraph follows, by identity *)
followTarget : option nat;
position : Vector3;
visible : bool;
(** attached to the scene *)
parent : bool
}.

Definition set_elapsedTime (v : Q) (x : t) : t := mk (attackType x) (range
  x) (warningTime x) v (isActive x) (hasGlowEffect x) (explosionTriggered x)
  (explosionTime x) (glowFadeOutDuration x) (followTarget x) (position x)
  (visible x) (parent x).
Definition set_isActive (v : bool) (x : t) : t := mk (attackType x) (range
  x) (warningTime x) (elapsedTime x) v (hasGlowEffect x) (explosionTriggered
  x) (explosionTime x) (glowFadeOutDuration x) (followTarget x) (position x)
  (visible x) (parent x).
Definition set_explosionTriggered (v : bool) (x : t) : t := mk (attackType
  x) (range x) (warningTime x) (elapsedTime x) (isActive x) (hasGlowEffect
  x) v (explosionTime x) (glowFadeOutDuration x) (followTarget x) (position
  x) (visible x) (parent x).
Definition set_explosionTime (v : Q) (x : t) : t := mk (attackType x) (range
  x) (warningTime x) (elapsedTime x) (isActive x) (hasGlowEffect x)
  (explosionTriggered x) v (glowFadeOutDuration x) (followTarget x)
  (position x) (visible x) (parent x).
Definition set_followTarget (v : option nat) (x : t) : t := mk (attackType
  x) (range x) (warningTime x) (elapsedTime x) (isActive x) (hasGlowEffect
  x) (explosionTriggered x) (explosionTime x) (glowFadeOutDuration x) v
  (position x) (visible x) (parent x).
Definition set_position (v : Vector3) (x : t) : t := mk (attackType x)
  (range x) (warningTime x) (elapsedTime x) (isActive x) (hasGlowEffect x)
  (explosionTriggered x) (explosionTime x) (glowFadeOutDuration x)
  (followTarget x) v (visible x) (parent x).
Definition set_visible (v : bool) (x : t) : t := mk (attackType x) (range x)
  (warningTime x) (elapsedTime x) (isActive x) (hasGlowEffect x)
  (explosionTriggered x) (explosionTime x) (glowFadeOutDuration x)
  (followTarget x) (position x) v (parent x).
Definition set_parent (v : bool) (x : t) : t := mk (attackType x) (range x)
  (warningTime x) (elapsedTime x) (isActive x) (hasGlowEffect x)
  (explosionTriggered x) (explosionTime x) (glowFadeOutDuration x)
  (followTarget x) (position x) (visible x) v.

(** [new AttackTelegraph(attackType, range, warningTime, ...)].  Only the
  'area' shape builds the glow mesh ([createLargeCircleTelegraph]). *)
Definition new (ty : AttackType) (rng wt : Q) : t :=
{| attackType := ty; range := rng; warningTime := wt;
   elapsedTime := 0; isActive := false;
   hasGlowEffect := match ty with area => true | _ => false end;
   explosionTriggered := false; explosionTime := 0;
   glowFadeOutDuration := 1;
   followTarget := None; position := vec3 0 0 0;
   visible := false; parent := false |}.

(** [startTelegraph(position, direction, followTarget)]. *)
Definition startTelegraph (pos : Vector3) (follow : option nat) (x : t) : t :=
let x := set_position (V3.setY pos 0) x in
let x := set_followTarget follow x in
let x := set_elapsedTime 0 x in
let x := set_isActive true x in
set_visible true x.

(** [completeTelegraph()]. *)
Definition completeTelegraph (x : t) : t :=
let x := set_isActive false x in
if negb (hasGlowEffect x) then set_visible false x else x.

(** [cancel()]. *)
Definition cancel (x : t) : t :=
let x := set_isActive false x in
let x := set_visible false x in
let x := set_elapsedTime 0 x in
if parent x then set_parent false x else x.

(** [update(deltaTime)].  [follow] is the live position of the followed
  enemy, when there is one.  The opacity and pulse computations are
  rendering and left out; the glow bookkeeping stays because it decides
  [visible], which the manager reads. *)
Definition update (deltaTime : Q) (follow : option Vector3) (x : t) : t :=
if negb (isActive x) && negb (explosionTriggered x) then x
else
  let x := match followTarget x, follow with
           | Some _, Some p => set_position (V3.setY p 0) x
           | _, _ => x
           end in
  let x := set_elapsedTime (elapsedTime x + deltaTime) x in
  (* [progress >= 1], for [progress = Math.min(elapsedTime / warningTime, 1)] *)
  let progressDone := Num.reached (elapsedTime x) (warningTime x) in
  let x :=
    if hasGlowEffect x then
      if negb (explosionTriggered x) then
        if progressDone
        then set_explosionTime 0 (set_explosionTriggered true x)
        else x
      else
        let x := set_explosionTime (explosionTime x + deltaTime) x in
        (* [fadeProgress >= 1] *)
        let fadeDone :=
          Num.reached (explosionTime x) (glowFadeOutDuration x) in
        if fadeDone then set_visible false x else x
    else x in
  if progressDone then completeTelegraph x else x.

End Tg.

(** [TelegraphManager]: every telegraph object ever created ([store],
    indexed by identity) and the array [activeTelegraphs] of references. *)
Record TelegraphManager : Type := mkTM {
  tm_store : list Tg.t;
  activeTelegraphs : list nat
}.

(* ================================================================== *)
(** * Fireball *)

Module Fb.

Record t : Type := mk {
fallSpeed : Q;
damage : Q;
explosionRadius : Q;
telegraphRadius : Q;
lifetime : Q;
maxLifetime : Q;
startY : Q;
targetPosition : Vector3;
position : Vector3;
velocity : Vector3;
isActive : bool;
hasExploded : bool;
isPlaying : bool;
visible : bool;
currentFrame : Z;
totalFrames : Z;
elapsedTime : Q;
frameTime : Q;
(** the telegraph object, by identity *)
telegraph : option nat;
telegraphManager : bool;
manager : bool;
(** the completion callback; the only one ever installed is the manager's *)
onComplete : bool
}.

Definition set_lifetime (v : Q) (x : t) : t := mk (fallSpeed x) (damage x)
  (explosionRadius x) (telegraphRadius x) v (maxLifetime x) (startY x)
  (targetPosition x) (position x) (velocity x) (isActive x) (hasExploded x)
  (isPlaying x) (visible x) (currentFrame x) (totalFrames x) (elapsedTime x)
  (frameTime x) (telegraph x) (telegraphManager x) (manager x) (onComplete
  x).
Definition set_maxLifetime (v : Q) (x : t) : t := mk (fallSpeed x) (damage
  x) (explosionRadius x) (telegraphRadius x) (lifetime x) v (startY x)
  (targetPosition x) (position x) (velocity x) (isActive x) (hasExploded x)
  (isPlaying x) (visible x) (currentFrame x) (totalFrames x) (elapsedTime x)
  (frameTime x) (telegraph x) (telegraphManager x) (manager x) (onComplete
  x).
Definition set_targetPosition (v : Vector3) (x : t) : t := mk (fallSpeed x)
  (damage x) (explosionRadius x) (telegraphRadius x) (lifetime x)
  (maxLifetime x) (startY x) v (position x) (velocity x) (isActive x)
  (hasExploded x) (isPlaying x) (visible x) (currentFrame x) (totalFrames x)
  (elapsedTime x) (frameTime x) (telegraph x) (telegraphManager x) (manager
  x) (onComplete x).
Definition set_position (v : Vector3) (x : t) : t := mk (fallSpeed x)
  (damage x) (explosionRadius x) (telegraphRadius x) (lifetime x)
  (maxLifetime x) (startY x) (targetPosition x) v (velocity x) (isActive x)
  (hasExploded x) (isPlaying x) (visible x) (currentFrame x) (totalFrames x)
  (elapsedTime x) (frameTime x) (telegraph x) (telegraphManager x) (manager
  x) (onComplete x).
Definition set_velocity (v : Vector3) (x : t) : t := mk (fallSpeed x)
  (damage x) (explosionRadius x) (telegraphRadius x) (lifetime x)
  (maxLifetime x) (startY x) (targetPosition x) (position x) v (isActive x)
  (hasExploded x) (isPlaying x) (visible x) (currentFrame x) (totalFrames x)
  (elapsedTime x) (frameTime x) (telegraph x) (telegraphManager x) (manager
  x) (onComplete x).
Definition set_isActive (v : bool) (x : t) : t := mk (fallSpeed x) (damage
  x) (explosionRadius x) (telegraphRadius x) (lifetime x) (maxLifetime x)
  (startY x) (targetPosition x) (position x) (velocity x) v (hasExploded x)
  (isPlaying x) (visible x) (currentFrame x) (totalFrames x) (elapsedTime x)
  (frameTime x) (telegraph x) (telegraphManager x) (manager x) (onComplete
  x).
Definition set_hasExploded (v : bool) (x : t) : t := mk (fallSpeed x)
  (damage x) (explosionRadius x) (telegraphRadius x) (lifetime x)
  (maxLifetime x) (startY x) (targetPosition x) (position x) (velocity x)
  (isActive x) v (isPlaying x) (visible x) (currentFrame x) (totalFrames x)
  (elapsedTime x) (frameTime x) (telegraph x) (telegraphManager x) (manager
  x) (onComplete x).
Definition set_isPlaying (v : bool) (x : t) : t := mk (fallSpeed x) (damage
  x) (explosionRadius x) (telegraphRadius x) (lifetime x) (maxLifetime x)
  (startY x) (targetPosition x) (position x) (velocity x) (isActive x)
  (hasExploded x) v (visible x) (currentFrame x) (totalFrames x)
  (elapsedTime x) (frameTime x) (telegraph x) (telegraphManager x) (manager
  x) (onComplete x).
Definition set_visible (v : bool) (x : t) : t := mk (fallSpeed x) (damage x)
  (explosionRadius x) (telegraphRadius x) (lifetime x) (maxLifetime x)
  (startY x) (targetPosition x) (position x) (velocity x) (isActive x)
  (hasExploded x) (isPlaying x) v (currentFrame x) (totalFrames x)
  (elapsedTime x) (frameTime x) (telegraph x) (telegraphManager x) (manager
  x) (onComplete x).
Definition set_currentFrame (v : Z) (x : t) : t := mk (fallSpeed x) (damage
  x) (explosionRadius x) (telegraphRadius x) (lifetime x) (maxLifetime x)
  (startY x) (targetPosition x) (position x) (velocity x) (isActive x)
  (hasExploded x) (isPlaying x) (visible x) v (totalFrames x) (elapsedTime
  x) (frameTime x) (telegraph x) (telegraphManager x) (manager x)
  (onComplete x).
Definition set_elapsedTime (v : Q) (x : t) : t := mk (fallSpeed x) (damage
  x) (explosionRadius x) (telegraphRadius x) (lifetime x) (maxLifetime x)
  (startY x) (targetPosition x) (position x) (velocity x) (isActive x)
  (hasExploded x) (isPlaying x) (visible x) (currentFrame x) (totalFrames x)
  v (frameTime x) (telegraph x) (telegraphManager x) (manager x) (onComplete
  x).
Definition set_telegraph (v : option nat) (x : t) : t := mk (fallSpeed x)
  (damage x) (explosionRadius x) (telegraphRadius x) (lifetime x)
  (maxLifetime x) (startY x) (targetPosition x) (position x) (velocity x)
  (isActive x) (hasExploded x) (isPlaying x) (visible x) (currentFrame x)
  (totalFrames x) (elapsedTime x) (frameTime x) v (telegraphManager x)
  (manager x) (onComplete x).
Definition set_telegraphManager (v : bool) (x : t) : t := mk (fallSpeed x)
  (damage x) (explosionRadius x) (telegraphRadius x) (lifetime x)
  (maxLifetime x) (startY x) (targetPosition x) (position x) (velocity x)
  (isActive x) (hasExploded x) (isPlaying x) (visible x) (currentFrame x)
  (totalFrames x) (elapsedTime x) (frameTime x) (telegraph x) v (manager x)
  (onComplete x).
Definition set_onComplete (v : bool) (x : t) : t := mk (fallSpeed x) (damage
  x) (explosionRadius x) (telegraphRadius x) (lifetime x) (maxLifetime x)
  (startY x) (targetPosition x) (position x) (velocity x) (isActive x)
  (hasExploded x) (isPlaying x) (visible x) (currentFrame x) (totalFrames x)
  (elapsedTime x) (frameTime x) (telegraph x) (telegraphManager x) (manager
  x) v.

(** [new Fireball(texture, 100, 100, columns, rows, fps)]. *)
Definition new (columns rows : Z) (fps : Q) : t :=
{| fallSpeed := 5 # 2; damage := 1; explosionRadius := 5 # 2;
   telegraphRadius := 83 # 100; lifetime := 0; maxLifetime := 5;
   startY := 15; targetPosition := vec3 0 0 0; position := vec3 0 0 0;
   velocity := vec3 0 0 0; isActive := false; hasExploded := false;
   isPlaying := false; visible := false; currentFrame := 0;
   totalFrames := columns * rows; elapsedTime := 0; frameTime := 1 / fps;
   telegraph := None; telegraphManager := false; manager := false;
   onComplete := false |}.

Section WithMath.
Context {M : MathLib}.

(** [isInTelegraphArea(position)]. *)
Definition isInTelegraphArea (pos : Vector3) (x : t) : bool :=
  let distance := V3.distanceTo (targetPosition x) pos in
  Num.leb distance (telegraphRadius x).

(** [isOverlapping(position, radius)]: the explosion footprint. *)
Definition isOverlapping (pos : Vector3) (radius : Q) (x : t) : bool :=
  let distance := V3.distanceTo (position x) pos in
  Num.leb distance (explosionRadius x + radius).
End WithMath.

(** [getExplosionPosition()]. *)
Definition getExplosionPosition (x : t) : Vector3 :=
vec3 (vx (targetPosition x)) 0 (vz (targetPosition x)).

End Fb.

(** [FireballManager]: the fireball objects ([fm_store], indexed by
    identity) and the two arrays of references. *)
Record FireballManager : Type := mkFM {
  maxFireballs : nat;
  fm_store : list Fb.t;
  fireballPool : list nat;
  activeFireballs : list nat;
  fm_combatSystem : bool;
  fm_telegraphManager : bool
}.

(* ================================================================== *)
(** * The player as the enemies see it *)

(** The fields of [CharacterSprite] / [PlayerController] the combat code
    reads or writes. *)
Record Player : Type := mkPlayer {
  pl_position : Vector3;
  pl_isHurt : bool;
  pl_isAttacking : bool;
  pl_lastDirection : Vector3
}.

(** [CharacterSprite.hurt(attackerPosition)]: refused while already hurt
    or attacking.  The hurt direction only picks a sprite sheet. *)
Definition Player_hurt (p : Player) : bool * Player :=
  if pl_isHurt p || pl_isAttacking p then (false, p)
  else (true, mkPlayer (pl_position p) true (pl_isAttacking p)
                       (pl_lastDirection p)).

(* ================================================================== *)
(** * The shared state *)

(** The calls the timing properties are about, as they reach the console
    of the source ([console.log]); each is recorded with the simulated
    time of the tick that makes it. *)
Inductive Event : Type :=
| EvAttackStarted (enemy : nat)
| EvTelegraphCreated (enemy : nat) (telegraph : nat) (warningTime : Q)
| EvMeleeDamage (enemy : nat) (amount : Q)
| EvFireballCast (enemy : nat) (target : Vector3).

(** A pending [setTimeout] callback of [createFireballTelegraph]. *)
Record Timer : Type := mkTimer {
  tmr_fireball : nat;
  tmr_delay : Q;
  tmr_telegraphDuration : Q
}.

(** Everything an enemy reaches through its back-references: the game
    (freeze gate), the player, the combat system and the two managers.
    [now] and [log] exist for the statements only: [now] is the simulated
    time, the sum of the [deltaTime] of the ticks that ran, and [log] the
    events so far, newest first. *)

Record Sys : Type := mkSys {
  now : Q;
  log : list (Q * Event);
  freezeTime : Q;
  freezeDuration : Q;
  player : Player;
  combat : CombatSystem;
  fireballs : FireballManager;
  telegraphs : TelegraphManager;
  timers : list Timer
}.

Definition set_now (v : Q) (x : Sys) : Sys := mkSys v (log x) (freezeTime x)
  (freezeDuration x) (player x) (combat x) (fireballs x) (telegraphs x)
  (timers x).
Definition set_log (v : list (Q * Event)) (x : Sys) : Sys := mkSys (now x) v
  (freezeTime x) (freezeDuration x) (player x) (combat x) (fireballs x)
  (telegraphs x) (timers x).
Definition set_freezeTime (v : Q) (x : Sys) : Sys := mkSys (now x) (log x) v
  (freezeDuration x) (player x) (combat x) (fireballs x) (telegraphs x)
  (timers x).
Definition set_freezeDuration (v : Q) (x : Sys) : Sys := mkSys (now x) (log
  x) (freezeTime x) v (player x) (combat x) (fireballs x) (telegraphs x)
  (timers x).
Definition set_player (v : Player) (x : Sys) : Sys := mkSys (now x) (log x)
  (freezeTime x) (freezeDuration x) v (combat x) (fireballs x) (telegraphs
  x) (timers x).
Definition set_combat (v : CombatSystem) (x : Sys) : Sys := mkSys (now x)
  (log x) (freezeTime x) (freezeDuration x) (player x) v (fireballs x)
  (telegraphs x) (timers x).
Definition set_fireballs (v : FireballManager) (x : Sys) : Sys := mkSys (now
  x) (log x) (freezeTime x) (freezeDuration x) (player x) (combat x) v
  (telegraphs x) (timers x).
Definition set_telegraphs (v : TelegraphManager) (x : Sys) : Sys := mkSys
  (now x) (log x) (freezeTime x) (freezeDuration x) (player x) (combat x)
  (fireballs x) v (timers x).
Definition set_timers (v : list Timer) (x : Sys) : Sys := mkSys (now x) (log
  x) (freezeTime x) (freezeDuration x) (player x) (combat x) (fireballs x)
  (telegraphs x) v.

Definition emit (ev : Event) (s : Sys) : Sys :=
  set_log ((now s, ev) :: log s) s.

(** [CatQuestGame.freezeFrame(duration)]. *)
Definition freezeFrame (duration : Q) (s : Sys) : Sys :=
  set_freezeDuration duration (set_freezeTime duration s).

(* ================================================================== *)
(** * CombatSystem: damage to the player and timers *)

Definition set_cs_attackCooldown (v : Q) (x : CombatSystem) : CombatSystem
  := mkCombat (cs_attackRange x) (cs_attackAngle x) v
  (cs_attackCooldownDuration x) (lightningStrikeCooldown x)
  (lightningStrikeCooldownDuration x) (lightningStrikeRange x)
  (lightningStrikeTargets x) (lightningStrikeBaseDamage x)
  (lightningStrikeDamageVariance x) (isLightningStriking x) (baseDamage x)
  (damageVariance x) (criticalChance x) (criticalMultiplier x) (playerHealth
  x) (playerMaxHealth x) (playerInvulnerable x) (invulnerabilityDuration x)
  (invulnerabilityTimer x) (cs_isAttacking x) (attackTimer x)
  (attackDuration x) (cs_game x).
Definition set_lightningStrikeCooldown (v : Q) (x : CombatSystem) :
  CombatSystem := mkCombat (cs_attackRange x) (cs_attackAngle x)
  (cs_attackCooldown x) (cs_attackCooldownDuration x) v
  (lightningStrikeCooldownDuration x) (lightningStrikeRange x)
  (lightningStrikeTargets x) (lightningStrikeBaseDamage x)
  (lightningStrikeDamageVariance x) (isLightningStriking x) (baseDamage x)
  (damageVariance x) (criticalChance x) (criticalMultiplier x) (playerHealth
  x) (playerMaxHealth x) (playerInvulnerable x) (invulnerabilityDuration x)
  (invulnerabilityTimer x) (cs_isAttacking x) (attackTimer x)
  (attackDuration x) (cs_game x).
Definition set_isLightningStriking (v : bool) (x : CombatSystem) :
  CombatSystem := mkCombat (cs_attackRange x) (cs_attackAngle x)
  (cs_attackCooldown x) (cs_attackCooldownDuration x)
  (lightningStrikeCooldown x) (lightningStrikeCooldownDuration x)
  (lightningStrikeRange x) (lightningStrikeTargets x)
  (lightningStrikeBaseDamage x) (lightningStrikeDamageVariance x) v
  (baseDamage x) (damageVariance x) (criticalChance x) (criticalMultiplier
  x) (playerHealth x) (playerMaxHealth x) (playerInvulnerable x)
  (invulnerabilityDuration x) (invulnerabilityTimer x) (cs_isAttacking x)
  (attackTimer x) (attackDuration x) (cs_game x).
Definition set_playerHealth (v : Q) (x : CombatSystem) : CombatSystem :=
  mkCombat (cs_attackRange x) (cs_attackAngle x) (cs_attackCooldown x)
  (cs_attackCooldownDuration x) (lightningStrikeCooldown x)
  (lightningStrikeCooldownDuration x) (lightningStrikeRange x)
  (lightningStrikeTargets x) (lightningStrikeBaseDamage x)
  (lightningStrikeDamageVariance x) (isLightningStriking x) (baseDamage x)
  (damageVariance x) (criticalChance x) (criticalMultiplier x) v
  (playerMaxHealth x) (playerInvulnerable x) (invulnerabilityDuration x)
  (invulnerabilityTimer x) (cs_isAttacking x) (attackTimer x)
  (attackDuration x) (cs_game x).
Definition set_playerInvulnerable (v : bool) (x : CombatSystem) :
  CombatSystem := mkCombat (cs_attackRange x) (cs_attackAngle x)
  (cs_attackCooldown x) (cs_attackCooldownDuration x)
  (lightningStrikeCooldown x) (lightningStrikeCooldownDuration x)
  (lightningStrikeRange x) (lightningStrikeTargets x)
  (lightningStrikeBaseDamage x) (lightningStrikeDamageVariance x)
  (isLightningStriking x) (baseDamage x) (damageVariance x) (criticalChance
  x) (criticalMultiplier x) (playerHealth x) (playerMaxHealth x) v
  (invulnerabilityDuration x) (invulnerabilityTimer x) (cs_isAttacking x)
  (attackTimer x) (attackDuration x) (cs_game x).
Definition set_invulnerabilityTimer (v : Q) (x : CombatSystem) :
  CombatSystem := mkCombat (cs_attackRange x) (cs_attackAngle x)
  (cs_attackCooldown x) (cs_attackCooldownDuration x)
  (lightningStrikeCooldown x) (lightningStrikeCooldownDuration x)
  (lightningStrikeRange x) (lightningStrikeTargets x)
  (lightningStrikeBaseDamage x) (lightningStrikeDamageVariance x)
  (isLightningStriking x) (baseDamage x) (damageVariance x) (criticalChance
  x) (criticalMultiplier x) (playerHealth x) (playerMaxHealth x)
  (playerInvulnerable x) (invulnerabilityDuration x) v (cs_isAttacking x)
  (attackTimer x) (attackDuration x) (cs_game x).
Definition set_cs_isAttacking (v : bool) (x : CombatSystem) : CombatSystem
  := mkCombat (cs_attackRange x) (cs_attackAngle x) (cs_attackCooldown x)
  (cs_attackCooldownDuration x) (lightningStrikeCooldown x)
  (lightningStrikeCooldownDuration x) (lightningStrikeRange x)
  (lightningStrikeTargets x) (lightningStrikeBaseDamage x)
  (lightningStrikeDamageVariance x) (isLightningStriking x) (baseDamage x)
  (damageVariance x) (criticalChance x) (criticalMultiplier x) (playerHealth
  x) (playerMaxHealth x) (playerInvulnerable x) (invulnerabilityDuration x)
  (invulnerabilityTimer x) v (attackTimer x) (attackDuration x) (cs_game x).
Definition set_attackTimer (v : Q) (x : CombatSystem) : CombatSystem :=
  mkCombat (cs_attackRange x) (cs_attackAngle x) (cs_attackCooldown x)
  (cs_attackCooldownDuration x) (lightningStrikeCooldown x)
  (lightningStrikeCooldownDuration x) (lightningStrikeRange x)
  (lightningStrikeTargets x) (lightningStrikeBaseDamage x)
  (lightningStrikeDamageVariance x) (isLightningStriking x) (baseDamage x)
  (damageVariance x) (criticalChance x) (criticalMultiplier x) (playerHealth
  x) (playerMaxHealth x) (playerInvulnerable x) (invulnerabilityDuration x)
  (invulnerabilityTimer x) (cs_isAttacking x) v (attackDuration x) (cs_game
  x).

(** What a method hands back to its caller: [return;] and falling off the
    end both give [undefined]. *)
Inductive JsReturn : Type :=
| js_undefined
| js_bool (b : bool).

(** [handlePlayerDamage(damage)]. *)
Definition handlePlayerDamage (damage : Q) (s : Sys) : bool * Sys :=
  if playerInvulnerable (combat s) then (false, s)
  else
    let s := set_combat
               (set_playerHealth (playerHealth (combat s) - damage)
                  (combat s)) s in
    let s := if cs_game (combat s) then freezeFrame (1 # 10) s else s in
    let c := set_playerInvulnerable true (combat s) in
    let c := set_invulnerabilityTimer (invulnerabilityDuration c) c in
    (true, set_combat c s).

(** [CombatSystem.update(deltaTime)]. *)
Definition CombatSystem_update (deltaTime : Q) (c : CombatSystem)
  : CombatSystem :=
  let c := if Num.gtb (cs_attackCooldown c) 0
           then set_cs_attackCooldown (cs_attackCooldown c - deltaTime) c
           else c in
  let c := if Num.gtb (lightningStrikeCooldown c) 0
           then set_lightningStrikeCooldown
                  (lightningStrikeCooldown c - deltaTime) c
           else c in
  let c := if cs_isAttacking c then
             let c := set_attackTimer (attackTimer c - deltaTime) c in
             if Num.leb (attackTimer c) 0 then set_cs_isAttacking false c
             else c
           else c in
  if playerInvulnerable c then
    let c := set_invulnerabilityTimer (invulnerabilityTimer c - deltaTime) c in
    if Num.leb (invulnerabilityTimer c) 0
    then set_playerInvulnerable false c else c
  else c.

(** [canAttack()]. *)
Definition canAttack (c : CombatSystem) : bool :=
  Num.leb (cs_attackCooldown c) 0 && negb (cs_isAttacking c).

(** [getAttackCooldownProgress()]. *)
Definition getAttackCooldownProgress (c : CombatSystem) : Q :=
  1 - cs_attackCooldown c / cs_attackCooldownDuration c.

(** [canUseLightningStrike()]. *)
Definition canUseLightningStrike (c : CombatSystem) : bool :=
  Num.leb (lightningStrikeCooldown c) 0.

(** [getLightningStrikeCooldownProgress()]. *)
Definition getLightningStrikeCooldownProgress (c : CombatSystem) : Q :=
  1 - lightningStrikeCooldown c / lightningStrikeCooldownDuration c.

(** [restoreHealth(amount)]: the value returned and the combat system. *)
Definition restoreHealth (amount : Q) (c : CombatSystem)
  : bool * CombatSystem :=
  if Num.geb (playerHealth c) (playerMaxHealth c) then (false, c)
  else
    (true,
     set_playerHealth
       (Num.min (playerMaxHealth c) (playerHealth c + amount)) c).

(** [update(deltaTime)] once per element of [dts], first element first. *)
Fixpoint CombatSystem_updates (dts : list Q) (c : CombatSystem)
  : CombatSystem :=
  match dts with
  | [] => c
  | dt :: rest => CombatSystem_updates rest (CombatSystem_update dt c)
  end.

(** The time a list of [deltaTime] adds up to. *)
Fixpoint elapsed (dts : list Q) : Q :=
  match dts with
  | [] => 0
  | dt :: rest => dt + elapsed rest
  end.

(* ================================================================== *)
(** * TelegraphManager *)

Module TelegraphManager.

Definition new : TelegraphManager := mkTM [] [].

(** [createTelegraph(attackType, position, range, warningTime, direction,
    followTarget, ...)]: the new object's identity and the manager. *)
Definition createTelegraph (ty : AttackType) (pos : Vector3)
           (rng wt : Q) (follow : option nat) (m : TelegraphManager)
  : nat * TelegraphManager :=
  let id := length (tm_store m) in
  let telegraph := Tg.set_parent true (Tg.new ty rng wt) in
  let telegraph := Tg.startTelegraph pos follow telegraph in
  (id, mkTM (tm_store m ++ [telegraph]) (activeTelegraphs m ++ [id])).

(** [telegraph.cancel()] on the object [id]. *)
Definition cancel (id : nat) (m : TelegraphManager) : TelegraphManager :=
  mkTM (list_alter Tg.cancel id (tm_store m)) (activeTelegraphs m).

(** [cleanupCancelled()]: the array is walked from its last index down,
    splicing out the telegraphs that are inactive and detached. *)
Fixpoint cleanup_loop (store : list Tg.t) (l : list nat) : list nat :=
  match l with
  | [] => []
  | id :: rest =>
      let rest' := cleanup_loop store rest in
      match nth_error store id with
      | Some t => if negb (Tg.isActive t) && negb (Tg.parent t)
                  then rest' else id :: rest'
      | None => id :: rest'
      end
  end.

Definition cleanupCancelled (m : TelegraphManager) : TelegraphManager :=
  mkTM (tm_store m) (cleanup_loop (tm_store m) (activeTelegraphs m)).

(** The loop of [update]: last index first; each telegraph is updated,
    then removed when it is neither active nor visible. *)
Fixpoint update_loop (deltaTime : Q) (enemyPos : nat -> option Vector3)
         (l : list nat) (store : list Tg.t) : list nat * list Tg.t :=
  match l with
  | [] => ([], store)
  | id :: rest =>
      let '(rest', store) := update_loop deltaTime enemyPos rest store in
      let step t :=
        Tg.update deltaTime
          (match Tg.followTarget t with
           | Some e => enemyPos e
           | None => None
           end) t in
      let store := list_alter step id store in
      match nth_error store id with
      | Some t =>
          if negb (Tg.isActive t) && negb (Tg.visible t)
          then (rest', list_alter (Tg.set_parent false) id store)
          else (id :: rest', store)
      | None => (id :: rest', store)
      end
  end.

(** [update(deltaTime)]. *)
Definition update (deltaTime : Q) (enemyPos : nat -> option Vector3)
           (m : TelegraphManager) : TelegraphManager :=
  let m := cleanupCancelled m in
  let '(l, store) :=
    update_loop deltaTime enemyPos (activeTelegraphs m) (tm_store m) in
  mkTM store l.

(** [cancelAll()]: every listed telegraph is cancelled ([cancel]
    detaches it, so the [scene.remove] that follows finds no parent) and
    the array is emptied. *)
Definition cancelAll (m : TelegraphManager) : TelegraphManager :=
  mkTM (fold_left (fun store id => list_alter Tg.cancel id store)
                  (activeTelegraphs m) (tm_store m))
       [].

(** [getActiveCount()]. *)
Definition getActiveCount (m : TelegraphManager) : nat :=
  length (filter (fun id => match nth_error (tm_store m) id with
                            | Some t => Tg.isActive t
                            | None => false
                            end)
                 (activeTelegraphs m)).

End TelegraphManager.

(* ================================================================== *)
(** * FireballManager and the life of a fireball *)

Module FireballManager.
Section WithMath.
Context {M : MathLib}.

Definition new (maxFireballs : nat) : FireballManager :=
  mkFM maxFireballs [] [] [] false false.

Definition set_store (st : list Fb.t) (m : FireballManager) :=
  mkFM (maxFireballs m) st (fireballPool m) (activeFireballs m)
       (fm_combatSystem m) (fm_telegraphManager m).
Definition set_arrays (pool active : list nat) (m : FireballManager) :=
  mkFM (maxFireballs m) (fm_store m) pool active
       (fm_combatSystem m) (fm_telegraphManager m).

(** The creation loop of [initialize()] ([maxFireballs] iterations). *)
Fixpoint create_loop (n : nat) (m : FireballManager) : FireballManager :=
  match n with
  | O => m
  | S k =>
      let fireball := Fb.new 6 5 12 in
      let fireball :=
        Fb.mk (Fb.fallSpeed fireball) (Fb.damage fireball)
              (Fb.explosionRadius fireball) (Fb.telegraphRadius fireball)
              (Fb.lifetime fireball) (Fb.maxLifetime fireball)
              (Fb.startY fireball) (Fb.targetPosition fireball)
              (Fb.position fireball) (Fb.velocity fireball)
              (Fb.isActive fireball) (Fb.hasExploded fireball)
              (Fb.isPlaying fireball) (Fb.visible fireball)
              (Fb.currentFrame fireball) (Fb.totalFrames fireball)
              (Fb.elapsedTime fireball) (Fb.frameTime fireball)
              (Fb.telegraph fireball) (fm_telegraphManager m)
              true (Fb.onComplete fireball) in
      let id := length (fm_store m) in
      create_loop k
        (mkFM (maxFireballs m) (fm_store m ++ [fireball])
              (fireballPool m ++ [id]) (activeFireballs m)
              (fm_combatSystem m) (fm_telegraphManager m))
  end.

(** [initialize()]; [loaded] tells whether the texture promise
    resolved (otherwise the [catch] leaves the pool empty). *)
Definition initialize (loaded : bool) (m : FireballManager)
  : FireballManager :=
  if loaded then create_loop (maxFireballs m) m else m.

Definition on_fireball (f : Fb.t -> Fb.t) (id : nat) (s : Sys) : Sys :=
  set_fireballs
    (set_store (list_alter f id (fm_store (fireballs s))) (fireballs s)) s.

Definition fireball (id : nat) (s : Sys) : option Fb.t :=
  nth_error (fm_store (fireballs s)) id.

(** [returnFireballToPool(fireball)]. *)
Definition returnFireballToPool (id : nat) (m : FireballManager)
  : FireballManager :=
  match indexOf id (activeFireballs m) with
  | Some index =>
      set_arrays (fireballPool m ++ [id])
                 (splice1 index (activeFireballs m)) m
  | None => m
  end.

(** [handleFireballExplosion(fireball)].  [playerController] is always
    set on a combat system. *)
Definition handleFireballExplosion (id : nat) (s : Sys) : Sys :=
  match fireball id s with
  | None => s
  | Some fb =>
      if fm_combatSystem (fireballs s) then
        let playerPos := pl_position (player s) in
        if Fb.isInTelegraphArea playerPos fb
        then snd (handlePlayerDamage (Fb.damage fb) s)
        else s
      else s
  end.

(** [Fireball.removeFireballTelegraph()]. *)
Definition removeFireballTelegraph (id : nat) (s : Sys) : Sys :=
  match fireball id s with
  | Some fb =>
      match Fb.telegraph fb with
      | Some tid =>
          let s := set_telegraphs
                     (TelegraphManager.cancel tid (telegraphs s)) s in
          on_fireball (Fb.set_telegraph None) id s
      | None => s
      end
  | None => s
  end.

(** [Fireball.removeFireball()]. *)
Definition removeFireball (id : nat) (s : Sys) : Sys :=
  let s := on_fireball
             (fun fb => Fb.set_visible false (Fb.set_isActive false fb))
             id s in
  match fireball id s with
  | Some fb =>
      if Fb.manager fb
      then set_fireballs (returnFireballToPool id (fireballs s)) s
      else s
  | None => s
  end.

(** [Fireball.triggerGroundImpact()]. *)
Definition triggerGroundImpact (id : nat) (s : Sys) : Sys :=
  match fireball id s with
  | None => s
  | Some fb =>
      if Fb.hasExploded fb then s
      else
        let s := on_fireball (Fb.set_hasExploded true) id s in
        let s := removeFireballTelegraph id s in
        let s := if Fb.onComplete fb
                 then handleFireballExplosion id s else s in
        removeFireball id s
  end.

(** [Fireball.explode()]: the timeout path. *)
Definition explode (id : nat) (s : Sys) : Sys :=
  match fireball id s with
  | None => s
  | Some fb =>
      if Fb.hasExploded fb then removeFireball id s
      else removeFireball id (triggerGroundImpact id s)
  end.

(** [Fireball.update(deltaTime)]. *)
Definition Fireball_update (deltaTime : Q) (id : nat) (s : Sys) : Sys :=
  match fireball id s with
  | None => s
  | Some fb =>
      if negb (Fb.isActive fb) then s
      else
        let s := on_fireball
                   (fun fb => Fb.set_lifetime (Fb.lifetime fb + deltaTime) fb)
                   id s in
        let lifetime := Fb.lifetime fb + deltaTime in
        if Num.geb lifetime (Fb.maxLifetime fb) then explode id s
        else
          let position :=
            V3.add (Fb.position fb)
                   (V3.multiplyScalar (Fb.velocity fb) deltaTime) in
          let s := on_fireball (Fb.set_position position) id s in
          if Num.leb (vy position) 0 && negb (Fb.hasExploded fb)
          then triggerGroundImpact id s
          else
            if Fb.isPlaying fb then
              let elapsed := Fb.elapsedTime fb + deltaTime in
              if Num.geb elapsed (Fb.frameTime fb) then
                on_fireball
                  (fun fb =>
                     Fb.set_currentFrame
                       ((Fb.currentFrame fb + 1) mod Fb.totalFrames fb)%Z
                       (Fb.set_elapsedTime 0 fb)) id s
              else on_fireball (Fb.set_elapsedTime elapsed) id s
            else s
  end.

(** [Fireball.launch(targetPosition, onComplete)], up to the scheduling
    of the telegraph, which [createFireballTelegraph] leaves to a
    [setTimeout] of [telegraphDelay] seconds. *)
Definition Fireball_launch (target : Vector3) (id : nat) (s : Sys) : Sys :=
  match fireball id s with
  | None => s
  | Some fb =>
      let totalFallDistance := Fb.startY fb - 0 in
      let calculatedLifetime := totalFallDistance / Fb.fallSpeed fb + 1 in
      let launched fb :=
        let fb := Fb.set_targetPosition target fb in
        let fb := Fb.set_position (V3.setY target (Fb.startY fb)) fb in
        let fb := Fb.set_velocity (vec3 0 (- Fb.fallSpeed fb) 0) fb in
        let fb := Fb.set_maxLifetime (Num.max calculatedLifetime 7) fb in
        let fb := Fb.set_currentFrame 0%Z fb in
        let fb := Fb.set_elapsedTime 0 fb in
        let fb := Fb.set_isPlaying true fb in
        let fb := Fb.set_isActive true fb in
        let fb := Fb.set_hasExploded false fb in
        let fb := Fb.set_visible true fb in
        let fb := Fb.set_onComplete true fb in
        Fb.set_lifetime 0 fb in
      let s := on_fireball launched id s in
      if Fb.telegraphManager fb then
        let explosionTime := (Fb.startY fb - 0) / Fb.fallSpeed fb in
        let telegraphDuration := Num.min (3 # 2) explosionTime in
        let telegraphDelay := explosionTime - telegraphDuration in
        set_timers (timers s ++ [mkTimer id telegraphDelay telegraphDuration]) s
      else s
  end.

(** The callback [createFireballTelegraph] hands to [setTimeout]. *)
Definition telegraphTimeout (t : Timer) (s : Sys) : Sys :=
  match fireball (tmr_fireball t) s with
  | None => s
  | Some fb =>
      if Fb.isActive fb && negb (Fb.hasExploded fb) then
        let '(tid, tm) :=
          TelegraphManager.createTelegraph
            area (Fb.targetPosition fb) (Fb.telegraphRadius fb)
            (tmr_telegraphDuration t) None (telegraphs s) in
        on_fireball (Fb.set_telegraph (Some tid)) (tmr_fireball t)
                    (set_telegraphs tm s)
      else s
  end.

(** [launchFireball(targetPosition)]: the value returned and the state. *)
Definition launchFireball (target : Vector3) (s : Sys) : JsReturn * Sys :=
  let m := fireballs s in
  match pop (fireballPool m) with
  | None => (js_undefined, s)
  | Some (id, pool) =>
      let s := set_fireballs
                 (set_arrays pool (activeFireballs m ++ [id]) m) s in
      let s := if fm_telegraphManager m
               then on_fireball (Fb.set_telegraphManager true) id s
               else s in
      (js_undefined, Fireball_launch target id s)
  end.

(** [activeFireballs.forEach(fireball => fireball.update(deltaTime))]:
    [forEach] fixes the number of indices on entry, reads the array
    afresh at each index and skips the indices no longer present, so a
    fireball that splices itself out makes the next one slide into the
    index just visited. *)
Fixpoint forEach_active (fuel k : nat) (deltaTime : Q) (s : Sys) : Sys :=
  match fuel with
  | O => s
  | S fuel' =>
      match nth_error (activeFireballs (fireballs s)) k with
      | Some id =>
          forEach_active fuel' (S k) deltaTime (Fireball_update deltaTime id s)
      | None => s
      end
  end.

(** [update(deltaTime)]. *)
Definition update (deltaTime : Q) (s : Sys) : Sys :=
  forEach_active (length (activeFireballs (fireballs s))) 0 deltaTime s.

End WithMath.
End FireballManager.

(* ================================================================== *)
(** * Enemy *)

Inductive AIState : Type := PATROL | CHASE | SEARCH | ATTACK | STUNNED | RETURN.

(** [currentAnimation]: 'walk', 'attack', 'hit', 'death', and the empty
    string [die()] stores to force the switch. *)
Inductive Animation : Type :=
  anim_walk | anim_attack | anim_hit | anim_death | anim_empty.

Definition Animation_eqb (a b : Animation) : bool :=
  match a, b with
  | anim_walk, anim_walk | anim_attack, anim_attack | anim_hit, anim_hit
  | anim_death, anim_death | anim_empty, anim_empty => true
  | _, _ => false
  end.

(** The values [Math.random()] gives to one [Enemy.update]: each use
    occurs at most once per call. *)
Record Rand : Type := mkRand {
  rnd_attackIndex : Q;
  rnd_angle : Q;
  rnd_distance : Q;
  rnd_search : Q
}.

Module Enemy.

Record t : Type := mk {
(** the identity of the object *)
eid : nat;
attackFramesList : list Z;
currentAttackIndex : Z;
(** frames of the walk sheet: floor(width / frameWidth), or 8 *)
walkFrames : Z;
fps : Q;
frameTime : Q;
currentFrame : Z;
elapsedTime : Q;
totalFrames : Z;
isPlaying : bool;
currentAnimation : Animation;
moveSpeed : Q;
currentDirection : Q;
patrolCenter : Vector3;
patrolRadius : Q;
patrolAngle : Q;
currentState : AIState;
detectionRange : Q;
loseTargetRange : Q;
visionAngle : Q;
detectionTimer : Q;
detectionInterval : Q;
chaseSpeed : Q;
lastKnownPlayerPosition : Vector3;
hasSeenPlayer : bool;
searchTimer : Q;
searchDuration : Q;
searchRadius : Q;
searchAngle : Q;
returnSpeed : Q;
returnTolerance : Q;
maxHealth : Q;
health : Q;
isDead : bool;
attackRange : Q;
attackDamage : Q;
attackCooldown : Q;
attackCooldownDuration : Q;
isAttacking : bool;
(** the reference to the player, or null *)
target : bool;
combatSystem : bool;
telegraphManager : bool;
currentTelegraph : option nat;
telegraphCreated : bool;
fireballManager : bool;
isFireballCaster : bool;
isHit : bool;
hitFrames : Z;
hitAnimationSpeed : Q;
deathFrames : Z;
deathAnimationSpeed : Q;
deathAnimationComplete : bool;
isKnockedBack : bool;
knockbackTimer : Q;
knockbackDuration : Q;
knockbackDistance : Q;
knockbackOrigin : Vector3;
knockbackTarget : Vector3;
scalePunchTimer : Q;
scalePunchDuration : Q;
maxScalePunch : Q;
scale : Vector3;
position : Vector3;
baseY : Q
}.

Definition set_currentAttackIndex (v : Z) (x : t) : t := mk (eid x)
  (attackFramesList x) v (walkFrames x) (fps x) (frameTime x) (currentFrame
  x) (elapsedTime x) (totalFrames x) (isPlaying x) (currentAnimation x)
  (moveSpeed x) (currentDirection x) (patrolCenter x) (patrolRadius x)
  (patrolAngle x) (currentState x) (detectionRange x) (loseTargetRange x)
  (visionAngle x) (detectionTimer x) (detectionInterval x) (chaseSpeed x)
  (lastKnownPlayerPosition x) (hasSeenPlayer x) (searchTimer x)
  (searchDuration x) (searchRadius x) (searchAngle x) (returnSpeed x)
  (returnTolerance x) (maxHealth x) (health x) (isDead x) (attackRange x)
  (attackDamage x) (attackCooldown x) (attackCooldownDuration x)
  (isAttacking x) (target x) (combatSystem x) (telegraphManager x)
  (currentTelegraph x) (telegraphCreated x) (fireballManager x)
  (isFireballCaster x) (isHit x) (hitFrames x) (hitAnimationSpeed x)
  (deathFrames x) (deathAnimationSpeed x) (deathAnimationComplete x)
  (isKnockedBack x) (knockbackTimer x) (knockbackDuration x)
  (knockbackDistance x) (knockbackOrigin x) (knockbackTarget x)
  (scalePunchTimer x) (scalePunchDuration x) (maxScalePunch x) (scale x)
  (position x) (baseY x).
Definition set_frameTime (v : Q) (x : t) : t := mk (eid x) (attackFramesList
  x) (currentAttackIndex x) (walkFrames x) (fps x) v (currentFrame x)
  (elapsedTime x) (totalFrames x) (isPlaying x) (currentAnimation x)
  (moveSpeed x) (currentDirection x) (patrolCenter x) (patrolRadius x)
  (patrolAngle x) (currentState x) (detectionRange x) (loseTargetRange x)
  (visionAngle x) (detectionTimer x) (detectionInterval x) (chaseSpeed x)
  (lastKnownPlayerPosition x) (hasSeenPlayer x) (searchTimer x)
  (searchDuration x) (searchRadius x) (searchAngle x) (returnSpeed x)
  (returnTolerance x) (maxHealth x) (health x) (isDead x) (attackRange x)
  (attackDamage x) (attackCooldown x) (attackCooldownDuration x)
  (isAttacking x) (target x) (combatSystem x) (telegraphManager x)
  (currentTelegraph x) (telegraphCreated x) (fireballManager x)
  (isFireballCaster x) (isHit x) (hitFrames x) (hitAnimationSpeed x)
  (deathFrames x) (deathAnimationSpeed x) (deathAnimationComplete x)
  (isKnockedBack x) (knockbackTimer x) (knockbackDuration x)
  (knockbackDistance x) (knockbackOrigin x) (knockbackTarget x)
  (scalePunchTimer x) (scalePunchDuration x) (maxScalePunch x) (scale x)
  (position x) (baseY x).
Definition set_currentFrame (v : Z) (x : t) : t := mk (eid x)
  (attackFramesList x) (currentAttackIndex x) (walkFrames x) (fps x)
  (frameTime x) v (elapsedTime x) (totalFrames x) (isPlaying x)
  (currentAnimation x) (moveSpeed x) (currentDirection x) (patrolCenter x)
  (patrolRadius x) (patrolAngle x) (currentState x) (detectionRange x)
  (loseTargetRange x) (visionAngle x) (detectionTimer x) (detectionInterval
  x) (chaseSpeed x) (lastKnownPlayerPosition x) (hasSeenPlayer x)
  (searchTimer x) (searchDuration x) (searchRadius x) (searchAngle x)
  (returnSpeed x) (returnTolerance x) (maxHealth x) (health x) (isDead x)
  (attackRange x) (attackDamage x) (attackCooldown x)
  (attackCooldownDuration x) (isAttacking x) (target x) (combatSystem x)
  (telegraphManager x) (currentTelegraph x) (telegraphCreated x)
  (fireballManager x) (isFireballCaster x) (isHit x) (hitFrames x)
  (hitAnimationSpeed x) (deathFrames x) (deathAnimationSpeed x)
  (deathAnimationComplete x) (isKnockedBack x) (knockbackTimer x)
  (knockbackDuration x) (knockbackDistance x) (knockbackOrigin x)
  (knockbackTarget x) (scalePunchTimer x) (scalePunchDuration x)
  (maxScalePunch x) (scale x) (position x) (baseY x).
Definition set_elapsedTime (v : Q) (x : t) : t := mk (eid x)
  (attackFramesList x) (currentAttackIndex x) (walkFrames x) (fps x)
  (frameTime x) (currentFrame x) v (totalFrames x) (isPlaying x)
  (currentAnimation x) (moveSpeed x) (currentDirection x) (patrolCenter x)
  (patrolRadius x) (patrolAngle x) (currentState x) (detectionRange x)
  (loseTargetRange x) (visionAngle x) (detectionTimer x) (detectionInterval
  x) (chaseSpeed x) (lastKnownPlayerPosition x) (hasSeenPlayer x)
  (searchTimer x) (searchDuration x) (searchRadius x) (searchAngle x)
  (returnSpeed x) (returnTolerance x) (maxHealth x) (health x) (isDead x)
  (attackRange x) (attackDamage x) (attackCooldown x)
  (attackCooldownDuration x) (isAttacking x) (target x) (combatSystem x)
  (telegraphManager x) (currentTelegraph x) (telegraphCreated x)
  (fireballManager x) (isFireballCaster x) (isHit x) (hitFrames x)
  (hitAnimationSpeed x) (deathFrames x) (deathAnimationSpeed x)
  (deathAnimationComplete x) (isKnockedBack x) (knockbackTimer x)
  (knockbackDuration x) (knockbackDistance x) (knockbackOrigin x)
  (knockbackTarget x) (scalePunchTimer x) (scalePunchDuration x)
  (maxScalePunch x) (scale x) (position x) (baseY x).
Definition set_totalFrames (v : Z) (x : t) : t := mk (eid x)
  (attackFramesList x) (currentAttackIndex x) (walkFrames x) (fps x)
  (frameTime x) (currentFrame x) (elapsedTime x) v (isPlaying x)
  (currentAnimation x) (moveSpeed x) (currentDirection x) (patrolCenter x)
  (patrolRadius x) (patrolAngle x) (currentState x) (detectionRange x)
  (loseTargetRange x) (visionAngle x) (detectionTimer x) (detectionInterval
  x) (chaseSpeed x) (lastKnownPlayerPosition x) (hasSeenPlayer x)
  (searchTimer x) (searchDuration x) (searchRadius x) (searchAngle x)
  (returnSpeed x) (returnTolerance x) (maxHealth x) (health x) (isDead x)
  (attackRange x) (attackDamage x) (attackCooldown x)
  (attackCooldownDuration x) (isAttacking x) (target x) (combatSystem x)
  (telegraphManager x) (currentTelegraph x) (telegraphCreated x)
  (fireballManager x) (isFireballCaster x) (isHit x) (hitFrames x)
  (hitAnimationSpeed x) (deathFrames x) (deathAnimationSpeed x)
  (deathAnimationComplete x) (isKnockedBack x) (knockbackTimer x)
  (knockbackDuration x) (knockbackDistance x) (knockbackOrigin x)
  (knockbackTarget x) (scalePunchTimer x) (scalePunchDuration x)
  (maxScalePunch x) (scale x) (position x) (baseY x).
Definition set_isPlaying (v : bool) (x : t) : t := mk (eid x)
  (attackFramesList x) (currentAttackIndex x) (walkFrames x) (fps x)
  (frameTime x) (currentFrame x) (elapsedTime x) (totalFrames x) v
  (currentAnimation x) (moveSpeed x) (currentDirection x) (patrolCenter x)
  (patrolRadius x) (patrolAngle x) (currentState x) (detectionRange x)
  (loseTargetRange x) (visionAngle x) (detectionTimer x) (detectionInterval
  x) (chaseSpeed x) (lastKnownPlayerPosition x) (hasSeenPlayer x)
  (searchTimer x) (searchDuration x) (searchRadius x) (searchAngle x)
  (returnSpeed x) (returnTolerance x) (maxHealth x) (health x) (isDead x)
  (attackRange x) (attackDamage x) (attackCooldown x)
  (attackCooldownDuration x) (isAttacking x) (target x) (combatSystem x)
  (telegraphManager x) (currentTelegraph x) (telegraphCreated x)
  (fireballManager x) (isFireballCaster x) (isHit x) (hitFrames x)
  (hitAnimationSpeed x) (deathFrames x) (deathAnimationSpeed x)
  (deathAnimationComplete x) (isKnockedBack x) (knockbackTimer x)
  (knockbackDuration x) (knockbackDistance x) (knockbackOrigin x)
  (knockbackTarget x) (scalePunchTimer x) (scalePunchDuration x)
  (maxScalePunch x) (scale x) (position x) (baseY x).
Definition set_currentAnimation (v : Animation) (x : t) : t := mk (eid x)
  (attackFramesList x) (currentAttackIndex x) (walkFrames x) (fps x)
  (frameTime x) (currentFrame x) (elapsedTime x) (totalFrames x) (isPlaying
  x) v (moveSpeed x) (currentDirection x) (patrolCenter x) (patrolRadius x)
  (patrolAngle x) (currentState x) (detectionRange x) (loseTargetRange x)
  (visionAngle x) (detectionTimer x) (detectionInterval x) (chaseSpeed x)
  (lastKnownPlayerPosition x) (hasSeenPlayer x) (searchTimer x)
  (searchDuration x) (searchRadius x) (searchAngle x) (returnSpeed x)
  (returnTolerance x) (maxHealth x) (health x) (isDead x) (attackRange x)
  (attackDamage x) (attackCooldown x) (attackCooldownDuration x)
  (isAttacking x) (target x) (combatSystem x) (telegraphManager x)
  (currentTelegraph x) (telegraphCreated x) (fireballManager x)
  (isFireballCaster x) (isHit x) (hitFrames x) (hitAnimationSpeed x)
  (deathFrames x) (deathAnimationSpeed x) (deathAnimationComplete x)
  (isKnockedBack x) (knockbackTimer x) (knockbackDuration x)
  (knockbackDistance x) (knockbackOrigin x) (knockbackTarget x)
  (scalePunchTimer x) (scalePunchDuration x) (maxScalePunch x) (scale x)
  (position x) (baseY x).
Definition set_currentDirection (v : Q) (x : t) : t := mk (eid x)
  (attackFramesList x) (currentAttackIndex x) (walkFrames x) (fps x)
  (frameTime x) (currentFrame x) (elapsedTime x) (totalFrames x) (isPlaying
  x) (currentAnimation x) (moveSpeed x) v (patrolCenter x) (patrolRadius x)
  (patrolAngle x) (currentState x) (detectionRange x) (loseTargetRange x)
  (visionAngle x) (detectionTimer x) (detectionInterval x) (chaseSpeed x)
  (lastKnownPlayerPosition x) (hasSeenPlayer x) (searchTimer x)
  (searchDuration x) (searchRadius x) (searchAngle x) (returnSpeed x)
  (returnTolerance x) (maxHealth x) (health x) (isDead x) (attackRange x)
  (attackDamage x) (attackCooldown x) (attackCooldownDuration x)
  (isAttacking x) (target x) (combatSystem x) (telegraphManager x)
  (currentTelegraph x) (telegraphCreated x) (fireballManager x)
  (isFireballCaster x) (isHit x) (hitFrames x) (hitAnimationSpeed x)
  (deathFrames x) (deathAnimationSpeed x) (deathAnimationComplete x)
  (isKnockedBack x) (knockbackTimer x) (knockbackDuration x)
  (knockbackDistance x) (knockbackOrigin x) (knockbackTarget x)
  (scalePunchTimer x) (scalePunchDuration x) (maxScalePunch x) (scale x)
  (position x) (baseY x).
Definition set_patrolAngle (v : Q) (x : t) : t := mk (eid x)
  (attackFramesList x) (currentAttackIndex x) (walkFrames x) (fps x)
  (frameTime x) (currentFrame x) (elapsedTime x) (totalFrames x) (isPlaying
  x) (currentAnimation x) (moveSpeed x) (currentDirection x) (patrolCenter
  x) (patrolRadius x) v (currentState x) (detectionRange x) (loseTargetRange
  x) (visionAngle x) (detectionTimer x) (detectionInterval x) (chaseSpeed x)
  (lastKnownPlayerPosition x) (hasSeenPlayer x) (searchTimer x)
  (searchDuration x) (searchRadius x) (searchAngle x) (returnSpeed x)
  (returnTolerance x) (maxHealth x) (health x) (isDead x) (attackRange x)
  (attackDamage x) (attackCooldown x) (attackCooldownDuration x)
  (isAttacking x) (target x) (combatSystem x) (telegraphManager x)
  (currentTelegraph x) (telegraphCreated x) (fireballManager x)
  (isFireballCaster x) (isHit x) (hitFrames x) (hitAnimationSpeed x)
  (deathFrames x) (deathAnimationSpeed x) (deathAnimationComplete x)
  (isKnockedBack x) (knockbackTimer x) (knockbackDuration x)
  (knockbackDistance x) (knockbackOrigin x) (knockbackTarget x)
  (scalePunchTimer x) (scalePunchDuration x) (maxScalePunch x) (scale x)
  (position x) (baseY x).
Definition set_currentState (v : AIState) (x : t) : t := mk (eid x)
  (attackFramesList x) (currentAttackIndex x) (walkFrames x) (fps x)
  (frameTime x) (currentFrame x) (elapsedTime x) (totalFrames x) (isPlaying
  x) (currentAnimation x) (moveSpeed x) (currentDirection x) (patrolCenter
  x) (patrolRadius x) (patrolAngle x) v (detectionRange x) (loseTargetRange
  x) (visionAngle x) (detectionTimer x) (detectionInterval x) (chaseSpeed x)
  (lastKnownPlayerPosition x) (hasSeenPlayer x) (searchTimer x)
  (searchDuration x) (searchRadius x) (searchAngle x) (returnSpeed x)
  (returnTolerance x) (maxHealth x) (health x) (isDead x) (attackRange x)
  (attackDamage x) (attackCooldown x) (attackCooldownDuration x)
  (isAttacking x) (target x) (combatSystem x) (telegraphManager x)
  (currentTelegraph x) (telegraphCreated x) (fireballManager x)
  (isFireballCaster x) (isHit x) (hitFrames x) (hitAnimationSpeed x)
  (deathFrames x) (deathAnimationSpeed x) (deathAnimationComplete x)
  (isKnockedBack x) (knockbackTimer x) (knockbackDuration x)
  (knockbackDistance x) (knockbackOrigin x) (knockbackTarget x)
  (scalePunchTimer x) (scalePunchDuration x) (maxScalePunch x) (scale x)
  (position x) (baseY x).
Definition set_detectionTimer (v : Q) (x : t) : t := mk (eid x)
  (attackFramesList x) (currentAttackIndex x) (walkFrames x) (fps x)
  (frameTime x) (currentFrame x) (elapsedTime x) (totalFrames x) (isPlaying
  x) (currentAnimation x) (moveSpeed x) (currentDirection x) (patrolCenter
  x) (patrolRadius x) (patrolAngle x) (currentState x) (detectionRange x)
  (loseTargetRange x) (visionAngle x) v (detectionInterval x) (chaseSpeed x)
  (lastKnownPlayerPosition x) (hasSeenPlayer x) (searchTimer x)
  (searchDuration x) (searchRadius x) (searchAngle x) (returnSpeed x)
  (returnTolerance x) (maxHealth x) (health x) (isDead x) (attackRange x)
  (attackDamage x) (attackCooldown x) (attackCooldownDuration x)
  (isAttacking x) (target x) (combatSystem x) (telegraphManager x)
  (currentTelegraph x) (telegraphCreated x) (fireballManager x)
  (isFireballCaster x) (isHit x) (hitFrames x) (hitAnimationSpeed x)
  (deathFrames x) (deathAnimationSpeed x) (deathAnimationComplete x)
  (isKnockedBack x) (knockbackTimer x) (knockbackDuration x)
  (knockbackDistance x) (knockbackOrigin x) (knockbackTarget x)
  (scalePunchTimer x) (scalePunchDuration x) (maxScalePunch x) (scale x)
  (position x) (baseY x).
Definition set_lastKnownPlayerPosition (v : Vector3) (x : t) : t := mk (eid
  x) (attackFramesList x) (currentAttackIndex x) (walkFrames x) (fps x)
  (frameTime x) (currentFrame x) (elapsedTime x) (totalFrames x) (isPlaying
  x) (currentAnimation x) (moveSpeed x) (currentDirection x) (patrolCenter
  x) (patrolRadius x) (patrolAngle x) (currentState x) (detectionRange x)
  (loseTargetRange x) (visionAngle x) (detectionTimer x) (detectionInterval
  x) (chaseSpeed x) v (hasSeenPlayer x) (searchTimer x) (searchDuration x)
  (searchRadius x) (searchAngle x) (returnSpeed x) (returnTolerance x)
  (maxHealth x) (health x) (isDead x) (attackRange x) (attackDamage x)
  (attackCooldown x) (attackCooldownDuration x) (isAttacking x) (target x)
  (combatSystem x) (telegraphManager x) (currentTelegraph x)
  (telegraphCreated x) (fireballManager x) (isFireballCaster x) (isHit x)
  (hitFrames x) (hitAnimationSpeed x) (deathFrames x) (deathAnimationSpeed
  x) (deathAnimationComplete x) (isKnockedBack x) (knockbackTimer x)
  (knockbackDuration x) (knockbackDistance x) (knockbackOrigin x)
  (knockbackTarget x) (scalePunchTimer x) (scalePunchDuration x)
  (maxScalePunch x) (scale x) (position x) (baseY x).
Definition set_hasSeenPlayer (v : bool) (x : t) : t := mk (eid x)
  (attackFramesList x) (currentAttackIndex x) (walkFrames x) (fps x)
  (frameTime x) (currentFrame x) (elapsedTime x) (totalFrames x) (isPlaying
  x) (currentAnimation x) (moveSpeed x) (currentDirection x) (patrolCenter
  x) (patrolRadius x) (patrolAngle x) (currentState x) (detectionRange x)
  (loseTargetRange x) (visionAngle x) (detectionTimer x) (detectionInterval
  x) (chaseSpeed x) (lastKnownPlayerPosition x) v (searchTimer x)
  (searchDuration x) (searchRadius x) (searchAngle x) (returnSpeed x)
  (returnTolerance x) (maxHealth x) (health x) (isDead x) (attackRange x)
  (attackDamage x) (attackCooldown x) (attackCooldownDuration x)
  (isAttacking x) (target x) (combatSystem x) (telegraphManager x)
  (currentTelegraph x) (telegraphCreated x) (fireballManager x)
  (isFireballCaster x) (isHit x) (hitFrames x) (hitAnimationSpeed x)
  (deathFrames x) (deathAnimationSpeed x) (deathAnimationComplete x)
  (isKnockedBack x) (knockbackTimer x) (knockbackDuration x)
  (knockbackDistance x) (knockbackOrigin x) (knockbackTarget x)
  (scalePunchTimer x) (scalePunchDuration x) (maxScalePunch x) (scale x)
  (position x) (baseY x).
Definition set_searchTimer (v : Q) (x : t) : t := mk (eid x)
  (attackFramesList x) (currentAttackIndex x) (walkFrames x) (fps x)
  (frameTime x) (currentFrame x) (elapsedTime x) (totalFrames x) (isPlaying
  x) (currentAnimation x) (moveSpeed x) (currentDirection x) (patrolCenter
  x) (patrolRadius x) (patrolAngle x) (currentState x) (detectionRange x)
  (loseTargetRange x) (visionAngle x) (detectionTimer x) (detectionInterval
  x) (chaseSpeed x) (lastKnownPlayerPosition x) (hasSeenPlayer x) v
  (searchDuration x) (searchRadius x) (searchAngle x) (returnSpeed x)
  (returnTolerance x) (maxHealth x) (health x) (isDead x) (attackRange x)
  (attackDamage x) (attackCooldown x) (attackCooldownDuration x)
  (isAttacking x) (target x) (combatSystem x) (telegraphManager x)
  (currentTelegraph x) (telegraphCreated x) (fireballManager x)
  (isFireballCaster x) (isHit x) (hitFrames x) (hitAnimationSpeed x)
  (deathFrames x) (deathAnimationSpeed x) (deathAnimationComplete x)
  (isKnockedBack x) (knockbackTimer x) (knockbackDuration x)
  (knockbackDistance x) (knockbackOrigin x) (knockbackTarget x)
  (scalePunchTimer x) (scalePunchDuration x) (maxScalePunch x) (scale x)
  (position x) (baseY x).
Definition set_searchAngle (v : Q) (x : t) : t := mk (eid x)
  (attackFramesList x) (currentAttackIndex x) (walkFrames x) (fps x)
  (frameTime x) (currentFrame x) (elapsedTime x) (totalFrames x) (isPlaying
  x) (currentAnimation x) (moveSpeed x) (currentDirection x) (patrolCenter
  x) (patrolRadius x) (patrolAngle x) (currentState x) (detectionRange x)
  (loseTargetRange x) (visionAngle x) (detectionTimer x) (detectionInterval
  x) (chaseSpeed x) (lastKnownPlayerPosition x) (hasSeenPlayer x)
  (searchTimer x) (searchDuration x) (searchRadius x) v (returnSpeed x)
  (returnTolerance x) (maxHealth x) (health x) (isDead x) (attackRange x)
  (attackDamage x) (attackCooldown x) (attackCooldownDuration x)
  (isAttacking x) (target x) (combatSystem x) (telegraphManager x)
  (currentTelegraph x) (telegraphCreated x) (fireballManager x)
  (isFireballCaster x) (isHit x) (hitFrames x) (hitAnimationSpeed x)
  (deathFrames x) (deathAnimationSpeed x) (deathAnimationComplete x)
  (isKnockedBack x) (knockbackTimer x) (knockbackDuration x)
  (knockbackDistance x) (knockbackOrigin x) (knockbackTarget x)
  (scalePunchTimer x) (scalePunchDuration x) (maxScalePunch x) (scale x)
  (position x) (baseY x).
Definition set_health (v : Q) (x : t) : t := mk (eid x) (attackFramesList x)
  (currentAttackIndex x) (walkFrames x) (fps x) (frameTime x) (currentFrame
  x) (elapsedTime x) (totalFrames x) (isPlaying x) (currentAnimation x)
  (moveSpeed x) (currentDirection x) (patrolCenter x) (patrolRadius x)
  (patrolAngle x) (currentState x) (detectionRange x) (loseTargetRange x)
  (visionAngle x) (detectionTimer x) (detectionInterval x) (chaseSpeed x)
  (lastKnownPlayerPosition x) (hasSeenPlayer x) (searchTimer x)
  (searchDuration x) (searchRadius x) (searchAngle x) (returnSpeed x)
  (returnTolerance x) (maxHealth x) v (isDead x) (attackRange x)
  (attackDamage x) (attackCooldown x) (attackCooldownDuration x)
  (isAttacking x) (target x) (combatSystem x) (telegraphManager x)
  (currentTelegraph x) (telegraphCreated x) (fireballManager x)
  (isFireballCaster x) (isHit x) (hitFrames x) (hitAnimationSpeed x)
  (deathFrames x) (deathAnimationSpeed x) (deathAnimationComplete x)
  (isKnockedBack x) (knockbackTimer x) (knockbackDuration x)
  (knockbackDistance x) (knockbackOrigin x) (knockbackTarget x)
  (scalePunchTimer x) (scalePunchDuration x) (maxScalePunch x) (scale x)
  (position x) (baseY x).
Definition set_isDead (v : bool) (x : t) : t := mk (eid x) (attackFramesList
  x) (currentAttackIndex x) (walkFrames x) (fps x) (frameTime x)
  (currentFrame x) (elapsedTime x) (totalFrames x) (isPlaying x)
  (currentAnimation x) (moveSpeed x) (currentDirection x) (patrolCenter x)
  (patrolRadius x) (patrolAngle x) (currentState x) (detectionRange x)
  (loseTargetRange x) (visionAngle x) (detectionTimer x) (detectionInterval
  x) (chaseSpeed x) (lastKnownPlayerPosition x) (hasSeenPlayer x)
  (searchTimer x) (searchDuration x) (searchRadius x) (searchAngle x)
  (returnSpeed x) (returnTolerance x) (maxHealth x) (health x) v
  (attackRange x) (attackDamage x) (attackCooldown x)
  (attackCooldownDuration x) (isAttacking x) (target x) (combatSystem x)
  (telegraphManager x) (currentTelegraph x) (telegraphCreated x)
  (fireballManager x) (isFireballCaster x) (isHit x) (hitFrames x)
  (hitAnimationSpeed x) (deathFrames x) (deathAnimationSpeed x)
  (deathAnimationComplete x) (isKnockedBack x) (knockbackTimer x)
  (knockbackDuration x) (knockbackDistance x) (knockbackOrigin x)
  (knockbackTarget x) (scalePunchTimer x) (scalePunchDuration x)
  (maxScalePunch x) (scale x) (position x) (baseY x).
Definition set_attackCooldown (v : Q) (x : t) : t := mk (eid x)
  (attackFramesList x) (currentAttackIndex x) (walkFrames x) (fps x)
  (frameTime x) (currentFrame x) (elapsedTime x) (totalFrames x) (isPlaying
  x) (currentAnimation x) (moveSpeed x) (currentDirection x) (patrolCenter
  x) (patrolRadius x) (patrolAngle x) (currentState x) (detectionRange x)
  (loseTargetRange x) (visionAngle x) (detectionTimer x) (detectionInterval
  x) (chaseSpeed x) (lastKnownPlayerPosition x) (hasSeenPlayer x)
  (searchTimer x) (searchDuration x) (searchRadius x) (searchAngle x)
  (returnSpeed x) (returnTolerance x) (maxHealth x) (health x) (isDead x)
  (attackRange x) (attackDamage x) v (attackCooldownDuration x) (isAttacking
  x) (target x) (combatSystem x) (telegraphManager x) (currentTelegraph x)
  (telegraphCreated x) (fireballManager x) (isFireballCaster x) (isHit x)
  (hitFrames x) (hitAnimationSpeed x) (deathFrames x) (deathAnimationSpeed
  x) (deathAnimationComplete x) (isKnockedBack x) (knockbackTimer x)
  (knockbackDuration x) (knockbackDistance x) (knockbackOrigin x)
  (knockbackTarget x) (scalePunchTimer x) (scalePunchDuration x)
  (maxScalePunch x) (scale x) (position x) (baseY x).
Definition set_isAttacking (v : bool) (x : t) : t := mk (eid x)
  (attackFramesList x) (currentAttackIndex x) (walkFrames x) (fps x)
  (frameTime x) (currentFrame x) (elapsedTime x) (totalFrames x) (isPlaying
  x) (currentAnimation x) (moveSpeed x) (currentDirection x) (patrolCenter
  x) (patrolRadius x) (patrolAngle x) (currentState x) (detectionRange x)
  (loseTargetRange x) (visionAngle x) (detectionTimer x) (detectionInterval
  x) (chaseSpeed x) (lastKnownPlayerPosition x) (hasSeenPlayer x)
  (searchTimer x) (searchDuration x) (searchRadius x) (searchAngle x)
  (returnSpeed x) (returnTolerance x) (maxHealth x) (health x) (isDead x)
  (attackRange x) (attackDamage x) (attackCooldown x)
  (attackCooldownDuration x) v (target x) (combatSystem x) (telegraphManager
  x) (currentTelegraph x) (telegraphCreated x) (fireballManager x)
  (isFireballCaster x) (isHit x) (hitFrames x) (hitAnimationSpeed x)
  (deathFrames x) (deathAnimationSpeed x) (deathAnimationComplete x)
  (isKnockedBack x) (knockbackTimer x) (knockbackDuration x)
  (knockbackDistance x) (knockbackOrigin x) (knockbackTarget x)
  (scalePunchTimer x) (scalePunchDuration x) (maxScalePunch x) (scale x)
  (position x) (baseY x).
Definition set_currentTelegraph (v : option nat) (x : t) : t := mk (eid x)
  (attackFramesList x) (currentAttackIndex x) (walkFrames x) (fps x)
  (frameTime x) (currentFrame x) (elapsedTime x) (totalFrames x) (isPlaying
  x) (currentAnimation x) (moveSpeed x) (currentDirection x) (patrolCenter
  x) (patrolRadius x) (patrolAngle x) (currentState x) (detectionRange x)
  (loseTargetRange x) (visionAngle x) (detectionTimer x) (detectionInterval
  x) (chaseSpeed x) (lastKnownPlayerPosition x) (hasSeenPlayer x)
  (searchTimer x) (searchDuration x) (searchRadius x) (searchAngle x)
  (returnSpeed x) (returnTolerance x) (maxHealth x) (health x) (isDead x)
  (attackRange x) (attackDamage x) (attackCooldown x)
  (attackCooldownDuration x) (isAttacking x) (target x) (combatSystem x)
  (telegraphManager x) v (telegraphCreated x) (fireballManager x)
  (isFireballCaster x) (isHit x) (hitFrames x) (hitAnimationSpeed x)
  (deathFrames x) (deathAnimationSpeed x) (deathAnimationComplete x)
  (isKnockedBack x) (knockbackTimer x) (knockbackDuration x)
  (knockbackDistance x) (knockbackOrigin x) (knockbackTarget x)
  (scalePunchTimer x) (scalePunchDuration x) (maxScalePunch x) (scale x)
  (position x) (baseY x).
Definition set_telegraphCreated (v : bool) (x : t) : t := mk (eid x)
  (attackFramesList x) (currentAttackIndex x) (walkFrames x) (fps x)
  (frameTime x) (currentFrame x) (elapsedTime x) (totalFrames x) (isPlaying
  x) (currentAnimation x) (moveSpeed x) (currentDirection x) (patrolCenter
  x) (patrolRadius x) (patrolAngle x) (currentState x) (detectionRange x)
  (loseTargetRange x) (visionAngle x) (detectionTimer x) (detectionInterval
  x) (chaseSpeed x) (lastKnownPlayerPosition x) (hasSeenPlayer x)
  (searchTimer x) (searchDuration x) (searchRadius x) (searchAngle x)
  (returnSpeed x) (returnTolerance x) (maxHealth x) (health x) (isDead x)
  (attackRange x) (attackDamage x) (attackCooldown x)
  (attackCooldownDuration x) (isAttacking x) (target x) (combatSystem x)
  (telegraphManager x) (currentTelegraph x) v (fireballManager x)
  (isFireballCaster x) (isHit x) (hitFrames x) (hitAnimationSpeed x)
  (deathFrames x) (deathAnimationSpeed x) (deathAnimationComplete x)
  (isKnockedBack x) (knockbackTimer x) (knockbackDuration x)
  (knockbackDistance x) (knockbackOrigin x) (knockbackTarget x)
  (scalePunchTimer x) (scalePunchDuration x) (maxScalePunch x) (scale x)
  (position x) (baseY x).
Definition set_isHit (v : bool) (x : t) : t := mk (eid x) (attackFramesList
  x) (currentAttackIndex x) (walkFrames x) (fps x) (frameTime x)
  (currentFrame x) (elapsedTime x) (totalFrames x) (isPlaying x)
  (currentAnimation x) (moveSpeed x) (currentDirection x) (patrolCenter x)
  (patrolRadius x) (patrolAngle x) (currentState x) (detectionRange x)
  (loseTargetRange x) (visionAngle x) (detectionTimer x) (detectionInterval
  x) (chaseSpeed x) (lastKnownPlayerPosition x) (hasSeenPlayer x)
  (searchTimer x) (searchDuration x) (searchRadius x) (searchAngle x)
  (returnSpeed x) (returnTolerance x) (maxHealth x) (health x) (isDead x)
  (attackRange x) (attackDamage x) (attackCooldown x)
  (attackCooldownDuration x) (isAttacking x) (target x) (combatSystem x)
  (telegraphManager x) (currentTelegraph x) (telegraphCreated x)
  (fireballManager x) (isFireballCaster x) v (hitFrames x)
  (hitAnimationSpeed x) (deathFrames x) (deathAnimationSpeed x)
  (deathAnimationComplete x) (isKnockedBack x) (knockbackTimer x)
  (knockbackDuration x) (knockbackDistance x) (knockbackOrigin x)
  (knockbackTarget x) (scalePunchTimer x) (scalePunchDuration x)
  (maxScalePunch x) (scale x) (position x) (baseY x).
Definition set_deathAnimationComplete (v : bool) (x : t) : t := mk (eid x)
  (attackFramesList x) (currentAttackIndex x) (walkFrames x) (fps x)
  (frameTime x) (currentFrame x) (elapsedTime x) (totalFrames x) (isPlaying
  x) (currentAnimation x) (moveSpeed x) (currentDirection x) (patrolCenter
  x) (patrolRadius x) (patrolAngle x) (currentState x) (detectionRange x)
  (loseTargetRange x) (visionAngle x) (detectionTimer x) (detectionInterval
  x) (chaseSpeed x) (lastKnownPlayerPosition x) (hasSeenPlayer x)
  (searchTimer x) (searchDuration x) (searchRadius x) (searchAngle x)
  (returnSpeed x) (returnTolerance x) (maxHealth x) (health x) (isDead x)
  (attackRange x) (attackDamage x) (attackCooldown x)
  (attackCooldownDuration x) (isAttacking x) (target x) (combatSystem x)
  (telegraphManager x) (currentTelegraph x) (telegraphCreated x)
  (fireballManager x) (isFireballCaster x) (isHit x) (hitFrames x)
  (hitAnimationSpeed x) (deathFrames x) (deathAnimationSpeed x) v
  (isKnockedBack x) (knockbackTimer x) (knockbackDuration x)
  (knockbackDistance x) (knockbackOrigin x) (knockbackTarget x)
  (scalePunchTimer x) (scalePunchDuration x) (maxScalePunch x) (scale x)
  (position x) (baseY x).
Definition set_isKnockedBack (v : bool) (x : t) : t := mk (eid x)
  (attackFramesList x) (currentAttackIndex x) (walkFrames x) (fps x)
  (frameTime x) (currentFrame x) (elapsedTime x) (totalFrames x) (isPlaying
  x) (currentAnimation x) (moveSpeed x) (currentDirection x) (patrolCenter
  x) (patrolRadius x) (patrolAngle x) (currentState x) (detectionRange x)
  (loseTargetRange x) (visionAngle x) (detectionTimer x) (detectionInterval
  x) (chaseSpeed x) (lastKnownPlayerPosition x) (hasSeenPlayer x)
  (searchTimer x) (searchDuration x) (searchRadius x) (searchAngle x)
  (returnSpeed x) (returnTolerance x) (maxHealth x) (health x) (isDead x)
  (attackRange x) (attackDamage x) (attackCooldown x)
  (attackCooldownDuration x) (isAttacking x) (target x) (combatSystem x)
  (telegraphManager x) (currentTelegraph x) (telegraphCreated x)
  (fireballManager x) (isFireballCaster x) (isHit x) (hitFrames x)
  (hitAnimationSpeed x) (deathFrames x) (deathAnimationSpeed x)
  (deathAnimationComplete x) v (knockbackTimer x) (knockbackDuration x)
  (knockbackDistance x) (knockbackOrigin x) (knockbackTarget x)
  (scalePunchTimer x) (scalePunchDuration x) (maxScalePunch x) (scale x)
  (position x) (baseY x).
Definition set_knockbackTimer (v : Q) (x : t) : t := mk (eid x)
  (attackFramesList x) (currentAttackIndex x) (walkFrames x) (fps x)
  (frameTime x) (currentFrame x) (elapsedTime x) (totalFrames x) (isPlaying
  x) (currentAnimation x) (moveSpeed x) (currentDirection x) (patrolCenter
  x) (patrolRadius x) (patrolAngle x) (currentState x) (detectionRange x)
  (loseTargetRange x) (visionAngle x) (detectionTimer x) (detectionInterval
  x) (chaseSpeed x) (lastKnownPlayerPosition x) (hasSeenPlayer x)
  (searchTimer x) (searchDuration x) (searchRadius x) (searchAngle x)
  (returnSpeed x) (returnTolerance x) (maxHealth x) (health x) (isDead x)
  (attackRange x) (attackDamage x) (attackCooldown x)
  (attackCooldownDuration x) (isAttacking x) (target x) (combatSystem x)
  (telegraphManager x) (currentTelegraph x) (telegraphCreated x)
  (fireballManager x) (isFireballCaster x) (isHit x) (hitFrames x)
  (hitAnimationSpeed x) (deathFrames x) (deathAnimationSpeed x)
  (deathAnimationComplete x) (isKnockedBack x) v (knockbackDuration x)
  (knockbackDistance x) (knockbackOrigin x) (knockbackTarget x)
  (scalePunchTimer x) (scalePunchDuration x) (maxScalePunch x) (scale x)
  (position x) (baseY x).
Definition set_knockbackOrigin (v : Vector3) (x : t) : t := mk (eid x)
  (attackFramesList x) (currentAttackIndex x) (walkFrames x) (fps x)
  (frameTime x) (currentFrame x) (elapsedTime x) (totalFrames x) (isPlaying
  x) (currentAnimation x) (moveSpeed x) (currentDirection x) (patrolCenter
  x) (patrolRadius x) (patrolAngle x) (currentState x) (detectionRange x)
  (loseTargetRange x) (visionAngle x) (detectionTimer x) (detectionInterval
  x) (chaseSpeed x) (lastKnownPlayerPosition x) (hasSeenPlayer x)
  (searchTimer x) (searchDuration x) (searchRadius x) (searchAngle x)
  (returnSpeed x) (returnTolerance x) (maxHealth x) (health x) (isDead x)
  (attackRange x) (attackDamage x) (attackCooldown x)
  (attackCooldownDuration x) (isAttacking x) (target x) (combatSystem x)
  (telegraphManager x) (currentTelegraph x) (telegraphCreated x)
  (fireballManager x) (isFireballCaster x) (isHit x) (hitFrames x)
  (hitAnimationSpeed x) (deathFrames x) (deathAnimationSpeed x)
  (deathAnimationComplete x) (isKnockedBack x) (knockbackTimer x)
  (knockbackDuration x) (knockbackDistance x) v (knockbackTarget x)
  (scalePunchTimer x) (scalePunchDuration x) (maxScalePunch x) (scale x)
  (position x) (baseY x).
Definition set_knockbackTarget (v : Vector3) (x : t) : t := mk (eid x)
  (attackFramesList x) (currentAttackIndex x) (walkFrames x) (fps x)
  (frameTime x) (currentFrame x) (elapsedTime x) (totalFrames x) (isPlaying
  x) (currentAnimation x) (moveSpeed x) (currentDirection x) (patrolCenter
  x) (patrolRadius x) (patrolAngle x) (currentState x) (detectionRange x)
  (loseTargetRange x) (visionAngle x) (detectionTimer x) (detectionInterval
  x) (chaseSpeed x) (lastKnownPlayerPosition x) (hasSeenPlayer x)
  (searchTimer x) (searchDuration x) (searchRadius x) (searchAngle x)
  (returnSpeed x) (returnTolerance x) (maxHealth x) (health x) (isDead x)
  (attackRange x) (attackDamage x) (attackCooldown x)
  (attackCooldownDuration x) (isAttacking x) (target x) (combatSystem x)
  (telegraphManager x) (currentTelegraph x) (telegraphCreated x)
  (fireballManager x) (isFireballCaster x) (isHit x) (hitFrames x)
  (hitAnimationSpeed x) (deathFrames x) (deathAnimationSpeed x)
  (deathAnimationComplete x) (isKnockedBack x) (knockbackTimer x)
  (knockbackDuration x) (knockbackDistance x) (knockbackOrigin x) v
  (scalePunchTimer x) (scalePunchDuration x) (maxScalePunch x) (scale x)
  (position x) (baseY x).
Definition set_scalePunchTimer (v : Q) (x : t) : t := mk (eid x)
  (attackFramesList x) (currentAttackIndex x) (walkFrames x) (fps x)
  (frameTime x) (currentFrame x) (elapsedTime x) (totalFrames x) (isPlaying
  x) (currentAnimation x) (moveSpeed x) (currentDirection x) (patrolCenter
  x) (patrolRadius x) (patrolAngle x) (currentState x) (detectionRange x)
  (loseTargetRange x) (visionAngle x) (detectionTimer x) (detectionInterval
  x) (chaseSpeed x) (lastKnownPlayerPosition x) (hasSeenPlayer x)
  (searchTimer x) (searchDuration x) (searchRadius x) (searchAngle x)
  (returnSpeed x) (returnTolerance x) (maxHealth x) (health x) (isDead x)
  (attackRange x) (attackDamage x) (attackCooldown x)
  (attackCooldownDuration x) (isAttacking x) (target x) (combatSystem x)
  (telegraphManager x) (currentTelegraph x) (telegraphCreated x)
  (fireballManager x) (isFireballCaster x) (isHit x) (hitFrames x)
  (hitAnimationSpeed x) (deathFrames x) (deathAnimationSpeed x)
  (deathAnimationComplete x) (isKnockedBack x) (knockbackTimer x)
  (knockbackDuration x) (knockbackDistance x) (knockbackOrigin x)
  (knockbackTarget x) v (scalePunchDuration x) (maxScalePunch x) (scale x)
  (position x) (baseY x).
Definition set_scale (v : Vector3) (x : t) : t := mk (eid x)
  (attackFramesList x) (currentAttackIndex x) (walkFrames x) (fps x)
  (frameTime x) (currentFrame x) (elapsedTime x) (totalFrames x) (isPlaying
  x) (currentAnimation x) (moveSpeed x) (currentDirection x) (patrolCenter
  x) (patrolRadius x) (patrolAngle x) (currentState x) (detectionRange x)
  (loseTargetRange x) (visionAngle x) (detectionTimer x) (detectionInterval
  x) (chaseSpeed x) (lastKnownPlayerPosition x) (hasSeenPlayer x)
  (searchTimer x) (searchDuration x) (searchRadius x) (searchAngle x)
  (returnSpeed x) (returnTolerance x) (maxHealth x) (health x) (isDead x)
  (attackRange x) (attackDamage x) (attackCooldown x)
  (attackCooldownDuration x) (isAttacking x) (target x) (combatSystem x)
  (telegraphManager x) (currentTelegraph x) (telegraphCreated x)
  (fireballManager x) (isFireballCaster x) (isHit x) (hitFrames x)
  (hitAnimationSpeed x) (deathFrames x) (deathAnimationSpeed x)
  (deathAnimationComplete x) (isKnockedBack x) (knockbackTimer x)
  (knockbackDuration x) (knockbackDistance x) (knockbackOrigin x)
  (knockbackTarget x) (scalePunchTimer x) (scalePunchDuration x)
  (maxScalePunch x) v (position x) (baseY x).
Definition set_position (v : Vector3) (x : t) : t := mk (eid x)
  (attackFramesList x) (currentAttackIndex x) (walkFrames x) (fps x)
  (frameTime x) (currentFrame x) (elapsedTime x) (totalFrames x) (isPlaying
  x) (currentAnimation x) (moveSpeed x) (currentDirection x) (patrolCenter
  x) (patrolRadius x) (patrolAngle x) (currentState x) (detectionRange x)
  (loseTargetRange x) (visionAngle x) (detectionTimer x) (detectionInterval
  x) (chaseSpeed x) (lastKnownPlayerPosition x) (hasSeenPlayer x)
  (searchTimer x) (searchDuration x) (searchRadius x) (searchAngle x)
  (returnSpeed x) (returnTolerance x) (maxHealth x) (health x) (isDead x)
  (attackRange x) (attackDamage x) (attackCooldown x)
  (attackCooldownDuration x) (isAttacking x) (target x) (combatSystem x)
  (telegraphManager x) (currentTelegraph x) (telegraphCreated x)
  (fireballManager x) (isFireballCaster x) (isHit x) (hitFrames x)
  (hitAnimationSpeed x) (deathFrames x) (deathAnimationSpeed x)
  (deathAnimationComplete x) (isKnockedBack x) (knockbackTimer x)
  (knockbackDuration x) (knockbackDistance x) (knockbackOrigin x)
  (knockbackTarget x) (scalePunchTimer x) (scalePunchDuration x)
  (maxScalePunch x) (scale x) v (baseY x).

Section WithMath.
Context {M : MathLib}.

(** Whether [switchAnimation(a)] gets past its two early returns. *)
Definition switches (a : Animation) (e : t) : bool :=
  negb (Animation_eqb (currentAnimation e) a)
  && negb (Animation_eqb (currentAnimation e) anim_death).

(** [switchAnimation(animationType)].  [r] is the random value used to
    pick the attack variant.  An index outside [attackFramesList]
    reads [undefined], which no comparison of the code tells from [0]. *)
Definition switchAnimation (r : Q) (a : Animation) (e : t) : t :=
  if negb (switches a e) then e
  else
    let e := set_currentAnimation a e in
    let e := set_currentFrame 0%Z e in
    let e := set_elapsedTime 0 e in
    match a with
    | anim_attack =>
        let idx :=
          Num.floor (r * inject_Z (Z.of_nat (length (attackFramesList e)))) in
        let e := set_currentAttackIndex idx e in
        let e := set_totalFrames
                   (nth (Z.to_nat idx) (attackFramesList e) 0%Z) e in
        let e := set_isAttacking true e in
        let e := set_isHit false e in
        let e := set_frameTime (1 / fps e) e in
        set_telegraphCreated false e
    | anim_hit =>
        let e := set_totalFrames (hitFrames e) e in
        let e := set_isAttacking false e in
        let e := set_isHit true e in
        let e := set_frameTime (1 / hitAnimationSpeed e) e in
        set_telegraphCreated false e
    | anim_death =>
        let e := set_totalFrames (deathFrames e) e in
        let e := set_isAttacking false e in
        let e := set_isHit false e in
        let e := set_frameTime (1 / deathAnimationSpeed e) e in
        let e := set_deathAnimationComplete false e in
        set_telegraphCreated false e
    | _ =>
        let e := set_totalFrames (walkFrames e) e in
        let e := set_isAttacking false e in
        let e := set_isHit false e in
        let e := set_frameTime (1 / fps e) e in
        set_telegraphCreated false e
    end.

(** [removeAttackTelegraph()]. *)
Definition removeAttackTelegraph (e : t) (s : Sys) : t * Sys :=
  match currentTelegraph e with
  | Some tid =>
      (set_currentTelegraph None e,
       set_telegraphs (TelegraphManager.cancel tid (telegraphs s)) s)
  | None => (e, s)
  end.

(** [createAttackTelegraph()]. *)
Definition createAttackTelegraph (e : t) (s : Sys) : t * Sys :=
  if negb (telegraphManager e) then (e, s)
  else
    let '(e, s) := removeAttackTelegraph e s in
    let remainingFrames := (totalFrames e - currentFrame e)%Z in
    let remainingDuration := inject_Z remainingFrames * frameTime e in
    let telegraphDuration := Num.max (3 # 10) remainingDuration in
    let '(tid, tm) :=
      TelegraphManager.createTelegraph
        melee (position e) (attackRange e) telegraphDuration
        (Some (eid e)) (telegraphs s) in
    let s := set_telegraphs tm s in
    let s := emit (EvTelegraphCreated (eid e) tid telegraphDuration) s in
    (set_currentTelegraph (Some tid) e, s).

(** The damage frame and the telegraph frame of the attack animation. *)
Definition damageFrame (e : t) : Z := (totalFrames e / 2)%Z.
Definition telegraphFrame (e : t) : Z := Z.max 1 (damageFrame e - 2).

(** The body of the [if (this.currentFrame === damageFrame &&
    this.target)] block of [updateAnimation]. *)
Definition dealDamage (rnd : Rand) (e : t) (s : Sys) : Sys :=
  let distanceToTarget :=
    V3.distanceTo (position e) (pl_position (player s)) in
  if isFireballCaster e && fireballManager e then
    let baseTargetPos := pl_position (player s) in
    let randomAngle := rnd_angle rnd * Math_PI * 2 in
    let randomDistance := rnd_distance rnd * 3 in
    let randomOffset :=
      vec3 (Math_cos randomAngle * randomDistance) 0
           (Math_sin randomAngle * randomDistance) in
    let targetPos := V3.add baseTargetPos randomOffset in
    let s := emit (EvFireballCast (eid e) targetPos) s in
    snd (FireballManager.launchFireball targetPos s)
  else if Num.leb distanceToTarget (attackRange e) then
    let '(success, p) := Player_hurt (player s) in
    let s := set_player p s in
    if success then
      if combatSystem e then
        let s := emit (EvMeleeDamage (eid e) (attackDamage e)) s in
        snd (handlePlayerDamage (attackDamage e) s)
      else s
    else s
  else s.

(** The telegraph block of the attack animation: [if (this.currentFrame
    === telegraphFrame && !this.telegraphCreated)]. *)
Definition telegraphStep (e : t) (s : Sys) : t * Sys :=
  if (currentFrame e =? telegraphFrame e)%Z && negb (telegraphCreated e)
  then
    let '(e, s) :=
      if negb (isFireballCaster e)
      then createAttackTelegraph e s else (e, s) in
    (set_telegraphCreated true e, s)
  else (e, s).

(** The end of the attack animation: [if (this.currentFrame >=
    this.totalFrames)]. *)
Definition finishAttack (e : t) (s : Sys) : t * Sys :=
  if (totalFrames e <=? currentFrame e)%Z then
    let e := set_currentFrame 0%Z e in
    let e := set_attackCooldown (attackCooldownDuration e) e in
    let '(e, s) := removeAttackTelegraph e s in
    let e := switchAnimation 0 anim_walk e in
    (set_telegraphCreated false e, s)
  else (e, s).

(** One frame of the attack animation: the [if (this.currentAnimation
    === 'attack')] branch of [updateAnimation]. *)
Definition advanceAttack (rnd : Rand) (e : t) (s : Sys) : t * Sys :=
  let e := set_currentFrame (currentFrame e + 1)%Z e in
  let '(e, s) := telegraphStep e s in
  let s :=
    if (currentFrame e =? damageFrame e)%Z && target e
    then dealDamage rnd e s else s in
  finishAttack e s.

(** One frame of the other animations: hit, death, and the looping
    walk. *)
Definition advanceOther (e : t) : t :=
  match currentAnimation e with
  | anim_hit =>
      let e := set_currentFrame (currentFrame e + 1)%Z e in
      if (totalFrames e <=? currentFrame e)%Z then
        let e := set_currentFrame 0%Z e in
        switchAnimation 0 anim_walk e
      else e
  | anim_death =>
      let e := set_currentFrame (currentFrame e + 1)%Z e in
      if (totalFrames e <=? currentFrame e)%Z
         && negb (deathAnimationComplete e)
      then
        let e := set_currentFrame (totalFrames e - 1)%Z e in
        set_deathAnimationComplete true e
      else e
  | _ => set_currentFrame ((currentFrame e + 1) mod totalFrames e)%Z e
  end.

(** [updateAnimation(deltaTime)]. *)
Definition updateAnimation (deltaTime : Q) (rnd : Rand) (e : t) (s : Sys)
  : t * Sys :=
  if (isDead e || isPlaying e) && (1 <? totalFrames e)%Z then
    let e := set_elapsedTime (elapsedTime e + deltaTime) e in
    if Num.geb (elapsedTime e) (frameTime e) then
      let e := set_elapsedTime 0 e in
      match currentAnimation e with
      | anim_attack => advanceAttack rnd e s
      | _ => (advanceOther e, s)
      end
    else (e, s)
  else (e, s).

(** [faceTarget()]. *)
Definition faceTarget (playerPos : Vector3) (e : t) : t :=
  if negb (target e) then e
  else
    let toTarget := V3.setY (V3.sub playerPos (position e)) 0 in
    if Num.gtb (V3.length toTarget) (1 # 10)
    then set_currentDirection
           (if Num.gtb (vx toTarget) 0 then 1 else - (1)) e
    else e.

(** [canSeePlayer()]. *)
Definition canSeePlayer (playerPos : Vector3) (e : t) : bool :=
  if negb (target e) then false
  else
    let distance := V3.distanceTo (position e) playerPos in
    if Num.gtb distance (detectionRange e) then false
    else
      let toPlayer :=
        V3.normalize (V3.setY (V3.sub playerPos (position e)) 0) in
      let forward :=
        match currentState e with
        | PATROL =>
            let angle := patrolAngle e + Math_PI / 2 in
            vec3 (Math_cos angle) 0 (Math_sin angle)
        | _ => vec3 (currentDirection e) 0 0
        end in
      let dot := V3.dot toPlayer forward in
      let angle :=
        Math_acos (Num.max (- (1)) (Num.min 1 dot)) * (180 / Math_PI) in
      Num.leb angle (visionAngle e / 2).

(** [updateAI(deltaTime)].  [distanceToPlayer] is [Infinity] without a
    target: it then exceeds every range. *)
Definition updateAI (deltaTime : Q) (rnd : Rand) (playerPos : Vector3)
           (e : t) : t :=
  if isDead e || isHit e then e
  else
    let e := set_detectionTimer (detectionTimer e + deltaTime) e in
    if Num.geb (detectionTimer e) (detectionInterval e) then
      let e := set_detectionTimer 0 e in
      let canSee := canSeePlayer playerPos e in
      let distance := V3.distanceTo (position e) playerPos in
      let farther_than r := negb (target e) || Num.gtb distance r in
      let within r := target e && Num.leb distance r in
      match currentState e with
      | PATROL =>
          if canSee then
            let e := set_currentState CHASE e in
            let e := set_hasSeenPlayer true e in
            set_lastKnownPlayerPosition playerPos e
          else e
      | CHASE =>
          let e :=
            if canSee then set_lastKnownPlayerPosition playerPos e
            else if farther_than (loseTargetRange e) then
              let e := set_currentState SEARCH e in
              let e := set_searchTimer 0 e in
              set_searchAngle (rnd_search rnd * Math_PI * 2) e
            else e in
          if within (attackRange e) && Num.leb (attackCooldown e) 0
          then set_currentState ATTACK e else e
      | SEARCH =>
          if canSee then
            let e := set_currentState CHASE e in
            set_lastKnownPlayerPosition playerPos e
          else e
      | ATTACK =>
          if farther_than (attackRange e) then
            if canSee then set_currentState CHASE e
            else set_searchTimer 0 (set_currentState SEARCH e)
          else e
      | RETURN =>
          let distanceToPatrolCenter :=
            V3.distanceTo (position e) (patrolCenter e) in
          if Num.leb distanceToPatrolCenter (returnTolerance e) then
            let e := set_currentState PATROL e in
            let dx := vx (position e) - vx (patrolCenter e) in
            let dz := vz (position e) - vz (patrolCenter e) in
            set_patrolAngle (Math_atan2 dz dx) e
          else if canSee then
            let e := set_currentState CHASE e in
            set_lastKnownPlayerPosition playerPos e
          else e
      | STUNNED => e
      end
    else e.

(** [patrolBehavior(deltaTime)]. *)
Definition patrolBehavior (deltaTime : Q) (e : t) : t :=
  let e := set_patrolAngle
             (patrolAngle e + (moveSpeed e * deltaTime) / patrolRadius e) e in
  let e := if Num.gtb (patrolAngle e) (Math_PI * 2)
           then set_patrolAngle (patrolAngle e - Math_PI * 2) e else e in
  let newX := vx (patrolCenter e)
              + Math_cos (patrolAngle e) * patrolRadius e in
  let newZ := vz (patrolCenter e)
              + Math_sin (patrolAngle e) * patrolRadius e in
  let deltaX := newX - vx (position e) in
  let e := if Num.gtb (Num.abs deltaX) (1 # 1000)
           then set_currentDirection
                  (if Num.gtb deltaX 0 then 1 else - (1)) e
           else e in
  set_position (vec3 newX (vy (position e)) newZ) e.

(** The common tail of the chase, search and return behaviours: step
    along [dir] at [speed] when farther than 0.1.  [multiplyScalar]
    works in place, so the facing is read from the scaled vector. *)
Definition stepAlong (dir : Vector3) (speed deltaTime : Q) (e : t) : t :=
  if Num.gtb (V3.length dir) (1 # 10) then
    let movement :=
      V3.multiplyScalar (V3.normalize dir) (speed * deltaTime) in
    let e := set_position (V3.add (position e) movement) e in
    set_currentDirection (if Num.gtb (vx movement) 0 then 1 else - (1)) e
  else e.

(** [chaseBehavior(deltaTime)]. *)
Definition chaseBehavior (deltaTime : Q) (playerPos : Vector3) (e : t) : t :=
  if negb (target e) then e
  else
    let toPlayer := V3.setY (V3.sub playerPos (position e)) 0 in
    stepAlong toPlayer (chaseSpeed e) deltaTime e.

(** [searchBehavior(deltaTime)]. *)
Definition searchBehavior (deltaTime : Q) (e : t) : t :=
  let e := set_searchTimer (searchTimer e + deltaTime) e in
  if Num.geb (searchTimer e) (searchDuration e)
  then set_currentState RETURN e
  else
    let e := set_searchAngle
               (searchAngle e + (moveSpeed e * deltaTime) / searchRadius e)
               e in
    let searchX := vx (lastKnownPlayerPosition e)
                   + Math_cos (searchAngle e) * searchRadius e in
    let searchZ := vz (lastKnownPlayerPosition e)
                   + Math_sin (searchAngle e) * searchRadius e in
    let toSearch :=
      V3.sub (vec3 searchX (vy (position e)) searchZ) (position e) in
    stepAlong toSearch (moveSpeed e) deltaTime e.

(** [returnBehavior(deltaTime)]. *)
Definition returnBehavior (deltaTime : Q) (e : t) : t :=
  let toPatrolCenter :=
    V3.setY (V3.sub (patrolCenter e) (position e)) 0 in
  stepAlong toPatrolCenter (returnSpeed e) deltaTime e.

(** [updateMovementByState(deltaTime)]. *)
Definition updateMovementByState (deltaTime : Q) (playerPos : Vector3)
           (e : t) : t :=
  if isKnockedBack e then e
  else
    match currentState e with
    | PATROL => patrolBehavior deltaTime e
    | CHASE => chaseBehavior deltaTime playerPos e
    | SEARCH => searchBehavior deltaTime e
    | ATTACK => e
    | RETURN => returnBehavior deltaTime e
    | STUNNED => e
    end.

(** [applyKnockback(fromPosition)]. *)
Definition applyKnockback (fromPosition : Vector3) (e : t) : t :=
  let knockbackDir :=
    V3.normalize (V3.setY (V3.sub (position e) fromPosition) 0) in
  let e := set_knockbackOrigin (position e) e in
  let e := set_knockbackTarget
             (V3.add (position e)
                (V3.multiplyScalar knockbackDir (knockbackDistance e))) e in
  let e := set_isKnockedBack true e in
  set_knockbackTimer 0 e.

(** The easing of the knockback as a function of [t = timer /
    duration]: the [easeT] of [update]. *)
Definition knockbackEase (t : Q) : Q :=
  if Num.ltb t (3 # 10)
  then t / (3 # 10) * (8 # 10)
  else (8 # 10) + (1 - (t - (3 # 10)) / (7 # 10)) * (2 # 10).

(** The [if (this.isKnockedBack)] block of [update]. *)
Definition updateKnockback (deltaTime : Q) (e : t) : t :=
  if isKnockedBack e then
    let e := set_knockbackTimer (knockbackTimer e + deltaTime) e in
    if Num.geb (knockbackTimer e) (knockbackDuration e) then
      let e := set_isKnockedBack false e in
      set_position (knockbackOrigin e) e
    else
      let t := knockbackTimer e / knockbackDuration e in
      let easeT := knockbackEase t in
      if Num.leb easeT 1
      then set_position
             (V3.lerpVectors (knockbackOrigin e) (knockbackTarget e) easeT) e
      else set_position
             (V3.lerpVectors (knockbackTarget e) (knockbackOrigin e)
                             (easeT - 1)) e
  else e.

(** The [if (this.scalePunchTimer > 0)] block of [update]. *)
Definition updateScalePunch (deltaTime : Q) (e : t) : t :=
  if Num.gtb (scalePunchTimer e) 0 then
    let e := set_scalePunchTimer (scalePunchTimer e - deltaTime) e in
    if Num.leb (scalePunchTimer e) 0 then set_scale (vec3 1 1 1) e
    else
      let t := 1 - scalePunchTimer e / scalePunchDuration e in
      let scaleMultiplier :=
        if Num.ltb t (3 # 10)
        then 1 + (maxScalePunch e - 1) * (t / (3 # 10))
        else maxScalePunch e
             - (maxScalePunch e - 1) * ((t - (3 # 10)) / (7 # 10)) in
      set_scale (vec3 scaleMultiplier scaleMultiplier 1) e
  else e.

(** The attack block of [update]: [if (this.target && !this.isHit)]. *)
Definition updateAttack (rnd : Rand) (e : t) (s : Sys) : t * Sys :=
  let playerPos := pl_position (player s) in
  if target e && negb (isHit e) then
    let distanceToTarget := V3.distanceTo (position e) playerPos in
    let '(e, s) :=
      match currentState e with
      | ATTACK =>
          if negb (isAttacking e) && Num.leb (attackCooldown e) 0 then
            let e := faceTarget playerPos e in
            let s := if switches anim_attack e
                     then emit (EvAttackStarted (eid e)) s else s in
            (switchAnimation (rnd_attackIndex rnd) anim_attack e, s)
          else (e, s)
      | _ => (e, s)
      end in
    if isAttacking e && Num.gtb distanceToTarget (attackRange e) then
      let e := if canSeePlayer playerPos e
               then set_currentState CHASE e
               else set_searchTimer 0 (set_currentState SEARCH e) in
      (switchAnimation 0 anim_walk e, s)
    else (e, s)
  else (e, s).

(** [super.update(deltaTime, camera)]: [BillboardSprite.update] pins the
    height to [baseY]. *)
Definition superUpdate (e : t) : t :=
  set_position (V3.setY (position e) (baseY e)) e.

(** [update(deltaTime, camera)]. *)
Definition update (deltaTime : Q) (rnd : Rand) (e : t) (s : Sys) : t * Sys :=
  let e := superUpdate e in
  let '(e, s) := updateAnimation deltaTime rnd e s in
  if isDead e then (e, s)
  else
    let playerPos := pl_position (player s) in
    let e := if Num.gtb (attackCooldown e) 0
             then set_attackCooldown (attackCooldown e - deltaTime) e
             else e in
    let e := updateAI deltaTime rnd playerPos e in
    let '(e, s) := updateAttack rnd e s in
    let e := if isAttacking e && target e
             then faceTarget playerPos e else e in
    let e := if negb (isAttacking e) && negb (isHit e)
             then updateMovementByState deltaTime playerPos e else e in
    let e := updateKnockback deltaTime e in
    (updateScalePunch deltaTime e, s).

(** The freeze frame an enemy asks for on a hit or on death: skipped
    while a lightning strike is being resolved. *)
Definition requestFreeze (duration : Q) (e : t) (s : Sys) : Sys :=
  if combatSystem e && cs_game (combat s) then
    if negb (isLightningStriking (combat s))
    then freezeFrame duration s else s
  else s.

(** [die()].  The crystal and health-orb drops go to collaborators that
    are not modelled. *)
Definition die (e : t) (s : Sys) : t * Sys :=
  if isDead e then (e, s)
  else
    let s := requestFreeze (15 # 100) e s in
    let e := set_isDead true e in
    let e := set_isPlaying true e in
    let e := set_currentFrame 0%Z e in
    let e := set_elapsedTime 0 e in
    let e := set_currentAnimation anim_empty e in
    (switchAnimation 0 anim_death e, s).

(** [takeDamage(amount, attackerPosition)]. *)
Definition takeDamage (amount : Q) (attackerPosition : option Vector3)
           (e : t) (s : Sys) : t * Sys :=
  if isDead e || isHit e then (e, s)
  else
    let e := set_health (health e - amount) e in
    let e :=
      if target e
         && match currentState e with
            | PATROL | SEARCH | RETURN => true
            | _ => false
            end
      then
        let e := set_currentState CHASE e in
        let e := set_hasSeenPlayer true e in
        set_lastKnownPlayerPosition (pl_position (player s)) e
      else e in
    let s := requestFreeze (6 # 100) e s in
    if Num.leb (health e) 0 then
      let e := set_health 0 e in
      die e s
    else
      let e := switchAnimation 0 anim_hit e in
      let e := match attackerPosition with
               | Some p => applyKnockback p e
               | None => e
               end in
      (set_scalePunchTimer (scalePunchDuration e) e, s).

(** [isInAttackRange(targetPosition, range)]. *)
Definition isInAttackRange (targetPosition : Vector3) (rng : Q) (e : t)
  : bool :=
  Num.leb (V3.distanceTo (position e) targetPosition) rng.

End WithMath.
End Enemy.

(* ================================================================== *)
(** * EnemyManager and the player's melee attack *)

(** An entry of the [hits] array of [handlePlayerAttack]. *)
Record Hit : Type := mkHit {
  hit_enemy : nat;
  hit_distance : Q;
  hit_died : bool;
  hit_damage : Q;
  hit_isCritical : bool
}.

Module EnemyManager.
Section WithMath.
Context {M : MathLib}.

(** The loop of [update(deltaTime, camera)]: from the last index down;
    an enemy whose death animation is complete is spliced out. *)
Fixpoint update (deltaTime : Q) (rnd : nat -> Rand)
         (enemies : list Enemy.t) (s : Sys) : list Enemy.t * Sys :=
  match enemies with
  | [] => ([], s)
  | enemy :: rest =>
      let '(rest', s) := update deltaTime rnd rest s in
      let '(enemy, s) :=
        Enemy.update deltaTime (rnd (Enemy.eid enemy)) enemy s in
      if Enemy.isDead enemy && Enemy.deathAnimationComplete enemy
      then (rest', s)
      else (enemy :: rest', s)
  end.

(** [getEnemies()]. *)
Definition getEnemies (enemies : list Enemy.t) : list Enemy.t :=
  filter (fun enemy => negb (Enemy.isDead enemy)) enemies.

(** The distance and the angle [handlePlayerAttack] computes for one
    enemy. *)
Definition attackDistance (playerPosition : Vector3) (enemy : Enemy.t) : Q :=
  V3.length (V3.setY (V3.sub (Enemy.position enemy) playerPosition) 0).

Definition attackAngleTo (playerPosition attackDirection : Vector3)
           (enemy : Enemy.t) : Q :=
  let toEnemy :=
    V3.normalize
      (V3.setY (V3.sub (Enemy.position enemy) playerPosition) 0) in
  Math_acos (Num.max (- (1)) (Num.min 1 (V3.dot toEnemy attackDirection))).

(** The callback of [this.enemies.forEach] in [handlePlayerAttack]. *)
Definition attackOne (playerPosition attackDirection : Vector3)
           (rng angleInDegrees : Q) (damageInfo : option DamageInfo)
           (enemy : Enemy.t) (s : Sys) : Enemy.t * Sys * list Hit :=
  let angleInRadians := (angleInDegrees * Math_PI) / 180 in
  if negb (Enemy.isDead enemy) then
    let distance := attackDistance playerPosition enemy in
    if Num.leb distance rng then
      let angle := attackAngleTo playerPosition attackDirection enemy in
      if Num.leb angle (angleInRadians / 2) then
        let damage := match damageInfo with
                      | Some d => inject_Z (di_damage d)
                      | None => 1
                      end in
        let '(enemy, s) :=
          Enemy.takeDamage damage (Some playerPosition) enemy s in
        (enemy, s,
         [mkHit (Enemy.eid enemy) distance (Enemy.isDead enemy) damage
                (match damageInfo with
                 | Some d => di_isCritical d
                 | None => false
                 end)])
      else (enemy, s, [])
    else (enemy, s, [])
  else (enemy, s, []).

(** [handlePlayerAttack(playerPosition, attackDirection, range,
    angleInDegrees, damageInfo)]: the enemies after the call, the
    shared state and the [hits] array. *)
Fixpoint handlePlayerAttack (playerPosition attackDirection : Vector3)
         (rng angleInDegrees : Q) (damageInfo : option DamageInfo)
         (enemies : list Enemy.t) (s : Sys)
  : list Enemy.t * Sys * list Hit :=
  match enemies with
  | [] => ([], s, [])
  | enemy :: rest =>
      let '(enemy, s, h) :=
        attackOne playerPosition attackDirection rng angleInDegrees
                  damageInfo enemy s in
      let '(rest, s, hs) :=
        handlePlayerAttack playerPosition attackDirection rng
                           angleInDegrees damageInfo rest s in
      (enemy :: rest, s, h ++ hs)
  end.

(** [getTotalEnemyCount()] and [getLivingEnemyCount()]. *)
Definition getTotalEnemyCount (enemies : list Enemy.t) : nat :=
  length enemies.

Definition getLivingEnemyCount (enemies : list Enemy.t) : nat :=
  length (getEnemies enemies).

(** The callback of [this.enemies.forEach] in [getNearestEnemy]: the
    pair is [nearest] with [minDistance]; [None] stands for [null] with
    [Infinity], which every distance is below. *)
Definition nearer (position : Vector3) (acc : option (Enemy.t * Q))
           (enemy : Enemy.t) : option (Enemy.t * Q) :=
  if negb (Enemy.isDead enemy) then
    let distance := V3.distanceTo (Enemy.position enemy) position in
    match acc with
    | None => Some (enemy, distance)
    | Some (_, minDistance) =>
        if Num.ltb distance minDistance then Some (enemy, distance)
        else acc
    end
  else acc.

(** [getNearestEnemy(position)]. *)
Definition getNearestEnemy (position : Vector3) (enemies : list Enemy.t)
  : option Enemy.t :=
  option_map fst (fold_left (nearer position) enemies None).

End WithMath.
End EnemyManager.

(** [hits.sort((a, b) => a.distance - b.distance)]: the sort of an array
    is stable; a stable insertion sort gives the same array. *)
Fixpoint insert_hit (h : Hit) (l : list Hit) : list Hit :=
  match l with
  | [] => [h]
  | x :: t => if Num.leb (hit_distance h) (hit_distance x)
              then h :: x :: t
              else x :: insert_hit h t
  end.

Fixpoint sort_hits (l : list Hit) : list Hit :=
  match l with
  | [] => []
  | h :: t => insert_hit h (sort_hits t)
  end.

(* ================================================================== *)
(** * The game: melee entry point and the tick *)

Record Game : Type := mkGame {
  enemies : list Enemy.t;
  sys : Sys
}.

(** What [triggerAttack] hands back: its boolean, and the array it gave
    to [onSuccessfulHit] (empty when that was not called). *)
Record AttackOutcome : Type := mkOutcome {
  out_result : bool;
  out_effects : list Hit;
  out_game : Game
}.

Module Game.
Section WithMath.
Context {M : MathLib}.

(** The freeze part of [CombatSystem.onSuccessfulHit(hits)]; the rest
    of it is camera shake, particles and damage numbers. *)
Definition onSuccessfulHit (hits : list Hit) (s : Sys) : Sys :=
  if cs_game (combat s) then
    let hasCritical := existsb hit_isCritical hits in
    let freezeDuration :=
      if hasCritical then 18 # 100
      else if (2 <? length hits)%nat then 15 # 100
      else 12 # 100 in
    freezeFrame freezeDuration s
  else s.

(** [CombatSystem.triggerAttack()].  [r1], [r2] are the random values
    of [calculateDamage]. *)
Definition triggerAttack (r1 r2 : Q) (g : Game) : AttackOutcome :=
  let c := combat (sys g) in
  if Num.gtb (cs_attackCooldown c) 0 || cs_isAttacking c
  then mkOutcome false [] g
  else
    let playerPos := pl_position (player (sys g)) in
    let attackDir :=
      V3.normalize (V3.setY (pl_lastDirection (player (sys g))) 0) in
    let damageInfo := calculateDamage c r1 r2 in
    let '(es, s, hits) :=
      EnemyManager.handlePlayerAttack
        playerPos attackDir (cs_attackRange c) (cs_attackAngle c)
        (Some damageInfo) (enemies g) (sys g) in
    let '(s, effects) :=
      match hits with
      | [] => (s, [])
      | _ => let sorted := sort_hits hits in
             (onSuccessfulHit sorted s, sorted)
      end in
    let c := combat s in
    let c := set_cs_isAttacking true c in
    let c := set_attackTimer (attackDuration c) c in
    let c := set_cs_attackCooldown (cs_attackCooldownDuration c) c in
    mkOutcome true effects (mkGame es (set_combat c s)).

(** The live position of an enemy, for the telegraph that follows it. *)
Definition enemyPosition (es : list Enemy.t) (id : nat) : option Vector3 :=
  option_map Enemy.position
             (find (fun e => Nat.eqb (Enemy.eid e) id) es).

(** One tick's input: [deltaTime], what the player's own update does
    to the player sprite this tick (keyboard input is outside the
    model), and the random values the enemies draw. *)
Record Tick : Type := mkTick {
  deltaTime : Q;
  playerStep : Player -> Player;
  rnd : nat -> Rand
}.

(** [CatQuestGame.update(deltaTime)]: player, enemies, combat system,
    fireballs, telegraphs, in the order of the source. *)
Definition update (k : Tick) (g : Game) : Game :=
  let s := sys g in
  if Num.gtb (freezeTime s) 0 then
    mkGame (enemies g) (set_freezeTime (freezeTime s - deltaTime k) s)
  else
    let s := set_now (now s + deltaTime k) s in
    let s := set_player (playerStep k (player s)) s in
    let '(es, s) := EnemyManager.update (deltaTime k) (rnd k) (enemies g) s in
    let s := set_combat (CombatSystem_update (deltaTime k) (combat s)) s in
    let s := FireballManager.update (deltaTime k) s in
    let s := set_telegraphs
               (TelegraphManager.update (deltaTime k) (enemyPosition es)
                  (telegraphs s)) s in
    mkGame es s.

(** Several ticks in a row. *)
Fixpoint run (ks : list Tick) (g : Game) : Game :=
  match ks with
  | [] => g
  | k :: rest => run rest (update k g)
  end.

End WithMath.
End Game.

(** [CharacterSprite.attack(direction)]: refused while a swing is being
    played.  The direction only picks a sprite sheet. *)
Definition Player_attack (p : Player) : bool * Player :=
  if pl_isAttacking p then (false, p)
  else (true, mkPlayer (pl_position p) (pl_isHurt p) true
                       (pl_lastDirection p)).

(** [PlayerController.triggerAttack()], with its combat system set: the
    value returned and the game. *)
Definition PlayerController_triggerAttack {M : MathLib} (r1 r2 : Q) (g : Game)
  : bool * Game :=
  if negb (canAttack (combat (sys g))) then (false, g)
  else
    let '(success, p) := Player_attack (player (sys g)) in
    if success then
      let g := mkGame (enemies g) (set_player p (sys g)) in
      (true, out_game (Game.triggerAttack r1 r2 g))
    else (false, g).

(* ================================================================== *)
(** * The lightning strike *)

(** An entry of the [hits] array of [triggerLightningStrike]; the enemy
    is named by its index in [enemies]. *)
Record Strike : Type := mkStrike {
  strike_enemy : nat;
  strike_damage : Q;
  strike_died : bool
}.

(** What [triggerLightningStrike] hands back: its boolean, the [hits]
    array it leaves to the [setTimeout] callback (empty when there is
    none), and the game. *)
Record StrikeOutcome : Type := mkStrikeOutcome {
  so_result : bool;
  so_hits : list Strike;
  so_game : Game
}.

Module Lightning.
Section WithMath.
Context {M : MathLib}.

(** [findEnemiesInRange(position, range)]: the enemies of
    [getEnemies()], the living ones, at most [range] away, in the order
    of the array and named by their index in [enemies]. *)
Definition inRange (position : Vector3) (rng : Q) (enemy : Enemy.t) : bool :=
  negb (Enemy.isDead enemy)
  && Num.leb (V3.distanceTo (Enemy.position enemy) position) rng.

Definition findEnemiesInRange (position : Vector3) (rng : Q)
           (enemies : list Enemy.t) : list nat :=
  filter (fun i => match nth_error enemies i with
                   | Some enemy => inRange position rng enemy
                   | None => false
                   end)
         (seq 0 (length enemies)).

(** The damage of one strike; [r] is the value of [Math.random()]. *)
Definition strikeDamage (c : CombatSystem) (r : Q) : Q :=
  let variance := (r - (1 # 2)) * 2 * lightningStrikeDamageVariance c in
  inject_Z (Num.round (lightningStrikeBaseDamage c * (1 + variance))).

(** The callback of [targets.forEach]: [index] is the position in
    [targets], [r index] its random value. *)
Fixpoint strikeAll (playerPos : Vector3) (c : CombatSystem) (r : nat -> Q)
         (index : nat) (targets : list nat) (enemies : list Enemy.t)
         (s : Sys) : list Enemy.t * Sys * list Strike :=
  match targets with
  | [] => (enemies, s, [])
  | i :: rest =>
      match nth_error enemies i with
      | Some enemy =>
          let damage := strikeDamage c (r index) in
          let '(enemy, s) :=
            Enemy.takeDamage damage (Some playerPos) enemy s in
          let enemies := list_set i enemy enemies in
          let '(enemies, s, hits) :=
            strikeAll playerPos c r (S index) rest enemies s in
          (enemies, s, mkStrike i damage (Enemy.isDead enemy) :: hits)
      | None => strikeAll playerPos c r (S index) rest enemies s
      end
  end.

(** [triggerLightningStrike()].  [shuffle] is what
    [sort(() => Math.random() - 0.5)] makes of its array: an order the
    engine decides. *)
Definition triggerLightningStrike (shuffle : list nat -> list nat)
           (r : nat -> Q) (g : Game) : StrikeOutcome :=
  let s := sys g in
  let c := combat s in
  if Num.gtb (lightningStrikeCooldown c) 0 then mkStrikeOutcome false [] g
  else
    let playerPos := pl_position (player s) in
    let enemiesInRange :=
      findEnemiesInRange playerPos (lightningStrikeRange c) (enemies g) in
    match enemiesInRange with
    | [] =>
        let c := set_lightningStrikeCooldown
                   (lightningStrikeCooldownDuration c) c in
        mkStrikeOutcome false [] (mkGame (enemies g) (set_combat c s))
    | _ =>
        let shuffled := shuffle enemiesInRange in
        let targets := firstn (lightningStrikeTargets c) shuffled in
        let s := set_combat (set_isLightningStriking true c) s in
        let '(es, s, hits) :=
          strikeAll playerPos (combat s) r 0 targets (enemies g) s in
        let c := combat s in
        let c := set_lightningStrikeCooldown
                   (lightningStrikeCooldownDuration c) c in
        mkStrikeOutcome true hits (mkGame es (set_combat c s))
    end.

(** The freeze part of [onLightningStrikeHit(hits)]; the rest is camera
    shake. *)
Definition onLightningStrikeHit (hits : list Strike) (s : Sys) : Sys :=
  if cs_game (combat s) then
    let freezeDuration :=
      if (2 <? length hits)%nat then 12 # 100
      else if (1 <? length hits)%nat then 10 # 100
      else 8 # 100 in
    freezeFrame freezeDuration s
  else s.

(** The callback [triggerLightningStrike] hands to [setTimeout] for
    100 ms later. *)
Definition strikeTimeout (hits : list Strike) (s : Sys) : Sys :=
  let s := set_combat (set_isLightningStriking false (combat s)) s in
  onLightningStrikeHit hits s.

End WithMath.
End Lightning.

(* ================================================================== *)
(** * Construction *)

Module Build.

(** [new Enemy(walkTexture, attackTextures, hitTexture, deathTexture,
    width, height, frameWidth, frameHeight, fps)]: the constructor's
    values.  The frame counts come from the sprite sheets; [angle] is
    the random starting patrol angle. *)
Definition enemy (id : nat) (fps : Q) (attackFrames : list Z)
           (walk hit death : Z) (angle : Q) : Enemy.t :=
  {| Enemy.eid := id;
     Enemy.attackFramesList := attackFrames;
     Enemy.currentAttackIndex := 0;
     Enemy.walkFrames := walk;
     Enemy.fps := fps; Enemy.frameTime := 1 / fps;
     Enemy.currentFrame := 0; Enemy.elapsedTime := 0;
     Enemy.totalFrames := walk;
     Enemy.isPlaying := true; Enemy.currentAnimation := anim_walk;
     Enemy.moveSpeed := 2; Enemy.currentDirection := 1;
     Enemy.patrolCenter := vec3 0 0 0; Enemy.patrolRadius := 5;
     Enemy.patrolAngle := angle;
     Enemy.currentState := PATROL;
     Enemy.detectionRange := 8; Enemy.loseTargetRange := 12;
     Enemy.visionAngle := 120; Enemy.detectionTimer := 0;
     Enemy.detectionInterval := 2 # 10;
     Enemy.chaseSpeed := 5 # 2;
     Enemy.lastKnownPlayerPosition := vec3 0 0 0;
     Enemy.hasSeenPlayer := false;
     Enemy.searchTimer := 0; Enemy.searchDuration := 5;
     Enemy.searchRadius := 3; Enemy.searchAngle := 0;
     Enemy.returnSpeed := 3 # 2; Enemy.returnTolerance := 1;
     Enemy.maxHealth := 50; Enemy.health := 50; Enemy.isDead := false;
     Enemy.attackRange := 2; Enemy.attackDamage := 1;
     Enemy.attackCooldown := 0; Enemy.attackCooldownDuration := 2;
     Enemy.isAttacking := false;
     Enemy.target := false; Enemy.combatSystem := false;
     Enemy.telegraphManager := false;
     Enemy.currentTelegraph := None; Enemy.telegraphCreated := false;
     Enemy.fireballManager := false; Enemy.isFireballCaster := false;
     Enemy.isHit := false; Enemy.hitFrames := hit;
     Enemy.hitAnimationSpeed := 24;
     Enemy.deathFrames := death; Enemy.deathAnimationSpeed := 20;
     Enemy.deathAnimationComplete := false;
     Enemy.isKnockedBack := false; Enemy.knockbackTimer := 0;
     Enemy.knockbackDuration := 3 # 10;
     Enemy.knockbackDistance := 6 # 10;
     Enemy.knockbackOrigin := vec3 0 0 0;
     Enemy.knockbackTarget := vec3 0 0 0;
     Enemy.scalePunchTimer := 0; Enemy.scalePunchDuration := 2 # 10;
     Enemy.maxScalePunch := 12 # 10;
     Enemy.scale := vec3 1 1 1;
     Enemy.position := vec3 0 0 0; Enemy.baseY := 0 |}.

(** The wiring [spawnEnemy] does after construction: [setPatrolArea],
    [setTarget], [setCombatSystem], [setTelegraphManager],
    [setFireballManager]. *)
Definition spawned (center : Vector3) (radius : Q) (e : Enemy.t) : Enemy.t :=
  Enemy.mk
    (Enemy.eid e) (Enemy.attackFramesList e) (Enemy.currentAttackIndex e)
    (Enemy.walkFrames e) (Enemy.fps e) (Enemy.frameTime e)
    (Enemy.currentFrame e) (Enemy.elapsedTime e) (Enemy.totalFrames e)
    (Enemy.isPlaying e) (Enemy.currentAnimation e) (Enemy.moveSpeed e)
    (Enemy.currentDirection e) center radius (Enemy.patrolAngle e)
    (Enemy.currentState e) (Enemy.detectionRange e)
    (Enemy.loseTargetRange e) (Enemy.visionAngle e)
    (Enemy.detectionTimer e) (Enemy.detectionInterval e)
    (Enemy.chaseSpeed e) (Enemy.lastKnownPlayerPosition e)
    (Enemy.hasSeenPlayer e) (Enemy.searchTimer e) (Enemy.searchDuration e)
    (Enemy.searchRadius e) (Enemy.searchAngle e) (Enemy.returnSpeed e)
    (Enemy.returnTolerance e) (Enemy.maxHealth e) (Enemy.health e)
    (Enemy.isDead e) (Enemy.attackRange e) (Enemy.attackDamage e)
    (Enemy.attackCooldown e) (Enemy.attackCooldownDuration e)
    (Enemy.isAttacking e) true true true
    (Enemy.currentTelegraph e) (Enemy.telegraphCreated e)
    true (Enemy.isFireballCaster e)
    (Enemy.isHit e) (Enemy.hitFrames e) (Enemy.hitAnimationSpeed e)
    (Enemy.deathFrames e) (Enemy.deathAnimationSpeed e)
    (Enemy.deathAnimationComplete e) (Enemy.isKnockedBack e)
    (Enemy.knockbackTimer e) (Enemy.knockbackDuration e)
    (Enemy.knockbackDistance e) (Enemy.knockbackOrigin e)
    (Enemy.knockbackTarget e) (Enemy.scalePunchTimer e)
    (Enemy.scalePunchDuration e) (Enemy.maxScalePunch e) (Enemy.scale e)
    (V3.setY center (7 # 10)) (7 # 10).

(** The shared state of a freshly built game with the player at [pos]:
    combat system wired to the game, [maxFireballs] pooled fireballs. *)
Definition system (pos : Vector3) (maxFireballs : nat) : Sys :=
  {| now := 0; log := [];
     freezeTime := 0; freezeDuration := 0;
     player := mkPlayer pos false false (vec3 0 0 1);
     combat := CombatSystem_new true;
     fireballs :=
       FireballManager.initialize true
         (mkFM maxFireballs [] [] [] true true);
     telegraphs := TelegraphManager.new;
     timers := [] |}.

End Build.

(* ================================================================== *)
(** * Spawning enemies *)

(** The folders [loadEnemyTextures] is called with. *)
Inductive EnemyType : Type :=
  enemy_1 | enemy_2 | enemy_3 | enemy_4 | enemy_5.

(** A texture set of [enemyTextureSets].  A loaded sprite sheet is known
    by the width of its image; [None] is a texture that is not there. *)
Record TextureSet : Type := mkTextureSet {
  ts_enemyType : EnemyType;
  ts_frameSize : Q;
  ts_walkTexture : option Z;
  ts_attackTextures : list Z;
  ts_hitTexture : option Z;
  ts_deathTexture : option Z
}.

(** The fields of [EnemyManager] that [spawnEnemy] reads and writes: the
    texture sets loaded so far, the collaborators it hands to every
    enemy (set or null), and the array of enemies. *)
Record Spawner : Type := mkSpawner {
  enemyTextureSets : list TextureSet;
  sp_player : bool;
  sp_combatSystem : bool;
  sp_telegraphManager : bool;
  sp_fireballManager : bool;
  sp_enemies : list Enemy.t
}.

Module Spawn.

Definition set_moveSpeed (v : Q) (x : Enemy.t) : Enemy.t := Enemy.mk
  (Enemy.eid x) (Enemy.attackFramesList x) (Enemy.currentAttackIndex x)
  (Enemy.walkFrames x) (Enemy.fps x) (Enemy.frameTime x) (Enemy.currentFrame
  x) (Enemy.elapsedTime x) (Enemy.totalFrames x) (Enemy.isPlaying x)
  (Enemy.currentAnimation x) v (Enemy.currentDirection x)
  (Enemy.patrolCenter x) (Enemy.patrolRadius x) (Enemy.patrolAngle x)
  (Enemy.currentState x) (Enemy.detectionRange x) (Enemy.loseTargetRange x)
  (Enemy.visionAngle x) (Enemy.detectionTimer x) (Enemy.detectionInterval x)
  (Enemy.chaseSpeed x) (Enemy.lastKnownPlayerPosition x)
  (Enemy.hasSeenPlayer x) (Enemy.searchTimer x) (Enemy.searchDuration x)
  (Enemy.searchRadius x) (Enemy.searchAngle x) (Enemy.returnSpeed x)
  (Enemy.returnTolerance x) (Enemy.maxHealth x) (Enemy.health x)
  (Enemy.isDead x) (Enemy.attackRange x) (Enemy.attackDamage x)
  (Enemy.attackCooldown x) (Enemy.attackCooldownDuration x)
  (Enemy.isAttacking x) (Enemy.target x) (Enemy.combatSystem x)
  (Enemy.telegraphManager x) (Enemy.currentTelegraph x)
  (Enemy.telegraphCreated x) (Enemy.fireballManager x)
  (Enemy.isFireballCaster x) (Enemy.isHit x) (Enemy.hitFrames x)
  (Enemy.hitAnimationSpeed x) (Enemy.deathFrames x)
  (Enemy.deathAnimationSpeed x) (Enemy.deathAnimationComplete x)
  (Enemy.isKnockedBack x) (Enemy.knockbackTimer x) (Enemy.knockbackDuration
  x) (Enemy.knockbackDistance x) (Enemy.knockbackOrigin x)
  (Enemy.knockbackTarget x) (Enemy.scalePunchTimer x)
  (Enemy.scalePunchDuration x) (Enemy.maxScalePunch x) (Enemy.scale x)
  (Enemy.position x) (Enemy.baseY x).
Definition set_patrolCenter (v : Vector3) (x : Enemy.t) : Enemy.t :=
  Enemy.mk (Enemy.eid x) (Enemy.attackFramesList x)
  (Enemy.currentAttackIndex x) (Enemy.walkFrames x) (Enemy.fps x)
  (Enemy.frameTime x) (Enemy.currentFrame x) (Enemy.elapsedTime x)
  (Enemy.totalFrames x) (Enemy.isPlaying x) (Enemy.currentAnimation x)
  (Enemy.moveSpeed x) (Enemy.currentDirection x) v (Enemy.patrolRadius x)
  (Enemy.patrolAngle x) (Enemy.currentState x) (Enemy.detectionRange x)
  (Enemy.loseTargetRange x) (Enemy.visionAngle x) (Enemy.detectionTimer x)
  (Enemy.detectionInterval x) (Enemy.chaseSpeed x)
  (Enemy.lastKnownPlayerPosition x) (Enemy.hasSeenPlayer x)
  (Enemy.searchTimer x) (Enemy.searchDuration x) (Enemy.searchRadius x)
  (Enemy.searchAngle x) (Enemy.returnSpeed x) (Enemy.returnTolerance x)
  (Enemy.maxHealth x) (Enemy.health x) (Enemy.isDead x) (Enemy.attackRange
  x) (Enemy.attackDamage x) (Enemy.attackCooldown x)
  (Enemy.attackCooldownDuration x) (Enemy.isAttacking x) (Enemy.target x)
  (Enemy.combatSystem x) (Enemy.telegraphManager x) (Enemy.currentTelegraph
  x) (Enemy.telegraphCreated x) (Enemy.fireballManager x)
  (Enemy.isFireballCaster x) (Enemy.isHit x) (Enemy.hitFrames x)
  (Enemy.hitAnimationSpeed x) (Enemy.deathFrames x)
  (Enemy.deathAnimationSpeed x) (Enemy.deathAnimationComplete x)
  (Enemy.isKnockedBack x) (Enemy.knockbackTimer x) (Enemy.knockbackDuration
  x) (Enemy.knockbackDistance x) (Enemy.knockbackOrigin x)
  (Enemy.knockbackTarget x) (Enemy.scalePunchTimer x)
  (Enemy.scalePunchDuration x) (Enemy.maxScalePunch x) (Enemy.scale x)
  (Enemy.position x) (Enemy.baseY x).
Definition set_patrolRadius (v : Q) (x : Enemy.t) : Enemy.t := Enemy.mk
  (Enemy.eid x) (Enemy.attackFramesList x) (Enemy.currentAttackIndex x)
  (Enemy.walkFrames x) (Enemy.fps x) (Enemy.frameTime x) (Enemy.currentFrame
  x) (Enemy.elapsedTime x) (Enemy.totalFrames x) (Enemy.isPlaying x)
  (Enemy.currentAnimation x) (Enemy.moveSpeed x) (Enemy.currentDirection x)
  (Enemy.patrolCenter x) v (Enemy.patrolAngle x) (Enemy.currentState x)
  (Enemy.detectionRange x) (Enemy.loseTargetRange x) (Enemy.visionAngle x)
  (Enemy.detectionTimer x) (Enemy.detectionInterval x) (Enemy.chaseSpeed x)
  (Enemy.lastKnownPlayerPosition x) (Enemy.hasSeenPlayer x)
  (Enemy.searchTimer x) (Enemy.searchDuration x) (Enemy.searchRadius x)
  (Enemy.searchAngle x) (Enemy.returnSpeed x) (Enemy.returnTolerance x)
  (Enemy.maxHealth x) (Enemy.health x) (Enemy.isDead x) (Enemy.attackRange
  x) (Enemy.attackDamage x) (Enemy.attackCooldown x)
  (Enemy.attackCooldownDuration x) (Enemy.isAttacking x) (Enemy.target x)
  (Enemy.combatSystem x) (Enemy.telegraphManager x) (Enemy.currentTelegraph
  x) (Enemy.telegraphCreated x) (Enemy.fireballManager x)
  (Enemy.isFireballCaster x) (Enemy.isHit x) (Enemy.hitFrames x)
  (Enemy.hitAnimationSpeed x) (Enemy.deathFrames x)
  (Enemy.deathAnimationSpeed x) (Enemy.deathAnimationComplete x)
  (Enemy.isKnockedBack x) (Enemy.knockbackTimer x) (Enemy.knockbackDuration
  x) (Enemy.knockbackDistance x) (Enemy.knockbackOrigin x)
  (Enemy.knockbackTarget x) (Enemy.scalePunchTimer x)
  (Enemy.scalePunchDuration x) (Enemy.maxScalePunch x) (Enemy.scale x)
  (Enemy.position x) (Enemy.baseY x).
Definition set_detectionRange (v : Q) (x : Enemy.t) : Enemy.t := Enemy.mk
  (Enemy.eid x) (Enemy.attackFramesList x) (Enemy.currentAttackIndex x)
  (Enemy.walkFrames x) (Enemy.fps x) (Enemy.frameTime x) (Enemy.currentFrame
  x) (Enemy.elapsedTime x) (Enemy.totalFrames x) (Enemy.isPlaying x)
  (Enemy.currentAnimation x) (Enemy.moveSpeed x) (Enemy.currentDirection x)
  (Enemy.patrolCenter x) (Enemy.patrolRadius x) (Enemy.patrolAngle x)
  (Enemy.currentState x) v (Enemy.loseTargetRange x) (Enemy.visionAngle x)
  (Enemy.detectionTimer x) (Enemy.detectionInterval x) (Enemy.chaseSpeed x)
  (Enemy.lastKnownPlayerPosition x) (Enemy.hasSeenPlayer x)
  (Enemy.searchTimer x) (Enemy.searchDuration x) (Enemy.searchRadius x)
  (Enemy.searchAngle x) (Enemy.returnSpeed x) (Enemy.returnTolerance x)
  (Enemy.maxHealth x) (Enemy.health x) (Enemy.isDead x) (Enemy.attackRange
  x) (Enemy.attackDamage x) (Enemy.attackCooldown x)
  (Enemy.attackCooldownDuration x) (Enemy.isAttacking x) (Enemy.target x)
  (Enemy.combatSystem x) (Enemy.telegraphManager x) (Enemy.currentTelegraph
  x) (Enemy.telegraphCreated x) (Enemy.fireballManager x)
  (Enemy.isFireballCaster x) (Enemy.isHit x) (Enemy.hitFrames x)
  (Enemy.hitAnimationSpeed x) (Enemy.deathFrames x)
  (Enemy.deathAnimationSpeed x) (Enemy.deathAnimationComplete x)
  (Enemy.isKnockedBack x) (Enemy.knockbackTimer x) (Enemy.knockbackDuration
  x) (Enemy.knockbackDistance x) (Enemy.knockbackOrigin x)
  (Enemy.knockbackTarget x) (Enemy.scalePunchTimer x)
  (Enemy.scalePunchDuration x) (Enemy.maxScalePunch x) (Enemy.scale x)
  (Enemy.position x) (Enemy.baseY x).
Definition set_loseTargetRange (v : Q) (x : Enemy.t) : Enemy.t := Enemy.mk
  (Enemy.eid x) (Enemy.attackFramesList x) (Enemy.currentAttackIndex x)
  (Enemy.walkFrames x) (Enemy.fps x) (Enemy.frameTime x) (Enemy.currentFrame
  x) (Enemy.elapsedTime x) (Enemy.totalFrames x) (Enemy.isPlaying x)
  (Enemy.currentAnimation x) (Enemy.moveSpeed x) (Enemy.currentDirection x)
  (Enemy.patrolCenter x) (Enemy.patrolRadius x) (Enemy.patrolAngle x)
  (Enemy.currentState x) (Enemy.detectionRange x) v (Enemy.visionAngle x)
  (Enemy.detectionTimer x) (Enemy.detectionInterval x) (Enemy.chaseSpeed x)
  (Enemy.lastKnownPlayerPosition x) (Enemy.hasSeenPlayer x)
  (Enemy.searchTimer x) (Enemy.searchDuration x) (Enemy.searchRadius x)
  (Enemy.searchAngle x) (Enemy.returnSpeed x) (Enemy.returnTolerance x)
  (Enemy.maxHealth x) (Enemy.health x) (Enemy.isDead x) (Enemy.attackRange
  x) (Enemy.attackDamage x) (Enemy.attackCooldown x)
  (Enemy.attackCooldownDuration x) (Enemy.isAttacking x) (Enemy.target x)
  (Enemy.combatSystem x) (Enemy.telegraphManager x) (Enemy.currentTelegraph
  x) (Enemy.telegraphCreated x) (Enemy.fireballManager x)
  (Enemy.isFireballCaster x) (Enemy.isHit x) (Enemy.hitFrames x)
  (Enemy.hitAnimationSpeed x) (Enemy.deathFrames x)
  (Enemy.deathAnimationSpeed x) (Enemy.deathAnimationComplete x)
  (Enemy.isKnockedBack x) (Enemy.knockbackTimer x) (Enemy.knockbackDuration
  x) (Enemy.knockbackDistance x) (Enemy.knockbackOrigin x)
  (Enemy.knockbackTarget x) (Enemy.scalePunchTimer x)
  (Enemy.scalePunchDuration x) (Enemy.maxScalePunch x) (Enemy.scale x)
  (Enemy.position x) (Enemy.baseY x).
Definition set_chaseSpeed (v : Q) (x : Enemy.t) : Enemy.t := Enemy.mk
  (Enemy.eid x) (Enemy.attackFramesList x) (Enemy.currentAttackIndex x)
  (Enemy.walkFrames x) (Enemy.fps x) (Enemy.frameTime x) (Enemy.currentFrame
  x) (Enemy.elapsedTime x) (Enemy.totalFrames x) (Enemy.isPlaying x)
  (Enemy.currentAnimation x) (Enemy.moveSpeed x) (Enemy.currentDirection x)
  (Enemy.patrolCenter x) (Enemy.patrolRadius x) (Enemy.patrolAngle x)
  (Enemy.currentState x) (Enemy.detectionRange x) (Enemy.loseTargetRange x)
  (Enemy.visionAngle x) (Enemy.detectionTimer x) (Enemy.detectionInterval x)
  v (Enemy.lastKnownPlayerPosition x) (Enemy.hasSeenPlayer x)
  (Enemy.searchTimer x) (Enemy.searchDuration x) (Enemy.searchRadius x)
  (Enemy.searchAngle x) (Enemy.returnSpeed x) (Enemy.returnTolerance x)
  (Enemy.maxHealth x) (Enemy.health x) (Enemy.isDead x) (Enemy.attackRange
  x) (Enemy.attackDamage x) (Enemy.attackCooldown x)
  (Enemy.attackCooldownDuration x) (Enemy.isAttacking x) (Enemy.target x)
  (Enemy.combatSystem x) (Enemy.telegraphManager x) (Enemy.currentTelegraph
  x) (Enemy.telegraphCreated x) (Enemy.fireballManager x)
  (Enemy.isFireballCaster x) (Enemy.isHit x) (Enemy.hitFrames x)
  (Enemy.hitAnimationSpeed x) (Enemy.deathFrames x)
  (Enemy.deathAnimationSpeed x) (Enemy.deathAnimationComplete x)
  (Enemy.isKnockedBack x) (Enemy.knockbackTimer x) (Enemy.knockbackDuration
  x) (Enemy.knockbackDistance x) (Enemy.knockbackOrigin x)
  (Enemy.knockbackTarget x) (Enemy.scalePunchTimer x)
  (Enemy.scalePunchDuration x) (Enemy.maxScalePunch x) (Enemy.scale x)
  (Enemy.position x) (Enemy.baseY x).
Definition set_maxHealth (v : Q) (x : Enemy.t) : Enemy.t := Enemy.mk
  (Enemy.eid x) (Enemy.attackFramesList x) (Enemy.currentAttackIndex x)
  (Enemy.walkFrames x) (Enemy.fps x) (Enemy.frameTime x) (Enemy.currentFrame
  x) (Enemy.elapsedTime x) (Enemy.totalFrames x) (Enemy.isPlaying x)
  (Enemy.currentAnimation x) (Enemy.moveSpeed x) (Enemy.currentDirection x)
  (Enemy.patrolCenter x) (Enemy.patrolRadius x) (Enemy.patrolAngle x)
  (Enemy.currentState x) (Enemy.detectionRange x) (Enemy.loseTargetRange x)
  (Enemy.visionAngle x) (Enemy.detectionTimer x) (Enemy.detectionInterval x)
  (Enemy.chaseSpeed x) (Enemy.lastKnownPlayerPosition x)
  (Enemy.hasSeenPlayer x) (Enemy.searchTimer x) (Enemy.searchDuration x)
  (Enemy.searchRadius x) (Enemy.searchAngle x) (Enemy.returnSpeed x)
  (Enemy.returnTolerance x) v (Enemy.health x) (Enemy.isDead x)
  (Enemy.attackRange x) (Enemy.attackDamage x) (Enemy.attackCooldown x)
  (Enemy.attackCooldownDuration x) (Enemy.isAttacking x) (Enemy.target x)
  (Enemy.combatSystem x) (Enemy.telegraphManager x) (Enemy.currentTelegraph
  x) (Enemy.telegraphCreated x) (Enemy.fireballManager x)
  (Enemy.isFireballCaster x) (Enemy.isHit x) (Enemy.hitFrames x)
  (Enemy.hitAnimationSpeed x) (Enemy.deathFrames x)
  (Enemy.deathAnimationSpeed x) (Enemy.deathAnimationComplete x)
  (Enemy.isKnockedBack x) (Enemy.knockbackTimer x) (Enemy.knockbackDuration
  x) (Enemy.knockbackDistance x) (Enemy.knockbackOrigin x)
  (Enemy.knockbackTarget x) (Enemy.scalePunchTimer x)
  (Enemy.scalePunchDuration x) (Enemy.maxScalePunch x) (Enemy.scale x)
  (Enemy.position x) (Enemy.baseY x).
Definition set_attackRange (v : Q) (x : Enemy.t) : Enemy.t := Enemy.mk
  (Enemy.eid x) (Enemy.attackFramesList x) (Enemy.currentAttackIndex x)
  (Enemy.walkFrames x) (Enemy.fps x) (Enemy.frameTime x) (Enemy.currentFrame
  x) (Enemy.elapsedTime x) (Enemy.totalFrames x) (Enemy.isPlaying x)
  (Enemy.currentAnimation x) (Enemy.moveSpeed x) (Enemy.currentDirection x)
  (Enemy.patrolCenter x) (Enemy.patrolRadius x) (Enemy.patrolAngle x)
  (Enemy.currentState x) (Enemy.detectionRange x) (Enemy.loseTargetRange x)
  (Enemy.visionAngle x) (Enemy.detectionTimer x) (Enemy.detectionInterval x)
  (Enemy.chaseSpeed x) (Enemy.lastKnownPlayerPosition x)
  (Enemy.hasSeenPlayer x) (Enemy.searchTimer x) (Enemy.searchDuration x)
  (Enemy.searchRadius x) (Enemy.searchAngle x) (Enemy.returnSpeed x)
  (Enemy.returnTolerance x) (Enemy.maxHealth x) (Enemy.health x)
  (Enemy.isDead x) v (Enemy.attackDamage x) (Enemy.attackCooldown x)
  (Enemy.attackCooldownDuration x) (Enemy.isAttacking x) (Enemy.target x)
  (Enemy.combatSystem x) (Enemy.telegraphManager x) (Enemy.currentTelegraph
  x) (Enemy.telegraphCreated x) (Enemy.fireballManager x)
  (Enemy.isFireballCaster x) (Enemy.isHit x) (Enemy.hitFrames x)
  (Enemy.hitAnimationSpeed x) (Enemy.deathFrames x)
  (Enemy.deathAnimationSpeed x) (Enemy.deathAnimationComplete x)
  (Enemy.isKnockedBack x) (Enemy.knockbackTimer x) (Enemy.knockbackDuration
  x) (Enemy.knockbackDistance x) (Enemy.knockbackOrigin x)
  (Enemy.knockbackTarget x) (Enemy.scalePunchTimer x)
  (Enemy.scalePunchDuration x) (Enemy.maxScalePunch x) (Enemy.scale x)
  (Enemy.position x) (Enemy.baseY x).
Definition set_attackDamage (v : Q) (x : Enemy.t) : Enemy.t := Enemy.mk
  (Enemy.eid x) (Enemy.attackFramesList x) (Enemy.currentAttackIndex x)
  (Enemy.walkFrames x) (Enemy.fps x) (Enemy.frameTime x) (Enemy.currentFrame
  x) (Enemy.elapsedTime x) (Enemy.totalFrames x) (Enemy.isPlaying x)
  (Enemy.currentAnimation x) (Enemy.moveSpeed x) (Enemy.currentDirection x)
  (Enemy.patrolCenter x) (Enemy.patrolRadius x) (Enemy.patrolAngle x)
  (Enemy.currentState x) (Enemy.detectionRange x) (Enemy.loseTargetRange x)
  (Enemy.visionAngle x) (Enemy.detectionTimer x) (Enemy.detectionInterval x)
  (Enemy.chaseSpeed x) (Enemy.lastKnownPlayerPosition x)
  (Enemy.hasSeenPlayer x) (Enemy.searchTimer x) (Enemy.searchDuration x)
  (Enemy.searchRadius x) (Enemy.searchAngle x) (Enemy.returnSpeed x)
  (Enemy.returnTolerance x) (Enemy.maxHealth x) (Enemy.health x)
  (Enemy.isDead x) (Enemy.attackRange x) v (Enemy.attackCooldown x)
  (Enemy.attackCooldownDuration x) (Enemy.isAttacking x) (Enemy.target x)
  (Enemy.combatSystem x) (Enemy.telegraphManager x) (Enemy.currentTelegraph
  x) (Enemy.telegraphCreated x) (Enemy.fireballManager x)
  (Enemy.isFireballCaster x) (Enemy.isHit x) (Enemy.hitFrames x)
  (Enemy.hitAnimationSpeed x) (Enemy.deathFrames x)
  (Enemy.deathAnimationSpeed x) (Enemy.deathAnimationComplete x)
  (Enemy.isKnockedBack x) (Enemy.knockbackTimer x) (Enemy.knockbackDuration
  x) (Enemy.knockbackDistance x) (Enemy.knockbackOrigin x)
  (Enemy.knockbackTarget x) (Enemy.scalePunchTimer x)
  (Enemy.scalePunchDuration x) (Enemy.maxScalePunch x) (Enemy.scale x)
  (Enemy.position x) (Enemy.baseY x).
Definition set_attackCooldownDuration (v : Q) (x : Enemy.t) : Enemy.t :=
  Enemy.mk (Enemy.eid x) (Enemy.attackFramesList x)
  (Enemy.currentAttackIndex x) (Enemy.walkFrames x) (Enemy.fps x)
  (Enemy.frameTime x) (Enemy.currentFrame x) (Enemy.elapsedTime x)
  (Enemy.totalFrames x) (Enemy.isPlaying x) (Enemy.currentAnimation x)
  (Enemy.moveSpeed x) (Enemy.currentDirection x) (Enemy.patrolCenter x)
  (Enemy.patrolRadius x) (Enemy.patrolAngle x) (Enemy.currentState x)
  (Enemy.detectionRange x) (Enemy.loseTargetRange x) (Enemy.visionAngle x)
  (Enemy.detectionTimer x) (Enemy.detectionInterval x) (Enemy.chaseSpeed x)
  (Enemy.lastKnownPlayerPosition x) (Enemy.hasSeenPlayer x)
  (Enemy.searchTimer x) (Enemy.searchDuration x) (Enemy.searchRadius x)
  (Enemy.searchAngle x) (Enemy.returnSpeed x) (Enemy.returnTolerance x)
  (Enemy.maxHealth x) (Enemy.health x) (Enemy.isDead x) (Enemy.attackRange
  x) (Enemy.attackDamage x) (Enemy.attackCooldown x) v (Enemy.isAttacking x)
  (Enemy.target x) (Enemy.combatSystem x) (Enemy.telegraphManager x)
  (Enemy.currentTelegraph x) (Enemy.telegraphCreated x)
  (Enemy.fireballManager x) (Enemy.isFireballCaster x) (Enemy.isHit x)
  (Enemy.hitFrames x) (Enemy.hitAnimationSpeed x) (Enemy.deathFrames x)
  (Enemy.deathAnimationSpeed x) (Enemy.deathAnimationComplete x)
  (Enemy.isKnockedBack x) (Enemy.knockbackTimer x) (Enemy.knockbackDuration
  x) (Enemy.knockbackDistance x) (Enemy.knockbackOrigin x)
  (Enemy.knockbackTarget x) (Enemy.scalePunchTimer x)
  (Enemy.scalePunchDuration x) (Enemy.maxScalePunch x) (Enemy.scale x)
  (Enemy.position x) (Enemy.baseY x).
Definition set_target (v : bool) (x : Enemy.t) : Enemy.t := Enemy.mk
  (Enemy.eid x) (Enemy.attackFramesList x) (Enemy.currentAttackIndex x)
  (Enemy.walkFrames x) (Enemy.fps x) (Enemy.frameTime x) (Enemy.currentFrame
  x) (Enemy.elapsedTime x) (Enemy.totalFrames x) (Enemy.isPlaying x)
  (Enemy.currentAnimation x) (Enemy.moveSpeed x) (Enemy.currentDirection x)
  (Enemy.patrolCenter x) (Enemy.patrolRadius x) (Enemy.patrolAngle x)
  (Enemy.currentState x) (Enemy.detectionRange x) (Enemy.loseTargetRange x)
  (Enemy.visionAngle x) (Enemy.detectionTimer x) (Enemy.detectionInterval x)
  (Enemy.chaseSpeed x) (Enemy.lastKnownPlayerPosition x)
  (Enemy.hasSeenPlayer x) (Enemy.searchTimer x) (Enemy.searchDuration x)
  (Enemy.searchRadius x) (Enemy.searchAngle x) (Enemy.returnSpeed x)
  (Enemy.returnTolerance x) (Enemy.maxHealth x) (Enemy.health x)
  (Enemy.isDead x) (Enemy.attackRange x) (Enemy.attackDamage x)
  (Enemy.attackCooldown x) (Enemy.attackCooldownDuration x)
  (Enemy.isAttacking x) v (Enemy.combatSystem x) (Enemy.telegraphManager x)
  (Enemy.currentTelegraph x) (Enemy.telegraphCreated x)
  (Enemy.fireballManager x) (Enemy.isFireballCaster x) (Enemy.isHit x)
  (Enemy.hitFrames x) (Enemy.hitAnimationSpeed x) (Enemy.deathFrames x)
  (Enemy.deathAnimationSpeed x) (Enemy.deathAnimationComplete x)
  (Enemy.isKnockedBack x) (Enemy.knockbackTimer x) (Enemy.knockbackDuration
  x) (Enemy.knockbackDistance x) (Enemy.knockbackOrigin x)
  (Enemy.knockbackTarget x) (Enemy.scalePunchTimer x)
  (Enemy.scalePunchDuration x) (Enemy.maxScalePunch x) (Enemy.scale x)
  (Enemy.position x) (Enemy.baseY x).
Definition set_combatSystem (v : bool) (x : Enemy.t) : Enemy.t := Enemy.mk
  (Enemy.eid x) (Enemy.attackFramesList x) (Enemy.currentAttackIndex x)
  (Enemy.walkFrames x) (Enemy.fps x) (Enemy.frameTime x) (Enemy.currentFrame
  x) (Enemy.elapsedTime x) (Enemy.totalFrames x) (Enemy.isPlaying x)
  (Enemy.currentAnimation x) (Enemy.moveSpeed x) (Enemy.currentDirection x)
  (Enemy.patrolCenter x) (Enemy.patrolRadius x) (Enemy.patrolAngle x)
  (Enemy.currentState x) (Enemy.detectionRange x) (Enemy.loseTargetRange x)
  (Enemy.visionAngle x) (Enemy.detectionTimer x) (Enemy.detectionInterval x)
  (Enemy.chaseSpeed x) (Enemy.lastKnownPlayerPosition x)
  (Enemy.hasSeenPlayer x) (Enemy.searchTimer x) (Enemy.searchDuration x)
  (Enemy.searchRadius x) (Enemy.searchAngle x) (Enemy.returnSpeed x)
  (Enemy.returnTolerance x) (Enemy.maxHealth x) (Enemy.health x)
  (Enemy.isDead x) (Enemy.attackRange x) (Enemy.attackDamage x)
  (Enemy.attackCooldown x) (Enemy.attackCooldownDuration x)
  (Enemy.isAttacking x) (Enemy.target x) v (Enemy.telegraphManager x)
  (Enemy.currentTelegraph x) (Enemy.telegraphCreated x)
  (Enemy.fireballManager x) (Enemy.isFireballCaster x) (Enemy.isHit x)
  (Enemy.hitFrames x) (Enemy.hitAnimationSpeed x) (Enemy.deathFrames x)
  (Enemy.deathAnimationSpeed x) (Enemy.deathAnimationComplete x)
  (Enemy.isKnockedBack x) (Enemy.knockbackTimer x) (Enemy.knockbackDuration
  x) (Enemy.knockbackDistance x) (Enemy.knockbackOrigin x)
  (Enemy.knockbackTarget x) (Enemy.scalePunchTimer x)
  (Enemy.scalePunchDuration x) (Enemy.maxScalePunch x) (Enemy.scale x)
  (Enemy.position x) (Enemy.baseY x).
Definition set_telegraphManager (v : bool) (x : Enemy.t) : Enemy.t :=
  Enemy.mk (Enemy.eid x) (Enemy.attackFramesList x)
  (Enemy.currentAttackIndex x) (Enemy.walkFrames x) (Enemy.fps x)
  (Enemy.frameTime x) (Enemy.currentFrame x) (Enemy.elapsedTime x)
  (Enemy.totalFrames x) (Enemy.isPlaying x) (Enemy.currentAnimation x)
  (Enemy.moveSpeed x) (Enemy.currentDirection x) (Enemy.patrolCenter x)
  (Enemy.patrolRadius x) (Enemy.patrolAngle x) (Enemy.currentState x)
  (Enemy.detectionRange x) (Enemy.loseTargetRange x) (Enemy.visionAngle x)
  (Enemy.detectionTimer x) (Enemy.detectionInterval x) (Enemy.chaseSpeed x)
  (Enemy.lastKnownPlayerPosition x) (Enemy.hasSeenPlayer x)
  (Enemy.searchTimer x) (Enemy.searchDuration x) (Enemy.searchRadius x)
  (Enemy.searchAngle x) (Enemy.returnSpeed x) (Enemy.returnTolerance x)
  (Enemy.maxHealth x) (Enemy.health x) (Enemy.isDead x) (Enemy.attackRange
  x) (Enemy.attackDamage x) (Enemy.attackCooldown x)
  (Enemy.attackCooldownDuration x) (Enemy.isAttacking x) (Enemy.target x)
  (Enemy.combatSystem x) v (Enemy.currentTelegraph x)
  (Enemy.telegraphCreated x) (Enemy.fireballManager x)
  (Enemy.isFireballCaster x) (Enemy.isHit x) (Enemy.hitFrames x)
  (Enemy.hitAnimationSpeed x) (Enemy.deathFrames x)
  (Enemy.deathAnimationSpeed x) (Enemy.deathAnimationComplete x)
  (Enemy.isKnockedBack x) (Enemy.knockbackTimer x) (Enemy.knockbackDuration
  x) (Enemy.knockbackDistance x) (Enemy.knockbackOrigin x)
  (Enemy.knockbackTarget x) (Enemy.scalePunchTimer x)
  (Enemy.scalePunchDuration x) (Enemy.maxScalePunch x) (Enemy.scale x)
  (Enemy.position x) (Enemy.baseY x).
Definition set_fireballManager (v : bool) (x : Enemy.t) : Enemy.t :=
  Enemy.mk (Enemy.eid x) (Enemy.attackFramesList x)
  (Enemy.currentAttackIndex x) (Enemy.walkFrames x) (Enemy.fps x)
  (Enemy.frameTime x) (Enemy.currentFrame x) (Enemy.elapsedTime x)
  (Enemy.totalFrames x) (Enemy.isPlaying x) (Enemy.currentAnimation x)
  (Enemy.moveSpeed x) (Enemy.currentDirection x) (Enemy.patrolCenter x)
  (Enemy.patrolRadius x) (Enemy.patrolAngle x) (Enemy.currentState x)
  (Enemy.detectionRange x) (Enemy.loseTargetRange x) (Enemy.visionAngle x)
  (Enemy.detectionTimer x) (Enemy.detectionInterval x) (Enemy.chaseSpeed x)
  (Enemy.lastKnownPlayerPosition x) (Enemy.hasSeenPlayer x)
  (Enemy.searchTimer x) (Enemy.searchDuration x) (Enemy.searchRadius x)
  (Enemy.searchAngle x) (Enemy.returnSpeed x) (Enemy.returnTolerance x)
  (Enemy.maxHealth x) (Enemy.health x) (Enemy.isDead x) (Enemy.attackRange
  x) (Enemy.attackDamage x) (Enemy.attackCooldown x)
  (Enemy.attackCooldownDuration x) (Enemy.isAttacking x) (Enemy.target x)
  (Enemy.combatSystem x) (Enemy.telegraphManager x) (Enemy.currentTelegraph
  x) (Enemy.telegraphCreated x) v (Enemy.isFireballCaster x) (Enemy.isHit x)
  (Enemy.hitFrames x) (Enemy.hitAnimationSpeed x) (Enemy.deathFrames x)
  (Enemy.deathAnimationSpeed x) (Enemy.deathAnimationComplete x)
  (Enemy.isKnockedBack x) (Enemy.knockbackTimer x) (Enemy.knockbackDuration
  x) (Enemy.knockbackDistance x) (Enemy.knockbackOrigin x)
  (Enemy.knockbackTarget x) (Enemy.scalePunchTimer x)
  (Enemy.scalePunchDuration x) (Enemy.maxScalePunch x) (Enemy.scale x)
  (Enemy.position x) (Enemy.baseY x).
Definition set_isFireballCaster (v : bool) (x : Enemy.t) : Enemy.t :=
  Enemy.mk (Enemy.eid x) (Enemy.attackFramesList x)
  (Enemy.currentAttackIndex x) (Enemy.walkFrames x) (Enemy.fps x)
  (Enemy.frameTime x) (Enemy.currentFrame x) (Enemy.elapsedTime x)
  (Enemy.totalFrames x) (Enemy.isPlaying x) (Enemy.currentAnimation x)
  (Enemy.moveSpeed x) (Enemy.currentDirection x) (Enemy.patrolCenter x)
  (Enemy.patrolRadius x) (Enemy.patrolAngle x) (Enemy.currentState x)
  (Enemy.detectionRange x) (Enemy.loseTargetRange x) (Enemy.visionAngle x)
  (Enemy.detectionTimer x) (Enemy.detectionInterval x) (Enemy.chaseSpeed x)
  (Enemy.lastKnownPlayerPosition x) (Enemy.hasSeenPlayer x)
  (Enemy.searchTimer x) (Enemy.searchDuration x) (Enemy.searchRadius x)
  (Enemy.searchAngle x) (Enemy.returnSpeed x) (Enemy.returnTolerance x)
  (Enemy.maxHealth x) (Enemy.health x) (Enemy.isDead x) (Enemy.attackRange
  x) (Enemy.attackDamage x) (Enemy.attackCooldown x)
  (Enemy.attackCooldownDuration x) (Enemy.isAttacking x) (Enemy.target x)
  (Enemy.combatSystem x) (Enemy.telegraphManager x) (Enemy.currentTelegraph
  x) (Enemy.telegraphCreated x) (Enemy.fireballManager x) v (Enemy.isHit x)
  (Enemy.hitFrames x) (Enemy.hitAnimationSpeed x) (Enemy.deathFrames x)
  (Enemy.deathAnimationSpeed x) (Enemy.deathAnimationComplete x)
  (Enemy.isKnockedBack x) (Enemy.knockbackTimer x) (Enemy.knockbackDuration
  x) (Enemy.knockbackDistance x) (Enemy.knockbackOrigin x)
  (Enemy.knockbackTarget x) (Enemy.scalePunchTimer x)
  (Enemy.scalePunchDuration x) (Enemy.maxScalePunch x) (Enemy.scale x)
  (Enemy.position x) (Enemy.baseY x).
Definition set_baseY (v : Q) (x : Enemy.t) : Enemy.t := Enemy.mk (Enemy.eid
  x) (Enemy.attackFramesList x) (Enemy.currentAttackIndex x)
  (Enemy.walkFrames x) (Enemy.fps x) (Enemy.frameTime x) (Enemy.currentFrame
  x) (Enemy.elapsedTime x) (Enemy.totalFrames x) (Enemy.isPlaying x)
  (Enemy.currentAnimation x) (Enemy.moveSpeed x) (Enemy.currentDirection x)
  (Enemy.patrolCenter x) (Enemy.patrolRadius x) (Enemy.patrolAngle x)
  (Enemy.currentState x) (Enemy.detectionRange x) (Enemy.loseTargetRange x)
  (Enemy.visionAngle x) (Enemy.detectionTimer x) (Enemy.detectionInterval x)
  (Enemy.chaseSpeed x) (Enemy.lastKnownPlayerPosition x)
  (Enemy.hasSeenPlayer x) (Enemy.searchTimer x) (Enemy.searchDuration x)
  (Enemy.searchRadius x) (Enemy.searchAngle x) (Enemy.returnSpeed x)
  (Enemy.returnTolerance x) (Enemy.maxHealth x) (Enemy.health x)
  (Enemy.isDead x) (Enemy.attackRange x) (Enemy.attackDamage x)
  (Enemy.attackCooldown x) (Enemy.attackCooldownDuration x)
  (Enemy.isAttacking x) (Enemy.target x) (Enemy.combatSystem x)
  (Enemy.telegraphManager x) (Enemy.currentTelegraph x)
  (Enemy.telegraphCreated x) (Enemy.fireballManager x)
  (Enemy.isFireballCaster x) (Enemy.isHit x) (Enemy.hitFrames x)
  (Enemy.hitAnimationSpeed x) (Enemy.deathFrames x)
  (Enemy.deathAnimationSpeed x) (Enemy.deathAnimationComplete x)
  (Enemy.isKnockedBack x) (Enemy.knockbackTimer x) (Enemy.knockbackDuration
  x) (Enemy.knockbackDistance x) (Enemy.knockbackOrigin x)
  (Enemy.knockbackTarget x) (Enemy.scalePunchTimer x)
  (Enemy.scalePunchDuration x) (Enemy.maxScalePunch x) (Enemy.scale x)
  (Enemy.position x) v.

(** [BillboardSprite.setBaseY(y)]. *)
Definition setBaseY (y : Q) (x : Enemy.t) : Enemy.t :=
  let x := set_baseY y x in
  Enemy.set_position (V3.setY (Enemy.position x) y) x.

(** [setPatrolArea(center, radius)]. *)
Definition setPatrolArea (center : Vector3) (radius : Q) (x : Enemy.t)
  : Enemy.t :=
  let x := set_patrolCenter center x in
  let x := set_patrolRadius radius x in
  let x := Enemy.set_position center x in
  let x := Enemy.set_position (V3.setY (Enemy.position x) (7 # 10)) x in
  setBaseY (7 # 10) x.

(** [setTarget], [setCombatSystem], [setTelegraphManager],
    [setFireballManager]. *)
Definition setTarget (target : bool) (x : Enemy.t) : Enemy.t :=
  set_target target x.
Definition setCombatSystem (combatSystem : bool) (x : Enemy.t) : Enemy.t :=
  set_combatSystem combatSystem x.
Definition setTelegraphManager (telegraphManager : bool) (x : Enemy.t)
  : Enemy.t :=
  set_telegraphManager telegraphManager x.
Definition setFireballManager (fireballManager : bool) (x : Enemy.t)
  : Enemy.t :=
  set_fireballManager fireballManager x.

(** The frame count the constructor reads off a sprite sheet:
    [floor(width / frameWidth)], or the default without a texture. *)
Definition frames (frameWidth : Q) (texture : option Z) (default : Z) : Z :=
  match texture with
  | Some width => Num.floor (inject_Z width / frameWidth)
  | None => default
  end.

(** [new Enemy(walkTexture, attackTextures, hitTexture, deathTexture,
    width, height, frameWidth, frameHeight, fps)]; [r] is the value of
    [Math.random()] for the patrol angle. *)
Definition newEnemy (id : nat) (walkTexture : option Z)
           (attackTextures : list Z) (hitTexture deathTexture : option Z)
           (frameWidth fps r : Q) : Enemy.t :=
  Build.enemy id fps
    (map (fun width => frames frameWidth (Some width) 1) attackTextures)
    (frames frameWidth walkTexture 8)
    (frames frameWidth hitTexture 3)
    (frames frameWidth deathTexture 10)
    (r * Math_PI * 2).

(** The statistics [spawnEnemy] gives to the special types, and the
    height it writes into [position] for them. *)
Definition specialize (ty : EnemyType) (position : Vector3) (enemy : Enemy.t)
  : Enemy.t * Vector3 :=
  match ty with
  | enemy_3 =>
      let enemy := set_moveSpeed 3 enemy in
      let enemy := set_attackRange 1 enemy in
      let enemy := set_maxHealth 30 enemy in
      let enemy := Enemy.set_health (Enemy.maxHealth enemy) enemy in
      let position := V3.setY position (3 # 2) in
      (setBaseY (3 # 2) enemy, position)
  | enemy_4 =>
      let enemy := set_moveSpeed (22 # 10) enemy in
      let enemy := set_attackRange (16 # 10) enemy in
      let enemy := set_maxHealth 45 enemy in
      let enemy := Enemy.set_health (Enemy.maxHealth enemy) enemy in
      let enemy := set_attackDamage 2 enemy in
      let enemy := set_attackCooldownDuration (25 # 10) enemy in
      let position := V3.setY position 0 in
      (setBaseY 0 enemy, position)
  | enemy_5 =>
      let enemy := set_moveSpeed (18 # 10) enemy in
      let enemy := set_attackRange 8 enemy in
      let enemy := set_maxHealth 35 enemy in
      let enemy := Enemy.set_health (Enemy.maxHealth enemy) enemy in
      let enemy := set_attackDamage 3 enemy in
      let enemy := set_attackCooldownDuration 2 enemy in
      let enemy := set_isFireballCaster true enemy in
      let enemy := set_detectionRange 15 enemy in
      let enemy := set_loseTargetRange 18 enemy in
      let enemy := set_chaseSpeed (25 # 10) enemy in
      let position := V3.setY position 1 in
      (setBaseY 1 enemy, position)
  | _ => (enemy, position)
  end.

(** [spawnEnemy(position, patrolRadius)]: the value returned ([None] for
    [null]) and the manager.  [r1] and [r2] are the values of
    [Math.random()] for the texture set and for the patrol angle; [id]
    is the identity of the object created. *)
Definition spawnEnemy (r1 r2 : Q) (id : nat) (position : Vector3)
           (patrolRadius : Q) (m : Spawner) : option Enemy.t * Spawner :=
  let index :=
    Num.floor (r1 * inject_Z (Z.of_nat (length (enemyTextureSets m)))) in
  match nth_error (enemyTextureSets m) (Z.to_nat index) with
  | None => (None, m)
  | Some textureSet =>
      match ts_walkTexture textureSet, ts_attackTextures textureSet,
            ts_hitTexture textureSet, ts_deathTexture textureSet with
      | Some _, _ :: _, Some _, Some _ =>
          let frameSize :=
            if Qeq_bool (ts_frameSize textureSet) 0 then 200
            else ts_frameSize textureSet in
          let enemy :=
            newEnemy id (ts_walkTexture textureSet)
                     (ts_attackTextures textureSet)
                     (ts_hitTexture textureSet) (ts_deathTexture textureSet)
                     frameSize 8 r2 in
          let '(enemy, position) :=
            specialize (ts_enemyType textureSet) position enemy in
          let enemy := setPatrolArea position patrolRadius enemy in
          let enemy := setTarget (sp_player m) enemy in
          let enemy := setCombatSystem (sp_combatSystem m) enemy in
          let enemy := setTelegraphManager (sp_telegraphManager m) enemy in
          let enemy := setFireballManager (sp_fireballManager m) enemy in
          (Some enemy,
           mkSpawner (enemyTextureSets m) (sp_player m) (sp_combatSystem m)
                     (sp_telegraphManager m) (sp_fireballManager m)
                     (sp_enemies m ++ [enemy]))
      | _, _, _, _ => (None, m)
      end
  end.

End Spawn.

(** A [Math] for running the model on concrete inputs: the square root
    is exact on squares of multiples of 10^-6 and rounded down elsewhere;
    the arc cosine is exact at -1, 0 and 1, the cosine and sine at 0.
    The examples below only evaluate them there. *)
Module SampleMath.

Definition sqrt (x : Q) : Q :=
  Z.sqrt (Qnum x * 1000000000000 / Z.pos (Qden x)) # 1000000.

Definition acos (x : Q) : Q := Math_PI / 2 * (1 - x).

Definition cos (x : Q) : Q := 1 - x * x / 2 + x * x * x * x / 24.

Definition sin (x : Q) : Q := x - x * x * x / 6.

Definition atan2 (y x : Q) : Q :=
  if Qeq_bool y 0 then (if Num.leb 0 x then 0 else Math_PI)
  else if Num.ltb 0 y then Math_PI / 2 * (1 - x / (Qabs x + Qabs y))
  else - (Math_PI / 2 * (1 - x / (Qabs x + Qabs y))).

#[export] Instance lib : MathLib :=
  {| Math_sqrt := sqrt; Math_acos := acos; Math_cos := cos;
     Math_sin := sin; Math_atan2 := atan2 |}.

End SampleMath.

(* ================================================================== *)
(** * Notions used in the statements *)

Section Notions.
Context {M : MathLib}.

(** The forward vector of an agent: the direction of travel along the
    patrol loop (the radius turned by a quarter turn) while patrolling,
    the facing axis otherwise. *)
Definition forwardVector (e : Enemy.t) : Vector3 :=
  match Enemy.currentState e with
  | PATROL => vec3 (Math_cos (Enemy.patrolAngle e + Math_PI / 2)) 0
                   (Math_sin (Enemy.patrolAngle e + Math_PI / 2))
  | _ => vec3 (Enemy.currentDirection e) 0 0
  end.

(** The horizontal unit vector from the agent towards [p]. *)
Definition directionTo (p : Vector3) (e : Enemy.t) : Vector3 :=
  V3.normalize (V3.setY (V3.sub p (Enemy.position e)) 0).

(** The angle, in degrees, between the forward vector and the
    direction to [p]: clamped arc cosine of their dot product. *)
Definition viewAngle (p : Vector3) (e : Enemy.t) : Q :=
  Math_acos (Num.max (- (1)) (Num.min 1
               (V3.dot (directionTo p e) (forwardVector e))))
  * (180 / Math_PI).

(** The Euclidean norm of the vector [(x, y, z)] and the distance
    between two points. *)
Definition euclidNorm (x y z : Q) : Q := Math_sqrt (x * x + y * y + z * z).

Definition pointDistance (a b : Vector3) : Q :=
  euclidNorm (vx a - vx b) (vy a - vy b) (vz a - vz b).

(** The point [p] lies within the telegraph radius of the landing point
    the fireball has announced. *)
Definition withinTelegraph (fb : Fb.t) (p : Vector3) : Prop :=
  pointDistance (Fb.targetPosition fb) p <= Fb.telegraphRadius fb.

(** The horizontal distance from [p] to [q]: the norm of the vector
    from [p] to [q] with its height left out. *)
Definition horizontalDistance (p q : Vector3) : Q :=
  euclidNorm (vx q - vx p) 0 (vz q - vz p).

(** The angular offset of [q] from the direction [d] as seen from [p],
    in degrees: the angle between [d] and the horizontal unit vector
    from [p] towards [q] (clamped arc cosine of their dot product). *)
Definition angularOffset (p d q : Vector3) : Q :=
  let towards := V3.normalize (vec3 (vx q - vx p) 0 (vz q - vz p)) in
  Math_acos (Num.max (- (1)) (Num.min 1 (V3.dot towards d)))
  * (180 / Math_PI).

(** The melee test of the player's swing on one agent: alive, within
    [rng] horizontally, at most [angleInDegrees / 2] degrees off the
    attack direction. *)
Definition inSwing (p d : Vector3) (rng angleInDegrees : Q)
           (e : Enemy.t) : Prop :=
  Enemy.isDead e = false
  /\ horizontalDistance p (Enemy.position e) <= rng
  /\ angularOffset p d (Enemy.position e) <= angleInDegrees / 2.

End Notions.

(** The game is frozen at the start of every tick of [ks]. *)
Fixpoint frozen_throughout {M : MathLib} (ks : list Game.Tick) (g : Game)
  : Prop :=
  match ks with
  | [] => True
  | k :: rest =>
      0 < freezeTime (sys g) /\ frozen_throughout rest (Game.update k g)
  end.

(** Total of the [deltaTime] of a list of ticks. *)
Fixpoint total_time (ks : list Game.Tick) : Q :=
  match ks with
  | [] => 0
  | k :: rest => Game.deltaTime k + total_time rest
  end.

(** The fraction of the knockback distance at which the agent stands,
    [t = elapsed / duration] into the knockback, as the specification
    words it: up to 0.8 over the first 30%, then back to 0 at the end. *)
Definition knockbackEase_spec (t : Q) : Q :=
  if Num.ltb t (3 # 10)
  then t / (3 # 10) * (8 # 10)
  else (8 # 10) * (1 - (t - (3 # 10)) / (7 # 10)).

(** Sample objects. *)
Module Sample.

Definition M : MathLib := SampleMath.lib.

(** A ground enemy with a 9-frame attack sheet at 16 frames a second,
    spawned at the origin. *)
Definition grunt : Enemy.t :=
  Build.spawned (vec3 0 0 0) 5 (Build.enemy 1 16 [9%Z] 8 3 10 0).

(** The player one unit to the right of the enemy, 15 fireballs. *)
Definition world : Sys := Build.system (vec3 1 (7 # 10) 0) 15.

Definition noRand : Rand := mkRand 0 0 0 0.

End Sample.

(** A tick of a sixtieth of a second in which the player stands still. *)
Definition freeze_tick : Game.Tick :=
  Game.mkTick (1 # 60) (fun p => p) (fun _ => Sample.noRand).

(** The sample game, frozen for 0.15 s. *)
Definition frozen_game : Game :=
  mkGame [Sample.grunt] (freezeFrame (15 # 100) Sample.world).

(** The sample enemy, patrolling, in the hit reaction of a first blow. *)
Definition stunned_grunt : Enemy.t :=
  Enemy.set_currentState PATROL
    (fst (Enemy.takeDamage (M := Sample.M) 10 None Sample.grunt Sample.world)).

(** The sample enemy hit from one unit to its right: knocked back along
    the X axis, origin at x = 0. *)
Definition knocked_grunt : Enemy.t * Sys :=
  Enemy.takeDamage (M := Sample.M) 10 (Some (vec3 1 (7 # 10) 0))
                   Sample.grunt Sample.world.

Definition knocked_x (elapsed : Q) : Q :=
  vx (Enemy.position
        (fst (Enemy.update (M := Sample.M) elapsed Sample.noRand
                           (fst knocked_grunt) (snd knocked_grunt)))).

(** The fireball [fb] with another explosion radius and the sprite at
    another place. *)
Definition with_footprint (radius : Q) (spritePosition : Vector3)
           (fb : Fb.t) : Fb.t :=
  Fb.mk (Fb.fallSpeed fb) (Fb.damage fb) radius (Fb.telegraphRadius fb)
        (Fb.lifetime fb) (Fb.maxLifetime fb) (Fb.startY fb)
        (Fb.targetPosition fb) spritePosition (Fb.velocity fb)
        (Fb.isActive fb) (Fb.hasExploded fb) (Fb.isPlaying fb)
        (Fb.visible fb) (Fb.currentFrame fb) (Fb.totalFrames fb)
        (Fb.elapsedTime fb) (Fb.frameTime fb) (Fb.telegraph fb)
        (Fb.telegraphManager fb) (Fb.manager fb) (Fb.onComplete fb).

(** What can happen to the shared state as far as the fireballs are
    concerned: a launch request, a tick of the manager, a telegraph
    timer firing, and anything the rest of the game does to the player,
    the combat system and the telegraphs. *)
Inductive PoolOp : Type :=
| OpLaunch (target : Vector3)
| OpUpdate (deltaTime : Q)
| OpTimer (t : Timer)
| OpOther (p : Player) (c : CombatSystem) (tm : TelegraphManager).

Definition pool_step {M : MathLib} (op : PoolOp) (s : Sys) : Sys :=
  match op with
  | OpLaunch target => snd (FireballManager.launchFireball target s)
  | OpUpdate deltaTime => FireballManager.update deltaTime s
  | OpTimer t => FireballManager.telegraphTimeout t s
  | OpOther p c tm => set_telegraphs tm (set_combat c (set_player p s))
  end.

Fixpoint pool_run {M : MathLib} (ops : list PoolOp) (s : Sys) : Sys :=
  match ops with
  | [] => s
  | op :: rest => pool_run rest (pool_step op s)
  end.

(** The fireball manager as the constructor leaves it, before
    [initialize] has run or while it waits for the texture: no fireball
    object yet. *)
Definition unfilled_pool (m : FireballManager) : Prop :=
  fm_store m = [] /\ fireballPool m = [] /\ activeFireballs m = [].

(** [initialize()] coming to its end in the state [s]: the pool is
    created when the texture has [loaded], and left empty when the
    loading failed. *)
Definition initialized {M : MathLib} (loaded : bool) (s : Sys) : Sys :=
  set_fireballs (FireballManager.initialize loaded (fireballs s)) s.

(** The count of pooled plus active fireballs. *)
Definition pool_count (m : FireballManager) : nat :=
  (length (fireballPool m) + length (activeFireballs m))%nat.

(** The fireball manager as [initialize] leaves it when the texture has
    loaded. *)
Definition fresh_pool (m : FireballManager) : Prop :=
  exists cs tm,
    m = FireballManager.initialize true
          (mkFM (maxFireballs m) [] [] [] cs tm).

(** A fireball launched at the player's feet, 5.9 s into its 6 s fall,
    and a melee blow that has just made the player invulnerable. *)
Definition fireball_in_flight : Sys :=
  FireballManager.update (M := Sample.M) (59 # 10)
    (snd (FireballManager.launchFireball (vec3 1 (7 # 10) 0) Sample.world)).

Definition player_just_hit : Sys :=
  snd (handlePlayerDamage 1 fireball_in_flight).

(** The sample world before [initialize] has created the pool. *)
Definition unfilled_world : Sys :=
  set_fireballs (mkFM 15 [] [] [] true true) Sample.world.

(** The sample world with every fireball of a pool of two in the air. *)
Definition pool_exhausted : Sys :=
  pool_run (M := Sample.M)
    [OpLaunch (vec3 0 0 0); OpLaunch (vec3 3 0 0)]
    (Build.system (vec3 1 (7 # 10) 0) 2).


(** The invariant of the fireball manager.  The two arrays hold every
    fireball object exactly once; every fireball knows its manager; a
    fireball of [activeFireballs] is in flight.  [skip] names a fireball
    whose flags are being changed (inside its own [update]). *)
Definition pool_inv (skip : option nat) (m : FireballManager) : Prop :=
  (length (fireballPool m) + length (activeFireballs m)
   = length (fm_store m))%nat
  /\ NoDup (fireballPool m ++ activeFireballs m)
  /\ (forall id, In id (fireballPool m ++ activeFireballs m) ->
                 (id < length (fm_store m))%nat)
  /\ (forall id fb, nth_error (fm_store m) id = Some fb ->
                    Fb.manager fb = true)
  /\ (forall id fb, In id (activeFireballs m) -> skip <> Some id ->
                    nth_error (fm_store m) id = Some fb ->
                    Fb.isActive fb = true /\ Fb.hasExploded fb = false
                    /\ Fb.onComplete fb = true).


(** Two fireballs that announce the same landing: same target point,
    same telegraph radius, same damage. *)
Definition same_shot (a b : Fb.t) : Prop :=
  Fb.targetPosition a = Fb.targetPosition b
  /\ Fb.telegraphRadius a = Fb.telegraphRadius b
  /\ Fb.damage a = Fb.damage b.

(** The configured maximum and the number of fireball objects. *)
Definition pool_shape (s : Sys) : nat * nat :=
  (maxFireballs (fireballs s), length (fm_store (fireballs s))).

(** The fireball in the air in [fireball_in_flight]. *)
Definition flying_fireball : Fb.t :=
  nth 14 (fm_store (fireballs fireball_in_flight)) (Fb.new 6 5 12).

Section SwingNotions.
Context {M : MathLib}.

(** The test of [handlePlayerAttack] on one agent, as the code computes
    it (angles in radians). *)
Definition inSwingb (p d : Vector3) (rng angleInDegrees : Q)
           (e : Enemy.t) : bool :=
  negb (Enemy.isDead e)
  && Num.leb (EnemyManager.attackDistance p e) rng
  && Num.leb (EnemyManager.attackAngleTo p d e)
             ((angleInDegrees * Math_PI) / 180 / 2).

(** The amount a swing applies: [damageInfo.damage], or 1 without. *)
Definition swingDamage (damageInfo : option DamageInfo) : Q :=
  match damageInfo with
  | Some i => inject_Z (di_damage i)
  | None => 1
  end.

(** The record pushed on [hits] for the agent [e]. *)
Definition hit_of (p : Vector3) (damageInfo : option DamageInfo) (s : Sys)
           (e : Enemy.t) : Hit :=
  mkHit (Enemy.eid e) (horizontalDistance p (Enemy.position e))
        (Enemy.isDead
           (fst (Enemy.takeDamage (swingDamage damageInfo) (Some p) e s)))
        (swingDamage damageInfo)
        (match damageInfo with
         | Some i => di_isCritical i
         | None => false
         end).

End SwingNotions.

(** Closest first. *)
Definition closer_or_equal (a b : Hit) : Prop :=
  hit_distance a <= hit_distance b.

(** The sample game: the grunt one unit in front of the player, who
    faces it, and a second enemy behind the player. *)
Definition swing_game : Game :=
  mkGame
    [ Sample.grunt;
      Enemy.set_position (vec3 3 (7 # 10) 0)
        (Build.spawned (vec3 3 0 0) 5 (Build.enemy 2 16 [9%Z] 8 3 10 0)) ]
    (set_player (mkPlayer (vec3 1 (7 # 10) 0) false false (vec3 (- (1)) 0 0))
                Sample.world).


(** What never changes in an enemy, and the state of its animation. *)
Definition ident (e : Enemy.t) : nat * bool * bool :=
  (Enemy.eid e, Enemy.telegraphManager e, Enemy.isFireballCaster e).

(** What decides whether an attack reaches the player. *)
Definition reach (e : Enemy.t) : bool * bool * bool * Q * Q * Vector3 :=
  (Enemy.target e, Enemy.fireballManager e, Enemy.combatSystem e,
   Enemy.attackDamage e, Enemy.attackRange e, Enemy.position e).

Definition animState (e : Enemy.t) : Animation * Z * Z * bool :=
  (Enemy.currentAnimation e, Enemy.currentFrame e, Enemy.totalFrames e,
   Enemy.telegraphCreated e).


(* ------------------------------------------------------------------ *)
(** ** The game driven by its inputs *)

(** What drives the game: a tick of the loop, a swing of the player (the
    input handler calls [triggerAttack]), and the [setTimeout] callback
    of a fireball's telegraph. *)
Inductive Input : Type :=
| InTick (k : Game.Tick)
| InAttack (r1 r2 : Q)
| InTimeout (t : Timer).

Definition input_step {M : MathLib} (i : Input) (g : Game) : Game :=
  match i with
  | InTick k => Game.update k g
  | InAttack r1 r2 => out_game (Game.triggerAttack r1 r2 g)
  | InTimeout t =>
      mkGame (enemies g) (FireballManager.telegraphTimeout t (sys g))
  end.

Fixpoint play {M : MathLib} (inputs : list Input) (g : Game) : Game :=
  match inputs with
  | [] => g
  | i :: rest => play rest (input_step i g)
  end.

(** The AI state of enemy [id] ([PATROL], the initial state, when there
    is no such enemy). *)
Definition stateOf (id : nat) (g : Game) : AIState :=
  match find (fun e => Nat.eqb (Enemy.eid e) id) (enemies g) with
  | Some e => Enemy.currentState e
  | None => PATROL
  end.

(** The AI state of enemy [id] after each input, first input first. *)
Fixpoint states_along {M : MathLib} (id : nat) (inputs : list Input)
         (g : Game) : list AIState :=
  match inputs with
  | [] => []
  | i :: rest =>
      stateOf id (input_step i g) :: states_along id rest (input_step i g)
  end.

(** Every [deltaTime] satisfies [ok]; non-negative for a game that goes
    forward in time. *)
Fixpoint ticks_ok (ok : Q -> Prop) (inputs : list Input) : Prop :=
  match inputs with
  | [] => True
  | InTick k :: rest => ok (Game.deltaTime k) /\ ticks_ok ok rest
  | _ :: rest => ticks_ok ok rest
  end.

Definition forward_in_time (inputs : list Input) : Prop :=
  ticks_ok (fun deltaTime => 0 <= deltaTime) inputs.

(** The enemies of a game have distinct identities, and none of them is
    in its attack animation. *)
Definition distinct_ids (g : Game) : Prop :=
  NoDup (map Enemy.eid (enemies g)).

Definition none_attacking (g : Game) : Prop :=
  Forall (fun e => Enemy.currentAnimation e <> anim_attack) (enemies g).

(** A melee enemy with a telegraph manager: its attacks are announced
    by [createAttackTelegraph] (a fireball caster skips it, and without
    a manager the call returns at once). *)
Definition telegraphs_attacks (e : Enemy.t) : Prop :=
  Enemy.telegraphManager e = true /\ Enemy.isFireballCaster e = false.

(** [id] is the identity of an enemy of the game that telegraphs its
    attacks and is not in its attack animation. *)
Definition telegraphing_id (g : Game) (id : nat) : Prop :=
  exists e, In e (enemies g) /\ Enemy.eid e = id
            /\ telegraphs_attacks e
            /\ Enemy.currentAnimation e <> anim_attack.

(** The enemy an event belongs to. *)
Definition event_enemy (ev : Event) : nat :=
  match ev with
  | EvAttackStarted i | EvTelegraphCreated i _ _
  | EvMeleeDamage i _ | EvFireballCast i _ => i
  end.

Definition is_ATTACK (a : AIState) : bool :=
  match a with ATTACK => true | _ => false end.

(** How many times a sequence of states enters ATTACK, coming from
    [prev]. *)
Fixpoint entries_into_attack (prev : AIState) (l : list AIState) : nat :=
  match l with
  | [] => O
  | a :: rest =>
      ((if is_ATTACK a && negb (is_ATTACK prev) then 1 else 0)
       + entries_into_attack a rest)%nat
  end.

(** A damage emission of enemy [id]: the player-damage call of a melee
    attack or the launch of a fireball. *)
Definition is_damage (id : nat) (ev : Event) : bool :=
  match ev with
  | EvMeleeDamage i _ | EvFireballCast i _ => Nat.eqb i id
  | _ => false
  end.

Definition is_start (id : nat) (ev : Event) : bool :=
  match ev with
  | EvAttackStarted i => Nat.eqb i id
  | _ => false
  end.

Definition count_damage (id : nat) (l : list (Q * Event)) : nat :=
  length (filter (fun x => is_damage id (snd x)) l).

(** Reading a log from its oldest entry: [Some true] when enemy [id] has
    started an attack that has not emitted its damage yet, [Some false]
    when it has none pending, [None] as soon as a damage emission occurs
    with no attack pending, that is a second emission for one attack or
    an emission outside any attack. *)
Fixpoint armed (id : nat) (l : list (Q * Event)) : option bool :=
  match l with
  | [] => Some false
  | (_, ev) :: older =>
      match armed id older with
      | None => None
      | Some a =>
          if is_start id ev then Some true
          else if is_damage id ev then (if a then Some false else None)
          else Some a
      end
  end.

(** Two readings of "the telegraph precedes the damage", given the start
    time [ts] and the duration [d] of the telegraph and the time [td] of
    the damage: the telegraph has run out, or it has been created. *)
Definition committed_before (ts d td : Q) : bool := Num.leb (ts + d) td.
Definition created_before (ts d td : Q) : bool := Num.leb ts td.

(** Reading a log from its oldest entry and keeping the telegraph of the
    attack of enemy [id] that is under way, when there is one: [None] as
    soon as a melee damage of [id] occurs without a telegraph for that
    attack satisfying [rule]. *)
Fixpoint telegraph_check (rule : Q -> Q -> Q -> bool) (id : nat)
         (l : list (Q * Event)) : option (option (Q * Q)) :=
  match l with
  | [] => Some None
  | (t, ev) :: older =>
      match telegraph_check rule id older with
      | None => None
      | Some tele =>
          match ev with
          | EvAttackStarted i =>
              if Nat.eqb i id then Some None else Some tele
          | EvTelegraphCreated i _ d =>
              if Nat.eqb i id then Some (Some (t, d)) else Some tele
          | EvMeleeDamage i _ =>
              if Nat.eqb i id then
                match tele with
                | Some (ts, d) => if rule ts d t then Some tele else None
                | None => None
                end
              else Some tele
          | EvFireballCast _ _ => Some tele
          end
      end
  end.

(** Every telegraph of the log lasts at least 0.3 s. *)
Definition telegraphs_visible (l : list (Q * Event)) : Prop :=
  forall t i tid d, In (t, EvTelegraphCreated i tid d) l -> 3 # 10 <= d.

(** The log with its times in lowest terms. *)
Definition reduced_event (ev : Event) : Event :=
  match ev with
  | EvTelegraphCreated i tid d => EvTelegraphCreated i tid (Qred d)
  | EvMeleeDamage i a => EvMeleeDamage i (Qred a)
  | _ => ev
  end.

Definition reduced_log (s : Sys) : list (Q * Event) :=
  map (fun x => (Qred (fst x), reduced_event (snd x))) (log s).

(** The sample enemy chasing the player, who stands one unit away, well
    within the attack range of 2; its detection poll is due. *)
Definition chasing_grunt : Enemy.t :=
  Enemy.set_detectionTimer (2 # 10)
    (Enemy.set_currentState CHASE Sample.grunt).

(** The sample game of one enemy against the player. *)
Definition duel : Game := mkGame [chasing_grunt] Sample.world.

(** The same duel with a fireball caster looking on: an enemy of the
    fifth type, which announces its attacks by the telegraphs of its
    fireballs and never by [createAttackTelegraph]. *)
Definition caster : Enemy.t :=
  Spawn.set_isFireballCaster true
    (Enemy.set_position (vec3 (- (3)) (7 # 10) 0)
       (Build.spawned (vec3 (- (3)) 0 0) 5
          (Build.enemy 2 16 [9%Z] 8 3 10 0))).

Definition mixed_duel : Game := mkGame [chasing_grunt; caster] Sample.world.

(** A tick of a sixtieth of a second in which the player stands still
    ([still]), and one in which the player's hurt animation ends
    ([recover]). *)
Definition still : Input := InTick freeze_tick.

Definition recover : Input :=
  InTick (Game.mkTick (1 # 60)
            (fun p => mkPlayer (pl_position p) false (pl_isAttacking p)
                               (pl_lastDirection p))
            (fun _ => Sample.noRand)).

(** One attack: the detection poll, then the attack animation past its
    damage frame. *)
Definition first_attack : list Input := repeat still 40.

(** Three and a half seconds in which the player never leaves the
    attack range: a first attack, the cooldown of 2 s, a second
    attack. *)
Definition two_attacks : list Input :=
  repeat still 60 ++ [recover] ++ repeat still 150.


(** What one [updateAnimation] may add to the log for the telegraph:
    nothing, or one entry, and then the animation is reaching its
    telegraph frame without a telegraph so far. *)
Definition telegraph_entry {M : MathLib} (e : Enemy.t) (s : Sys)
           (tel : list (Q * Event)) : Prop :=
  tel = []
  \/ (exists tid d,
        tel = [(now s, EvTelegraphCreated (Enemy.eid e) tid d)]
        /\ 3 # 10 <= d
        /\ (Enemy.currentFrame e + 1)%Z = Enemy.telegraphFrame e
        /\ Enemy.telegraphCreated e = false).

(** The next frame of the attack animation is the telegraph frame of an
    enemy that telegraphs and has not yet done so. *)
Definition telegraph_due (e : Enemy.t) : Prop :=
  (Enemy.currentFrame e + 1)%Z = Enemy.telegraphFrame e
  /\ Enemy.telegraphCreated e = false
  /\ Enemy.telegraphManager e = true
  /\ Enemy.isFireballCaster e = false.

(** What one [updateAnimation] may add to the log for the damage:
    nothing, or a single emission, and then the animation is reaching
    its damage frame with a target set; a melee emission moreover needs
    the target within [attackRange]. *)
Definition damage_entry {M : MathLib} (e : Enemy.t) (s : Sys)
           (dmg : list (Q * Event)) : Prop :=
  dmg = []
  \/ ((Enemy.currentFrame e + 1)%Z = Enemy.damageFrame e
      /\ Enemy.target e = true
      /\ ((exists p, dmg = [(now s, EvFireballCast (Enemy.eid e) p)]
                     /\ Enemy.isFireballCaster e = true
                     /\ Enemy.fireballManager e = true)
          \/ (dmg = [(now s, EvMeleeDamage (Enemy.eid e) (Enemy.attackDamage e))]
              /\ Enemy.isFireballCaster e && Enemy.fireballManager e = false
              /\ V3.distanceTo (Enemy.position e) (pl_position (player s))
                 <= Enemy.attackRange e))).

(** The effect of one [updateAnimation] on the animation and the log:
    either the log is untouched and the animation is where it was or is
    not the attack; or the attack animation advances by one frame, with
    at most one telegraph entry (one, when the telegraph is due)
    followed by at most one damage entry. *)
Definition tick_outcome {M : MathLib} (e : Enemy.t) (s : Sys)
           (e' : Enemy.t) (s' : Sys) : Prop :=
  ident e' = ident e /\ now s' = now s
  /\ ((log s' = log s
       /\ (animState e' = animState e
           \/ Enemy.currentAnimation e' <> anim_attack))
      \/ (Enemy.currentAnimation e = anim_attack
          /\ (1 < Enemy.totalFrames e)%Z
          /\ exists tel dmg,
               log s' = dmg ++ tel ++ log s
               /\ telegraph_entry e s tel
               /\ (telegraph_due e -> tel <> [])
               /\ damage_entry e s dmg
               /\ (Enemy.currentAnimation e' <> anim_attack
                   \/ (Enemy.currentAnimation e' = anim_attack
                       /\ Enemy.currentFrame e' = (Enemy.currentFrame e + 1)%Z
                       /\ Enemy.totalFrames e' = Enemy.totalFrames e
                       /\ Enemy.telegraphCreated e'
                          = Enemy.telegraphCreated e
                            || (Enemy.currentFrame e + 1
                                =? Enemy.telegraphFrame e)%Z)))).

(** The effect of the rest of [update] on the animation and the log:
    nothing; or the start of an attack animation. *)
Definition start_outcome (e : Enemy.t) (s : Sys)
           (e' : Enemy.t) (s' : Sys) : Prop :=
  ident e' = ident e /\ now s' = now s
  /\ ((log s' = log s
       /\ (animState e' = animState e
           \/ Enemy.currentAnimation e' <> anim_attack))
      \/ (log s' = (now s, EvAttackStarted (Enemy.eid e)) :: log s
          /\ (Enemy.currentAnimation e' <> anim_attack
              \/ (Enemy.currentAnimation e' = anim_attack
                  /\ Enemy.currentFrame e' = 0%Z
                  /\ Enemy.telegraphCreated e' = false)))).

(** The log is well formed for the count of emissions: it has no damage
    emission without a pending attack of the same enemy. *)
Definition log_armed (s : Sys) : Prop :=
  forall id, armed id (log s) <> None.

(** An attack animation that has not reached its damage frame has its
    emission still to come. *)
Definition attack_pending (e : Enemy.t) (s : Sys) : Prop :=
  Enemy.currentAnimation e = anim_attack ->
  (Enemy.currentFrame e < Enemy.damageFrame e)%Z ->
  armed (Enemy.eid e) (log s) = Some true.

(** The log is well formed for the telegraphs of the enemies [T]: every
    melee damage of one of them comes after the telegraph of its attack
    was created, and every telegraph lasts at least 0.3 s. *)
Definition log_telegraphed (T : nat -> Prop) (s : Sys) : Prop :=
  (forall id, T id -> telegraph_check created_before id (log s) <> None)
  /\ telegraphs_visible (log s).

(** A melee enemy with a telegraph manager; its attack animation, once
    at or past the telegraph frame, has created its telegraph, and the
    log knows it. *)
Definition attack_telegraphed (e : Enemy.t) (s : Sys) : Prop :=
  Enemy.telegraphManager e = true
  /\ Enemy.isFireballCaster e = false
  /\ (Enemy.currentAnimation e = anim_attack ->
      Enemy.telegraphCreated e = true ->
      exists ts d,
        telegraph_check created_before (Enemy.eid e) (log s)
        = Some (Some (ts, d))
        /\ ts <= now s)
  /\ (Enemy.currentAnimation e = anim_attack ->
      (Enemy.telegraphFrame e <= Enemy.currentFrame e)%Z ->
      Enemy.telegraphCreated e = true).

(** The same, asked of the enemies [T] only. *)
Definition telegraphed_among (T : nat -> Prop) (e : Enemy.t) (s : Sys)
  : Prop :=
  T (Enemy.eid e) -> attack_telegraphed e s.

(** An invariant of the game made of an invariant [G] of the shared
    state and an invariant [I] of every enemy. *)
Definition game_inv (I : Enemy.t -> Sys -> Prop) (G : Sys -> Prop)
           (g : Game) : Prop :=
  distinct_ids g /\ G (sys g) /\ Forall (fun e => I e (sys g)) (enemies g).


(** The shared state apart from the freeze gate. *)
Definition beside_freeze (s : Sys)
  : Q * list (Q * Event) * Player * CombatSystem * FireballManager
    * TelegraphManager * list Timer :=
  (now s, log s, player s, combat s, fireballs s, telegraphs s, timers s).


(** The life of an enemy: what only [takeDamage] and [die] write. *)
Definition life (e : Enemy.t) : bool * Q * Q :=
  (Enemy.isDead e, Enemy.health e, Enemy.maxHealth e).


(** The moves between AI states that [updateAI] makes. *)
Definition ai_move (from to : AIState) : bool :=
  match from, to with
  | PATROL, (PATROL | CHASE) => true
  | CHASE, (CHASE | SEARCH | ATTACK) => true
  | SEARCH, (SEARCH | CHASE) => true
  | ATTACK, (ATTACK | CHASE | SEARCH) => true
  | RETURN, (RETURN | PATROL | CHASE) => true
  | STUNNED, STUNNED => true
  | _, _ => false
  end.


(** Several calls of [AttackTelegraph.update] in a row, each with its
    [deltaTime] and the position of the followed enemy at that time. *)
Fixpoint Tg_updates (steps : list (Q * option Vector3)) (t : Tg.t) : Tg.t :=
  match steps with
  | [] => t
  | (deltaTime, follow) :: rest =>
      Tg_updates rest (Tg.update deltaTime follow t)
  end.

(** The telegraph with glow against its two clocks: [elapsedTime] for
    the warning, [explosionTime] for the fading of the glow. *)
Definition glow_clocks (w fade : Q) (t : Tg.t) : Prop :=
  Tg.hasGlowEffect t = true
  /\ Tg.warningTime t = w /\ Tg.glowFadeOutDuration t = fade
  /\ Tg.explosionTriggered t = negb (Tg.isActive t)
  /\ (Tg.isActive t = true <-> Tg.elapsedTime t < w)
  /\ (Tg.visible t = true
      <-> Tg.isActive t = true \/ Tg.explosionTime t < fade).

(** The [deltaTime] of such calls. *)
Definition step_times (steps : list (Q * option Vector3)) : list Q :=
  map fst steps.


(** The telegraph manager as its methods keep it: no telegraph is listed
    twice, and every listed telegraph is one of the objects created. *)
Definition tm_ok (m : TelegraphManager) : Prop :=
  NoDup (activeTelegraphs m)
  /\ forall id, In id (activeTelegraphs m) ->
                (id < length (tm_store m))%nat.


(** Several calls of [Fireball.update] on the fireball [id]. *)
Fixpoint Fireball_updates {M : MathLib} (dts : list Q) (id : nat) (s : Sys)
  : Sys :=
  match dts with
  | [] => s
  | deltaTime :: rest =>
      Fireball_updates rest id (FireballManager.Fireball_update deltaTime id s)
  end.


(** A fireball falling on [target]: in flight, [t] seconds after a
    launch from height [y0] at speed [fs]. *)
Definition in_flight (target : Vector3) (fs y0 t : Q) (fb : Fb.t) : Prop :=
  Fb.isActive fb = true /\ Fb.hasExploded fb = false
  /\ Fb.velocity fb = vec3 0 (- fs) 0
  /\ Fb.lifetime fb == t
  /\ vx (Fb.position fb) == vx target
  /\ vy (Fb.position fb) == y0 - fs * t
  /\ vz (Fb.position fb) == vz target.


(** What a method of the fireball [id] may change in the manager: the
    object [id] itself, and the active array by taking [id] out. *)
Definition apart_from (id : nat) (s s' : Sys) : Prop :=
  (forall j, j <> id ->
             FireballManager.fireball j s' = FireballManager.fireball j s)
  /\ (activeFireballs (fireballs s') = activeFireballs (fireballs s)
      \/ activeFireballs (fireballs s')
         = filter (fun j => negb (Nat.eqb j id))
                  (activeFireballs (fireballs s))).


(** What happens to one enemy: an [update] or a blow, each with the
    shared state at the time of the call. *)
Inductive EnemyStep : Type :=
| StepUpdate (deltaTime : Q) (rnd : Rand) (s : Sys)
| StepBlow (amount : Q) (attackerPosition : option Vector3) (s : Sys).

Definition enemy_step {M : MathLib} (k : EnemyStep) (e : Enemy.t) : Enemy.t :=
  match k with
  | StepUpdate deltaTime rnd s => fst (Enemy.update deltaTime rnd e s)
  | StepBlow amount attackerPosition s =>
      fst (Enemy.takeDamage amount attackerPosition e s)
  end.

Fixpoint enemy_steps {M : MathLib} (ks : list EnemyStep) (e : Enemy.t)
  : Enemy.t :=
  match ks with
  | [] => e
  | k :: rest => enemy_steps rest (enemy_step k e)
  end.

(** Every update of the run finds the enemy with more attack cooldown
    left than its [deltaTime], which is not negative. *)
Fixpoint cooling_throughout {M : MathLib} (ks : list EnemyStep)
         (e : Enemy.t) : Prop :=
  match ks with
  | [] => True
  | k :: rest =>
      match k with
      | StepUpdate deltaTime _ _ =>
          0 <= deltaTime /\ deltaTime < Enemy.attackCooldown e
      | StepBlow _ _ _ => True
      end
      /\ cooling_throughout rest (enemy_step k e)
  end.

(** A step that starts no attack: the enemy is out of its attack
    animation afterwards; an update leaves the shared state as it found
    it and the cooldown positive and no longer than before; a blow
    leaves the cooldown as it is. *)
Definition idle_step {M : MathLib} (k : EnemyStep) (e : Enemy.t) : Prop :=
  Enemy.currentAnimation (enemy_step k e) <> anim_attack
  /\ match k with
     | StepUpdate deltaTime rnd s =>
         snd (Enemy.update deltaTime rnd e s) = s
         /\ 0 < Enemy.attackCooldown (enemy_step k e)
         /\ Enemy.attackCooldown (enemy_step k e) <= Enemy.attackCooldown e
     | StepBlow _ _ _ =>
         Enemy.attackCooldown (enemy_step k e) = Enemy.attackCooldown e
     end.

Fixpoint idle_throughout {M : MathLib} (ks : list EnemyStep)
         (e : Enemy.t) : Prop :=
  match ks with
  | [] => True
  | k :: rest => idle_step k e /\ idle_throughout rest (enemy_step k e)
  end.



(* ================================================================== *)
(** * Properties *)

Unset Implicit Arguments.

(* ------------------------------------------------------------------ *)
(** ** Field updates and the two views of an enemy *)

Create Rewrite HintDb enemy_views.

Lemma ident_set_currentAttackIndex v e : ident (Enemy.set_currentAttackIndex v e) = ident e.
Proof. reflexivity. Qed.
Lemma ident_set_frameTime v e : ident (Enemy.set_frameTime v e) = ident e.
Proof. reflexivity. Qed.
Lemma ident_set_currentFrame v e : ident (Enemy.set_currentFrame v e) = ident e.
Proof. reflexivity. Qed.
Lemma ident_set_elapsedTime v e : ident (Enemy.set_elapsedTime v e) = ident e.
Proof. reflexivity. Qed.
Lemma ident_set_totalFrames v e : ident (Enemy.set_totalFrames v e) = ident e.
Proof. reflexivity. Qed.
Lemma ident_set_isPlaying v e : ident (Enemy.set_isPlaying v e) = ident e.
Proof. reflexivity. Qed.
Lemma ident_set_currentAnimation v e : ident (Enemy.set_currentAnimation v e) = ident e.
Proof. reflexivity. Qed.
Lemma ident_set_currentDirection v e : ident (Enemy.set_currentDirection v e) = ident e.
Proof. reflexivity. Qed.
Lemma ident_set_patrolAngle v e : ident (Enemy.set_patrolAngle v e) = ident e.
Proof. reflexivity. Qed.
Lemma ident_set_currentState v e : ident (Enemy.set_currentState v e) = ident e.
Proof. reflexivity. Qed.
Lemma ident_set_detectionTimer v e : ident (Enemy.set_detectionTimer v e) = ident e.
Proof. reflexivity. Qed.
Lemma ident_set_lastKnownPlayerPosition v e : ident (Enemy.set_lastKnownPlayerPosition v e) = ident e.
Proof. reflexivity. Qed.
Lemma ident_set_hasSeenPlayer v e : ident (Enemy.set_hasSeenPlayer v e) = ident e.
Proof. reflexivity. Qed.
Lemma ident_set_searchTimer v e : ident (Enemy.set_searchTimer v e) = ident e.
Proof. reflexivity. Qed.
Lemma ident_set_searchAngle v e : ident (Enemy.set_searchAngle v e) = ident e.
Proof. reflexivity. Qed.
Lemma ident_set_health v e : ident (Enemy.set_health v e) = ident e.
Proof. reflexivity. Qed.
Lemma ident_set_isDead v e : ident (Enemy.set_isDead v e) = ident e.
Proof. reflexivity. Qed.
Lemma ident_set_attackCooldown v e : ident (Enemy.set_attackCooldown v e) = ident e.
Proof. reflexivity. Qed.
Lemma ident_set_isAttacking v e : ident (Enemy.set_isAttacking v e) = ident e.
Proof. reflexivity. Qed.
Lemma ident_set_currentTelegraph v e : ident (Enemy.set_currentTelegraph v e) = ident e.
Proof. reflexivity. Qed.
Lemma ident_set_telegraphCreated v e : ident (Enemy.set_telegraphCreated v e) = ident e.
Proof. reflexivity. Qed.
Lemma ident_set_isHit v e : ident (Enemy.set_isHit v e) = ident e.
Proof. reflexivity. Qed.
Lemma ident_set_deathAnimationComplete v e : ident (Enemy.set_deathAnimationComplete v e) = ident e.
Proof. reflexivity. Qed.
Lemma ident_set_isKnockedBack v e : ident (Enemy.set_isKnockedBack v e) = ident e.
Proof. reflexivity. Qed.
Lemma ident_set_knockbackTimer v e : ident (Enemy.set_knockbackTimer v e) = ident e.
Proof. reflexivity. Qed.
Lemma ident_set_knockbackOrigin v e : ident (Enemy.set_knockbackOrigin v e) = ident e.
Proof. reflexivity. Qed.
Lemma ident_set_knockbackTarget v e : ident (Enemy.set_knockbackTarget v e) = ident e.
Proof. reflexivity. Qed.
Lemma ident_set_scalePunchTimer v e : ident (Enemy.set_scalePunchTimer v e) = ident e.
Proof. reflexivity. Qed.
Lemma ident_set_scale v e : ident (Enemy.set_scale v e) = ident e.
Proof. reflexivity. Qed.
Lemma ident_set_position v e : ident (Enemy.set_position v e) = ident e.
Proof. reflexivity. Qed.

#[export] Hint Rewrite ident_set_currentAttackIndex ident_set_frameTime
  ident_set_currentFrame ident_set_elapsedTime ident_set_totalFrames
  ident_set_isPlaying ident_set_currentAnimation ident_set_currentDirection
  ident_set_patrolAngle ident_set_currentState ident_set_detectionTimer
  ident_set_lastKnownPlayerPosition ident_set_hasSeenPlayer
  ident_set_searchTimer ident_set_searchAngle ident_set_health
  ident_set_isDead ident_set_attackCooldown ident_set_isAttacking
  ident_set_currentTelegraph ident_set_telegraphCreated ident_set_isHit
  ident_set_deathAnimationComplete ident_set_isKnockedBack
  ident_set_knockbackTimer ident_set_knockbackOrigin
  ident_set_knockbackTarget ident_set_scalePunchTimer ident_set_scale
  ident_set_position : enemy_views.

Lemma animState_set_currentAttackIndex v e :
  animState (Enemy.set_currentAttackIndex v e) = animState e.
Proof. reflexivity. Qed.
Lemma animState_set_frameTime v e :
  animState (Enemy.set_frameTime v e) = animState e.
Proof. reflexivity. Qed.
Lemma animState_set_elapsedTime v e :
  animState (Enemy.set_elapsedTime v e) = animState e.
Proof. reflexivity. Qed.
Lemma animState_set_isPlaying v e :
  animState (Enemy.set_isPlaying v e) = animState e.
Proof. reflexivity. Qed.
Lemma animState_set_currentDirection v e :
  animState (Enemy.set_currentDirection v e) = animState e.
Proof. reflexivity. Qed.
Lemma animState_set_patrolAngle v e :
  animState (Enemy.set_patrolAngle v e) = animState e.
Proof. reflexivity. Qed.
Lemma animState_set_currentState v e :
  animState (Enemy.set_currentState v e) = animState e.
Proof. reflexivity. Qed.
Lemma animState_set_detectionTimer v e :
  animState (Enemy.set_detectionTimer v e) = animState e.
Proof. reflexivity. Qed.
Lemma animState_set_lastKnownPlayerPosition v e :
  animState (Enemy.set_lastKnownPlayerPosition v e) = animState e.
Proof. reflexivity. Qed.
Lemma animState_set_hasSeenPlayer v e :
  animState (Enemy.set_hasSeenPlayer v e) = animState e.
Proof. reflexivity. Qed.
Lemma animState_set_searchTimer v e :
  animState (Enemy.set_searchTimer v e) = animState e.
Proof. reflexivity. Qed.
Lemma animState_set_searchAngle v e :
  animState (Enemy.set_searchAngle v e) = animState e.
Proof. reflexivity. Qed.
Lemma animState_set_health v e :
  animState (Enemy.set_health v e) = animState e.
Proof. reflexivity. Qed.
Lemma animState_set_isDead v e :
  animState (Enemy.set_isDead v e) = animState e.
Proof. reflexivity. Qed.
Lemma animState_set_attackCooldown v e :
  animState (Enemy.set_attackCooldown v e) = animState e.
Proof. reflexivity. Qed.
Lemma animState_set_isAttacking v e :
  animState (Enemy.set_isAttacking v e) = animState e.
Proof. reflexivity. Qed.
Lemma animState_set_currentTelegraph v e :
  animState (Enemy.set_currentTelegraph v e) = animState e.
Proof. reflexivity. Qed.
Lemma animState_set_isHit v e :
  animState (Enemy.set_isHit v e) = animState e.
Proof. reflexivity. Qed.
Lemma animState_set_deathAnimationComplete v e :
  animState (Enemy.set_deathAnimationComplete v e) = animState e.
Proof. reflexivity. Qed.
Lemma animState_set_isKnockedBack v e :
  animState (Enemy.set_isKnockedBack v e) = animState e.
Proof. reflexivity. Qed.
Lemma animState_set_knockbackTimer v e :
  animState (Enemy.set_knockbackTimer v e) = animState e.
Proof. reflexivity. Qed.
Lemma animState_set_knockbackOrigin v e :
  animState (Enemy.set_knockbackOrigin v e) = animState e.
Proof. reflexivity. Qed.
Lemma animState_set_knockbackTarget v e :
  animState (Enemy.set_knockbackTarget v e) = animState e.
Proof. reflexivity. Qed.
Lemma animState_set_scalePunchTimer v e :
  animState (Enemy.set_scalePunchTimer v e) = animState e.
Proof. reflexivity. Qed.
Lemma animState_set_scale v e :
  animState (Enemy.set_scale v e) = animState e.
Proof. reflexivity. Qed.
Lemma animState_set_position v e :
  animState (Enemy.set_position v e) = animState e.
Proof. reflexivity. Qed.

#[export] Hint Rewrite animState_set_currentAttackIndex
  animState_set_frameTime animState_set_elapsedTime animState_set_isPlaying
  animState_set_currentDirection animState_set_patrolAngle
  animState_set_currentState animState_set_detectionTimer
  animState_set_lastKnownPlayerPosition animState_set_hasSeenPlayer
  animState_set_searchTimer animState_set_searchAngle animState_set_health
  animState_set_isDead animState_set_attackCooldown
  animState_set_isAttacking animState_set_currentTelegraph
  animState_set_isHit animState_set_deathAnimationComplete
  animState_set_isKnockedBack animState_set_knockbackTimer
  animState_set_knockbackOrigin animState_set_knockbackTarget
  animState_set_scalePunchTimer animState_set_scale animState_set_position :
  enemy_views.


Lemma leb_le a b : Num.leb a b = true <-> a <= b.
Proof. apply Qle_bool_iff. Qed.

Lemma ltb_lt a b : Num.ltb a b = true <-> a < b.
Proof.
  unfold Num.ltb. rewrite negb_true_iff.
  split; intro H.
  - apply Qnot_le_lt. intro Hle. apply Qle_bool_iff in Hle. congruence.
  - destruct (Qle_bool b a) eqn:E; [|reflexivity].
    apply Qle_bool_iff in E. exfalso. apply (Qlt_not_le _ _ H E).
Qed.

Lemma round_bounds (x : Q) (lo hi : Z) :
  inject_Z lo <= x -> x < inject_Z hi + (1 # 2) ->
  (lo <= Num.round x <= hi)%Z.
Proof.
  intros Hlo Hhi. unfold Num.round. split.
  - apply Qfloor_resp_le in Hlo. rewrite Qfloor_Z in Hlo.
    assert (Qfloor x <= Qfloor (x + (1 # 2)))%Z
      by (apply Qfloor_resp_le; lra).
    lia.
  - assert (H : x + (1 # 2) < inject_Z (hi + 1)).
    { rewrite inject_Z_plus. change (inject_Z 1) with 1. lra. }
    assert (Hf := Qfloor_le (x + (1 # 2))).
    assert (inject_Z (Qfloor (x + (1 # 2))) < inject_Z (hi + 1)) by lra.
    rewrite <- Zlt_Qlt in H0. lia.
Qed.

(** C7. Damage roll of the player attack with the constructor's values
    (base 10, variance 0.2, critical chance 0.15, multiplier 2.0): for
    every pair of random draws in [0, 1) the amount is an integer in
    [8, 12] when the roll is not critical and in [16, 24] when it is. *)
Theorem calculateDamage_range (game : bool) (r1 r2 : Q) :
  0 <= r1 -> r1 < 1 -> 0 <= r2 -> r2 < 1 ->
  let d := calculateDamage (CombatSystem_new game) r1 r2 in
  (di_isCritical d = false -> (8 <= di_damage d <= 12)%Z) /\
  (di_isCritical d = true -> (16 <= di_damage d <= 24)%Z).
Proof.
  intros H0 H1 _ _. cbv zeta. unfold calculateDamage.
  cbn [CombatSystem_new baseDamage damageVariance criticalChance
       criticalMultiplier di_damage di_isCritical].
  set (x := 10 * (1 + (r1 - (1 # 2)) * 2 * (2 # 10))).
  assert (Hx : (8 <= Num.round x <= 12)%Z).
  { apply round_bounds; unfold x;
      [change (inject_Z 8) with 8 | change (inject_Z 12) with 12]; lra. }
  destruct (Num.ltb r2 (15 # 100));
    cbn [di_damage di_isCritical]; split; intro E; try discriminate.
  - assert (Hy : Num.round (inject_Z (Num.round x) * 2)
                 = (2 * Num.round x)%Z).
    { unfold Num.round at 1.
      assert (inject_Z (Num.round x) * 2 + (1 # 2)
              == inject_Z (2 * Num.round x) + (1 # 2)) as ->
        by (rewrite inject_Z_mult; change (inject_Z 2) with 2; ring).
      apply Z.le_antisymm.
      - assert (Hf := Qfloor_le (inject_Z (2 * Num.round x) + (1 # 2))).
        assert (inject_Z (Qfloor (inject_Z (2 * Num.round x) + (1 # 2)))
                < inject_Z (2 * Num.round x + 1)).
        { rewrite (inject_Z_plus (2 * Num.round x) 1).
          change (inject_Z 1) with 1. lra. }
        rewrite <- Zlt_Qlt in H. lia.
      - assert (Hf : inject_Z (2 * Num.round x)
                     <= inject_Z (2 * Num.round x) + (1 # 2)) by lra.
        apply Qfloor_resp_le in Hf. rewrite Qfloor_Z in Hf. exact Hf. }
    rewrite Hy. lia.
  - exact Hx.
Qed.

Lemma calculateDamage_range_witness :
  let d := calculateDamage (CombatSystem_new true) (3 # 4) (1 # 10) in
  (di_isCritical d = false -> (8 <= di_damage d <= 12)%Z) /\
  (di_isCritical d = true -> (16 <= di_damage d <= 24)%Z).
Proof.
  apply (@calculateDamage_range true (3 # 4) (1 # 10)); lra.
Defined.

Lemma reach_set_currentAttackIndex v e : reach (Enemy.set_currentAttackIndex v e) = reach e.
Proof. reflexivity. Qed.
Lemma reach_set_frameTime v e : reach (Enemy.set_frameTime v e) = reach e.
Proof. reflexivity. Qed.
Lemma reach_set_currentFrame v e : reach (Enemy.set_currentFrame v e) = reach e.
Proof. reflexivity. Qed.
Lemma reach_set_elapsedTime v e : reach (Enemy.set_elapsedTime v e) = reach e.
Proof. reflexivity. Qed.
Lemma reach_set_totalFrames v e : reach (Enemy.set_totalFrames v e) = reach e.
Proof. reflexivity. Qed.
Lemma reach_set_isPlaying v e : reach (Enemy.set_isPlaying v e) = reach e.
Proof. reflexivity. Qed.
Lemma reach_set_currentAnimation v e : reach (Enemy.set_currentAnimation v e) = reach e.
Proof. reflexivity. Qed.
Lemma reach_set_currentDirection v e : reach (Enemy.set_currentDirection v e) = reach e.
Proof. reflexivity. Qed.
Lemma reach_set_patrolAngle v e : reach (Enemy.set_patrolAngle v e) = reach e.
Proof. reflexivity. Qed.
Lemma reach_set_currentState v e : reach (Enemy.set_currentState v e) = reach e.
Proof. reflexivity. Qed.
Lemma reach_set_detectionTimer v e : reach (Enemy.set_detectionTimer v e) = reach e.
Proof. reflexivity. Qed.
Lemma reach_set_lastKnownPlayerPosition v e : reach (Enemy.set_lastKnownPlayerPosition v e) = reach e.
Proof. reflexivity. Qed.
Lemma reach_set_hasSeenPlayer v e : reach (Enemy.set_hasSeenPlayer v e) = reach e.
Proof. reflexivity. Qed.
Lemma reach_set_searchTimer v e : reach (Enemy.set_searchTimer v e) = reach e.
Proof. reflexivity. Qed.
Lemma reach_set_searchAngle v e : reach (Enemy.set_searchAngle v e) = reach e.
Proof. reflexivity. Qed.
Lemma reach_set_health v e : reach (Enemy.set_health v e) = reach e.
Proof. reflexivity. Qed.
Lemma reach_set_isDead v e : reach (Enemy.set_isDead v e) = reach e.
Proof. reflexivity. Qed.
Lemma reach_set_attackCooldown v e : reach (Enemy.set_attackCooldown v e) = reach e.
Proof. reflexivity. Qed.
Lemma reach_set_isAttacking v e : reach (Enemy.set_isAttacking v e) = reach e.
Proof. reflexivity. Qed.
Lemma reach_set_currentTelegraph v e : reach (Enemy.set_currentTelegraph v e) = reach e.
Proof. reflexivity. Qed.
Lemma reach_set_telegraphCreated v e : reach (Enemy.set_telegraphCreated v e) = reach e.
Proof. reflexivity. Qed.
Lemma reach_set_isHit v e : reach (Enemy.set_isHit v e) = reach e.
Proof. reflexivity. Qed.
Lemma reach_set_deathAnimationComplete v e : reach (Enemy.set_deathAnimationComplete v e) = reach e.
Proof. reflexivity. Qed.
Lemma reach_set_isKnockedBack v e : reach (Enemy.set_isKnockedBack v e) = reach e.
Proof. reflexivity. Qed.
Lemma reach_set_knockbackTimer v e : reach (Enemy.set_knockbackTimer v e) = reach e.
Proof. reflexivity. Qed.
Lemma reach_set_knockbackOrigin v e : reach (Enemy.set_knockbackOrigin v e) = reach e.
Proof. reflexivity. Qed.
Lemma reach_set_knockbackTarget v e : reach (Enemy.set_knockbackTarget v e) = reach e.
Proof. reflexivity. Qed.
Lemma reach_set_scalePunchTimer v e : reach (Enemy.set_scalePunchTimer v e) = reach e.
Proof. reflexivity. Qed.
Lemma reach_set_scale v e : reach (Enemy.set_scale v e) = reach e.
Proof. reflexivity. Qed.

#[export] Hint Rewrite reach_set_currentAttackIndex reach_set_frameTime
  reach_set_currentFrame reach_set_elapsedTime reach_set_totalFrames
  reach_set_isPlaying reach_set_currentAnimation reach_set_currentDirection
  reach_set_patrolAngle reach_set_currentState reach_set_detectionTimer
  reach_set_lastKnownPlayerPosition reach_set_hasSeenPlayer
  reach_set_searchTimer reach_set_searchAngle reach_set_health
  reach_set_isDead reach_set_attackCooldown reach_set_isAttacking
  reach_set_currentTelegraph reach_set_telegraphCreated reach_set_isHit
  reach_set_deathAnimationComplete reach_set_isKnockedBack
  reach_set_knockbackTimer reach_set_knockbackOrigin
  reach_set_knockbackTarget reach_set_scalePunchTimer reach_set_scale :
  enemy_views.

(* ------------------------------------------------------------------ *)
(** ** The freeze gate *)

Section Freeze.
Context {M : MathLib}.

Lemma gtb_lt a b : Num.gtb a b = true <-> b < a.
Proof. apply ltb_lt. Qed.

Lemma update_frozen (k : Game.Tick) (g : Game) :
  0 < freezeTime (sys g) ->
  Game.update k g
  = mkGame (enemies g)
           (set_freezeTime (freezeTime (sys g) - Game.deltaTime k) (sys g)).
Proof.
  intro H. unfold Game.update.
  apply gtb_lt in H. rewrite H. reflexivity.
Qed.

(** C9. While the freeze gate is active an update changes the freeze
    countdown and nothing else: after any run of ticks that each start
    frozen, the enemies are the same objects with the same fields, the
    shared state (player, combat system, fireballs, telegraphs, pending
    timers, simulated time) is the state the freeze began in but for
    [freezeTime], and [freezeTime] went down by the time of the ticks.
    The tick that ends the freeze spends its whole [deltaTime] on the
    countdown: nothing is caught up afterwards. *)
Theorem freeze_changes_only_countdown (ks : list Game.Tick) (g : Game) :
  frozen_throughout ks g ->
  enemies (Game.run ks g) = enemies g
  /\ sys (Game.run ks g)
     = set_freezeTime (freezeTime (sys (Game.run ks g))) (sys g)
  /\ freezeTime (sys (Game.run ks g))
     == freezeTime (sys g) - total_time ks.
Proof.
  revert g. induction ks as [|k ks IH]; intros g H.
  - simpl. repeat split. + destruct g as [es s]; destruct s; reflexivity.
    + ring.
  - destruct H as [Hf Hrest]. simpl in Hrest |- *.
    rewrite (update_frozen k g Hf) in Hrest |- *.
    set (g' := mkGame (enemies g)
                 (set_freezeTime (freezeTime (sys g) - Game.deltaTime k)
                                 (sys g))) in *.
    destruct (IH g' Hrest) as (He & Hs & Ht).
    repeat split.
    + exact He.
    + rewrite Hs at 1. reflexivity.
    + rewrite Ht. unfold g'. simpl. ring.
Qed.

End Freeze.

Lemma freeze_changes_only_countdown_witness :
  enemies (Game.run (M := Sample.M) [freeze_tick; freeze_tick] frozen_game)
  = enemies frozen_game
  /\ sys (Game.run (M := Sample.M) [freeze_tick; freeze_tick] frozen_game)
     = set_freezeTime
         (freezeTime
            (sys (Game.run (M := Sample.M) [freeze_tick; freeze_tick]
                           frozen_game)))
         (sys frozen_game)
  /\ freezeTime
       (sys (Game.run (M := Sample.M) [freeze_tick; freeze_tick] frozen_game))
     == freezeTime (sys frozen_game)
        - total_time [freeze_tick; freeze_tick].
Proof.
  apply (@freeze_changes_only_countdown Sample.M
           [freeze_tick; freeze_tick] frozen_game).
  simpl. repeat split; vm_compute; reflexivity.
Defined.

(* ------------------------------------------------------------------ *)
(** ** Damage refused during the hit reaction *)

Section TakeDamage.
Context {M : MathLib}.

(** C10. [takeDamage] does nothing at all on an enemy that is dead or
    playing its hit reaction: the enemy and the shared state come back
    unchanged, whatever the amount, so the blow is discarded, there is
    no switch to CHASE and no death. *)
Theorem takeDamage_ignored_while_hit
        (amount : Q) (attacker : option Vector3) (e : Enemy.t) (s : Sys) :
  Enemy.isDead e = true \/ Enemy.isHit e = true ->
  Enemy.takeDamage amount attacker e s = (e, s).
Proof.
  intros [H | H]; unfold Enemy.takeDamage; rewrite H;
    [reflexivity | rewrite orb_true_r; reflexivity].
Qed.

End TakeDamage.

Lemma takeDamage_ignored_while_hit_witness :
  Enemy.takeDamage (M := Sample.M) 1000 (Some (vec3 1 (7 # 10) 0))
                   stunned_grunt Sample.world
  = (stunned_grunt, Sample.world).
Proof.
  apply (@takeDamage_ignored_while_hit Sample.M 1000
           (Some (vec3 1 (7 # 10) 0)) stunned_grunt Sample.world).
  right. vm_compute. reflexivity.
Defined.

(* ------------------------------------------------------------------ *)
(** ** Perception *)

Section Perception.
Context {M : MathLib}.

(** C6. [canSeePlayer] answers [false] without a target and when the
    target is farther than [detectionRange]; otherwise it answers
    [true] exactly when the angle between the forward vector (patrol
    tangent while patrolling, facing axis otherwise) and the horizontal
    direction to the target, the clamped arc cosine of their dot
    product in degrees, is at most [visionAngle / 2]. *)
Theorem canSeePlayer_spec (p : Vector3) (e : Enemy.t) :
  Enemy.canSeePlayer p e = true
  <-> Enemy.target e = true
      /\ ~ Enemy.detectionRange e < V3.distanceTo (Enemy.position e) p
      /\ viewAngle p e <= Enemy.visionAngle e / 2.
Proof.
  unfold Enemy.canSeePlayer, viewAngle, directionTo, forwardVector.
  destruct (Enemy.target e); simpl.
  2:{ split; [discriminate | intros (H & _); discriminate]. }
  destruct (Num.gtb (V3.distanceTo (Enemy.position e) p)
                    (Enemy.detectionRange e)) eqn:Hd.
  - apply gtb_lt in Hd.
    split; [discriminate | intros (_ & H & _); contradiction].
  - assert (Hn : ~ Enemy.detectionRange e
                   < V3.distanceTo (Enemy.position e) p).
    { intro H. apply gtb_lt in H. congruence. }
    rewrite leb_le.
    destruct (Enemy.currentState e); tauto.
Qed.

End Perception.

(* ------------------------------------------------------------------ *)
(** ** Knockback *)

Lemma geb_le a b : Num.geb a b = true <-> b <= a.
Proof. apply leb_le. Qed.

Lemma ltb_false a b : Num.ltb a b = false <-> b <= a.
Proof.
  unfold Num.ltb. rewrite negb_false_iff. apply Qle_bool_iff.
Qed.

(** In the return phase the easing of the code runs from 1 down to 0.8:
    it never comes back under 80% of the distance. *)
Lemma knockbackEase_return_phase (t : Q) :
  3 # 10 <= t -> t <= 1 ->
  8 # 10 <= Enemy.knockbackEase t /\ Enemy.knockbackEase t <= 1.
Proof.
  intros H1 H2. unfold Enemy.knockbackEase.
  apply ltb_false in H1. rewrite H1.
  apply ltb_false in H1.
  assert (E : (t - (3 # 10)) / (7 # 10) == (10 # 7) * (t - (3 # 10)))
    by (field; discriminate).
  rewrite E. split; lra.
Qed.

(** C4, on the code.  With distance 0.6 and duration 0.3, the agent is
    at the full distance 0.6 (not 0.8 * 0.6 = 0.48) when 30% of the
    duration has elapsed, still at 94% of it half way, at 81% just
    before the end, and back on the origin at the end: the return phase
    covers 100% to 80% and the last step is a jump. *)
Theorem knockback_curve_on_code :
  Enemy.knockbackDistance (fst knocked_grunt) == 6 # 10
  /\ Enemy.knockbackDuration (fst knocked_grunt) == 3 # 10
  /\ vx (Enemy.knockbackOrigin (fst knocked_grunt)) == 0
  /\ knocked_x (9 # 100) == - (6 # 10)
  /\ knocked_x (15 # 100) == - ((33 # 35) * (6 # 10))
  /\ knocked_x (29 # 100) == - ((17 # 21) * (6 # 10))
  /\ knocked_x (3 # 10) == 0
  /\ ~ Enemy.knockbackEase (1 # 2) == knockbackEase_spec (1 # 2).
Proof.
  repeat split; try (vm_compute; reflexivity).
  vm_compute. discriminate.
Qed.

(* ------------------------------------------------------------------ *)
(** ** Arrays *)

Section Arrays.
Context {A : Type}.

Lemma length_list_set (i : nat) (x : A) (l : list A) :
  length (list_set i x l) = length l.
Proof.
  revert i; induction l as [|h t IH]; intros [|i]; simpl; auto.
Qed.

Lemma nth_error_list_set_eq (i : nat) (x : A) (l : list A) :
  (i < length l)%nat -> nth_error (list_set i x l) i = Some x.
Proof.
  revert i; induction l as [|h t IH]; intros [|i] H; simpl in *;
    try lia; auto.
  apply IH. lia.
Qed.

Lemma nth_error_list_set_neq (i j : nat) (x : A) (l : list A) :
  i <> j -> nth_error (list_set i x l) j = nth_error l j.
Proof.
  revert i j; induction l as [|h t IH]; intros [|i] [|j] H; simpl;
    try congruence; auto.
Qed.

Lemma length_list_alter (f : A -> A) (i : nat) (l : list A) :
  length (list_alter f i l) = length l.
Proof.
  unfold list_alter. destruct (nth_error l i); auto using length_list_set.
Qed.

Lemma nth_error_list_alter_eq (f : A -> A) (i : nat) (l : list A) :
  nth_error (list_alter f i l) i = option_map f (nth_error l i).
Proof.
  unfold list_alter. destruct (nth_error l i) eqn:E; simpl.
  - apply nth_error_list_set_eq. apply nth_error_Some. congruence.
  - exact E.
Qed.

Lemma nth_error_list_alter_neq (f : A -> A) (i j : nat) (l : list A) :
  i <> j -> nth_error (list_alter f i l) j = nth_error l j.
Proof.
  intro H. unfold list_alter.
  destruct (nth_error l i); auto using nth_error_list_set_neq.
Qed.

Lemma pop_Some (l l' : list A) (x : A) :
  pop l = Some (x, l') -> l = l' ++ [x].
Proof.
  revert l' x; induction l as [|h t IH]; intros l' x H; simpl in H.
  - discriminate.
  - destruct t as [|h' t'].
    + inversion H; subst. reflexivity.
    + destruct (pop (h' :: t')) as [[y t'']|] eqn:E; [|discriminate].
      inversion H; subst. simpl. f_equal. apply IH. reflexivity.
Qed.

Lemma pop_None (l : list A) : pop l = None -> l = [].
Proof.
  induction l as [|h t IH]; simpl; intro H; [reflexivity|].
  destruct t as [|h' t']; [discriminate|].
  destruct (pop (h' :: t')) as [[y t'']|] eqn:E; [discriminate|].
  specialize (IH eq_refl). discriminate.
Qed.

Lemma pop_app (l : list A) (x : A) : pop (l ++ [x]) = Some (x, l).
Proof.
  induction l as [|h t IH]; simpl; [reflexivity|].
  rewrite IH. destruct (t ++ [x]) eqn:E; [|reflexivity].
  destruct t; discriminate.
Qed.

Lemma length_splice1 (i : nat) (l : list A) :
  (i < length l)%nat -> S (length (splice1 i l)) = length l.
Proof.
  revert i; induction l as [|h t IH]; intros [|i] H; simpl in *;
    try lia.
  rewrite IH; lia.
Qed.

Lemma In_splice1 (i : nat) (l : list A) (y : A) :
  In y (splice1 i l) -> In y l.
Proof.
  revert i; induction l as [|h t IH]; intros [|i] H; simpl in *; auto.
  destruct H; eauto.
Qed.

End Arrays.

Lemma indexOf_Some (x : nat) (l : list nat) (i : nat) :
  indexOf x l = Some i -> nth_error l i = Some x.
Proof.
  revert i; induction l as [|h t IH]; intros i H; simpl in H.
  - discriminate.
  - destruct (Nat.eqb x h) eqn:E.
    + inversion H; subst. apply Nat.eqb_eq in E. subst. reflexivity.
    + destruct (indexOf x t) as [j|]; [|discriminate].
      inversion H; subst. simpl. apply IH. reflexivity.
Qed.

Lemma indexOf_None (x : nat) (l : list nat) :
  indexOf x l = None -> ~ In x l.
Proof.
  induction l as [|h t IH]; simpl; intros H Hin; [exact Hin|].
  destruct Hin as [E | E].
  - subst. rewrite Nat.eqb_refl in H. discriminate.
  - destruct (Nat.eqb x h); [discriminate|].
    destruct (indexOf x t); [discriminate|]. exact (IH eq_refl E).
Qed.

Lemma indexOf_In (x : nat) (l : list nat) :
  In x l -> exists i, indexOf x l = Some i.
Proof.
  intro H. destruct (indexOf x l) eqn:E; eauto.
  exfalso. eapply indexOf_None; eauto.
Qed.

Lemma splice1_indexOf (x : nat) (l : list nat) (i : nat) :
  NoDup l -> indexOf x l = Some i ->
  forall y, In y (splice1 i l) <-> In y l /\ y <> x.
Proof.
  revert i; induction l as [|h t IH]; intros i Hnd H y; simpl in H.
  - discriminate.
  - inversion Hnd as [|? ? Hnotin Hnd']; subst.
    destruct (Nat.eqb x h) eqn:E.
    + inversion H; subst. apply Nat.eqb_eq in E. subst. simpl.
      split.
      * intro Hy. split; [auto|]. intro; subst; contradiction.
      * intros [[Hy | Hy] Hne]; [congruence | exact Hy].
    + destruct (indexOf x t) as [j|] eqn:Ej; [|discriminate].
      inversion H; subst. simpl. apply Nat.eqb_neq in E.
      rewrite (IH j Hnd' eq_refl y). intuition congruence.
Qed.

Lemma NoDup_splice1 (i : nat) (l : list nat) :
  NoDup l -> NoDup (splice1 i l).
Proof.
  revert i; induction l as [|h t IH]; intros [|i] H; simpl; auto.
  - inversion H; auto.
  - inversion H; subst. constructor; auto.
    intro Hin. apply In_splice1 in Hin. contradiction.
Qed.

(* ------------------------------------------------------------------ *)
(** ** The fireball pool *)

Section Pool.
Context {M : MathLib}.

Lemma handlePlayerDamage_frame (d : Q) (s : Sys) :
  fireballs (snd (handlePlayerDamage d s)) = fireballs s
  /\ player (snd (handlePlayerDamage d s)) = player s
  /\ telegraphs (snd (handlePlayerDamage d s)) = telegraphs s.
Proof.
  unfold handlePlayerDamage.
  destruct (playerInvulnerable (combat s)); [auto|].
  cbn. destruct (cs_game (combat s)); auto.
Qed.

Lemma handleFireballExplosion_frame (id : nat) (s : Sys) :
  fireballs (FireballManager.handleFireballExplosion id s) = fireballs s
  /\ player (FireballManager.handleFireballExplosion id s) = player s
  /\ telegraphs (FireballManager.handleFireballExplosion id s)
     = telegraphs s.
Proof.
  unfold FireballManager.handleFireballExplosion.
  destruct (FireballManager.fireball id s); [|auto].
  destruct (fm_combatSystem (fireballs s)); [|auto].
  destruct (Fb.isInTelegraphArea _ _); [|auto].
  apply handlePlayerDamage_frame.
Qed.

Lemma pool_inv_weaken (id : nat) (m : FireballManager) :
  pool_inv None m -> pool_inv (Some id) m.
Proof.
  intros (H1 & H2 & H3 & H4 & H5).
  refine (conj H1 (conj H2 (conj H3 (conj H4 _)))).
  intros id' fb Hin _ Hfb. eapply H5; eauto. discriminate.
Qed.

Lemma pool_inv_strengthen (id : nat) (m : FireballManager) :
  pool_inv (Some id) m -> ~ In id (activeFireballs m) -> pool_inv None m.
Proof.
  intros (H1 & H2 & H3 & H4 & H5) Hn.
  refine (conj H1 (conj H2 (conj H3 (conj H4 _)))).
  intros id' fb Hin _ Hfb. eapply (H5 id' fb); eauto.
  intro E; inversion E; subst; contradiction.
Qed.

(** Changing the fields of one fireball in place. *)
Lemma pool_inv_alter (f : Fb.t -> Fb.t) (id : nat) (m : FireballManager) :
  (forall fb, Fb.manager (f fb) = Fb.manager fb) ->
  pool_inv (Some id) m ->
  pool_inv (Some id)
    (FireballManager.set_store (list_alter f id (fm_store m)) m).
Proof.
  intros Hf (H1 & H2 & H3 & H4 & H5).
  unfold pool_inv; simpl. rewrite length_list_alter.
  refine (conj H1 (conj H2 (conj H3 (conj _ _)))).
  - intros id' fb Hfb. destruct (Nat.eq_dec id id') as [->|Hne].
    + rewrite nth_error_list_alter_eq in Hfb.
      destruct (nth_error (fm_store m) id') eqn:E; [|discriminate].
      inversion Hfb; subst. rewrite Hf. eauto.
    + rewrite nth_error_list_alter_neq in Hfb by exact Hne. eauto.
  - intros id' fb Hin Hsk Hfb.
    assert (Hne : id <> id') by congruence.
    rewrite nth_error_list_alter_neq in Hfb by exact Hne.
    eapply H5; eauto.
Qed.

Lemma pool_inv_alter_flags (f : Fb.t -> Fb.t) (id : nat)
      (m : FireballManager) :
  (forall fb, Fb.manager (f fb) = Fb.manager fb
              /\ Fb.isActive (f fb) = Fb.isActive fb
              /\ Fb.hasExploded (f fb) = Fb.hasExploded fb
              /\ Fb.onComplete (f fb) = Fb.onComplete fb) ->
  pool_inv None m ->
  pool_inv None
    (FireballManager.set_store (list_alter f id (fm_store m)) m).
Proof.
  intros Hf Hinv.
  assert (Hw : pool_inv (Some id)
                 (FireballManager.set_store
                    (list_alter f id (fm_store m)) m)).
  { apply pool_inv_alter; [intro fb; apply Hf|].
    apply pool_inv_weaken; exact Hinv. }
  destruct Hw as (H1 & H2 & H3 & H4 & H5).
  destruct Hinv as (_ & _ & _ & _ & H5').
  refine (conj H1 (conj H2 (conj H3 (conj H4 _)))).
  intros id' fb Hin _ Hfb; simpl in *.
  destruct (Nat.eq_dec id id') as [->|Hne].
  - rewrite nth_error_list_alter_eq in Hfb.
    destruct (nth_error (fm_store m) id') as [fb0|] eqn:E; [|discriminate].
    inversion Hfb; subst.
    destruct (Hf fb0) as (_ & Ha & Hb & Hc).
    rewrite Ha, Hb, Hc. eapply (H5' id' fb0); eauto; discriminate.
  - rewrite nth_error_list_alter_neq in Hfb by exact Hne.
    eapply (H5' id' fb); eauto; discriminate.
Qed.

(** [returnFireballToPool] keeps the invariant, and the fireball is in
    the pool afterwards if it was in either array. *)
Lemma pool_inv_return (sk : option nat) (id : nat) (m : FireballManager) :
  pool_inv sk m ->
  pool_inv sk (FireballManager.returnFireballToPool id m)
  /\ ~ In id (activeFireballs (FireballManager.returnFireballToPool id m))
  /\ (In id (fireballPool m ++ activeFireballs m) ->
      In id (fireballPool (FireballManager.returnFireballToPool id m))).
Proof.
  intros (H1 & H2 & H3 & H4 & H5).
  unfold FireballManager.returnFireballToPool.
  destruct (indexOf id (activeFireballs m)) as [i|] eqn:E.
  - assert (Hnd : NoDup (activeFireballs m))
      by (apply NoDup_app_remove_l in H2; exact H2).
    assert (Hi := indexOf_Some _ _ _ E).
    assert (Hlt : (i < length (activeFireballs m))%nat)
      by (apply nth_error_Some; congruence).
    assert (Hsp := splice1_indexOf _ _ _ Hnd E).
    assert (Hin : In id (activeFireballs m))
      by (eapply nth_error_In; eauto).
    unfold pool_inv; simpl.
    refine (conj (conj _ (conj _ (conj _ (conj H4 _)))) (conj _ _)).
    + rewrite length_app. simpl.
      pose proof (length_splice1 i (activeFireballs m) Hlt). lia.
    + rewrite <- app_assoc. simpl.
      apply NoDup_app_remove_l in H2 as Hact.
      assert (Hperm : Permutation
                        (fireballPool m ++ id :: splice1 i (activeFireballs m))
                        (fireballPool m ++ activeFireballs m)).
      { apply Permutation_app_head.
        apply NoDup_Permutation.
        - constructor; [|apply NoDup_splice1; exact Hnd].
          intro Hx. apply Hsp in Hx. tauto.
        - exact Hnd.
        - intro y. simpl. rewrite Hsp.
          destruct (Nat.eq_dec id y); [subst; tauto|].
          intuition congruence. }
      eapply Permutation_NoDup; [symmetry; exact Hperm | exact H2].
    + intros id' Hin'. apply H3.
      rewrite in_app_iff in *. simpl in Hin'. rewrite in_app_iff in Hin'.
      simpl in Hin'. rewrite Hsp in Hin'.
      destruct Hin' as [[Hp | [-> | []]] | [Hp _]]; auto.
    + intros id' fb Hin' Hsk Hfb. apply Hsp in Hin'.
      destruct Hin' as [Hin' _]. exact (H5 id' fb Hin' Hsk Hfb).
    + intro Hx. apply Hsp in Hx. tauto.
    + intros _. rewrite in_app_iff. simpl. auto.
  - assert (Hn := indexOf_None _ _ E).
    refine (conj (conj H1 (conj H2 (conj H3 (conj H4 H5)))) (conj Hn _)).
    intro Hin. rewrite in_app_iff in Hin.
    destruct Hin as [Hin | Hin]; [exact Hin | contradiction].
Qed.

End Pool.

Section PoolSteps.
Context {M : MathLib}.

Lemma fireball_on_fireball (f : Fb.t -> Fb.t) (id : nat) (s : Sys) :
  FireballManager.fireball id (FireballManager.on_fireball f id s)
  = option_map f (FireballManager.fireball id s).
Proof. apply nth_error_list_alter_eq. Qed.

Lemma in_arrays_lt (sk : option nat) (m : FireballManager) (id : nat) :
  pool_inv sk m ->
  nth_error (fm_store m) id = None ->
  ~ In id (fireballPool m ++ activeFireballs m).
Proof.
  intros (_ & _ & H3 & _) Hn Hin. apply H3 in Hin.
  apply nth_error_None in Hn. lia.
Qed.

(** What [removeFireball] does to the pool. *)
Lemma removeFireball_inv (id : nat) (s : Sys) :
  pool_inv (Some id) (fireballs s) ->
  let s' := FireballManager.removeFireball id s in
  pool_inv None (fireballs s')
  /\ (In id (fireballPool (fireballs s) ++ activeFireballs (fireballs s))
      -> In id (fireballPool (fireballs s')))
  /\ ~ In id (activeFireballs (fireballs s'))
  /\ combat s' = combat s /\ player s' = player s.
Proof.
  intros Hinv. cbv zeta. unfold FireballManager.removeFireball.
  set (deact := fun fb => Fb.set_visible false (Fb.set_isActive false fb)).
  set (s1 := FireballManager.on_fireball deact id s).
  assert (H1 : pool_inv (Some id) (fireballs s1)).
  { apply (pool_inv_alter deact id (fireballs s)); [reflexivity | exact Hinv]. }
  destruct (FireballManager.fireball id s1) as [fb|] eqn:E.
  - assert (Hm : Fb.manager fb = true).
    { destruct H1 as (_ & _ & _ & H4 & _). exact (H4 id fb E). }
    rewrite Hm.
    destruct (pool_inv_return (Some id) id (fireballs s1) H1)
      as (Ha & Hb & Hc).
    refine (conj _ (conj _ (conj Hb (conj eq_refl eq_refl)))).
    + apply (pool_inv_strengthen id); assumption.
    + exact Hc.
  - assert (Hn := in_arrays_lt (Some id) (fireballs s1) id H1 E).
    refine (conj _ (conj _ (conj _ (conj eq_refl eq_refl)))).
    + apply (pool_inv_strengthen id); [exact H1|].
      intro Hin. apply Hn. apply in_or_app. right. exact Hin.
    + intro Hin. exfalso. exact (Hn Hin).
    + intro Hin. apply Hn. apply in_or_app. right. exact Hin.
Qed.

Lemma removeFireballTelegraph_frame (id : nat) (s : Sys) :
  let s' := FireballManager.removeFireballTelegraph id s in
  combat s' = combat s /\ player s' = player s
  /\ fm_combatSystem (fireballs s') = fm_combatSystem (fireballs s)
  /\ (pool_inv (Some id) (fireballs s) -> pool_inv (Some id) (fireballs s'))
  /\ fireballPool (fireballs s') = fireballPool (fireballs s)
  /\ activeFireballs (fireballs s') = activeFireballs (fireballs s)
  /\ (forall fb, FireballManager.fireball id s = Some fb ->
        exists fb', FireballManager.fireball id s' = Some fb'
                    /\ same_shot fb fb'
                    /\ Fb.hasExploded fb' = Fb.hasExploded fb).
Proof.
  cbv zeta. unfold FireballManager.removeFireballTelegraph.
  destruct (FireballManager.fireball id s) as [fb|] eqn:E.
  2:{ refine (conj eq_refl (conj eq_refl (conj eq_refl
                (conj (fun H => H) (conj eq_refl (conj eq_refl _)))))).
      intros fb H; discriminate. }
  destruct (Fb.telegraph fb) as [tid|].
  2:{ refine (conj eq_refl (conj eq_refl (conj eq_refl
                (conj (fun H => H) (conj eq_refl (conj eq_refl _)))))).
      intros fb0 H. inversion H; subst.
      exists fb0. repeat split; auto. }
  refine (conj eq_refl (conj eq_refl (conj eq_refl
            (conj _ (conj eq_refl (conj eq_refl _)))))).
  - intro Hinv.
    apply (pool_inv_alter (Fb.set_telegraph None) id (fireballs s));
      [reflexivity | exact Hinv].
  - intros fb0 H. inversion H; subst.
    exists (Fb.set_telegraph None fb0). split.
    + unfold FireballManager.fireball in *. simpl.
      rewrite nth_error_list_alter_eq. rewrite E. reflexivity.
    + repeat split.
Qed.

(** What [triggerGroundImpact] does to the pool. *)
Lemma triggerGroundImpact_inv (id : nat) (s : Sys) :
  pool_inv (Some id) (fireballs s) ->
  let s' := FireballManager.triggerGroundImpact id s in
  pool_inv (Some id) (fireballs s')
  /\ (forall fb, FireballManager.fireball id s = Some fb ->
                 Fb.hasExploded fb = false ->
        pool_inv None (fireballs s')
        /\ (In id (fireballPool (fireballs s)
                   ++ activeFireballs (fireballs s))
            -> In id (fireballPool (fireballs s')))
        /\ ~ In id (activeFireballs (fireballs s'))).
Proof.
  intro Hinv. cbv zeta. unfold FireballManager.triggerGroundImpact.
  destruct (FireballManager.fireball id s) as [fb|] eqn:E.
  2:{ split; [exact Hinv | intros fb H; discriminate]. }
  destruct (Fb.hasExploded fb) eqn:Hx.
  { split; [exact Hinv | intros fb0 H1 H2].
    inversion H1; subst. congruence. }
  set (s1 := FireballManager.on_fireball (Fb.set_hasExploded true) id s).
  assert (H1 : pool_inv (Some id) (fireballs s1)).
  { apply (pool_inv_alter (Fb.set_hasExploded true) id (fireballs s));
      [reflexivity | exact Hinv]. }
  destruct (removeFireballTelegraph_frame id s1)
    as (_ & _ & _ & H2 & Hp2 & Ha2 & _).
  set (s2 := FireballManager.removeFireballTelegraph id s1) in *.
  specialize (H2 H1).
  set (s3 := if Fb.onComplete fb
             then FireballManager.handleFireballExplosion id s2 else s2).
  assert (H3 : fireballs s3 = fireballs s2).
  { unfold s3. destruct (Fb.onComplete fb); [|reflexivity].
    apply handleFireballExplosion_frame. }
  assert (H3' : pool_inv (Some id) (fireballs s3)) by (rewrite H3; exact H2).
  destruct (removeFireball_inv id s3 H3') as (Ha & Hb & Hc & _).
  split.
  - apply pool_inv_weaken. exact Ha.
  - intros _ _ _. refine (conj Ha (conj _ Hc)).
    intro Hin. apply Hb. rewrite H3, Hp2, Ha2. exact Hin.
Qed.

(** What [explode] does to the pool. *)
Lemma explode_inv (id : nat) (s : Sys) :
  pool_inv (Some id) (fireballs s) ->
  let s' := FireballManager.explode id s in
  pool_inv None (fireballs s')
  /\ (In id (fireballPool (fireballs s) ++ activeFireballs (fireballs s))
      -> In id (fireballPool (fireballs s')))
  /\ ~ In id (activeFireballs (fireballs s')).
Proof.
  intro Hinv. cbv zeta. unfold FireballManager.explode.
  destruct (FireballManager.fireball id s) as [fb|] eqn:E.
  - destruct (Fb.hasExploded fb) eqn:Hx.
    + destruct (removeFireball_inv id s Hinv) as (Ha & Hb & Hc & _).
      auto.
    + destruct (triggerGroundImpact_inv id s Hinv) as (Ht & Hret).
      destruct (Hret fb E Hx) as (_ & Hin1 & _).
      destruct (removeFireball_inv id _ Ht) as (Ha & Hb & Hc & _).
      refine (conj Ha (conj _ Hc)).
      intro Hin. apply Hb. apply in_or_app. left. apply Hin1. exact Hin.
  - assert (Hn := in_arrays_lt (Some id) (fireballs s) id Hinv E).
    refine (conj _ (conj _ _)).
    + apply (pool_inv_strengthen id); [exact Hinv|].
      intro Hin. apply Hn. apply in_or_app. right. exact Hin.
    + intro Hin. exfalso. exact (Hn Hin).
    + intro Hin. apply Hn. apply in_or_app. right. exact Hin.
Qed.

End PoolSteps.

Section PoolOps.
Context {M : MathLib}.

(** One fireball's [update]: the invariant is kept, and a fireball in
    flight whose lifetime has run out or that has reached the ground is
    back in the pool. *)
Lemma Fireball_update_inv (deltaTime : Q) (id : nat) (s : Sys) :
  pool_inv None (fireballs s) ->
  let s' := FireballManager.Fireball_update deltaTime id s in
  pool_inv None (fireballs s')
  /\ (forall fb,
        In id (activeFireballs (fireballs s)) ->
        FireballManager.fireball id s = Some fb ->
        Fb.maxLifetime fb <= Fb.lifetime fb + deltaTime
        \/ vy (Fb.position fb) + vy (Fb.velocity fb) * deltaTime <= 0 ->
        In id (fireballPool (fireballs s'))
        /\ ~ In id (activeFireballs (fireballs s'))).
Proof.
  intro Hinv. cbv zeta. unfold FireballManager.Fireball_update.
  destruct (FireballManager.fireball id s) as [fb|] eqn:E.
  2:{ split; [exact Hinv | intros fb _ H; discriminate]. }
  destruct (Fb.isActive fb) eqn:Hact; cbn [negb].
  2:{ split; [exact Hinv|]. intros fb0 Hin H0 _. inversion H0; subst.
      destruct Hinv as (_ & _ & _ & _ & H5).
      destruct (H5 id fb0 Hin ltac:(discriminate) E) as (Ha & _).
      congruence. }
  set (s1 := FireballManager.on_fireball
               (fun fb0 => Fb.set_lifetime (Fb.lifetime fb0 + deltaTime) fb0)
               id s).
  assert (H1 : pool_inv (Some id) (fireballs s1)).
  { apply (pool_inv_alter _ id (fireballs s)); [reflexivity|].
    apply pool_inv_weaken. exact Hinv. }
  destruct (Num.geb (Fb.lifetime fb + deltaTime) (Fb.maxLifetime fb))
    eqn:Hlife.
  { destruct (explode_inv id s1 H1) as (Ha & Hb & Hc).
    split; [exact Ha|]. intros fb0 Hin _ _. split; [|exact Hc].
    apply Hb. apply in_or_app. right. exact Hin. }
  set (pos := V3.add (Fb.position fb)
                     (V3.multiplyScalar (Fb.velocity fb) deltaTime)).
  set (s2 := FireballManager.on_fireball (Fb.set_position pos) id s1).
  assert (H2 : pool_inv (Some id) (fireballs s2)).
  { apply (pool_inv_alter _ id (fireballs s1)); [reflexivity | exact H1]. }
  assert (E2 : FireballManager.fireball id s2
               = Some (Fb.set_position pos
                         (Fb.set_lifetime (Fb.lifetime fb + deltaTime) fb))).
  { unfold s2, s1. rewrite !fireball_on_fireball, E. reflexivity. }
  destruct (Num.leb (vy pos) 0 && negb (Fb.hasExploded fb)) eqn:Hground.
  { apply andb_true_iff in Hground. destruct Hground as [_ Hx].
    apply negb_true_iff in Hx.
    destruct (triggerGroundImpact_inv id s2 H2) as (_ & Hret).
    destruct (Hret _ E2 Hx) as (Ha & Hb & Hc).
    split; [exact Ha|]. intros fb0 Hin _ _. split; [|exact Hc].
    apply Hb. apply in_or_app. right. exact Hin. }
  assert (Hflight : forall fb0,
             In id (activeFireballs (fireballs s)) ->
             Some fb = Some fb0 ->
             Fb.maxLifetime fb0 <= Fb.lifetime fb0 + deltaTime
             \/ vy (Fb.position fb0) + vy (Fb.velocity fb0) * deltaTime <= 0
             -> False).
  { intros fb0 Hin H0 Hor. inversion H0; subst fb0.
    destruct Hinv as (_ & _ & _ & _ & H5).
    destruct (H5 id fb Hin ltac:(discriminate) E) as (_ & Hx & _).
    destruct Hor as [Hl | Hg].
    - apply geb_le in Hl. congruence.
    - rewrite Hx in Hground. cbn [negb] in Hground.
      rewrite andb_true_r in Hground.
      assert (Hle : vy pos <= 0) by (unfold pos; simpl; exact Hg).
      apply leb_le in Hle. congruence. }
  assert (H2n : pool_inv None (fireballs s2)).
  { unfold s2, s1.
    apply (pool_inv_alter_flags _ id); [intro; repeat split|].
    apply (pool_inv_alter_flags _ id); [intro; repeat split|].
    exact Hinv. }
  destruct (Fb.isPlaying fb).
  - destruct (Num.geb (Fb.elapsedTime fb + deltaTime) (Fb.frameTime fb)).
    + split; [|intros fb0 Hin H0 Hor; exfalso; eauto].
      apply (pool_inv_alter_flags _ id); [intro; repeat split | exact H2n].
    + split; [|intros fb0 Hin H0 Hor; exfalso; eauto].
      apply (pool_inv_alter_flags _ id); [intro; repeat split | exact H2n].
  - split; [exact H2n | intros fb0 Hin H0 Hor; exfalso; eauto].
Qed.

Lemma forEach_active_inv (fuel k : nat) (deltaTime : Q) (s : Sys) :
  pool_inv None (fireballs s) ->
  pool_inv None
    (fireballs (FireballManager.forEach_active fuel k deltaTime s)).
Proof.
  revert k s. induction fuel as [|fuel IH]; intros k s H; simpl.
  - exact H.
  - destruct (nth_error (activeFireballs (fireballs s)) k); [|exact H].
    apply IH. apply Fireball_update_inv. exact H.
Qed.

Lemma update_inv (deltaTime : Q) (s : Sys) :
  pool_inv None (fireballs s) ->
  pool_inv None (fireballs (FireballManager.update deltaTime s)).
Proof. apply forEach_active_inv. Qed.

Lemma telegraphTimeout_inv (t : Timer) (s : Sys) :
  pool_inv None (fireballs s) ->
  pool_inv None (fireballs (FireballManager.telegraphTimeout t s)).
Proof.
  intro H. unfold FireballManager.telegraphTimeout.
  destruct (FireballManager.fireball (tmr_fireball t) s); [|exact H].
  destruct (Fb.isActive t0 && negb (Fb.hasExploded t0)); [|exact H].
  simpl.
  apply (pool_inv_alter_flags _ (tmr_fireball t) (fireballs s));
    [intro; repeat split | exact H].
Qed.

(** A launch takes the last pooled fireball and makes it the last
    active one; with an empty pool it changes nothing. *)
Lemma launchFireball_arrays (target : Vector3) (s : Sys) :
  let s' := snd (FireballManager.launchFireball target s) in
  length (fm_store (fireballs s')) = length (fm_store (fireballs s))
  /\ match pop (fireballPool (fireballs s)) with
     | None => s' = s
     | Some (id, pool) =>
         fireballPool (fireballs s') = pool
         /\ activeFireballs (fireballs s')
            = activeFireballs (fireballs s) ++ [id]
     end.
Proof.
  cbv zeta. unfold FireballManager.launchFireball.
  destruct (pop (fireballPool (fireballs s))) as [[id pool]|];
    [|split; reflexivity].
  simpl snd. unfold FireballManager.Fireball_launch.
  set (s1 := if fm_telegraphManager (fireballs s) then _ else _).
  assert (H1 : length (fm_store (fireballs s1))
               = length (fm_store (fireballs s))
               /\ fireballPool (fireballs s1) = pool
               /\ activeFireballs (fireballs s1)
                  = activeFireballs (fireballs s) ++ [id]).
  { unfold s1. destruct (fm_telegraphManager (fireballs s)); simpl;
      rewrite ?length_list_alter; auto. }
  destruct H1 as (Hl & Hp & Ha).
  destruct (FireballManager.fireball id s1) as [fb|]; [|auto].
  destruct (Fb.telegraphManager fb); simpl; rewrite length_list_alter; auto.
Qed.

Lemma launchFireball_inv (target : Vector3) (s : Sys) :
  pool_inv None (fireballs s) ->
  pool_inv None (fireballs (snd (FireballManager.launchFireball target s))).
Proof.
  intro Hinv. unfold FireballManager.launchFireball.
  destruct (pop (fireballPool (fireballs s))) as [[id pool]|] eqn:Epop;
    [|exact Hinv].
  apply pop_Some in Epop. simpl snd.
  set (m1 := FireballManager.set_arrays pool
               (activeFireballs (fireballs s) ++ [id]) (fireballs s)).
  assert (Hm1 : pool_inv (Some id) m1).
  { destruct Hinv as (H1 & H2 & H3 & H4 & H5). rewrite Epop in *.
    unfold pool_inv, m1; simpl.
    assert (Hperm : Permutation
                      ((pool ++ [id]) ++ activeFireballs (fireballs s))
                      (pool ++ activeFireballs (fireballs s) ++ [id])).
    { rewrite <- app_assoc. apply Permutation_app_head.
      apply Permutation_app_comm. }
    refine (conj _ (conj _ (conj _ (conj H4 _)))).
    - rewrite !length_app in *. simpl in *. lia.
    - eapply Permutation_NoDup; eauto.
    - intros id' Hin. apply H3.
      eapply Permutation_in; [symmetry; exact Hperm | exact Hin].
    - intros id' fb Hin Hsk Hfb. apply in_app_or in Hin.
      destruct Hin as [Hin | [-> | []]]; [|congruence].
      apply (H5 id' fb Hin ltac:(discriminate) Hfb). }
  set (s1 := set_fireballs m1 s).
  set (s2 := if fm_telegraphManager (fireballs s)
             then FireballManager.on_fireball
                    (Fb.set_telegraphManager true) id s1
             else s1).
  assert (H2 : pool_inv (Some id) (fireballs s2)
               /\ In id (activeFireballs (fireballs s2))).
  { unfold s2. destruct (fm_telegraphManager (fireballs s)).
    - split.
      + apply (pool_inv_alter _ id m1); [reflexivity | exact Hm1].
      + simpl. apply in_or_app. right. left. reflexivity.
    - split; [exact Hm1|]. simpl. apply in_or_app. right. left. reflexivity. }
  destruct H2 as (H2 & Hin2).
  unfold FireballManager.Fireball_launch.
  destruct (FireballManager.fireball id s2) as [fb|] eqn:E.
  2:{ exfalso. eapply (in_arrays_lt (Some id) (fireballs s2) id H2 E).
      apply in_or_app. right. exact Hin2. }
  set (launched := fun fb0 : Fb.t => Fb.set_lifetime 0 _).
  assert (H3 : pool_inv None
                 (fireballs (FireballManager.on_fireball launched id s2))).
  { assert (Hw : pool_inv (Some id)
                   (fireballs (FireballManager.on_fireball launched id s2))).
    { apply (pool_inv_alter _ id (fireballs s2)); [reflexivity | exact H2]. }
    destruct Hw as (W1 & W2 & W3 & W4 & W5).
    refine (conj W1 (conj W2 (conj W3 (conj W4 _)))).
    intros id' fb' Hin _ Hfb.
    destruct (Nat.eq_dec id id') as [<-|Hne].
    - simpl in Hfb. rewrite nth_error_list_alter_eq in Hfb.
      unfold FireballManager.fireball in E. rewrite E in Hfb.
      inversion Hfb; subst. repeat split.
    - apply (W5 id' fb' Hin); [congruence | exact Hfb]. }
  destruct (Fb.telegraphManager fb); exact H3.
Qed.

Lemma create_loop_inv (n : nat) (m : FireballManager) :
  pool_inv None m ->
  pool_inv None (FireballManager.create_loop n m)
  /\ length (fm_store (FireballManager.create_loop n m))
     = (length (fm_store m) + n)%nat
  /\ maxFireballs (FireballManager.create_loop n m) = maxFireballs m.
Proof.
  revert m. induction n as [|n IH]; intros m Hinv; simpl.
  - split; [exact Hinv | split; [lia | reflexivity]].
  - match goal with
    | |- context [FireballManager.create_loop n ?m'] =>
        destruct (IH m') as (Ha & Hb & Hc)
    end.
    + destruct Hinv as (H1 & H2 & H3 & H4 & H5).
      unfold pool_inv; simpl.
      refine (conj _ (conj _ (conj _ (conj _ _)))).
      * rewrite !length_app. simpl. lia.
      * rewrite <- app_assoc.
        eapply Permutation_NoDup;
          [apply Permutation_app_head; apply Permutation_app_comm|].
        rewrite app_assoc. apply NoDup_app; [exact H2 | |].
        -- constructor; [intros [] | constructor].
        -- intros x Hin [<- | []]. apply H3 in Hin. lia.
      * intros id Hin. rewrite length_app. simpl.
        rewrite <- app_assoc in Hin. apply in_app_or in Hin.
        destruct Hin as [Hin | [<- | Hin]].
        -- assert (id < length (fm_store m))%nat; [|lia].
           apply H3. apply in_or_app. left. exact Hin.
        -- lia.
        -- assert (id < length (fm_store m))%nat; [|lia].
           apply H3. apply in_or_app. right. exact Hin.
      * intros id fb Hfb.
        destruct (Nat.lt_ge_cases id (length (fm_store m))) as [Hlt | Hge].
        -- rewrite nth_error_app1 in Hfb by exact Hlt. eauto.
        -- rewrite nth_error_app2 in Hfb by exact Hge.
           destruct (id - length (fm_store m))%nat as [|k];
             simpl in Hfb; [|destruct k; discriminate].
           inversion Hfb. reflexivity.
      * intros id fb Hin Hsk Hfb.
        assert (Hlt : (id < length (fm_store m))%nat)
          by (apply H3; apply in_or_app; right; exact Hin).
        rewrite nth_error_app1 in Hfb by exact Hlt. eauto.
    + split; [exact Ha|]. split; [|exact Hc].
      rewrite Hb. simpl. rewrite length_app. simpl. lia.
Qed.

Lemma pool_step_inv (op : PoolOp) (s : Sys) :
  pool_inv None (fireballs s) -> pool_inv None (fireballs (pool_step op s)).
Proof.
  intro H. destruct op; simpl.
  - apply launchFireball_inv; exact H.
  - apply update_inv; exact H.
  - apply telegraphTimeout_inv; exact H.
  - exact H.
Qed.

Lemma pool_run_inv (ops : list PoolOp) (s : Sys) :
  pool_inv None (fireballs s) -> pool_inv None (fireballs (pool_run ops s)).
Proof.
  revert s. induction ops as [|op ops IH]; intros s H; simpl; auto.
  apply IH. apply pool_step_inv. exact H.
Qed.

End PoolOps.

Section PoolShape.
Context {M : MathLib}.

Lemma shape_on_fireball (f : Fb.t -> Fb.t) (id : nat) (s : Sys) :
  pool_shape (FireballManager.on_fireball f id s) = pool_shape s.
Proof. unfold pool_shape. simpl. rewrite length_list_alter. reflexivity. Qed.

Lemma shape_return (id : nat) (s : Sys) :
  pool_shape
    (set_fireballs (FireballManager.returnFireballToPool id (fireballs s)) s)
  = pool_shape s.
Proof.
  unfold pool_shape, FireballManager.returnFireballToPool. simpl.
  destruct (indexOf id (activeFireballs (fireballs s))); reflexivity.
Qed.

Lemma shape_removeFireball (id : nat) (s : Sys) :
  pool_shape (FireballManager.removeFireball id s) = pool_shape s.
Proof.
  unfold FireballManager.removeFireball.
  match goal with
  | |- context [FireballManager.fireball id ?s1] =>
      destruct (FireballManager.fireball id s1) as [fb|];
      [destruct (Fb.manager fb); [rewrite shape_return|]|];
      apply shape_on_fireball
  end.
Qed.

Lemma shape_removeFireballTelegraph (id : nat) (s : Sys) :
  pool_shape (FireballManager.removeFireballTelegraph id s) = pool_shape s.
Proof.
  unfold FireballManager.removeFireballTelegraph.
  destruct (FireballManager.fireball id s) as [fb|]; [|reflexivity].
  destruct (Fb.telegraph fb); [|reflexivity].
  rewrite shape_on_fireball. reflexivity.
Qed.

Lemma shape_handleFireballExplosion (id : nat) (s : Sys) :
  pool_shape (FireballManager.handleFireballExplosion id s) = pool_shape s.
Proof.
  unfold pool_shape.
  destruct (handleFireballExplosion_frame id s) as (-> & _). reflexivity.
Qed.

Lemma shape_triggerGroundImpact (id : nat) (s : Sys) :
  pool_shape (FireballManager.triggerGroundImpact id s) = pool_shape s.
Proof.
  unfold FireballManager.triggerGroundImpact.
  destruct (FireballManager.fireball id s) as [fb|]; [|reflexivity].
  destruct (Fb.hasExploded fb); [reflexivity|].
  rewrite shape_removeFireball.
  destruct (Fb.onComplete fb);
    rewrite ?shape_handleFireballExplosion, shape_removeFireballTelegraph,
            shape_on_fireball; reflexivity.
Qed.

Lemma shape_explode (id : nat) (s : Sys) :
  pool_shape (FireballManager.explode id s) = pool_shape s.
Proof.
  unfold FireballManager.explode.
  destruct (FireballManager.fireball id s) as [fb|]; [|reflexivity].
  destruct (Fb.hasExploded fb);
    rewrite shape_removeFireball, ?shape_triggerGroundImpact; reflexivity.
Qed.

Lemma shape_Fireball_update (deltaTime : Q) (id : nat) (s : Sys) :
  pool_shape (FireballManager.Fireball_update deltaTime id s) = pool_shape s.
Proof.
  unfold FireballManager.Fireball_update.
  destruct (FireballManager.fireball id s) as [fb|]; [|reflexivity].
  destruct (negb (Fb.isActive fb)); [reflexivity|].
  destruct (Num.geb _ _).
  { rewrite shape_explode, shape_on_fireball. reflexivity. }
  destruct (_ && _).
  { rewrite shape_triggerGroundImpact, !shape_on_fireball. reflexivity. }
  destruct (Fb.isPlaying fb); [destruct (Num.geb _ _)|];
    rewrite !shape_on_fireball; reflexivity.
Qed.

Lemma shape_pool_step (op : PoolOp) (s : Sys) :
  pool_shape (pool_step op s) = pool_shape s.
Proof.
  destruct op; simpl.
  - unfold pool_shape.
    destruct (launchFireball_arrays target s) as (Hl & _).
    rewrite Hl. f_equal.
    unfold FireballManager.launchFireball.
    destruct (pop _) as [[id pool]|]; [|reflexivity]. simpl snd.
    unfold FireballManager.Fireball_launch.
    match goal with
    | |- context [FireballManager.fireball id ?s1] =>
        assert (H1 : maxFireballs (fireballs s1) = maxFireballs (fireballs s))
          by (destruct (fm_telegraphManager (fireballs s)); reflexivity);
        destruct (FireballManager.fireball id s1) as [fb|]; [|exact H1];
        destruct (Fb.telegraphManager fb); exact H1
    end.
  - unfold FireballManager.update.
    generalize (length (activeFireballs (fireballs s))) at 1.
    generalize 0%nat. intros k fuel. revert k s.
    induction fuel as [|fuel IH]; intros k s; simpl; [reflexivity|].
    destruct (nth_error _ k); [|reflexivity].
    rewrite IH. apply shape_Fireball_update.
  - unfold FireballManager.telegraphTimeout.
    destruct (FireballManager.fireball _ s) as [fb|]; [|reflexivity].
    destruct (_ && _); [|reflexivity].
    simpl. unfold pool_shape. simpl. rewrite length_list_alter. reflexivity.
  - reflexivity.
Qed.

Lemma shape_pool_run (ops : list PoolOp) (s : Sys) :
  pool_shape (pool_run ops s) = pool_shape s.
Proof.
  revert s; induction ops as [|op ops IH]; intro s; simpl; [reflexivity|].
  rewrite IH. apply shape_pool_step.
Qed.

Lemma pool_inv_empty (n : nat) (cs tm : bool) :
  pool_inv None (mkFM n [] [] [] cs tm).
Proof.
  unfold pool_inv; simpl.
  refine (conj eq_refl (conj (NoDup_nil _) (conj _ (conj _ _)))).
  - intros id [].
  - intros [|id] fb H; discriminate.
  - intros id fb [].
Qed.

Lemma pool_inv_unfilled (m : FireballManager) :
  unfilled_pool m -> pool_inv None m.
Proof.
  destruct m as [n st pool act cs tm]. intros (H1 & H2 & H3).
  cbn in H1, H2, H3. subst. apply pool_inv_empty.
Qed.

(** C8, as the code has it.  From the manager the constructor builds,
    whatever launches, ticks, telegraph timers and other activity come
    [before] [initialize] ends and [after] it, and whether or not the
    texture has [loaded]: the count of pooled plus active fireballs
    never exceeds [maxFireballs].  It is 0 until [initialize] ends and
    for ever when the loading failed, and [maxFireballs] once the pool
    is created; these are all the fireball objects there are, none is
    ever allocated later.  A launch with the pool empty leaves the whole
    state unchanged and returns [undefined], the value a successful
    launch returns as well; a launch with a fireball pooled moves the
    last pooled one to the active array; a fireball in flight whose
    lifetime runs out or that reaches the ground is back in the pool and
    out of the active array when its [update] returns. *)
Theorem pool_bounded (s0 : Sys) (loaded : bool) (before after : list PoolOp) :
  unfilled_pool (fireballs s0) ->
  let pending := pool_run before s0 in
  let s := pool_run after (initialized loaded pending) in
  let m := fireballs s in
  pool_count (fireballs pending) = 0%nat
  /\ (pool_count m <= maxFireballs m)%nat
  /\ pool_count m = (if loaded then maxFireballs m else 0%nat)
  /\ length (fm_store m) = pool_count m
  /\ maxFireballs m = maxFireballs (fireballs s0)
  /\ (forall target,
        fireballPool m = [] ->
        FireballManager.launchFireball target s = (js_undefined, s))
  /\ (forall target id pool,
        fireballPool m = pool ++ [id] ->
        let r := FireballManager.launchFireball target s in
        fst r = js_undefined
        /\ fireballPool (fireballs (snd r)) = pool
        /\ activeFireballs (fireballs (snd r)) = activeFireballs m ++ [id]
        /\ length (fm_store (fireballs (snd r))) = length (fm_store m))
  /\ (forall deltaTime id fb,
        In id (activeFireballs m) ->
        FireballManager.fireball id s = Some fb ->
        Fb.maxLifetime fb <= Fb.lifetime fb + deltaTime
        \/ vy (Fb.position fb) + vy (Fb.velocity fb) * deltaTime <= 0 ->
        let s' := FireballManager.Fireball_update deltaTime id s in
        In id (fireballPool (fireballs s'))
        /\ ~ In id (activeFireballs (fireballs s'))).
Proof.
  intros Hun. cbv zeta.
  pose proof (pool_inv_unfilled _ Hun) as H0.
  destruct Hun as (Hst & _ & _).
  (* while [initialize] is pending *)
  pose proof (pool_run_inv before s0 H0) as Hp.
  pose proof (shape_pool_run before s0) as Sp.
  set (pending := pool_run before s0) in *.
  unfold pool_shape in Sp. injection Sp as Mp Lp. rewrite Hst in Lp.
  cbn [length] in Lp.
  assert (Cp : pool_count (fireballs pending) = 0%nat).
  { unfold pool_count. destruct Hp as (H1 & _). rewrite H1. exact Lp. }
  (* when it ends *)
  assert (Hi : pool_inv None (fireballs (initialized loaded pending))
               /\ length (fm_store (fireballs (initialized loaded pending)))
                  = (if loaded then maxFireballs (fireballs s0) else 0%nat)
               /\ maxFireballs (fireballs (initialized loaded pending))
                  = maxFireballs (fireballs s0)).
  { unfold initialized, FireballManager.initialize.
    cbn [fireballs set_fireballs].
    destruct loaded; [|exact (conj Hp (conj Lp Mp))].
    destruct (create_loop_inv (maxFireballs (fireballs pending))
                              (fireballs pending) Hp) as (I1 & I2 & I3).
    refine (conj I1 (conj _ _)).
    - rewrite I2, Lp. exact Mp.
    - rewrite I3. exact Mp. }
  destruct Hi as (Hi & Li & Mi).
  (* afterwards *)
  pose proof (pool_run_inv after _ Hi) as Hinv.
  pose proof (shape_pool_run after (initialized loaded pending)) as Sa.
  set (s := pool_run after (initialized loaded pending)) in *.
  unfold pool_shape in Sa. injection Sa as Ma La.
  apply (fun H => eq_trans H Mi) in Ma.
  apply (fun H => eq_trans H Li) in La.
  assert (Cs : pool_count (fireballs s) = length (fm_store (fireballs s))).
  { unfold pool_count. destruct Hinv as (H1 & _). exact H1. }
  split; [exact Cp|].
  split; [rewrite Cs, La, Ma; destruct loaded; lia|].
  split; [rewrite Cs, La, Ma; reflexivity|].
  split; [symmetry; exact Cs|].
  split; [exact Ma|].
  refine (conj _ (conj _ _)).
  - intros target Hempty. unfold FireballManager.launchFireball.
    rewrite Hempty. reflexivity.
  - intros target id pool Hpool. cbv zeta.
    destruct (launchFireball_arrays target s) as (Hlen' & Harr).
    rewrite Hpool, pop_app in Harr. destruct Harr as (Hpl & Ha).
    refine (conj _ (conj Hpl (conj Ha Hlen'))).
    unfold FireballManager.launchFireball. rewrite Hpool, pop_app.
    reflexivity.
  - intros deltaTime id fb Hin Hfb Hor.
    destruct (Fireball_update_inv deltaTime id s Hinv) as (_ & Hret).
    exact (Hret fb Hin Hfb Hor).
Qed.

Lemma removeFireball_frame_combat (id : nat) (s : Sys) :
  combat (FireballManager.removeFireball id s) = combat s.
Proof.
  unfold FireballManager.removeFireball.
  match goal with
  | |- context [FireballManager.fireball id ?s1] =>
      destruct (FireballManager.fireball id s1) as [fb|];
      [destruct (Fb.manager fb)|]; reflexivity
  end.
Qed.

Lemma handlePlayerDamage_combat (d : Q) (s : Sys) :
  combat (snd (handlePlayerDamage d s))
  = if playerInvulnerable (combat s) then combat s
    else set_invulnerabilityTimer
           (invulnerabilityDuration (combat s))
           (set_playerInvulnerable true
              (set_playerHealth (playerHealth (combat s) - d) (combat s))).
Proof.
  unfold handlePlayerDamage.
  destruct (playerInvulnerable (combat s)); [reflexivity|].
  cbn. destruct (cs_game (combat s)); reflexivity.
Qed.

(** The combat system after a ground impact: the player's position
    against the telegraph circle decides whether [handlePlayerDamage] is
    called. *)
Lemma triggerGroundImpact_combat (id : nat) (s : Sys) (fb : Fb.t) :
  FireballManager.fireball id s = Some fb ->
  Fb.hasExploded fb = false ->
  Fb.onComplete fb = true ->
  fm_combatSystem (fireballs s) = true ->
  combat (FireballManager.triggerGroundImpact id s)
  = if Fb.isInTelegraphArea (pl_position (player s)) fb
    then combat (snd (handlePlayerDamage (Fb.damage fb) s))
    else combat s.
Proof.
  intros E Hx Hc Hcs. unfold FireballManager.triggerGroundImpact.
  rewrite E, Hx, Hc.
  set (s1 := FireballManager.on_fireball (Fb.set_hasExploded true) id s).
  destruct (removeFireballTelegraph_frame id s1)
    as (Hcomb & Hpl & Hfm & _ & _ & _ & Hfb).
  set (s2 := FireballManager.removeFireballTelegraph id s1) in *.
  destruct (Hfb (Fb.set_hasExploded true fb)) as (fb' & E' & Hshot & _).
  { unfold s1. rewrite fireball_on_fireball, E. reflexivity. }
  rewrite removeFireball_frame_combat.
  unfold FireballManager.handleFireballExplosion.
  rewrite E', Hfm. simpl fm_combatSystem. rewrite Hcs, Hpl. simpl player.
  destruct Hshot as (Ht & Hr & Hd). simpl in Ht, Hr, Hd.
  assert (Harea : Fb.isInTelegraphArea (pl_position (player s)) fb'
                  = Fb.isInTelegraphArea (pl_position (player s)) fb).
  { unfold Fb.isInTelegraphArea. rewrite <- Ht, <- Hr. reflexivity. }
  rewrite Harea.
  destruct (Fb.isInTelegraphArea (pl_position (player s)) fb).
  - rewrite !handlePlayerDamage_combat, Hcomb, <- Hd. reflexivity.
  - exact Hcomb.
Qed.

End PoolShape.

Section Impact.
Context {M : MathLib}.

(** The test of [isInTelegraphArea] is the distance of the point to the
    landing point against the telegraph radius. *)
Lemma isInTelegraphArea_spec (p : Vector3) (fb : Fb.t) :
  Fb.isInTelegraphArea p fb = true <-> withinTelegraph fb p.
Proof.
  unfold Fb.isInTelegraphArea, withinTelegraph. cbv zeta.
  rewrite leb_le. reflexivity.
Qed.

(** C2, as the code has it.  When a fireball resolves its impact, the
    player's health drops by the fireball's damage if the player's
    position lies within the telegraph radius of the landing point
    (distance to the landing point at most [telegraphRadius]) and the
    player is not in the invulnerability window; if the player stands
    farther than that radius from the landing point, or is invulnerable,
    the combat system is left as it was.  The explosion radius and the
    place of the sprite play no part. *)
Theorem fireball_damage_follows_telegraph (id : nat) (s : Sys) (fb : Fb.t) :
  FireballManager.fireball id s = Some fb ->
  Fb.hasExploded fb = false ->
  Fb.onComplete fb = true ->
  fm_combatSystem (fireballs s) = true ->
  let s' := FireballManager.triggerGroundImpact id s in
  let within := withinTelegraph fb (pl_position (player s)) in
  (within /\ playerInvulnerable (combat s) = false ->
   playerHealth (combat s') = playerHealth (combat s) - Fb.damage fb)
  /\ (~ within \/ playerInvulnerable (combat s) = true ->
      combat s' = combat s)
  /\ (forall radius sprite,
        combat (FireballManager.triggerGroundImpact id
                  (FireballManager.on_fireball
                     (with_footprint radius sprite) id s))
        = combat s').
Proof.
  intros E Hx Hc Hcs. cbv zeta.
  rewrite (triggerGroundImpact_combat id s fb E Hx Hc Hcs).
  rewrite handlePlayerDamage_combat.
  pose proof (isInTelegraphArea_spec (pl_position (player s)) fb) as Hspec.
  refine (conj _ (conj _ _)).
  - intros (Hw & ->). apply Hspec in Hw. rewrite Hw. reflexivity.
  - intros [Hw | ->].
    + destruct (Fb.isInTelegraphArea (pl_position (player s)) fb);
        [|reflexivity].
      exfalso. apply Hw, Hspec. reflexivity.
    + destruct (Fb.isInTelegraphArea _ _); reflexivity.
  - intros radius sprite.
    rewrite (triggerGroundImpact_combat id _ (with_footprint radius sprite fb)).
    + rewrite handlePlayerDamage_combat. reflexivity.
    + rewrite fireball_on_fireball, E. reflexivity.
    + exact Hx.
    + exact Hc.
    + exact Hcs.
Qed.

End Impact.

Lemma fireball_damage_follows_telegraph_witness :
  let s := fireball_in_flight in
  let s' := FireballManager.triggerGroundImpact (M := Sample.M) 14 s in
  playerHealth (combat s')
  = playerHealth (combat s) - Fb.damage flying_fireball.
Proof.
  refine (proj1 (@fireball_damage_follows_telegraph Sample.M 14
                   fireball_in_flight flying_fireball _ _ _ _) _).
  - vm_compute. reflexivity.
  - vm_compute. reflexivity.
  - vm_compute. reflexivity.
  - vm_compute. reflexivity.
  - split; [vm_compute; discriminate | vm_compute; reflexivity].
Defined.

(** C2 as stated fails on an invulnerable player: the fireball lands,
    the player stands on the landing point, well inside the telegraph
    radius, and the health stays what it was. *)
Lemma fireball_spares_invulnerable_player :
  let s := player_just_hit in
  let s' := FireballManager.update (M := Sample.M) (1 # 10) s in
  FireballManager.fireball 14 s = Some flying_fireball
  /\ withinTelegraph (M := Sample.M) flying_fireball
                     (pl_position (player s))
  /\ activeFireballs (fireballs s) = [14%nat]
  /\ activeFireballs (fireballs s') = []
  /\ option_map Fb.hasExploded (FireballManager.fireball 14 s') = Some true
  /\ playerInvulnerable (combat s) = true
  /\ playerHealth (combat s') = playerHealth (combat s).
Proof. vm_compute. repeat split; try reflexivity. discriminate. Qed.

Lemma pool_bounded_witness :
  let pending := pool_run (M := Sample.M) [OpLaunch (vec3 1 0 1); OpUpdate 1]
                          unfilled_world in
  let s := pool_run (M := Sample.M)
             [OpLaunch (vec3 0 0 0); OpUpdate 1; OpLaunch (vec3 3 0 0)]
             (initialized (M := Sample.M) true pending) in
  (pool_count (fireballs s) <= maxFireballs (fireballs s))%nat.
Proof.
  refine (proj1 (proj2 (@pool_bounded Sample.M unfilled_world true
                          [OpLaunch (vec3 1 0 1); OpUpdate 1]
                          [OpLaunch (vec3 0 0 0); OpUpdate 1;
                           OpLaunch (vec3 3 0 0)] _))).
  repeat split.
Defined.

(** C8 as stated fails on the return value: with the pool exhausted the
    launch is dropped and returns [undefined], and so does a launch that
    goes through; the caller is told nothing. *)
Lemma launch_returns_no_rejection :
  fireballPool (fireballs pool_exhausted) = []
  /\ FireballManager.launchFireball (vec3 5 0 0) pool_exhausted
     = (js_undefined, pool_exhausted)
  /\ fireballPool (fireballs Sample.world) <> []
  /\ fst (FireballManager.launchFireball (vec3 5 0 0) Sample.world)
     = fst (FireballManager.launchFireball (vec3 5 0 0) pool_exhausted)
  /\ activeFireballs
       (fireballs (snd (FireballManager.launchFireball (vec3 5 0 0)
                                                       Sample.world)))
     = [14%nat].
Proof.
  refine (conj eq_refl (conj eq_refl (conj _ (conj eq_refl eq_refl)))).
  vm_compute. discriminate.
Qed.

(* ------------------------------------------------------------------ *)
(** ** The attack animation *)

Ltac break_ifs :=
  repeat match goal with
         | |- context [if ?c then _ else _] => destruct c
         end.

Ltac views := autorewrite with enemy_views; try reflexivity.

Section Animation.
Context {M : MathLib}.

Lemma switchAnimation_ident (r : Q) (a : Animation) (e : Enemy.t) :
  ident (Enemy.switchAnimation r a e) = ident e.
Proof.
  unfold Enemy.switchAnimation.
  destruct (negb (Enemy.switches a e)); [reflexivity|].
  destruct a; cbv zeta; views.
Qed.

Lemma switchAnimation_off (r : Q) (a : Animation) (e : Enemy.t) :
  Enemy.switches a e = false -> Enemy.switchAnimation r a e = e.
Proof. intro H. unfold Enemy.switchAnimation. rewrite H. reflexivity. Qed.

Lemma switchAnimation_on (r : Q) (a : Animation) (e : Enemy.t) :
  Enemy.switches a e = true ->
  Enemy.currentAnimation (Enemy.switchAnimation r a e) = a
  /\ Enemy.currentFrame (Enemy.switchAnimation r a e) = 0%Z
  /\ Enemy.telegraphCreated (Enemy.switchAnimation r a e) = false.
Proof.
  intro H. unfold Enemy.switchAnimation. rewrite H.
  destruct a; repeat split.
Qed.

Lemma switches_false (a : Animation) (e : Enemy.t) :
  Enemy.switches a e = false ->
  Enemy.currentAnimation e = a \/ Enemy.currentAnimation e = anim_death.
Proof.
  unfold Enemy.switches.
  destruct (Enemy.currentAnimation e), a; simpl; auto; discriminate.
Qed.

Lemma switchAnimation_leaves_attack (r : Q) (a : Animation) (e : Enemy.t) :
  a <> anim_attack ->
  Enemy.currentAnimation (Enemy.switchAnimation r a e) <> anim_attack.
Proof.
  intro Ha. destruct (Enemy.switches a e) eqn:E.
  - destruct (switchAnimation_on r a e E) as (-> & _). exact Ha.
  - rewrite (switchAnimation_off r a e E).
    destruct (switches_false a e E) as [-> | ->]; [exact Ha | discriminate].
Qed.

Lemma removeAttackTelegraph_frame (e : Enemy.t) (s : Sys) :
  ident (fst (Enemy.removeAttackTelegraph e s)) = ident e
  /\ animState (fst (Enemy.removeAttackTelegraph e s)) = animState e
  /\ log (snd (Enemy.removeAttackTelegraph e s)) = log s
  /\ now (snd (Enemy.removeAttackTelegraph e s)) = now s
  /\ player (snd (Enemy.removeAttackTelegraph e s)) = player s.
Proof.
  unfold Enemy.removeAttackTelegraph.
  destruct (Enemy.currentTelegraph e); repeat split.
Qed.

Lemma max_ge_l (a b : Q) : a <= Num.max a b.
Proof.
  unfold Num.max. destruct (Num.leb a b) eqn:E.
  - apply leb_le. exact E.
  - apply Qle_refl.
Qed.

(** [createAttackTelegraph]: with a telegraph manager, one entry in the
    log for a telegraph of at least 0.3 s. *)
Lemma createAttackTelegraph_outcome (e : Enemy.t) (s : Sys) :
  ident (fst (Enemy.createAttackTelegraph e s)) = ident e
  /\ animState (fst (Enemy.createAttackTelegraph e s)) = animState e
  /\ now (snd (Enemy.createAttackTelegraph e s)) = now s
  /\ player (snd (Enemy.createAttackTelegraph e s)) = player s
  /\ (if Enemy.telegraphManager e
      then exists tid d,
             log (snd (Enemy.createAttackTelegraph e s))
             = (now s, EvTelegraphCreated (Enemy.eid e) tid d) :: log s
             /\ 3 # 10 <= d
      else log (snd (Enemy.createAttackTelegraph e s)) = log s).
Proof.
  unfold Enemy.createAttackTelegraph.
  destruct (Enemy.telegraphManager e); [|repeat split].
  cbn [negb].
  destruct (removeAttackTelegraph_frame e s) as (Hi & Ha & Hl & Hn & Hp).
  destruct (Enemy.removeAttackTelegraph e s) as [e1 s1]. cbn [fst snd] in *.
  cbv zeta.
  refine (conj _ (conj _ (conj Hn (conj Hp _)))).
  - rewrite <- Hi. reflexivity.
  - rewrite <- Ha. reflexivity.
  - assert (E : Enemy.eid e1 = Enemy.eid e)
      by (injection Hi as E _ _; exact E).
    exists (length (tm_store (telegraphs s1))),
           (Num.max (3 # 10)
              (inject_Z (Enemy.totalFrames e1 - Enemy.currentFrame e1)
               * Enemy.frameTime e1)).
    split; [|apply max_ge_l].
    rewrite <- Hl, <- Hn, <- E. reflexivity.
Qed.

Lemma handlePlayerDamage_log (d : Q) (s : Sys) :
  log (snd (handlePlayerDamage d s)) = log s
  /\ now (snd (handlePlayerDamage d s)) = now s.
Proof.
  unfold handlePlayerDamage.
  destruct (playerInvulnerable (combat s)); [auto|].
  cbn. destruct (cs_game (combat s)); auto.
Qed.

Lemma launchFireball_log (target : Vector3) (s : Sys) :
  log (snd (FireballManager.launchFireball target s)) = log s
  /\ now (snd (FireballManager.launchFireball target s)) = now s.
Proof.
  unfold FireballManager.launchFireball.
  destruct (pop _) as [[id pool]|]; [|auto]. cbn [snd].
  unfold FireballManager.Fireball_launch.
  match goal with
  | |- context [FireballManager.fireball id ?s1] =>
      assert (H1 : log s1 = log s /\ now s1 = now s)
        by (destruct (fm_telegraphManager (fireballs s)); auto);
      destruct (FireballManager.fireball id s1) as [fb|]; [|exact H1];
      destruct (Fb.telegraphManager fb); exact H1
  end.
Qed.

(** [dealDamage]: at most one entry, of the enemy itself. *)
Lemma dealDamage_outcome (rnd : Rand) (e : Enemy.t) (s : Sys) :
  now (Enemy.dealDamage rnd e s) = now s
  /\ exists dmg,
       log (Enemy.dealDamage rnd e s) = dmg ++ log s
       /\ (dmg = []
           \/ (exists p, dmg = [(now s, EvFireballCast (Enemy.eid e) p)]
                         /\ Enemy.isFireballCaster e = true
                         /\ Enemy.fireballManager e = true)
           \/ (dmg = [(now s, EvMeleeDamage (Enemy.eid e)
                                            (Enemy.attackDamage e))]
               /\ Enemy.isFireballCaster e && Enemy.fireballManager e = false
               /\ V3.distanceTo (Enemy.position e) (pl_position (player s))
                  <= Enemy.attackRange e)).
Proof.
  unfold Enemy.dealDamage. cbv zeta.
  destruct (Enemy.isFireballCaster e && Enemy.fireballManager e) eqn:Hc.
  - apply andb_true_iff in Hc. destruct Hc as [Hc1 Hc2].
    match goal with
    | |- context [FireballManager.launchFireball ?p ?s1] =>
        destruct (launchFireball_log p s1) as (Hl & Hn)
    end.
    rewrite Hl, Hn. split; [reflexivity|].
    match goal with
    | |- context [emit ?ev s] => exists [(now s, ev)]
    end.
    split; [reflexivity|]. right. left. eauto.
  - destruct (Num.leb _ (Enemy.attackRange e)) eqn:Hr.
    2:{ split; [reflexivity|]. exists []. auto. }
    apply leb_le in Hr.
    unfold Player_hurt.
    destruct (pl_isHurt (player s) || pl_isAttacking (player s)).
    { split; [reflexivity|]. exists []. auto. }
    destruct (Enemy.combatSystem e).
    2:{ split; [reflexivity|]. exists []. auto. }
    match goal with
    | |- context [handlePlayerDamage ?d ?s1] =>
        destruct (handlePlayerDamage_log d s1) as (Hl & Hn)
    end.
    rewrite Hl, Hn. split; [reflexivity|].
    exists [(now s, EvMeleeDamage (Enemy.eid e) (Enemy.attackDamage e))].
    split; [reflexivity|]. right. right. auto.
Qed.

End Animation.

Section AttackFrames.
Context {M : MathLib}.

Lemma ident_eid (a b : Enemy.t) : ident a = ident b -> Enemy.eid a = Enemy.eid b.
Proof. intro H. injection H as H _ _. exact H. Qed.

Lemma animState_fields (a b : Enemy.t) :
  animState a = animState b ->
  Enemy.currentAnimation a = Enemy.currentAnimation b
  /\ Enemy.currentFrame a = Enemy.currentFrame b
  /\ Enemy.totalFrames a = Enemy.totalFrames b
  /\ Enemy.telegraphCreated a = Enemy.telegraphCreated b.
Proof. intro H. injection H as H1 H2 H3 H4. auto. Qed.

(** The telegraph block: the frame counters stay, the flag is raised
    when the telegraph frame is reached, and the log gets its entry when
    the enemy telegraphs. *)
Lemma telegraphStep_outcome (e : Enemy.t) (s : Sys) :
  let e' := fst (Enemy.telegraphStep e s) in
  let s' := snd (Enemy.telegraphStep e s) in
  let due := ((Enemy.currentFrame e =? Enemy.telegraphFrame e)%Z
              && negb (Enemy.telegraphCreated e)) in
  ident e' = ident e /\ reach e' = reach e
  /\ Enemy.currentAnimation e' = Enemy.currentAnimation e
  /\ Enemy.currentFrame e' = Enemy.currentFrame e
  /\ Enemy.totalFrames e' = Enemy.totalFrames e
  /\ Enemy.telegraphCreated e' = Enemy.telegraphCreated e || due
  /\ now s' = now s /\ player s' = player s
  /\ (if due && negb (Enemy.isFireballCaster e) && Enemy.telegraphManager e
      then exists tid d,
             log s' = (now s, EvTelegraphCreated (Enemy.eid e) tid d) :: log s
             /\ 3 # 10 <= d
      else log s' = log s).
Proof.
  cbv zeta. unfold Enemy.telegraphStep.
  destruct ((Enemy.currentFrame e =? Enemy.telegraphFrame e)%Z
            && negb (Enemy.telegraphCreated e)) eqn:Hdue.
  2:{ cbn [fst snd andb]. rewrite orb_false_r. repeat split. }
  rewrite orb_true_r.
  destruct (Enemy.isFireballCaster e) eqn:Hc; cbn [negb andb fst snd].
  { repeat split. }
  destruct (createAttackTelegraph_outcome e s) as (Hi & Ha & Hn & Hp & Hl).
  assert (Hr : reach (fst (Enemy.createAttackTelegraph e s)) = reach e).
  { unfold Enemy.createAttackTelegraph.
    destruct (Enemy.telegraphManager e); [|reflexivity]. cbn [negb].
    unfold Enemy.removeAttackTelegraph.
    destruct (Enemy.currentTelegraph e); reflexivity. }
  destruct (Enemy.createAttackTelegraph e s) as [e1 s1].
  cbn [fst snd] in *.
  apply animState_fields in Ha. destruct Ha as (Ha1 & Ha2 & Ha3 & Ha4).
  autorewrite with enemy_views.
  refine (conj Hi (conj Hr (conj Ha1 (conj Ha2 (conj Ha3
            (conj eq_refl (conj Hn (conj Hp Hl)))))))).
Qed.

(** The end of the attack: nothing before the last frame; afterwards the
    enemy has left the attack animation. *)
Lemma finishAttack_outcome (e : Enemy.t) (s : Sys) :
  let e' := fst (Enemy.finishAttack e s) in
  let s' := snd (Enemy.finishAttack e s) in
  ident e' = ident e /\ now s' = now s /\ log s' = log s
  /\ (e' = e \/ Enemy.currentAnimation e' <> anim_attack).
Proof.
  cbv zeta. unfold Enemy.finishAttack.
  destruct (Enemy.totalFrames e <=? Enemy.currentFrame e)%Z.
  2:{ repeat split. left. reflexivity. }
  cbv zeta.
  match goal with
  | |- context [Enemy.removeAttackTelegraph ?x s] =>
      destruct (removeAttackTelegraph_frame x s) as (Hi & _ & Hl & Hn & _);
      destruct (Enemy.removeAttackTelegraph x s) as [e1 s1]
  end.
  cbn [fst snd] in *. autorewrite with enemy_views in Hi.
  refine (conj _ (conj Hn (conj Hl _))).
  - autorewrite with enemy_views. rewrite switchAnimation_ident. exact Hi.
  - right.
    change (Enemy.currentAnimation
              (Enemy.set_telegraphCreated false
                 (Enemy.switchAnimation 0 anim_walk e1)))
      with (Enemy.currentAnimation (Enemy.switchAnimation 0 anim_walk e1)).
    apply switchAnimation_leaves_attack. discriminate.
Qed.

End AttackFrames.

Section AttackTick.
Context {M : MathLib}.

Lemma reach_fields (a b : Enemy.t) :
  reach a = reach b ->
  Enemy.target a = Enemy.target b
  /\ Enemy.fireballManager a = Enemy.fireballManager b
  /\ Enemy.combatSystem a = Enemy.combatSystem b
  /\ Enemy.attackDamage a = Enemy.attackDamage b
  /\ Enemy.attackRange a = Enemy.attackRange b
  /\ Enemy.position a = Enemy.position b.
Proof.
  unfold reach. intro H. inversion H. auto 10.
Qed.

Lemma ident_fields (a b : Enemy.t) :
  ident a = ident b ->
  Enemy.eid a = Enemy.eid b
  /\ Enemy.telegraphManager a = Enemy.telegraphManager b
  /\ Enemy.isFireballCaster a = Enemy.isFireballCaster b.
Proof. intro H. injection H as H1 H2 H3. auto. Qed.

(** One frame of the attack animation. *)
Lemma advanceAttack_outcome (rnd : Rand) (e : Enemy.t) (s : Sys) :
  let e' := fst (Enemy.advanceAttack rnd e s) in
  let s' := snd (Enemy.advanceAttack rnd e s) in
  ident e' = ident e /\ now s' = now s
  /\ exists tel dmg,
       log s' = dmg ++ tel ++ log s
       /\ telegraph_entry e s tel
       /\ (telegraph_due e -> tel <> [])
       /\ damage_entry e s dmg
       /\ (Enemy.currentAnimation e' <> anim_attack
           \/ (Enemy.currentAnimation e' = Enemy.currentAnimation e
               /\ Enemy.currentFrame e' = (Enemy.currentFrame e + 1)%Z
               /\ Enemy.totalFrames e' = Enemy.totalFrames e
               /\ Enemy.telegraphCreated e'
                  = Enemy.telegraphCreated e
                    || (Enemy.currentFrame e + 1
                        =? Enemy.telegraphFrame e)%Z)).
Proof.
  cbv zeta. unfold Enemy.advanceAttack. cbv zeta.
  set (e0 := Enemy.set_currentFrame (Enemy.currentFrame e + 1)%Z e).
  assert (Hi0 : ident e0 = ident e) by (subst e0; views).
  assert (Hr0 : reach e0 = reach e) by (subst e0; views).
  assert (Hf0 : Enemy.currentFrame e0 = (Enemy.currentFrame e + 1)%Z)
    by reflexivity.
  assert (Ht0 : Enemy.totalFrames e0 = Enemy.totalFrames e) by reflexivity.
  assert (Hc0 : Enemy.telegraphCreated e0 = Enemy.telegraphCreated e)
    by reflexivity.
  assert (Ha0 : Enemy.currentAnimation e0 = Enemy.currentAnimation e)
    by reflexivity.
  assert (Htf0 : Enemy.telegraphFrame e0 = Enemy.telegraphFrame e)
    by reflexivity.
  assert (Hdf0 : Enemy.damageFrame e0 = Enemy.damageFrame e)
    by reflexivity.
  clearbody e0.
  destruct (telegraphStep_outcome e0 s)
    as (Hi1 & Hr1 & Ha1 & Hf1 & Ht1 & Hc1 & Hn1 & Hp1 & Hl1).
  destruct (Enemy.telegraphStep e0 s) as [e1 s1]. cbn [fst snd] in *.
  assert (Hdf1 : Enemy.damageFrame e1 = Enemy.damageFrame e).
  { unfold Enemy.damageFrame in *. rewrite Ht1. exact Hdf0. }
  (* the telegraph entry *)
  assert (Htel : exists tel, log s1 = tel ++ log s
                             /\ telegraph_entry e s tel
                             /\ (telegraph_due e -> tel <> [])).
  { rewrite Hf0, Htf0, Hc0 in Hl1.
    destruct (ident_fields _ _ Hi0) as (He & Hm & Hk).
    rewrite Hk, Hm, He in Hl1.
    destruct ((Enemy.currentFrame e + 1 =? Enemy.telegraphFrame e)%Z)
      eqn:Ef; cbn [andb] in Hl1.
    2:{ exists []. split; [exact Hl1|]. split; [left; reflexivity|].
        intros (Hx & _). apply Z.eqb_neq in Ef. contradiction. }
    apply Z.eqb_eq in Ef.
    destruct (Enemy.telegraphCreated e) eqn:Ec; cbn [negb andb] in Hl1.
    { exists []. split; [exact Hl1|]. split; [left; reflexivity|].
      intros (_ & Hx & _). congruence. }
    destruct (Enemy.isFireballCaster e) eqn:Ek; cbn [negb andb] in Hl1.
    { exists []. split; [exact Hl1|]. split; [left; reflexivity|].
      intros (_ & _ & _ & Hx). congruence. }
    destruct (Enemy.telegraphManager e) eqn:Em.
    2:{ exists []. split; [exact Hl1|]. split; [left; reflexivity|].
        intros (_ & _ & Hx & _). congruence. }
    destruct Hl1 as (tid & d & Hlog & Hd).
    exists [(now s, EvTelegraphCreated (Enemy.eid e) tid d)].
    split; [exact Hlog|]. split; [|intros _; discriminate].
    right. exists tid, d. auto. }
  destruct Htel as (tel & Hlog1 & Htel & Hdue).
  (* the damage entry *)
  set (s2 := if (Enemy.currentFrame e1 =? Enemy.damageFrame e1)%Z
                && Enemy.target e1
             then Enemy.dealDamage rnd e1 s1 else s1).
  assert (Hdmg : now s2 = now s
                 /\ exists dmg, log s2 = dmg ++ log s1
                                /\ damage_entry e s dmg).
  { subst s2.
    destruct (reach_fields _ _ (eq_trans Hr1 Hr0))
      as (Rt & Rf & Rc & Rd & Rr & Rp).
    destruct (ident_fields _ _ (eq_trans Hi1 Hi0)) as (He & Hm & Hk).
    rewrite Hf1, Hf0, Hdf1, Rt.
    destruct ((Enemy.currentFrame e + 1 =? Enemy.damageFrame e)%Z) eqn:Ef;
      cbn [andb].
    2:{ split; [exact Hn1|]. exists []. split; [reflexivity|]. left.
        reflexivity. }
    apply Z.eqb_eq in Ef.
    destruct (Enemy.target e) eqn:Et.
    2:{ split; [exact Hn1|]. exists []. split; [reflexivity|]. left.
        reflexivity. }
    destruct (dealDamage_outcome rnd e1 s1) as (Hn2 & dmg & Hl2 & Hcase).
    split; [rewrite Hn2; exact Hn1|].
    exists dmg. split; [exact Hl2|].
    rewrite Hn1, He, Hk, Rf, Rd, Rr, Rp, Hp1 in Hcase.
    destruct Hcase as [-> | Hcase]; [left; reflexivity|].
    right. split; [exact Ef|]. split; [exact Et|]. exact Hcase. }
  clearbody s2. destruct Hdmg as (Hn2 & dmg & Hlog2 & Hdmg).
  destruct (finishAttack_outcome e1 s2) as (Hi3 & Hn3 & Hl3 & Hcase).
  destruct (Enemy.finishAttack e1 s2) as [e3 s3]. cbn [fst snd] in *.
  split; [rewrite Hi3, Hi1; exact Hi0|].
  split; [rewrite Hn3; exact Hn2|].
  exists tel, dmg.
  split; [rewrite Hl3, Hlog2, Hlog1; reflexivity|].
  split; [exact Htel|]. split; [exact Hdue|]. split; [exact Hdmg|].
  destruct Hcase as [-> | Hleft]; [|left; exact Hleft].
  right. rewrite Ha1, Ha0, Hf1, Hf0, Ht1, Ht0, Hc1, Hf0, Htf0, Hc0.
  refine (conj eq_refl (conj eq_refl (conj eq_refl _))).
  destruct (Enemy.telegraphCreated e); cbn [negb orb andb];
    [reflexivity | rewrite andb_true_r; reflexivity].
Qed.

End AttackTick.

Section AnimationTick.
Context {M : MathLib}.

Lemma advanceOther_outcome (e : Enemy.t) :
  Enemy.currentAnimation e <> anim_attack ->
  ident (Enemy.advanceOther e) = ident e
  /\ Enemy.currentAnimation (Enemy.advanceOther e) <> anim_attack.
Proof.
  intro Ha. unfold Enemy.advanceOther.
  destruct (Enemy.currentAnimation e) eqn:E; try contradiction; cbv zeta.
  - split; [views|]. cbn [Enemy.currentAnimation Enemy.set_currentFrame].
    rewrite E. discriminate.
  - match goal with |- context [if ?c then _ else _] => destruct c end.
    + split.
      * rewrite switchAnimation_ident. views.
      * apply switchAnimation_leaves_attack. discriminate.
    + split; [views|].
      cbn [Enemy.currentAnimation Enemy.set_currentFrame].
      rewrite E. discriminate.
  - match goal with |- context [if ?c then _ else _] => destruct c end.
    + split; [views|].
      cbn [Enemy.currentAnimation Enemy.set_currentFrame
           Enemy.set_deathAnimationComplete].
      rewrite E. discriminate.
    + split; [views|].
      cbn [Enemy.currentAnimation Enemy.set_currentFrame].
      rewrite E. discriminate.
  - split; [views|]. cbn [Enemy.currentAnimation Enemy.set_currentFrame].
    rewrite E. discriminate.
Qed.

(** [updateAnimation] as the log sees it. *)
Lemma updateAnimation_outcome (deltaTime : Q) (rnd : Rand)
      (e : Enemy.t) (s : Sys) :
  tick_outcome e s (fst (Enemy.updateAnimation deltaTime rnd e s))
               (snd (Enemy.updateAnimation deltaTime rnd e s)).
Proof.
  unfold Enemy.updateAnimation.
  destruct ((Enemy.isDead e || Enemy.isPlaying e)
            && (1 <? Enemy.totalFrames e)%Z) eqn:Hgo.
  2:{ cbn [fst snd]. unfold tick_outcome.
      refine (conj eq_refl (conj eq_refl (or_introl (conj eq_refl
                (or_introl eq_refl))))). }
  apply andb_true_iff in Hgo. destruct Hgo as [_ Htf].
  apply Z.ltb_lt in Htf.
  cbv zeta.
  match goal with |- context [if ?c then _ else _] => destruct c end.
  2:{ cbn [fst snd]. unfold tick_outcome.
      split; [views|]. split; [reflexivity|]. left. split; [reflexivity|].
      left. views. }
  set (e0 := Enemy.set_elapsedTime 0
               (Enemy.set_elapsedTime (Enemy.elapsedTime e + deltaTime) e)).
  change (Enemy.currentAnimation e0) with (Enemy.currentAnimation e).
  destruct (Enemy.currentAnimation e) eqn:Ha.
  1,3,4,5:
    (cbn [fst snd];
     assert (Ha0 : Enemy.currentAnimation e0 <> anim_attack)
       by (change (Enemy.currentAnimation e0)
             with (Enemy.currentAnimation e); rewrite Ha; discriminate);
     destruct (advanceOther_outcome e0 Ha0) as (Hi & Hout);
     unfold tick_outcome;
     split; [rewrite Hi; subst e0; views|];
     split; [reflexivity|]; left; split; [reflexivity|]; right; exact Hout).
  destruct (advanceAttack_outcome rnd e0 s)
    as (Hi & Hn & tel & dmg & Hlog & Htel & Hdue & Hdmg & Hcase).
  destruct (Enemy.advanceAttack rnd e0 s) as [e1 s1]. cbn [fst snd] in *.
  unfold tick_outcome.
  split; [rewrite Hi; subst e0; views|].
  split; [exact Hn|]. right.
  split; [exact Ha|]. split; [exact Htf|].
  exists tel, dmg. split; [exact Hlog|].
  split; [exact Htel|]. split; [exact Hdue|]. split; [exact Hdmg|].
  destruct Hcase as [Hleft | (H1 & H2 & H3 & H4)]; [left; exact Hleft|].
  right. split; [rewrite H1; exact Ha|].
  split; [exact H2|]. split; [exact H3|]. exact H4.
Qed.

End AnimationTick.

Section RestOfUpdate.
Context {M : MathLib}.

Ltac quiet := cbv zeta; break_ifs; split; views.

Lemma faceTarget_quiet (p : Vector3) (e : Enemy.t) :
  ident (Enemy.faceTarget p e) = ident e
  /\ animState (Enemy.faceTarget p e) = animState e.
Proof. unfold Enemy.faceTarget. quiet. Qed.

Lemma updateAI_quiet (dt : Q) (rnd : Rand) (p : Vector3) (e : Enemy.t) :
  ident (Enemy.updateAI dt rnd p e) = ident e
  /\ animState (Enemy.updateAI dt rnd p e) = animState e.
Proof.
  unfold Enemy.updateAI.
  destruct (Enemy.isDead e || Enemy.isHit e); [auto|]. cbv zeta.
  match goal with |- context [if ?c then _ else _] => destruct c end.
  2:{ split; views. }
  set (e1 := Enemy.set_detectionTimer 0
               (Enemy.set_detectionTimer (Enemy.detectionTimer e + dt) e)).
  assert (Hi : ident e1 = ident e) by (subst e1; views).
  assert (Ha : animState e1 = animState e) by (subst e1; views).
  rewrite <- Hi, <- Ha. clearbody e1.
  destruct (Enemy.currentState e1); quiet.
Qed.

Lemma stepAlong_quiet (d : Vector3) (v dt : Q) (e : Enemy.t) :
  ident (Enemy.stepAlong d v dt e) = ident e
  /\ animState (Enemy.stepAlong d v dt e) = animState e.
Proof. unfold Enemy.stepAlong. quiet. Qed.

Lemma updateMovementByState_quiet (dt : Q) (p : Vector3) (e : Enemy.t) :
  ident (Enemy.updateMovementByState dt p e) = ident e
  /\ animState (Enemy.updateMovementByState dt p e) = animState e.
Proof.
  unfold Enemy.updateMovementByState.
  destruct (Enemy.isKnockedBack e); [auto|].
  destruct (Enemy.currentState e); auto.
  - unfold Enemy.patrolBehavior. quiet.
  - unfold Enemy.chaseBehavior.
    destruct (negb (Enemy.target e)); [auto|]. apply stepAlong_quiet.
  - unfold Enemy.searchBehavior. cbv zeta.
    match goal with |- context [if ?c then _ else _] => destruct c end.
    + split; views.
    + match goal with
      | |- context [Enemy.stepAlong ?d ?v ?t ?x] =>
          destruct (stepAlong_quiet d v t x) as (-> & ->)
      end.
      split; views.
  - unfold Enemy.returnBehavior. apply stepAlong_quiet.
Qed.

Lemma updateKnockback_quiet (dt : Q) (e : Enemy.t) :
  ident (Enemy.updateKnockback dt e) = ident e
  /\ animState (Enemy.updateKnockback dt e) = animState e.
Proof. unfold Enemy.updateKnockback. quiet. Qed.

Lemma updateScalePunch_quiet (dt : Q) (e : Enemy.t) :
  ident (Enemy.updateScalePunch dt e) = ident e
  /\ animState (Enemy.updateScalePunch dt e) = animState e.
Proof. unfold Enemy.updateScalePunch. quiet. Qed.

End RestOfUpdate.

Section Starts.
Context {M : MathLib}.

(** A step that leaves the log alone, and the animation too unless it
    leaves the attack. *)
Lemma start_outcome_silent (e e' : Enemy.t) (s s' : Sys) :
  ident e' = ident e -> now s' = now s -> log s' = log s ->
  animState e' = animState e \/ Enemy.currentAnimation e' <> anim_attack ->
  start_outcome e s e' s'.
Proof. intros Hi Hn Hl Ha. unfold start_outcome. auto. Qed.

Lemma animState_attack (a b : Enemy.t) :
  animState a = animState b ->
  Enemy.currentAnimation b <> anim_attack ->
  Enemy.currentAnimation a <> anim_attack.
Proof.
  intros H Hb. apply animState_fields in H. destruct H as (-> & _).
  exact Hb.
Qed.

Lemma start_outcome_then (e e1 e2 : Enemy.t) (s s1 : Sys) :
  start_outcome e s e1 s1 ->
  ident e2 = ident e1 ->
  animState e2 = animState e1 \/ Enemy.currentAnimation e2 <> anim_attack ->
  start_outcome e s e2 s1.
Proof.
  intros (Hi & Hn & Hcase) Hi2 Ha2. unfold start_outcome.
  split; [rewrite Hi2; exact Hi|]. split; [exact Hn|].
  destruct Hcase as [(Hl & Ha) | (Hl & Ha)].
  - left. split; [exact Hl|].
    destruct Ha2 as [Ha2 | Ha2]; [|right; exact Ha2].
    destruct Ha as [Ha | Ha].
    + left. rewrite Ha2. exact Ha.
    + right. exact (animState_attack _ _ Ha2 Ha).
  - right. split; [exact Hl|].
    destruct Ha2 as [Ha2 | Ha2]; [|left; exact Ha2].
    destruct Ha as [Ha | (H1 & H2 & H3)].
    + left. exact (animState_attack _ _ Ha2 Ha).
    + right. apply animState_fields in Ha2.
      destruct Ha2 as (A1 & A2 & _ & A4).
      rewrite A1, A2, A4. auto.
Qed.

Lemma start_outcome_after (e0 e e' : Enemy.t) (s s' : Sys) :
  ident e = ident e0 -> animState e = animState e0 ->
  start_outcome e s e' s' -> start_outcome e0 s e' s'.
Proof.
  intros Hi Ha (Hi' & Hn & Hcase). unfold start_outcome.
  split; [rewrite Hi'; exact Hi|]. split; [exact Hn|].
  destruct (ident_fields _ _ Hi) as (He & _).
  rewrite <- Ha, <- He. exact Hcase.
Qed.

(** The attack block of [update]. *)
Lemma updateAttack_outcome (rnd : Rand) (e : Enemy.t) (s : Sys) :
  start_outcome e s (fst (Enemy.updateAttack rnd e s))
                (snd (Enemy.updateAttack rnd e s)).
Proof.
  unfold Enemy.updateAttack. cbv zeta.
  destruct (Enemy.target e && negb (Enemy.isHit e)).
  2:{ apply start_outcome_silent; auto. }
  match goal with
  | |- context [match ?X with pair _ _ => _ end] => set (es := X)
  end.
  assert (Hes : start_outcome e s (fst es) (snd es)).
  { subst es.
    destruct (Enemy.currentState e);
      try (apply start_outcome_silent; auto; fail).
    destruct (negb (Enemy.isAttacking e)
              && Num.leb (Enemy.attackCooldown e) 0).
    2:{ apply start_outcome_silent; auto. }
    cbn [fst snd].
    destruct (faceTarget_quiet (pl_position (player s)) e) as (Hi & Ha).
    set (e1 := Enemy.faceTarget (pl_position (player s)) e) in *.
    clearbody e1.
    destruct (Enemy.switches anim_attack e1) eqn:Hsw.
    - destruct (switchAnimation_on (rnd_attackIndex rnd) anim_attack e1 Hsw)
        as (H1 & H2 & H3).
      unfold start_outcome.
      split; [rewrite switchAnimation_ident; exact Hi|].
      split; [reflexivity|]. right.
      destruct (ident_fields _ _ Hi) as (-> & _).
      split; [reflexivity|]. right. auto.
    - rewrite (switchAnimation_off _ _ _ Hsw).
      apply start_outcome_silent; auto. }
  clearbody es. destruct es as [e0 s0]. cbn [fst snd] in Hes.
  match goal with |- context [if ?c then _ else _] => destruct c end;
    [|exact Hes].
  cbn [fst snd].
  apply (start_outcome_then e e0 _ s s0 Hes).
  - rewrite switchAnimation_ident. break_ifs; views.
  - right. apply switchAnimation_leaves_attack. discriminate.
Qed.

End Starts.

Section WholeUpdate.
Context {M : MathLib}.

Lemma superUpdate_quiet (e : Enemy.t) :
  ident (Enemy.superUpdate e) = ident e
  /\ animState (Enemy.superUpdate e) = animState e.
Proof. unfold Enemy.superUpdate. split; views. Qed.

(** What follows [updateAnimation] in [update]. *)
Lemma update_outcome (dt : Q) (rnd : Rand) (e : Enemy.t) (s : Sys) :
  start_outcome
    (fst (Enemy.updateAnimation dt rnd (Enemy.superUpdate e) s))
    (snd (Enemy.updateAnimation dt rnd (Enemy.superUpdate e) s))
    (fst (Enemy.update dt rnd e s)) (snd (Enemy.update dt rnd e s)).
Proof.
  unfold Enemy.update. cbv zeta.
  destruct (Enemy.updateAnimation dt rnd (Enemy.superUpdate e) s)
    as [e1 s1].
  cbn [fst snd].
  destruct (Enemy.isDead e1).
  { apply start_outcome_silent; auto. }
  set (ea := if Num.gtb (Enemy.attackCooldown e1) 0
             then Enemy.set_attackCooldown (Enemy.attackCooldown e1 - dt) e1
             else e1).
  assert (Hqa : ident ea = ident e1 /\ animState ea = animState e1)
    by (subst ea; break_ifs; split; views).
  clearbody ea.
  set (eb := Enemy.updateAI dt rnd (pl_position (player s1)) ea).
  assert (Hqb : ident eb = ident e1 /\ animState eb = animState e1).
  { destruct (updateAI_quiet dt rnd (pl_position (player s1)) ea)
      as (H1 & H2).
    subst eb. rewrite H1, H2. exact Hqa. }
  clearbody eb.
  pose proof (updateAttack_outcome rnd eb s1) as Hat.
  destruct (Enemy.updateAttack rnd eb s1) as [ec sc]. cbn [fst snd] in Hat.
  apply (start_outcome_after e1 eb _ s1 sc (proj1 Hqb) (proj2 Hqb)) in Hat.
  set (ed := if Enemy.isAttacking ec && Enemy.target ec
             then Enemy.faceTarget (pl_position (player s1)) ec else ec).
  assert (Hqd : ident ed = ident ec /\ animState ed = animState ec).
  { subst ed. destruct (Enemy.isAttacking ec && Enemy.target ec); [|auto].
    apply faceTarget_quiet. }
  clearbody ed.
  set (ee := if negb (Enemy.isAttacking ed) && negb (Enemy.isHit ed)
             then Enemy.updateMovementByState dt (pl_position (player s1)) ed
             else ed).
  assert (Hqe : ident ee = ident ec /\ animState ee = animState ec).
  { subst ee.
    destruct (negb (Enemy.isAttacking ed) && negb (Enemy.isHit ed));
      [|exact Hqd].
    destruct (updateMovementByState_quiet dt (pl_position (player s1)) ed)
      as (-> & ->).
    exact Hqd. }
  clearbody ee.
  cbn [fst snd].
  destruct (updateKnockback_quiet dt ee) as (K1 & K2).
  destruct (updateScalePunch_quiet dt (Enemy.updateKnockback dt ee))
    as (P1 & P2).
  apply (start_outcome_then e1 ec _ s1 sc Hat).
  - rewrite P1, K1. exact (proj1 Hqe).
  - left. rewrite P2, K2. exact (proj2 Hqe).
Qed.

Lemma requestFreeze_log (d : Q) (e : Enemy.t) (s : Sys) :
  log (Enemy.requestFreeze d e s) = log s
  /\ now (Enemy.requestFreeze d e s) = now s
  /\ player (Enemy.requestFreeze d e s) = player s.
Proof.
  unfold Enemy.requestFreeze, freezeFrame. break_ifs; auto.
Qed.

Lemma die_outcome (e : Enemy.t) (s : Sys) :
  start_outcome e s (fst (Enemy.die e s)) (snd (Enemy.die e s))
  /\ log (snd (Enemy.die e s)) = log s.
Proof.
  unfold Enemy.die. destruct (Enemy.isDead e).
  { split; [apply start_outcome_silent; auto | reflexivity]. }
  cbv zeta. cbn [fst snd].
  destruct (requestFreeze_log (15 # 100) e s) as (Hl & Hn & _).
  split; [|exact Hl].
  apply start_outcome_silent; [| exact Hn | exact Hl |].
  - rewrite switchAnimation_ident. views.
  - right. apply switchAnimation_leaves_attack. discriminate.
Qed.

(** A blow leaves the log alone and can only interrupt an attack. *)
Lemma takeDamage_outcome (amount : Q) (attacker : option Vector3)
      (e : Enemy.t) (s : Sys) :
  start_outcome e s (fst (Enemy.takeDamage amount attacker e s))
                (snd (Enemy.takeDamage amount attacker e s))
  /\ log (snd (Enemy.takeDamage amount attacker e s)) = log s.
Proof.
  unfold Enemy.takeDamage.
  destruct (Enemy.isDead e || Enemy.isHit e).
  { split; [apply start_outcome_silent; auto | reflexivity]. }
  cbv zeta.
  match goal with
  | |- context [Enemy.requestFreeze ?d ?x s] =>
      set (e1 := x);
      destruct (requestFreeze_log d e1 s) as (Hl & Hn & _);
      set (s1 := Enemy.requestFreeze d e1 s) in *
  end.
  assert (Hq : ident e1 = ident e /\ animState e1 = animState e)
    by (subst e1; break_ifs; split; views).
  clearbody s1. clearbody e1.
  destruct (Num.leb (Enemy.health e1) 0).
  - destruct (die_outcome (Enemy.set_health 0 e1) s1) as (Hd & Hdl).
    split; [|rewrite Hdl; exact Hl].
    destruct Hd as (Hi & Hn' & Hcase).
    unfold start_outcome.
    split; [rewrite Hi; autorewrite with enemy_views; exact (proj1 Hq)|].
    split; [rewrite Hn'; exact Hn|].
    left. split; [rewrite Hdl; exact Hl|].
    destruct Hcase as [(_ & [Ha | Ha]) | (Hbad & _)].
    + left. rewrite Ha. autorewrite with enemy_views. exact (proj2 Hq).
    + right. exact Ha.
    + rewrite Hdl in Hbad. exfalso.
      apply (f_equal (@length _)) in Hbad. cbn in Hbad. lia.
  - cbn [fst snd]. split; [|exact Hl].
    apply start_outcome_silent; [| exact Hn | exact Hl |].
    + destruct attacker; unfold Enemy.applyKnockback; cbv zeta;
        autorewrite with enemy_views; rewrite switchAnimation_ident;
        exact (proj1 Hq).
    + right.
      assert (Hh : Enemy.currentAnimation
                     (Enemy.switchAnimation 0 anim_hit e1) <> anim_attack)
        by (apply switchAnimation_leaves_attack; discriminate).
      set (eh := Enemy.switchAnimation 0 anim_hit e1) in *. clearbody eh.
      destruct attacker; exact Hh.
Qed.

End WholeUpdate.

(* ------------------------------------------------------------------ *)
(** ** The player's melee swing *)

Section Swing.
Context {M : MathLib}.

(** Radians against half the cone in radians, or degrees against half
    the cone in degrees: the same comparison. *)
Lemma half_cone_degrees (x a : Q) :
  x <= a * Math_PI / 180 / 2 <-> x * (180 / Math_PI) <= a / 2.
Proof.
  assert (Hpi : ~ Math_PI == 0) by discriminate.
  assert (Hk : 0 <= 180 / Math_PI) by discriminate.
  assert (Hk' : 0 <= Math_PI / 180) by discriminate.
  split; intro H.
  - apply (Qmult_le_compat_r _ _ _ H) in Hk.
    assert (E : a * Math_PI / 180 / 2 * (180 / Math_PI) == a / 2)
      by (field; exact Hpi).
    rewrite E in Hk. exact Hk.
  - apply (Qmult_le_compat_r _ _ _ H) in Hk'.
    assert (E1 : x * (180 / Math_PI) * (Math_PI / 180) == x)
      by (field; exact Hpi).
    assert (E2 : a / 2 * (Math_PI / 180) == a * Math_PI / 180 / 2)
      by field.
    rewrite E1, E2 in Hk'. exact Hk'.
Qed.

(** The distance and the angle [handlePlayerAttack] computes are the
    horizontal distance from the player and the angular offset from the
    attack direction. *)
Lemma attackDistance_horizontal (p : Vector3) (e : Enemy.t) :
  EnemyManager.attackDistance p e = horizontalDistance p (Enemy.position e).
Proof. reflexivity. Qed.

Lemma attackAngleTo_offset (p d : Vector3) (e : Enemy.t) :
  EnemyManager.attackAngleTo p d e * (180 / Math_PI)
  = angularOffset p d (Enemy.position e).
Proof. reflexivity. Qed.

Lemma inSwingb_spec (p d : Vector3) (rng a : Q) (e : Enemy.t) :
  inSwingb p d rng a e = true <-> inSwing p d rng a e.
Proof.
  unfold inSwingb, inSwing.
  rewrite !andb_true_iff, negb_true_iff, !leb_le.
  rewrite half_cone_degrees.
  rewrite attackDistance_horizontal, attackAngleTo_offset. tauto.
Qed.

Lemma die_fst (e : Enemy.t) (s s2 : Sys) :
  fst (Enemy.die e s2) = fst (Enemy.die e s).
Proof. unfold Enemy.die. destruct (Enemy.isDead e); reflexivity. Qed.

Lemma die_player (e : Enemy.t) (s : Sys) :
  player (snd (Enemy.die e s)) = player s.
Proof.
  unfold Enemy.die. destruct (Enemy.isDead e); [reflexivity|].
  cbv zeta. cbn [snd]. apply requestFreeze_log.
Qed.

(** The effect of a blow on the enemy depends on the shared state only
    through the position of the player; the blow leaves the player
    alone. *)
Lemma takeDamage_fst (amount : Q) (attacker : option Vector3)
      (e : Enemy.t) (s s2 : Sys) :
  pl_position (player s2) = pl_position (player s) ->
  fst (Enemy.takeDamage amount attacker e s2)
  = fst (Enemy.takeDamage amount attacker e s).
Proof.
  intro Hp. unfold Enemy.takeDamage.
  destruct (Enemy.isDead e || Enemy.isHit e); [reflexivity|].
  cbv zeta. rewrite Hp.
  match goal with
  | |- context [Enemy.requestFreeze ?d ?x s] => set (e1 := x)
  end.
  clearbody e1.
  destruct (Num.leb (Enemy.health e1) 0); [apply die_fst | reflexivity].
Qed.

Lemma takeDamage_player (amount : Q) (attacker : option Vector3)
      (e : Enemy.t) (s : Sys) :
  player (snd (Enemy.takeDamage amount attacker e s)) = player s.
Proof.
  unfold Enemy.takeDamage.
  destruct (Enemy.isDead e || Enemy.isHit e); [reflexivity|].
  cbv zeta.
  match goal with
  | |- context [Enemy.requestFreeze ?d ?x s] =>
      set (e1 := x);
      destruct (requestFreeze_log d e1 s) as (_ & _ & Hp);
      set (s1 := Enemy.requestFreeze d e1 s) in *
  end.
  clearbody s1. clearbody e1.
  destruct (Num.leb (Enemy.health e1) 0).
  - rewrite die_player. exact Hp.
  - exact Hp.
Qed.

(** A blow on an enemy that is alive and not in its hit reaction takes
    [amount] off its health, which stops at 0. *)
Lemma takeDamage_health (amount : Q) (attacker : option Vector3)
      (e : Enemy.t) (s : Sys) :
  Enemy.isDead e = false -> Enemy.isHit e = false ->
  Enemy.health (fst (Enemy.takeDamage amount attacker e s))
  = if Num.leb (Enemy.health e - amount) 0 then 0
    else Enemy.health e - amount.
Proof.
  intros Hd Hh. unfold Enemy.takeDamage. rewrite Hd, Hh. cbn [orb].
  cbv zeta.
  match goal with
  | |- context [Enemy.requestFreeze ?d ?x s] =>
      set (e1 := x); set (s1 := Enemy.requestFreeze d e1 s)
  end.
  assert (H1 : Enemy.health e1 = Enemy.health e - amount)
    by (subst e1; break_ifs; reflexivity).
  assert (H2 : Enemy.isDead e1 = false)
    by (subst e1; break_ifs; exact Hd).
  clearbody s1. clearbody e1. rewrite H1.
  destruct (Num.leb (Enemy.health e - amount) 0).
  - unfold Enemy.die.
    change (Enemy.isDead (Enemy.set_health 0 e1)) with (Enemy.isDead e1).
    rewrite H2. cbv zeta. cbn [fst].
    unfold Enemy.switchAnimation. break_ifs; reflexivity.
  - cbn [fst]. destruct attacker; unfold Enemy.applyKnockback; cbv zeta.
    all: unfold Enemy.switchAnimation; break_ifs; try exact H1.
Qed.

End Swing.

Section SwingResolution.
Context {M : MathLib}.

Lemma takeDamage_eid (amount : Q) (attacker : option Vector3)
      (e : Enemy.t) (s : Sys) :
  Enemy.eid (fst (Enemy.takeDamage amount attacker e s)) = Enemy.eid e.
Proof.
  destruct (takeDamage_outcome amount attacker e s) as ((Hi & _) & _).
  exact (proj1 (ident_fields _ _ Hi)).
Qed.

(** One turn of the loop of [handlePlayerAttack]. *)
Lemma attackOne_spec (p d : Vector3) (rng a : Q) (info : option DamageInfo)
      (e : Enemy.t) (s s0 : Sys) :
  player s = player s0 ->
  let r := EnemyManager.attackOne p d rng a info e s in
  fst (fst r)
  = (if inSwingb p d rng a e
     then fst (Enemy.takeDamage (swingDamage info) (Some p) e s0) else e)
  /\ snd r = (if inSwingb p d rng a e then [hit_of p info s0 e] else [])
  /\ player (snd (fst r)) = player s0
  /\ log (snd (fst r)) = log s
  /\ now (snd (fst r)) = now s.
Proof.
  intros Hp. cbv zeta. unfold EnemyManager.attackOne, inSwingb. cbv zeta.
  destruct (negb (Enemy.isDead e)); cbn [andb fst snd]; [|auto 6].
  destruct (Num.leb (EnemyManager.attackDistance p e) rng);
    cbn [andb fst snd]; [|auto 6].
  destruct (Num.leb (EnemyManager.attackAngleTo p d e)
                    (a * Math_PI / 180 / 2)); cbn [andb fst snd]; [|auto 6].
  fold (swingDamage info).
  assert (Hfst : fst (Enemy.takeDamage (swingDamage info) (Some p) e s)
                 = fst (Enemy.takeDamage (swingDamage info) (Some p) e s0))
    by (apply takeDamage_fst; rewrite Hp; reflexivity).
  pose proof (takeDamage_eid (swingDamage info) (Some p) e s) as He.
  pose proof (takeDamage_player (swingDamage info) (Some p) e s) as Hpl.
  pose proof (proj2 (takeDamage_outcome (swingDamage info) (Some p) e s))
    as Hl.
  pose proof (proj1 (proj2 (proj1
                (takeDamage_outcome (swingDamage info) (Some p) e s))))
    as Hn.
  destruct (Enemy.takeDamage (swingDamage info) (Some p) e s) as [e' s'].
  cbn [fst snd] in *.
  refine (conj Hfst (conj _ (conj _ (conj Hl Hn)))).
  - unfold hit_of. rewrite <- Hfst, He. reflexivity.
  - rewrite Hpl. exact Hp.
Qed.

(** [handlePlayerAttack]: the blow goes to the enemies the test picks,
    each taken as it stood before the swing; the others are left as
    they were; [hits] lists the enemies picked, in the order of the
    array. *)
Lemma handlePlayerAttack_spec (p d : Vector3) (rng a : Q)
      (info : option DamageInfo) (es : list Enemy.t) (s0 : Sys) :
  forall s, player s = player s0 ->
  let r := EnemyManager.handlePlayerAttack p d rng a info es s in
  fst (fst r)
  = map (fun e => if inSwingb p d rng a e
                  then fst (Enemy.takeDamage (swingDamage info) (Some p) e s0)
                  else e) es
  /\ snd r = map (hit_of p info s0) (filter (inSwingb p d rng a) es)
  /\ player (snd (fst r)) = player s0
  /\ log (snd (fst r)) = log s
  /\ now (snd (fst r)) = now s.
Proof.
  induction es as [|e rest IH]; intros s Hp; cbv zeta.
  { cbn. auto 6. }
  cbn [EnemyManager.handlePlayerAttack].
  destruct (attackOne_spec p d rng a info e s s0 Hp)
    as (A1 & A2 & A3 & A4 & A5).
  destruct (EnemyManager.attackOne p d rng a info e s) as [[e' s'] h].
  cbn [fst snd] in *.
  destruct (IH s' A3) as (B1 & B2 & B3 & B4 & B5).
  destruct (EnemyManager.handlePlayerAttack p d rng a info rest s')
    as [[rest' s''] hs].
  cbn [fst snd] in *.
  refine (conj _ (conj _ (conj B3 (conj _ _)))).
  - cbn [map]. rewrite A1, B1. reflexivity.
  - cbn [filter]. rewrite A2, B2.
    destruct (inSwingb p d rng a e); reflexivity.
  - rewrite B4. exact A4.
  - rewrite B5. exact A5.
Qed.

Lemma insert_hit_perm (h : Hit) (l : list Hit) :
  Permutation (insert_hit h l) (h :: l).
Proof.
  induction l as [|x t IH]; cbn; [apply Permutation_refl|].
  destruct (Num.leb (hit_distance h) (hit_distance x)).
  - apply Permutation_refl.
  - apply (perm_trans (perm_skip x IH)). apply perm_swap.
Qed.

Lemma sort_hits_perm (l : list Hit) : Permutation (sort_hits l) l.
Proof.
  induction l as [|h t IH]; cbn; [apply perm_nil|].
  apply (perm_trans (insert_hit_perm h (sort_hits t))).
  apply perm_skip. exact IH.
Qed.

Lemma insert_hit_sorted (h : Hit) (l : list Hit) :
  Sorted closer_or_equal l -> Sorted closer_or_equal (insert_hit h l).
Proof.
  induction l as [|x t IH]; intro Hs; cbn.
  { repeat constructor. }
  destruct (Num.leb (hit_distance h) (hit_distance x)) eqn:E.
  - constructor; [exact Hs|]. constructor. apply leb_le. exact E.
  - inversion Hs as [|? ? Hst Hhd]; subst.
    constructor; [apply IH; exact Hst|].
    assert (Hx : closer_or_equal x h).
    { unfold closer_or_equal. unfold Num.leb in E.
      destruct (Qlt_le_dec (hit_distance x) (hit_distance h)) as [L | L].
      - apply Qlt_le_weak. exact L.
      - apply Qle_bool_iff in L. rewrite L in E. discriminate. }
    destruct t as [|y t']; cbn.
    + constructor. exact Hx.
    + destruct (Num.leb (hit_distance h) (hit_distance y)).
      * constructor. exact Hx.
      * constructor. inversion Hhd; subst. assumption.
Qed.

Lemma sort_hits_sorted (l : list Hit) : Sorted closer_or_equal (sort_hits l).
Proof.
  induction l as [|h t IH]; cbn; [constructor|].
  apply insert_hit_sorted. exact IH.
Qed.

End SwingResolution.

(** C5 (amended).  [EnemyManager.handlePlayerAttack] with origin [p],
    direction [d], range [rng] and cone angle [a] (degrees) hands the
    blow ([takeDamage] with [damageInfo.damage], or 1) to exactly the
    enemies that are not dead, whose horizontal distance from [p] is at
    most [rng] and whose angular offset from [d] is at most [a / 2]
    degrees, and lists exactly those in [hits], each with its horizontal
    distance; every other enemy, the dead ones included, is left exactly
    as it was.  The blow takes the damage off the health (which stops at
    0) of an enemy that is not in its hit reaction; an enemy in its hit
    reaction is listed as hit but is left exactly as it was.  The array
    [triggerAttack] hands to [onSuccessfulHit] is [hits] sorted by
    ascending distance from [p]. *)
Theorem player_swing_resolution {M : MathLib} (p d : Vector3) (rng a : Q)
        (info : option DamageInfo) (es : list Enemy.t) (s : Sys) :
  let r := EnemyManager.handlePlayerAttack p d rng a info es s in
  let blow e := fst (Enemy.takeDamage (swingDamage info) (Some p) e s) in
  (forall e, inSwingb p d rng a e = true <-> inSwing p d rng a e)
  /\ fst (fst r) = map (fun e => if inSwingb p d rng a e then blow e else e) es
  /\ snd r = map (hit_of p info s) (filter (inSwingb p d rng a) es)
  /\ (forall h, In h (snd r) ->
        exists e, In e es /\ inSwing p d rng a e
                  /\ hit_enemy h = Enemy.eid e
                  /\ hit_distance h = horizontalDistance p (Enemy.position e)
                  /\ hit_damage h = swingDamage info)
  /\ (forall e,
        Enemy.health (blow e)
        = if Enemy.isDead e || Enemy.isHit e then Enemy.health e
          else if Num.leb (Enemy.health e - swingDamage info) 0 then 0
               else Enemy.health e - swingDamage info)
  /\ (forall e, Enemy.isHit e = true -> blow e = e)
  /\ Sorted closer_or_equal (sort_hits (snd r))
  /\ Permutation (sort_hits (snd r)) (snd r)
  /\ (forall r1 r2 g,
        let c := combat (sys g) in
        out_effects (Game.triggerAttack r1 r2 g)
        = if out_result (Game.triggerAttack r1 r2 g)
          then sort_hits
                 (snd (EnemyManager.handlePlayerAttack
                         (pl_position (player (sys g)))
                         (V3.normalize
                            (V3.setY (pl_lastDirection (player (sys g))) 0))
                         (cs_attackRange c) (cs_attackAngle c)
                         (Some (calculateDamage c r1 r2))
                         (enemies g) (sys g)))
          else []).
Proof.
  cbv zeta.
  destruct (handlePlayerAttack_spec p d rng a info es s s eq_refl)
    as (H1 & H2 & _).
  split; [intro e; apply inSwingb_spec|].
  split; [exact H1|]. split; [exact H2|].
  split.
  { intros h Hin. rewrite H2 in Hin. apply in_map_iff in Hin.
    destruct Hin as (e & <- & He). apply filter_In in He.
    destruct He as (He & Hsw). exists e.
    split; [exact He|]. split; [apply inSwingb_spec; exact Hsw|].
    repeat split. }
  split.
  { intro e. destruct (Enemy.isDead e) eqn:Hd.
    - unfold Enemy.takeDamage. rewrite Hd. reflexivity.
    - destruct (Enemy.isHit e) eqn:Hh.
      + unfold Enemy.takeDamage. rewrite Hd, Hh. reflexivity.
      + cbn [orb]. apply takeDamage_health; assumption. }
  split.
  { intros e Hh. unfold Enemy.takeDamage. rewrite Hh.
    destruct (Enemy.isDead e); reflexivity. }
  split; [apply sort_hits_sorted|]. split; [apply sort_hits_perm|].
  intros r1 r2 g. unfold Game.triggerAttack. cbv zeta.
  destruct (Num.gtb (cs_attackCooldown (combat (sys g))) 0
            || cs_isAttacking (combat (sys g))); [reflexivity|].
  destruct (EnemyManager.handlePlayerAttack
              (pl_position (player (sys g))) _ _ _ _ (enemies g) (sys g))
    as [[es' s'] hits].
  destruct hits; reflexivity.
Qed.

(** C5, as claimed, fails on the code: the player swings twice at the
    sample enemy standing one unit in front.  The first blow takes a
    point of health and starts the hit reaction.  At the second swing
    the enemy is alive, within the range and within the cone, and it is
    listed as hit with a damage of 1, yet its health is what it was:
    [takeDamage] returns at once during the hit reaction. *)
Lemma swing_lists_undamaged_enemy :
  let p := pl_position (player (sys swing_game)) in
  let d := vec3 (- (1)) 0 0 in
  let r1 := EnemyManager.handlePlayerAttack (M := Sample.M) p d 2 90 None
              (enemies swing_game) (sys swing_game) in
  let r2 := EnemyManager.handlePlayerAttack (M := Sample.M) p d 2 90 None
              (fst (fst r1)) (snd (fst r1)) in
  map (fun e => Qred (Enemy.health e)) (enemies swing_game) = [50; 50]
  /\ map (fun e => Qred (Enemy.health e)) (fst (fst r1)) = [49; 50]
  /\ map Enemy.isHit (fst (fst r1)) = [true; false]
  /\ inSwing (M := Sample.M) p d 2 90 (hd Sample.grunt (fst (fst r1)))
  /\ map (fun h => (hit_enemy h, Qred (hit_damage h))) (snd r2)
     = [(1%nat, 1)]
  /\ map (fun e => Qred (Enemy.health e)) (fst (fst r2)) = [49; 50].
Proof.
  cbv zeta.
  refine (conj _ (conj _ (conj _ (conj _ (conj _ _)))));
    try (vm_compute; reflexivity).
  vm_compute. repeat split; discriminate.
Qed.

(* ------------------------------------------------------------------ *)
(** ** The clock and the log outside the enemies *)

Section Clock.
Context {M : MathLib}.

Lemma handleFireballExplosion_clock (id : nat) (s : Sys) :
  log (FireballManager.handleFireballExplosion id s) = log s
  /\ now (FireballManager.handleFireballExplosion id s) = now s.
Proof.
  unfold FireballManager.handleFireballExplosion.
  destruct (FireballManager.fireball id s); [|auto].
  destruct (fm_combatSystem (fireballs s)); [|auto].
  destruct (Fb.isInTelegraphArea _ _); [|auto].
  apply handlePlayerDamage_log.
Qed.

Lemma removeFireballTelegraph_clock (id : nat) (s : Sys) :
  log (FireballManager.removeFireballTelegraph id s) = log s
  /\ now (FireballManager.removeFireballTelegraph id s) = now s.
Proof.
  unfold FireballManager.removeFireballTelegraph.
  destruct (FireballManager.fireball id s) as [fb|]; [|auto].
  destruct (Fb.telegraph fb); auto.
Qed.

Lemma removeFireball_clock (id : nat) (s : Sys) :
  log (FireballManager.removeFireball id s) = log s
  /\ now (FireballManager.removeFireball id s) = now s.
Proof.
  unfold FireballManager.removeFireball. cbv zeta.
  destruct (FireballManager.fireball id _) as [fb|]; [|auto].
  destruct (Fb.manager fb); auto.
Qed.

Lemma triggerGroundImpact_clock (id : nat) (s : Sys) :
  log (FireballManager.triggerGroundImpact id s) = log s
  /\ now (FireballManager.triggerGroundImpact id s) = now s.
Proof.
  unfold FireballManager.triggerGroundImpact.
  destruct (FireballManager.fireball id s) as [fb|]; [|auto].
  destruct (Fb.hasExploded fb); [auto|]. cbv zeta.
  set (s1 := FireballManager.on_fireball (Fb.set_hasExploded true) id s).
  assert (H1 : log s1 = log s /\ now s1 = now s) by auto.
  clearbody s1.
  destruct (removeFireballTelegraph_clock id s1) as (L2 & N2).
  set (s2 := FireballManager.removeFireballTelegraph id s1) in *.
  clearbody s2.
  set (s3 := if Fb.onComplete fb
             then FireballManager.handleFireballExplosion id s2 else s2).
  assert (H3 : log s3 = log s2 /\ now s3 = now s2).
  { subst s3. destruct (Fb.onComplete fb); [|auto].
    apply handleFireballExplosion_clock. }
  clearbody s3.
  destruct (removeFireball_clock id s3) as (L4 & N4).
  destruct H1 as (L1 & N1). destruct H3 as (L3 & N3).
  split; congruence.
Qed.

Lemma explode_clock (id : nat) (s : Sys) :
  log (FireballManager.explode id s) = log s
  /\ now (FireballManager.explode id s) = now s.
Proof.
  unfold FireballManager.explode.
  destruct (FireballManager.fireball id s) as [fb|]; [|auto].
  destruct (Fb.hasExploded fb).
  - apply removeFireball_clock.
  - destruct (triggerGroundImpact_clock id s) as (L1 & N1).
    destruct (removeFireball_clock id
                (FireballManager.triggerGroundImpact id s)) as (L2 & N2).
    split; congruence.
Qed.

Lemma Fireball_update_clock (dt : Q) (id : nat) (s : Sys) :
  log (FireballManager.Fireball_update dt id s) = log s
  /\ now (FireballManager.Fireball_update dt id s) = now s.
Proof.
  unfold FireballManager.Fireball_update.
  destruct (FireballManager.fireball id s) as [fb|]; [|auto].
  destruct (negb (Fb.isActive fb)); [auto|]. cbv zeta.
  match goal with |- context [if ?c then _ else _] => destruct c end.
  { match goal with
    | |- context [FireballManager.explode id ?x] =>
        destruct (explode_clock id x) as (L & N)
    end.
    split; [rewrite L | rewrite N]; reflexivity. }
  match goal with |- context [if ?c then _ else _] => destruct c end.
  { match goal with
    | |- context [FireballManager.triggerGroundImpact id ?x] =>
        destruct (triggerGroundImpact_clock id x) as (L & N)
    end.
    split; [rewrite L | rewrite N]; reflexivity. }
  destruct (Fb.isPlaying fb); [|auto].
  match goal with |- context [if ?c then _ else _] => destruct c end; auto.
Qed.

Lemma forEach_active_clock (dt : Q) (fuel : nat) :
  forall k s,
    log (FireballManager.forEach_active fuel k dt s) = log s
    /\ now (FireballManager.forEach_active fuel k dt s) = now s.
Proof.
  induction fuel as [|fuel IH]; intros k s; cbn; [auto|].
  destruct (nth_error (activeFireballs (fireballs s)) k) as [id|]; [|auto].
  destruct (IH (S k) (FireballManager.Fireball_update dt id s)) as (L & N).
  destruct (Fireball_update_clock dt id s) as (L1 & N1).
  split; congruence.
Qed.

Lemma FireballManager_update_clock (dt : Q) (s : Sys) :
  log (FireballManager.update dt s) = log s
  /\ now (FireballManager.update dt s) = now s.
Proof. apply forEach_active_clock. Qed.

Lemma telegraphTimeout_clock (t : Timer) (s : Sys) :
  log (FireballManager.telegraphTimeout t s) = log s
  /\ now (FireballManager.telegraphTimeout t s) = now s.
Proof.
  unfold FireballManager.telegraphTimeout.
  destruct (FireballManager.fireball (tmr_fireball t) s) as [fb|]; [|auto].
  destruct (Fb.isActive fb && negb (Fb.hasExploded fb)); [|auto].
  destruct (TelegraphManager.createTelegraph _ _ _ _ _ _) as [tid tm].
  auto.
Qed.

Lemma onSuccessfulHit_clock (hits : list Hit) (s : Sys) :
  log (Game.onSuccessfulHit hits s) = log s
  /\ now (Game.onSuccessfulHit hits s) = now s.
Proof.
  unfold Game.onSuccessfulHit. destruct (cs_game (combat s)); auto.
Qed.

End Clock.

(* ------------------------------------------------------------------ *)
(** ** One emission per attack: the invariant *)

Section Emission.
Context {M : MathLib}.

Lemma armed_foreign (id : nat) (added l : list (Q * Event)) :
  Forall (fun x => event_enemy (snd x) <> id) added ->
  armed id (added ++ l) = armed id l.
Proof.
  induction 1 as [|[t ev] rest Hx _ IH]; [reflexivity|].
  cbn [app armed]. rewrite IH. cbn [snd] in Hx.
  assert (Hs : is_start id ev = false)
    by (destruct ev; cbn in *; try reflexivity; apply Nat.eqb_neq; exact Hx).
  assert (Hd : is_damage id ev = false)
    by (destruct ev; cbn in *; try reflexivity; apply Nat.eqb_neq; exact Hx).
  rewrite Hs, Hd. destruct (armed id l); reflexivity.
Qed.

Lemma armed_telegraph (id : nat) (e : Enemy.t) (s : Sys)
      (tel l : list (Q * Event)) :
  telegraph_entry e s tel -> armed id (tel ++ l) = armed id l.
Proof.
  intros [-> | (tid & d & -> & _)]; [reflexivity|].
  cbn. destruct (armed id l); reflexivity.
Qed.

(** The entries one [updateAnimation] adds belong to the enemy. *)
Lemma tick_outcome_added (e e1 : Enemy.t) (s s1 : Sys) :
  tick_outcome e s e1 s1 ->
  exists added,
    log s1 = added ++ log s
    /\ Forall (fun x => event_enemy (snd x) = Enemy.eid e) added.
Proof.
  intros (_ & _ & [(Hl & _) | (_ & _ & tel & dmg & Hl & Ht & _ & Hd & _)]).
  { exists []. split; [exact Hl | constructor]. }
  exists (dmg ++ tel). split; [rewrite Hl, app_assoc; reflexivity|].
  apply Forall_app. split.
  - destruct Hd as [-> | (_ & _ & [(p & -> & _) | (-> & _)])];
      repeat constructor.
  - destruct Ht as [-> | (tid & d & -> & _)]; repeat constructor.
Qed.

Lemma start_outcome_added (e e1 : Enemy.t) (s s1 : Sys) :
  start_outcome e s e1 s1 ->
  exists added,
    log s1 = added ++ log s
    /\ Forall (fun x => event_enemy (snd x) = Enemy.eid e) added.
Proof.
  intros (_ & _ & [(Hl & _) | (Hl & _)]).
  - exists []. split; [exact Hl | constructor].
  - exists [(now s, EvAttackStarted (Enemy.eid e))].
    split; [exact Hl | repeat constructor].
Qed.

Lemma owned_foreign (id id' : nat) (added : list (Q * Event)) :
  id' <> id ->
  Forall (fun x => event_enemy (snd x) = id) added ->
  Forall (fun x => event_enemy (snd x) <> id') added.
Proof.
  intros Hne H. induction H as [|x rest Hx _ IH]; constructor; [|exact IH].
  rewrite Hx. intro E. apply Hne. symmetry. exact E.
Qed.

Lemma attack_pending_quiet (e e' : Enemy.t) (s : Sys) :
  ident e' = ident e ->
  animState e' = animState e \/ Enemy.currentAnimation e' <> anim_attack ->
  attack_pending e s -> attack_pending e' s.
Proof.
  intros Hi Ha H Hatt Hlt.
  destruct Ha as [Ha | Ha]; [|contradiction].
  apply animState_fields in Ha. destruct Ha as (A1 & A2 & A3 & _).
  destruct (ident_fields _ _ Hi) as (-> & _).
  unfold Enemy.damageFrame in *. rewrite A1 in Hatt. rewrite A2, A3 in Hlt.
  exact (H Hatt Hlt).
Qed.

Lemma attack_pending_log (e : Enemy.t) (s s' : Sys) :
  log s' = log s -> attack_pending e s -> attack_pending e s'.
Proof. intros Hl H Ha Hlt. rewrite Hl. exact (H Ha Hlt). Qed.

Lemma attack_pending_other (e2 : Enemy.t) (id : nat) (s s1 : Sys)
      (added : list (Q * Event)) :
  log s1 = added ++ log s ->
  Forall (fun x => event_enemy (snd x) = id) added ->
  Enemy.eid e2 <> id ->
  attack_pending e2 s -> attack_pending e2 s1.
Proof.
  intros Hl Hown Hne H Ha Hlt. rewrite Hl.
  rewrite (armed_foreign _ _ _ (owned_foreign _ _ _ Hne Hown)).
  exact (H Ha Hlt).
Qed.

Lemma emission_tick (e e1 : Enemy.t) (s s1 : Sys) :
  tick_outcome e s e1 s1 ->
  log_armed s -> attack_pending e s ->
  log_armed s1 /\ attack_pending e1 s1.
Proof.
  intros Hout HG HI.
  destruct Hout as (Hi & Hn & [(Hl & Ha) | Hatt]).
  { split.
    - intro id. rewrite Hl. apply HG.
    - apply (attack_pending_log e1 s s1 Hl).
      apply (attack_pending_quiet e e1 s Hi Ha HI). }
  destruct Hatt as (Hatt & Htf & tel & dmg & Hl & Ht & _ & Hd & Hpost).
  destruct (ident_fields _ _ Hi) as (He & _).
  destruct Hd as [-> | (Hf & Htg & Hd)].
  - (* no emission *)
    cbn [app] in Hl. split.
    + intro id. rewrite Hl, (armed_telegraph id e s tel _ Ht). apply HG.
    + intros Ha1 Hlt1. rewrite Hl, (armed_telegraph _ e s tel _ Ht), He.
      destruct Hpost as [Hp | (_ & P2 & P3 & _)]; [contradiction|].
      apply HI; [exact Hatt|].
      unfold Enemy.damageFrame in *. rewrite P2, P3 in Hlt1. lia.
  - (* the emission of this attack *)
    assert (Hsome : armed (Enemy.eid e) (log s) = Some true)
      by (apply HI; [exact Hatt | lia]).
    assert (Hshape : exists ev,
               dmg = [(now s, ev)]
               /\ is_start (Enemy.eid e) ev = false
               /\ is_damage (Enemy.eid e) ev = true
               /\ event_enemy ev = Enemy.eid e).
    { destruct Hd as [(p & -> & _) | (-> & _)]; eexists;
        (split; [reflexivity|]); cbn; rewrite Nat.eqb_refl; auto. }
    destruct Hshape as (ev & -> & Hs & Hdm & Hown).
    split.
    + intro id. rewrite Hl. cbn [app armed].
      rewrite (armed_telegraph id e s tel _ Ht).
      destruct (Nat.eq_dec id (Enemy.eid e)) as [-> | Hne].
      * rewrite Hsome, Hs, Hdm. discriminate.
      * pose proof (HG id) as Hid.
        destruct (armed id (log s)) as [a|]; [|contradiction].
        assert (Hs' : is_start id ev = false)
          by (destruct ev; cbn in *; try reflexivity; apply Nat.eqb_neq;
              congruence).
        assert (Hd' : is_damage id ev = false)
          by (destruct ev; cbn in *; try reflexivity; apply Nat.eqb_neq;
              congruence).
        rewrite Hs', Hd'. discriminate.
    + intros Ha1 Hlt1.
      destruct Hpost as [Hp | (_ & P2 & P3 & _)]; [contradiction|].
      unfold Enemy.damageFrame in *. rewrite P2, P3 in Hlt1. lia.
Qed.

Lemma emission_start (e e1 : Enemy.t) (s s1 : Sys) :
  start_outcome e s e1 s1 ->
  log_armed s -> attack_pending e s ->
  log_armed s1 /\ attack_pending e1 s1.
Proof.
  intros (Hi & Hn & [(Hl & Ha) | (Hl & Ha)]) HG HI.
  { split.
    - intro id. rewrite Hl. apply HG.
    - apply (attack_pending_log e1 s s1 Hl).
      apply (attack_pending_quiet e e1 s Hi Ha HI). }
  destruct (ident_fields _ _ Hi) as (He & _).
  split.
  - intro id. rewrite Hl. cbn [armed].
    pose proof (HG id) as Hid.
    destruct (armed id (log s)) as [a|]; [|contradiction].
    cbn. destruct (Nat.eqb (Enemy.eid e) id); discriminate.
  - intros _ _. rewrite Hl, He. cbn [armed].
    pose proof (HG (Enemy.eid e)) as Hid.
    destruct (armed (Enemy.eid e) (log s)) as [a|]; [|contradiction].
    cbn. rewrite Nat.eqb_refl. reflexivity.
Qed.

End Emission.

(* ------------------------------------------------------------------ *)
(** ** From one enemy to the game *)

Section GameInvariant.
Context {M : MathLib}.

Lemma update_eid (dt : Q) (rnd : Rand) (e : Enemy.t) (s : Sys) :
  Enemy.eid (fst (Enemy.update dt rnd e s)) = Enemy.eid e.
Proof.
  destruct (update_outcome dt rnd e s) as (H2 & _).
  destruct (updateAnimation_outcome dt rnd (Enemy.superUpdate e) s)
    as (H1 & _).
  destruct (superUpdate_quiet e) as (H0 & _).
  apply ident_eid. rewrite H2, H1. exact H0.
Qed.

Variable I : Enemy.t -> Sys -> Prop.
Variable G : Sys -> Prop.
Variable ok : Q -> Prop.

Hypothesis I_clock : forall e s s',
  log s' = log s -> now s' = now s -> I e s -> I e s'.
Hypothesis G_clock : forall s s',
  log s' = log s -> now s' = now s -> G s -> G s'.
Hypothesis I_time : forall e s dt,
  ok dt -> I e s -> I e (set_now (now s + dt) s).
Hypothesis G_time : forall s dt,
  ok dt -> G s -> G (set_now (now s + dt) s).
Hypothesis I_blow : forall amount attacker e s,
  I e s -> I (fst (Enemy.takeDamage amount attacker e s)) s.
Hypothesis step_own : forall dt rnd e s,
  G s -> I e s ->
  G (snd (Enemy.update dt rnd e s))
  /\ I (fst (Enemy.update dt rnd e s)) (snd (Enemy.update dt rnd e s)).
Hypothesis step_other : forall dt rnd e s e2,
  Enemy.eid e2 <> Enemy.eid e -> I e2 s ->
  I e2 (snd (Enemy.update dt rnd e s)).

(** The loop of [EnemyManager.update]; [outside] are enemies the loop
    does not visit. *)
Lemma EnemyManager_update_inv (dt : Q) (rnd : nat -> Rand)
      (es : list Enemy.t) :
  forall (s : Sys) (outside : list Enemy.t),
    NoDup (map Enemy.eid es) -> G s ->
    Forall (fun e => I e s) es -> Forall (fun e => I e s) outside ->
    (forall o e, In o outside -> In e es -> Enemy.eid o <> Enemy.eid e) ->
    let r := EnemyManager.update dt rnd es s in
    G (snd r) /\ Forall (fun e => I e (snd r)) (fst r)
    /\ Forall (fun e => I e (snd r)) outside
    /\ NoDup (map Enemy.eid (fst r))
    /\ (forall e', In e' (fst r) -> In (Enemy.eid e') (map Enemy.eid es)).
Proof.
  induction es as [|e rest IH]; intros s outside Hnd HG HI Hout Hsep;
    cbv zeta.
  { cbn. refine (conj HG (conj HI (conj Hout (conj Hnd _)))).
    intros e' []. }
  cbn [EnemyManager.update].
  cbn [map] in Hnd. apply NoDup_cons_iff in Hnd. destruct Hnd as [Hnot Hnd].
  apply Forall_cons_iff in HI. destruct HI as [HIe HIrest].
  destruct (IH s (e :: outside) Hnd HG HIrest) as (G1 & I1 & O1 & N1 & S1).
  { constructor; assumption. }
  { intros o r [<- | Ho] Hr.
    - intro E. apply Hnot. rewrite E. apply in_map. exact Hr.
    - apply Hsep; [exact Ho | right; exact Hr]. }
  destruct (EnemyManager.update dt rnd rest s) as [rest' s1].
  cbn [fst snd] in *.
  apply Forall_cons_iff in O1. destruct O1 as [Ie1 O1].
  destruct (step_own dt (rnd (Enemy.eid e)) e s1 G1 Ie1) as (G2 & I2).
  pose proof (update_eid dt (rnd (Enemy.eid e)) e s1) as He.
  assert (Irest2 : Forall (fun r => I r
            (snd (Enemy.update dt (rnd (Enemy.eid e)) e s1))) rest').
  { apply Forall_forall. intros r Hr. apply step_other.
    - intro E. apply Hnot. rewrite <- E. apply S1. exact Hr.
    - rewrite Forall_forall in I1. apply I1. exact Hr. }
  assert (Iout2 : Forall (fun o => I o
            (snd (Enemy.update dt (rnd (Enemy.eid e)) e s1))) outside).
  { apply Forall_forall. intros o Ho. apply step_other.
    - apply Hsep; [exact Ho | left; reflexivity].
    - rewrite Forall_forall in O1. apply O1. exact Ho. }
  destruct (Enemy.update dt (rnd (Enemy.eid e)) e s1) as [e' s2].
  cbn [fst snd] in *.
  destruct (Enemy.isDead e' && Enemy.deathAnimationComplete e');
    cbn [fst snd].
  - refine (conj G2 (conj Irest2 (conj Iout2 (conj N1 _)))).
    intros r Hr. right. apply S1. exact Hr.
  - refine (conj G2 (conj _ (conj Iout2 (conj _ _)))).
    + constructor; assumption.
    + cbn [map]. constructor; [|exact N1].
      rewrite He. intro Hin. apply Hnot.
      apply in_map_iff in Hin. destruct Hin as (r & Er & Hr).
      rewrite <- Er. apply S1. exact Hr.
    + intros r [<- | Hr].
      * left. symmetry. exact He.
      * right. apply S1. exact Hr.
Qed.

Lemma Forall_clock (es : list Enemy.t) (s s' : Sys) :
  log s' = log s -> now s' = now s ->
  Forall (fun e => I e s) es -> Forall (fun e => I e s') es.
Proof.
  intros Hl Hn H. apply Forall_forall. intros e He.
  apply (I_clock e s s' Hl Hn). rewrite Forall_forall in H. apply H.
  exact He.
Qed.

(** One tick of the game. *)
Lemma Game_update_inv (k : Game.Tick) (g : Game) :
  ok (Game.deltaTime k) ->
  game_inv I G g -> game_inv I G (Game.update k g).
Proof.
  intros Hok (Hnd & HG & HI). unfold Game.update. cbv zeta.
  destruct (Num.gtb (freezeTime (sys g)) 0).
  { unfold game_inv, distinct_ids. cbn [enemies sys].
    refine (conj Hnd (conj _ _)).
    - apply (G_clock (sys g)); auto.
    - apply (Forall_clock _ (sys g)); auto. }
  set (s1 := set_player _ _).
  assert (G1 : G s1).
  { apply (G_clock (set_now (now (sys g) + Game.deltaTime k) (sys g)));
      [reflexivity | reflexivity |].
    apply G_time; assumption. }
  assert (I1 : Forall (fun e => I e s1) (enemies g)).
  { apply (Forall_clock _
             (set_now (now (sys g) + Game.deltaTime k) (sys g)));
      [reflexivity | reflexivity |].
    apply Forall_forall. intros e He. apply I_time; [exact Hok|].
    rewrite Forall_forall in HI. apply HI. exact He. }
  clearbody s1.
  destruct (EnemyManager_update_inv (Game.deltaTime k) (Game.rnd k)
              (enemies g) s1 [] Hnd G1 I1 (Forall_nil _))
    as (G2 & I2 & _ & N2 & _).
  { intros o e []. }
  destruct (EnemyManager.update (Game.deltaTime k) (Game.rnd k)
              (enemies g) s1) as [es s2].
  cbn [fst snd] in *.
  set (s3 := set_combat _ s2).
  assert (C3 : log s3 = log s2 /\ now s3 = now s2) by auto.
  clearbody s3.
  destruct (FireballManager_update_clock (Game.deltaTime k) s3) as (L4 & N4).
  set (s4 := FireballManager.update (Game.deltaTime k) s3) in *.
  clearbody s4.
  unfold game_inv, distinct_ids. cbn [enemies sys].
  destruct C3 as (L3 & N3).
  assert (L5 : log s4 = log s2) by congruence.
  assert (N5 : now s4 = now s2) by congruence.
  refine (conj N2 (conj _ _)).
  - apply (G_clock s2); [exact L5 | exact N5 | exact G2].
  - apply (Forall_clock _ s2); [exact L5 | exact N5 | exact I2].
Qed.

(** A swing of the player. *)
Lemma triggerAttack_inv (r1 r2 : Q) (g : Game) :
  game_inv I G g -> game_inv I G (out_game (Game.triggerAttack r1 r2 g)).
Proof.
  intros (Hnd & HG & HI). unfold Game.triggerAttack. cbv zeta.
  destruct (Num.gtb (cs_attackCooldown (combat (sys g))) 0
            || cs_isAttacking (combat (sys g))).
  { cbn [out_game]. refine (conj Hnd (conj HG HI)). }
  match goal with
  | |- context [EnemyManager.handlePlayerAttack ?p ?d ?r ?a ?i _ _] =>
      destruct (handlePlayerAttack_spec p d r a i (enemies g) (sys g)
                  (sys g) eq_refl) as (H1 & _ & _ & Hl & Hn);
      destruct (EnemyManager.handlePlayerAttack p d r a i (enemies g)
                  (sys g)) as [[es s1] hits];
      set (blow := fun e : Enemy.t =>
                     if inSwingb p d r a e
                     then fst (Enemy.takeDamage (swingDamage i) (Some p) e
                                 (sys g))
                     else e) in *
  end.
  cbn [fst snd] in *.
  assert (Hids : map Enemy.eid es = map Enemy.eid (enemies g)).
  { rewrite H1, map_map. apply map_ext. intro e. subst blow. cbv beta.
    destruct (inSwingb _ _ _ _ e); [apply takeDamage_eid | reflexivity]. }
  assert (HIes : Forall (fun e => I e (sys g)) es).
  { rewrite H1. apply Forall_forall. intros e' He'.
    apply in_map_iff in He'. destruct He' as (e & <- & He).
    rewrite Forall_forall in HI. subst blow. cbv beta.
    destruct (inSwingb _ _ _ _ e); [apply I_blow|]; apply HI; exact He. }
  set (out := match hits with
              | [] => (s1, [])
              | _ :: _ => (Game.onSuccessfulHit (sort_hits hits) s1,
                           sort_hits hits)
              end).
  assert (Hout : log (fst out) = log (sys g) /\ now (fst out) = now (sys g)).
  { subst out. destruct hits; cbn [fst]; [auto|].
    destruct (onSuccessfulHit_clock (sort_hits (h :: hits)) s1) as (L & N).
    split; congruence. }
  clearbody out. destruct out as [s2 effects]. cbn [fst] in Hout.
  destruct Hout as (L2 & N2).
  cbn [out_game]. unfold game_inv, distinct_ids. cbn [enemies sys].
  refine (conj _ (conj _ _)).
  - rewrite Hids. exact Hnd.
  - apply (G_clock (sys g)); auto.
  - apply (Forall_clock _ (sys g)); auto.
Qed.

Lemma input_step_inv (i : Input) (g : Game) :
  ticks_ok ok [i] -> game_inv I G g -> game_inv I G (input_step i g).
Proof.
  intros Hok Hg. destruct i as [k | r1 r2 | t]; cbn [input_step].
  - apply Game_update_inv; [exact (proj1 Hok) | exact Hg].
  - apply triggerAttack_inv. exact Hg.
  - destruct Hg as (Hnd & HG & HI).
    destruct (telegraphTimeout_clock t (sys g)) as (L & N).
    refine (conj Hnd (conj _ _)); cbn [enemies sys].
    + apply (G_clock (sys g)); auto.
    + apply (Forall_clock _ (sys g)); auto.
Qed.

Lemma play_inv (inputs : list Input) :
  forall g, ticks_ok ok inputs ->
            game_inv I G g -> game_inv I G (play inputs g).
Proof.
  induction inputs as [|i rest IH]; intros g Hok Hg; [exact Hg|].
  cbn [play]. apply IH.
  - destruct i; cbn in Hok; [exact (proj2 Hok) | exact Hok | exact Hok].
  - apply input_step_inv; [|exact Hg].
    destruct i; cbn in *; [split; [exact (proj1 Hok) | exact Logic.I]
                          | exact Logic.I | exact Logic.I].
Qed.

End GameInvariant.

Section EmissionGame.
Context {M : MathLib}.

Lemma takeDamage_quiet (amount : Q) (attacker : option Vector3)
      (e : Enemy.t) (s : Sys) :
  ident (fst (Enemy.takeDamage amount attacker e s)) = ident e
  /\ (animState (fst (Enemy.takeDamage amount attacker e s)) = animState e
      \/ Enemy.currentAnimation (fst (Enemy.takeDamage amount attacker e s))
         <> anim_attack).
Proof.
  destruct (takeDamage_outcome amount attacker e s)
    as ((Hi & _ & [(_ & Ha) | (Hbad & _)]) & Hl).
  - split; assumption.
  - rewrite Hl in Hbad. exfalso.
    apply (f_equal (@length _)) in Hbad. cbn in Hbad. lia.
Qed.

(** What one [update] adds to the log: the telegraph of the attack under
    way, its damage emission, the start of an attack, each at most
    once and in this order. *)
Lemma update_log (dt : Q) (rnd : Rand) (e : Enemy.t) (s : Sys) :
  exists started dmg tel,
    log (snd (Enemy.update dt rnd e s)) = started ++ dmg ++ tel ++ log s
    /\ (started = [] \/ started = [(now s, EvAttackStarted (Enemy.eid e))])
    /\ telegraph_entry (Enemy.superUpdate e) s tel
    /\ damage_entry (Enemy.superUpdate e) s dmg
    /\ (dmg = [] \/ Enemy.currentAnimation e = anim_attack).
Proof.
  pose proof (update_outcome dt rnd e s) as H2.
  pose proof (updateAnimation_outcome dt rnd (Enemy.superUpdate e) s) as H1.
  destruct (Enemy.updateAnimation dt rnd (Enemy.superUpdate e) s)
    as [e1 s1].
  cbn [fst snd] in *.
  destruct H1 as (Hi1 & Hn1 & Hcase1).
  assert (Hst : exists started,
             log (snd (Enemy.update dt rnd e s)) = started ++ log s1
             /\ (started = []
                 \/ started = [(now s, EvAttackStarted (Enemy.eid e))])).
  { destruct H2 as (_ & _ & [(Hl & _) | (Hl & _)]).
    - exists []. auto.
    - exists [(now s, EvAttackStarted (Enemy.eid e))].
      split; [|right; reflexivity].
      rewrite Hl, Hn1.
      destruct (ident_fields _ _ Hi1) as (-> & _).
      destruct (superUpdate_quiet e) as (Hq & _).
      destruct (ident_fields _ _ Hq) as (-> & _).
      reflexivity. }
  destruct Hst as (started & Hl2 & Hst).
  exists started.
  destruct Hcase1
    as [(Hl1 & _) | (Hatt & _ & tel & dmg & Hl1 & Ht & _ & Hd & _)].
  - exists [], []. rewrite Hl2, Hl1.
    refine (conj eq_refl (conj Hst (conj _ (conj _ _)))); left; reflexivity.
  - exists dmg, tel. rewrite Hl2, Hl1.
    refine (conj eq_refl (conj Hst (conj Ht (conj Hd _)))).
    right. exact Hatt.
Qed.

End EmissionGame.

Section EmissionTheorem.
Context {M : MathLib}.

Lemma ticks_ok_any (inputs : list Input) : ticks_ok (fun _ => True) inputs.
Proof.
  induction inputs as [|[k | r1 r2 | t] rest IH]; cbn; auto.
Qed.

Lemma emission_update_own (dt : Q) (rnd : Rand) (e : Enemy.t) (s : Sys) :
  log_armed s -> attack_pending e s ->
  log_armed (snd (Enemy.update dt rnd e s))
  /\ attack_pending (fst (Enemy.update dt rnd e s))
                    (snd (Enemy.update dt rnd e s)).
Proof.
  intros HG HI.
  pose proof (update_outcome dt rnd e s) as H2.
  pose proof (updateAnimation_outcome dt rnd (Enemy.superUpdate e) s) as H1.
  destruct (Enemy.updateAnimation dt rnd (Enemy.superUpdate e) s)
    as [e1 s1].
  cbn [fst snd] in *.
  destruct (superUpdate_quiet e) as (Q1 & Q2).
  assert (HI0 : attack_pending (Enemy.superUpdate e) s)
    by (apply (attack_pending_quiet e); auto).
  destruct (emission_tick _ _ _ _ H1 HG HI0) as (G1 & I1).
  exact (emission_start _ _ _ _ H2 G1 I1).
Qed.

Lemma update_added (dt : Q) (rnd : Rand) (e : Enemy.t) (s : Sys) :
  now (snd (Enemy.update dt rnd e s)) = now s
  /\ exists added,
       log (snd (Enemy.update dt rnd e s)) = added ++ log s
       /\ Forall (fun x => event_enemy (snd x) = Enemy.eid e) added.
Proof.
  pose proof (update_outcome dt rnd e s) as H2.
  pose proof (updateAnimation_outcome dt rnd (Enemy.superUpdate e) s) as H1.
  destruct (Enemy.updateAnimation dt rnd (Enemy.superUpdate e) s)
    as [e1 s1].
  cbn [fst snd] in *.
  destruct (tick_outcome_added _ _ _ _ H1) as (a1 & L1 & F1).
  destruct (start_outcome_added _ _ _ _ H2) as (a2 & L2 & F2).
  destruct H1 as (Hi1 & Hn1 & _). destruct H2 as (_ & Hn2 & _).
  split; [rewrite Hn2; exact Hn1|].
  exists (a2 ++ a1). split; [rewrite L2, L1, app_assoc; reflexivity|].
  apply Forall_app. split; [|exact F1].
  destruct (ident_fields _ _ Hi1) as (E1 & _).
  change (Enemy.eid (Enemy.superUpdate e)) with (Enemy.eid e) in E1.
  rewrite <- E1. exact F2.
Qed.

Lemma emission_game (inputs : list Input) (g : Game) :
  game_inv attack_pending log_armed g ->
  game_inv attack_pending log_armed (play inputs g).
Proof.
  apply (play_inv attack_pending log_armed (fun _ => True)).
  - intros e s s' Hl _. apply attack_pending_log. exact Hl.
  - intros s s' Hl _ H id. rewrite Hl. apply H.
  - intros e s dt _. apply attack_pending_log. reflexivity.
  - intros s dt _ H. exact H.
  - intros amount attacker e s H.
    destruct (takeDamage_quiet amount attacker e s) as (Hi & Ha).
    exact (attack_pending_quiet e _ s Hi Ha H).
  - apply emission_update_own.
  - intros dt rnd e s e2 Hne H.
    destruct (update_added dt rnd e s) as (_ & added & Hl & Hown).
    exact (attack_pending_other e2 (Enemy.eid e) s _ added Hl Hown Hne H).
  - apply ticks_ok_any.
Qed.

End EmissionTheorem.

(** C3 (amended).  The unit of the guarantee is the start of an attack
    animation, not the entry into the ATTACK state.  In a game whose
    enemies have distinct identities, started with an empty log and no
    enemy in its attack animation, whatever the ticks (any [deltaTime]),
    the swings of the player and the timeouts: every damage emission
    (player-damage call or fireball launch) of an enemy follows a start
    of an attack of that enemy with no other emission of it in between.
    One [update] emits at most one damage, whatever [deltaTime]: it
    does so when the attack animation advances onto its damage frame
    [floor(totalFrames / 2)] with a target set, after the telegraph
    entry of the same [update] if any, and a melee damage only with the
    target within [attackRange]. *)
Theorem one_emission_per_attack_start {M : MathLib} (g : Game)
        (inputs : list Input) :
  distinct_ids g -> none_attacking g -> log (sys g) = [] ->
  (forall id, armed id (log (sys (play inputs g))) <> None)
  /\ (forall dt rnd e s,
        exists started dmg tel,
          log (snd (Enemy.update dt rnd e s))
          = started ++ dmg ++ tel ++ log s
          /\ (started = []
              \/ started = [(now s, EvAttackStarted (Enemy.eid e))])
          /\ telegraph_entry (Enemy.superUpdate e) s tel
          /\ damage_entry (Enemy.superUpdate e) s dmg
          /\ (dmg = [] \/ Enemy.currentAnimation e = anim_attack)).
Proof.
  intros Hnd Hna Hlog. split; [|apply update_log].
  assert (Hg : game_inv attack_pending log_armed g).
  { refine (conj Hnd (conj _ _)).
    - intro id. rewrite Hlog. discriminate.
    - apply Forall_forall. intros e He Ha.
      unfold none_attacking in Hna. rewrite Forall_forall in Hna.
      destruct (Hna e He Ha). }
  destruct (emission_game inputs g Hg) as (_ & HG & _). exact HG.
Qed.

(* ------------------------------------------------------------------ *)
(** ** The telegraph comes first: the invariant *)

Section Telegraphs.
Context {M : MathLib}.

Lemma check_foreign (rule : Q -> Q -> Q -> bool) (id : nat)
      (added l : list (Q * Event)) :
  Forall (fun x => event_enemy (snd x) <> id) added ->
  telegraph_check rule id (added ++ l) = telegraph_check rule id l.
Proof.
  induction 1 as [|[t ev] rest Hx _ IH]; [reflexivity|].
  cbn [app telegraph_check]. rewrite IH. cbn [snd] in Hx.
  destruct (telegraph_check rule id l) as [tele|]; [|reflexivity].
  destruct ev; cbn [event_enemy] in Hx; try reflexivity;
    apply Nat.eqb_neq in Hx; rewrite Hx; reflexivity.
Qed.

Lemma visible_app (a l : list (Q * Event)) :
  telegraphs_visible a -> telegraphs_visible l -> telegraphs_visible (a ++ l).
Proof.
  intros Ha Hl t i tid d Hin. apply in_app_or in Hin.
  destruct Hin as [Hin | Hin]; [exact (Ha _ _ _ _ Hin) | exact (Hl _ _ _ _ Hin)].
Qed.

Lemma telegraph_entry_visible (e : Enemy.t) (s : Sys)
      (tel : list (Q * Event)) :
  telegraph_entry e s tel -> telegraphs_visible tel.
Proof.
  intros [-> | (tid & d & -> & Hd & _)] t i tid' d' Hin.
  - destruct Hin.
  - destruct Hin as [E | []]. injection E as _ _ _ <-. exact Hd.
Qed.

Lemma damage_entry_visible (e : Enemy.t) (s : Sys)
      (dmg : list (Q * Event)) :
  damage_entry e s dmg -> telegraphs_visible dmg.
Proof.
  intros [-> | (_ & _ & [(p & -> & _) | (-> & _)])] t i tid d Hin.
  - destruct Hin.
  - destruct Hin as [E | []]. discriminate.
  - destruct Hin as [E | []]. discriminate.
Qed.

Lemma attack_telegraphed_quiet (e e' : Enemy.t) (s : Sys) :
  ident e' = ident e ->
  animState e' = animState e \/ Enemy.currentAnimation e' <> anim_attack ->
  attack_telegraphed e s -> attack_telegraphed e' s.
Proof.
  intros Hi Ha (Hm & Hk & H2 & H3).
  destruct (ident_fields _ _ Hi) as (He & Em & Ek).
  refine (conj _ (conj _ (conj _ _))).
  - rewrite Em. exact Hm.
  - rewrite Ek. exact Hk.
  - intros Hatt Hc. rewrite He.
    destruct Ha as [Ha | Ha]; [|contradiction].
    apply animState_fields in Ha. destruct Ha as (A1 & _ & _ & A4).
    apply H2; congruence.
  - intros Hatt Hle.
    destruct Ha as [Ha | Ha]; [|contradiction].
    apply animState_fields in Ha. destruct Ha as (A1 & A2 & A3 & A4).
    rewrite A4. apply H3; [congruence|].
    unfold Enemy.telegraphFrame, Enemy.damageFrame in *.
    rewrite A2, A3 in Hle. exact Hle.
Qed.

Lemma attack_telegraphed_clock (e : Enemy.t) (s s' : Sys) :
  log s' = log s -> now s <= now s' ->
  attack_telegraphed e s -> attack_telegraphed e s'.
Proof.
  intros Hl Hn (Hm & Hk & H2 & H3).
  refine (conj Hm (conj Hk (conj _ H3))).
  intros Hatt Hc. destruct (H2 Hatt Hc) as (ts & d & Hc2 & Hts).
  exists ts, d. rewrite Hl. split; [exact Hc2|].
  apply (Qle_trans _ _ _ Hts Hn).
Qed.

Lemma attack_telegraphed_other (e2 : Enemy.t) (id : nat) (s s1 : Sys)
      (added : list (Q * Event)) :
  log s1 = added ++ log s -> now s1 = now s ->
  Forall (fun x => event_enemy (snd x) = id) added ->
  Enemy.eid e2 <> id ->
  attack_telegraphed e2 s -> attack_telegraphed e2 s1.
Proof.
  intros Hl Hn Hown Hne (Hm & Hk & H2 & H3).
  refine (conj Hm (conj Hk (conj _ H3))).
  intros Hatt Hc. destruct (H2 Hatt Hc) as (ts & d & Hc2 & Hts).
  exists ts, d. rewrite Hl, Hn.
  rewrite (check_foreign _ _ _ _ (owned_foreign _ _ _ Hne Hown)).
  auto.
Qed.

Lemma telegraphFrame_le_damageFrame (e : Enemy.t) :
  (1 < Enemy.totalFrames e)%Z ->
  (1 <= Enemy.telegraphFrame e <= Enemy.damageFrame e)%Z.
Proof.
  intro H. unfold Enemy.telegraphFrame, Enemy.damageFrame.
  assert (1 <= Enemy.totalFrames e / 2)%Z
    by (apply Z.div_le_lower_bound; lia).
  lia.
Qed.

Lemma visible_tick (e e1 : Enemy.t) (s s1 : Sys) :
  tick_outcome e s e1 s1 ->
  telegraphs_visible (log s) -> telegraphs_visible (log s1).
Proof.
  intros (_ & _ & [(Hl & _) | Hatt]) HV; [rewrite Hl; exact HV|].
  destruct Hatt as (_ & _ & tel & dmg & Hl & Ht & _ & Hd & _).
  rewrite Hl. apply visible_app; [exact (damage_entry_visible _ _ _ Hd)|].
  apply visible_app; [exact (telegraph_entry_visible _ _ _ Ht) | exact HV].
Qed.

Lemma visible_start (e e1 : Enemy.t) (s s1 : Sys) :
  start_outcome e s e1 s1 ->
  telegraphs_visible (log s) -> telegraphs_visible (log s1).
Proof.
  intros (_ & _ & [(Hl & _) | (Hl & _)]) HV; rewrite Hl; [exact HV|].
  intros t i tid d [E | Hin]; [discriminate | exact (HV _ _ _ _ Hin)].
Qed.

(** One [updateAnimation] of an enemy that telegraphs its attacks: the
    enemy's own part of the log stays well formed. *)
Lemma telegraph_tick (e e1 : Enemy.t) (s s1 : Sys) :
  tick_outcome e s e1 s1 ->
  telegraph_check created_before (Enemy.eid e) (log s) <> None ->
  attack_telegraphed e s ->
  telegraph_check created_before (Enemy.eid e) (log s1) <> None
  /\ attack_telegraphed e1 s1.
Proof.
  intros Hout HG HI.
  destruct Hout as (Hi & Hn & [(Hl & Ha) | Hatt]).
  { split.
    - rewrite Hl. exact HG.
    - apply (attack_telegraphed_clock e1 s s1 Hl).
      + rewrite Hn. apply Qle_refl.
      + exact (attack_telegraphed_quiet e e1 s Hi Ha HI). }
  destruct Hatt as (Hatt & Htf & tel & dmg & Hl & Ht & Hdue & Hd & Hpost).
  destruct (ident_fields _ _ Hi) as (He & Em & Ek).
  destruct HI as (Hm & Hk & H2 & H3).
  destruct (telegraphFrame_le_damageFrame e Htf) as (Hone & Hle).
  set (C := telegraph_check created_before (Enemy.eid e)) in *.
  (* after the telegraph entry *)
  assert (A1 : C (tel ++ log s) <> None).
  { destruct Ht as [-> | (tid & d & -> & _)]; [exact HG|].
    subst C. cbn [app telegraph_check].
    destruct (telegraph_check created_before (Enemy.eid e) (log s));
      [|contradiction].
    destruct (Nat.eqb (Enemy.eid e) (Enemy.eid e)); discriminate. }
  assert (B : Enemy.telegraphCreated e
              || (Enemy.currentFrame e + 1 =? Enemy.telegraphFrame e)%Z
              = true ->
              exists ts d, C (tel ++ log s) = Some (Some (ts, d))
                           /\ ts <= now s).
  { intro Hc. destruct (Enemy.telegraphCreated e) eqn:Ec.
    - destruct (H2 Hatt eq_refl) as (ts & d & Hc2 & Hts).
      exists ts, d.
      destruct Ht as [-> | (_ & _ & _ & _ & _ & Hbad)]; [auto | congruence].
    - cbn [orb] in Hc. apply Z.eqb_eq in Hc.
      assert (Hne : tel <> []) by (apply Hdue; repeat split; assumption).
      destruct Ht as [-> | (tid & d & -> & _)]; [contradiction|].
      exists (now s), d. split; [|apply Qle_refl].
      subst C. cbn [app telegraph_check].
      destruct (telegraph_check created_before (Enemy.eid e) (log s));
        [|contradiction].
      rewrite Nat.eqb_refl. reflexivity. }
  assert (Hcreated : (Enemy.currentFrame e + 1)%Z = Enemy.damageFrame e ->
                     Enemy.telegraphCreated e
                     || (Enemy.currentFrame e + 1
                         =? Enemy.telegraphFrame e)%Z = true).
  { intro Hf.
    destruct (Z.eq_dec (Enemy.currentFrame e + 1) (Enemy.telegraphFrame e))
      as [E | E].
    - apply Z.eqb_eq in E. rewrite E. apply orb_true_r.
    - rewrite H3; [reflexivity | exact Hatt | lia]. }
  (* after the damage entry *)
  assert (A2 : C (dmg ++ tel ++ log s) <> None
               /\ C (dmg ++ tel ++ log s) = C (tel ++ log s)).
  { destruct Hd as [-> | (Hf & _ & [(p & -> & _) | (-> & _)])].
    - split; [exact A1 | reflexivity].
    - subst C. cbn [app telegraph_check].
      destruct (telegraph_check created_before (Enemy.eid e) (tel ++ log s))
        eqn:E; [|contradiction].
      split; [discriminate | reflexivity].
    - destruct (B (Hcreated Hf)) as (ts & d & Hc & Hts).
      subst C. cbn [app telegraph_check]. cbv beta in Hc. rewrite Hc.
      rewrite Nat.eqb_refl. unfold created_before.
      apply leb_le in Hts. rewrite Hts.
      split; [discriminate | reflexivity]. }
  split.
  - rewrite Hl. exact (proj1 A2).
  - refine (conj _ (conj _ (conj _ _))).
    + rewrite Em. exact Hm.
    + rewrite Ek. exact Hk.
    + intros Ha1 Hc1.
      destruct Hpost as [Hp | (_ & P2 & P3 & P4)]; [contradiction|].
      rewrite P4 in Hc1. destruct (B Hc1) as (ts & d & Hc & Hts).
      exists ts, d. rewrite Hl, He, Hn.
      fold C. rewrite (proj2 A2). auto.
    + intros Ha1 Hle1.
      destruct Hpost as [Hp | (_ & P2 & P3 & P4)]; [contradiction|].
      rewrite P4.
      unfold Enemy.telegraphFrame, Enemy.damageFrame in Hle1.
      rewrite P2, P3 in Hle1.
      fold (Enemy.damageFrame e) in Hle1. fold (Enemy.telegraphFrame e) in Hle1.
      destruct (Z.eq_dec (Enemy.currentFrame e + 1) (Enemy.telegraphFrame e))
        as [E | E].
      * apply Z.eqb_eq in E. rewrite E. apply orb_true_r.
      * rewrite H3; [reflexivity | exact Hatt | lia].
Qed.

Lemma telegraph_start (e e1 : Enemy.t) (s s1 : Sys) :
  start_outcome e s e1 s1 ->
  telegraph_check created_before (Enemy.eid e) (log s) <> None ->
  attack_telegraphed e s ->
  telegraph_check created_before (Enemy.eid e) (log s1) <> None
  /\ attack_telegraphed e1 s1.
Proof.
  intros (Hi & Hn & [(Hl & Ha) | (Hl & Ha)]) HG HI.
  { split.
    - rewrite Hl. exact HG.
    - apply (attack_telegraphed_clock e1 s s1 Hl).
      + rewrite Hn. apply Qle_refl.
      + exact (attack_telegraphed_quiet e e1 s Hi Ha HI). }
  destruct (ident_fields _ _ Hi) as (He & Em & Ek).
  destruct HI as (Hm & Hk & H2 & H3).
  split.
  - rewrite Hl. cbn [telegraph_check].
    destruct (telegraph_check created_before (Enemy.eid e) (log s));
      [|contradiction].
    destruct (Nat.eqb (Enemy.eid e) (Enemy.eid e)); discriminate.
  - refine (conj _ (conj _ (conj _ _))).
    + rewrite Em. exact Hm.
    + rewrite Ek. exact Hk.
    + intros Ha1 Hc1.
      destruct Ha as [Ha | (_ & _ & P3)]; [contradiction|]. congruence.
    + intros Ha1 Hle1.
      destruct Ha as [Ha | (_ & P2 & _)]; [contradiction|].
      rewrite P2 in Hle1. unfold Enemy.telegraphFrame in Hle1. lia.
Qed.

(** One [update] of an enemy that telegraphs its attacks. *)
Lemma telegraph_update_own (dt : Q) (rnd : Rand) (e : Enemy.t) (s : Sys) :
  telegraph_check created_before (Enemy.eid e) (log s) <> None ->
  attack_telegraphed e s ->
  telegraph_check created_before (Enemy.eid e)
                  (log (snd (Enemy.update dt rnd e s))) <> None
  /\ attack_telegraphed (fst (Enemy.update dt rnd e s))
                        (snd (Enemy.update dt rnd e s)).
Proof.
  intros HG HI.
  pose proof (update_outcome dt rnd e s) as H2.
  pose proof (updateAnimation_outcome dt rnd (Enemy.superUpdate e) s) as H1.
  destruct (Enemy.updateAnimation dt rnd (Enemy.superUpdate e) s)
    as [e1 s1].
  cbn [fst snd] in *.
  destruct (superUpdate_quiet e) as (Q1 & Q2).
  assert (HI0 : attack_telegraphed (Enemy.superUpdate e) s)
    by (apply (attack_telegraphed_quiet e); auto).
  assert (E0 : Enemy.eid (Enemy.superUpdate e) = Enemy.eid e)
    by (apply ident_eid; exact Q1).
  assert (E1 : Enemy.eid e1 = Enemy.eid e).
  { destruct H1 as (Hi & _). rewrite (ident_eid _ _ Hi). exact E0. }
  rewrite <- E0 in HG.
  destruct (telegraph_tick _ _ _ _ H1 HG HI0) as (G1 & I1).
  rewrite E0, <- E1 in G1.
  destruct (telegraph_start _ _ _ _ H2 G1 I1) as (G2 & I2).
  rewrite E1 in G2. split; assumption.
Qed.

(** One [update] of any enemy, telegraphing or not: every telegraph of
    the log still lasts at least 0.3 s. *)
Lemma visible_update (dt : Q) (rnd : Rand) (e : Enemy.t) (s : Sys) :
  telegraphs_visible (log s) ->
  telegraphs_visible (log (snd (Enemy.update dt rnd e s))).
Proof.
  intro HV.
  pose proof (update_outcome dt rnd e s) as H2.
  pose proof (updateAnimation_outcome dt rnd (Enemy.superUpdate e) s) as H1.
  destruct (Enemy.updateAnimation dt rnd (Enemy.superUpdate e) s)
    as [e1 s1].
  cbn [fst snd] in *.
  exact (visible_start _ _ _ _ H2 (visible_tick _ _ _ _ H1 HV)).
Qed.

Lemma telegraph_game (T : nat -> Prop) (inputs : list Input) (g : Game) :
  forward_in_time inputs ->
  game_inv (telegraphed_among T) (log_telegraphed T) g ->
  game_inv (telegraphed_among T) (log_telegraphed T) (play inputs g).
Proof.
  intro Hfw. revert g Hfw.
  refine (fun g Hfw =>
            play_inv (telegraphed_among T) (log_telegraphed T)
                     (fun dt => 0 <= dt) _ _ _ _ _ _ _ inputs g Hfw).
  - intros e s s' Hl Hn H HT.
    apply (attack_telegraphed_clock e s s' Hl); [|exact (H HT)].
    rewrite Hn. apply Qle_refl.
  - intros s s' Hl _ (H1 & H2).
    split; [intros id HT; rewrite Hl; exact (H1 id HT) | rewrite Hl; exact H2].
  - intros e s dt Hdt H HT.
    apply (attack_telegraphed_clock e s); [reflexivity | | exact (H HT)].
    cbn [now set_now]. rewrite <- (Qplus_0_r (now s)) at 1.
    apply Qplus_le_r. exact Hdt.
  - intros s dt _ H. exact H.
  - intros amount attacker e s H HT.
    destruct (takeDamage_quiet amount attacker e s) as (Hi & Ha).
    rewrite (ident_eid _ _ Hi) in HT.
    exact (attack_telegraphed_quiet e _ s Hi Ha (H HT)).
  - intros dt rnd e s (HG & HV) HI.
    destruct (update_added dt rnd e s) as (Hn & added & Hl & Hown).
    split; [split|].
    + intros id HT.
      destruct (Nat.eq_dec id (Enemy.eid e)) as [-> | Hne].
      * exact (proj1 (telegraph_update_own dt rnd e s (HG _ HT) (HI HT))).
      * rewrite Hl.
        rewrite (check_foreign _ _ _ _ (owned_foreign _ _ _ Hne Hown)).
        exact (HG id HT).
    + apply visible_update. exact HV.
    + intro HT. rewrite update_eid in HT.
      exact (proj2 (telegraph_update_own dt rnd e s (HG _ HT) (HI HT))).
  - intros dt rnd e s e2 Hne H HT.
    destruct (update_added dt rnd e s) as (Hn & added & Hl & Hown).
    exact (attack_telegraphed_other e2 (Enemy.eid e) s _ added Hl Hn Hown
                                    Hne (H HT)).
Qed.

(** The duration of the telegraph an enemy creates: what is left of the
    attack animation, and 0.3 s at least. *)
Lemma createAttackTelegraph_duration (e : Enemy.t) (s : Sys) :
  exists tid,
    log (snd (Enemy.createAttackTelegraph e s))
    = if Enemy.telegraphManager e
      then (now s,
            EvTelegraphCreated (Enemy.eid e) tid
              (Num.max (3 # 10)
                 (inject_Z (Enemy.totalFrames e - Enemy.currentFrame e)
                  * Enemy.frameTime e))) :: log s
      else log s.
Proof.
  unfold Enemy.createAttackTelegraph.
  destruct (Enemy.telegraphManager e); [|exists O; reflexivity].
  cbn [negb].
  exists (length (tm_store (telegraphs (snd (Enemy.removeAttackTelegraph e s))))).
  unfold Enemy.removeAttackTelegraph.
  destruct (Enemy.currentTelegraph e); reflexivity.
Qed.

(** Enemies with distinct identities: the identity names the enemy. *)
Lemma distinct_ids_inj (es : list Enemy.t) (a b : Enemy.t) :
  NoDup (map Enemy.eid es) -> In a es -> In b es ->
  Enemy.eid a = Enemy.eid b -> a = b.
Proof.
  induction es as [|x rest IH]; intros Hnd Ha Hb E; [destruct Ha|].
  cbn [map] in Hnd. inversion Hnd as [|? ? Hx Hrest]; subst.
  destruct Ha as [-> | Ha]; destruct Hb as [-> | Hb].
  - reflexivity.
  - exfalso. apply Hx. rewrite E. apply in_map. exact Hb.
  - exfalso. apply Hx. rewrite <- E. apply in_map. exact Ha.
  - exact (IH Hrest Ha Hb E).
Qed.

End Telegraphs.

(** C1 (amended).  In a game of enemies of any kind with distinct
    identities, started with an empty log and going forward in time,
    take any enemy that is a melee enemy with a telegraph manager and is
    not in its attack animation at the start; the other enemies may be
    fireball casters or have no telegraph manager.  Every melee damage
    of that enemy comes at or after the creation of the telegraph of the
    same attack (damage time >= telegraph start time).  Every telegraph
    of the game is created for at least 0.3 s: for what is left of the
    attack animation, [max(0.3, (totalFrames - currentFrame) *
    frameTime)], so that the damage falls while the telegraph still
    runs. *)
Theorem damage_after_telegraph_creation {M : MathLib} (g : Game)
        (inputs : list Input) :
  distinct_ids g -> log (sys g) = [] -> forward_in_time inputs ->
  (forall e,
     In e (enemies g) ->
     Enemy.telegraphManager e = true ->
     Enemy.isFireballCaster e = false ->
     Enemy.currentAnimation e <> anim_attack ->
     telegraph_check created_before (Enemy.eid e)
                     (log (sys (play inputs g))) <> None)
  /\ telegraphs_visible (log (sys (play inputs g)))
  /\ (forall e s,
        exists tid,
          log (snd (Enemy.createAttackTelegraph e s))
          = if Enemy.telegraphManager e
            then (now s,
                  EvTelegraphCreated (Enemy.eid e) tid
                    (Num.max (3 # 10)
                       (inject_Z (Enemy.totalFrames e - Enemy.currentFrame e)
                        * Enemy.frameTime e))) :: log s
            else log s).
Proof.
  intros Hnd Hlog Hfw.
  assert (Hg : game_inv (telegraphed_among (telegraphing_id g))
                        (log_telegraphed (telegraphing_id g)) g).
  { refine (conj Hnd (conj _ _)).
    - split.
      + intros id _. rewrite Hlog. discriminate.
      + rewrite Hlog. intros t i tid d [].
    - apply Forall_forall. intros e He (e0 & He0 & Eid & (Hm & Hk) & Hna).
      assert (E : e0 = e) by exact (distinct_ids_inj _ _ _ Hnd He0 He Eid).
      subst e0.
      refine (conj Hm (conj Hk (conj _ _)));
        intro Ha; destruct (Hna Ha). }
  destruct (telegraph_game _ inputs g Hfw Hg) as (_ & (H1 & H2) & _).
  refine (conj _ (conj H2 _)).
  - intros e He Hm Hk Hna. apply H1.
    exists e. repeat split; assumption.
  - apply createAttackTelegraph_duration.
Qed.

Lemma damage_after_telegraph_creation_witness :
  telegraph_check created_before 1
    (log (sys (play (M := Sample.M) first_attack mixed_duel))) <> None.
Proof.
  refine (proj1 (damage_after_telegraph_creation
                   (M := Sample.M) mixed_duel first_attack _ _ _)
                chasing_grunt _ _ _ _).
  - vm_compute. constructor; [|constructor; [intros [] | constructor]].
    intros [E | []]. discriminate.
  - reflexivity.
  - vm_compute. repeat split; discriminate.
  - left. reflexivity.
  - reflexivity.
  - reflexivity.
  - discriminate.
Defined.

(** C1, as claimed, fails on the code: the sample enemy attacks the
    player standing in its range, sixty ticks a second.  The attack
    starts at 1/60 s, its telegraph is created at 3/20 s for 7/16 s,
    and the damage is dealt at 17/60 s, well before 3/20 + 7/16: at the
    end of that tick the telegraph is still active, 3/20 s into its
    7/16 s, and the player has lost one point of health. *)
Lemma damage_before_telegraph_runs_out :
  let g := play (M := Sample.M) (repeat still 17) duel in
  reduced_log (sys g)
  = [(17 # 60, EvMeleeDamage 1 1);
     (3 # 20, EvTelegraphCreated 1 0 (7 # 16));
     (1 # 60, EvAttackStarted 1)]
  /\ telegraph_check committed_before 1 (log (sys g)) = None
  /\ 17 # 60 < (3 # 20) + (7 # 16)
  /\ map (fun t => (Tg.isActive t, Qred (Tg.elapsedTime t),
                    Qred (Tg.warningTime t)))
         (tm_store (telegraphs (sys g)))
     = [(true, 3 # 20, 7 # 16)]
  /\ playerHealth (combat (sys duel)) == 5
  /\ playerHealth (combat (sys g)) == 4.
Proof. vm_compute. repeat split. Qed.

Lemma one_emission_per_attack_start_witness :
  armed 1 (log (sys (play (M := Sample.M) two_attacks duel))) <> None.
Proof.
  refine (proj1 (one_emission_per_attack_start
                   (M := Sample.M) duel two_attacks _ _ _) 1%nat).
  - vm_compute. constructor; [intros [] | constructor].
  - vm_compute. constructor; [discriminate | constructor].
  - reflexivity.
Defined.

(** C3, as claimed, fails on the code: the sample enemy enters ATTACK
    once and stays there, the player never leaving its range; after the
    cooldown of 2 s it attacks again, and the one entry into ATTACK has
    produced two damage emissions, each taking a point of health. *)
Lemma two_emissions_for_one_entry :
  let g := play (M := Sample.M) two_attacks duel in
  stateOf 1 duel = CHASE
  /\ states_along (M := Sample.M) 1 two_attacks duel = repeat ATTACK 211
  /\ entries_into_attack CHASE (states_along (M := Sample.M) 1 two_attacks duel)
     = 1%nat
  /\ count_damage 1 (log (sys g)) = 2%nat
  /\ reduced_log (sys g)
     = [(43 # 15, EvMeleeDamage 1 1);
        (41 # 15, EvTelegraphCreated 1 1 (7 # 16));
        (13 # 5, EvAttackStarted 1);
        (17 # 60, EvMeleeDamage 1 1);
        (3 # 20, EvTelegraphCreated 1 0 (7 # 16));
        (1 # 60, EvAttackStarted 1)]
  /\ playerHealth (combat (sys duel)) == 5
  /\ playerHealth (combat (sys g)) == 3.
Proof. vm_compute. repeat split. Qed.


(* ------------------------------------------------------------------ *)
(** ** The timers of the combat system *)

Lemma elapsed_nonneg (dts : list Q) :
  Forall (fun dt => 0 <= dt) dts -> 0 <= elapsed dts.
Proof.
  induction 1 as [|dt rest Hdt _ IH]; cbn [elapsed]; [apply Qle_refl|lra].
Qed.

Lemma gtb_leb (a b : Q) : Num.gtb a b = negb (Num.leb a b).
Proof. reflexivity. Qed.

Lemma leb_false (a b : Q) : Num.leb a b = false <-> b < a.
Proof.
  unfold Num.leb. split; intro H.
  - destruct (Qlt_le_dec b a) as [L | L]; [exact L|].
    apply Qle_bool_iff in L. rewrite L in H. discriminate.
  - destruct (Qle_bool a b) eqn:E; [|reflexivity].
    apply Qle_bool_iff in E. lra.
Qed.

(** One [update] field by field: four countdowns that do not interfere,
    and nothing else. *)
Lemma CombatSystem_update_fields (dt : Q) (c : CombatSystem) :
  let c' := CombatSystem_update dt c in
  cs_attackCooldown c'
  = (if Num.gtb (cs_attackCooldown c) 0
     then cs_attackCooldown c - dt else cs_attackCooldown c)
  /\ lightningStrikeCooldown c'
     = (if Num.gtb (lightningStrikeCooldown c) 0
        then lightningStrikeCooldown c - dt else lightningStrikeCooldown c)
  /\ cs_isAttacking c'
     = cs_isAttacking c && negb (Num.leb (attackTimer c - dt) 0)
  /\ attackTimer c'
     = (if cs_isAttacking c then attackTimer c - dt else attackTimer c)
  /\ playerInvulnerable c'
     = playerInvulnerable c && negb (Num.leb (invulnerabilityTimer c - dt) 0)
  /\ invulnerabilityTimer c'
     = (if playerInvulnerable c then invulnerabilityTimer c - dt
        else invulnerabilityTimer c)
  /\ playerHealth c' = playerHealth c
  /\ playerMaxHealth c' = playerMaxHealth c
  /\ cs_attackCooldownDuration c' = cs_attackCooldownDuration c
  /\ lightningStrikeCooldownDuration c' = lightningStrikeCooldownDuration c
  /\ attackDuration c' = attackDuration c
  /\ invulnerabilityDuration c' = invulnerabilityDuration c
  /\ isLightningStriking c' = isLightningStriking c
  /\ cs_game c' = cs_game c.
Proof.
  destruct c. cbv zeta. unfold CombatSystem_update.
  cbn -[Num.gtb Num.leb Qminus].
  repeat match goal with
         | |- context [if ?b then _ else _] =>
             lazymatch b with
             | context [if _ then _ else _] => fail
             | _ => destruct b; cbn -[Num.gtb Num.leb Qminus]
             end
         end;
    repeat split.
Qed.

Lemma vulnerable_stays (dts : list Q) :
  forall c, playerInvulnerable c = false ->
            playerInvulnerable (CombatSystem_updates dts c) = false.
Proof.
  induction dts as [|dt rest IH]; intros c H; [exact H|].
  cbn [CombatSystem_updates]. apply IH.
  destruct (CombatSystem_update_fields dt c) as (_ & _ & _ & _ & -> & _).
  rewrite H. reflexivity.
Qed.

Lemma updates_keep (dts : list Q) :
  forall c,
    playerHealth (CombatSystem_updates dts c) = playerHealth c
    /\ playerMaxHealth (CombatSystem_updates dts c) = playerMaxHealth c.
Proof.
  induction dts as [|dt rest IH]; intro c; [auto|].
  cbn [CombatSystem_updates]. destruct (IH (CombatSystem_update dt c)) as (-> & ->).
  destruct (CombatSystem_update_fields dt c)
    as (_ & _ & _ & _ & _ & _ & H1 & H2 & _).
  auto.
Qed.


(* ------------------------------------------------------------------ *)
(** ** The player's swing and its cooldown *)

Section SwingCooldown.
Context {M : MathLib}.

Lemma requestFreeze_beside (d : Q) (e : Enemy.t) (s : Sys) :
  beside_freeze (Enemy.requestFreeze d e s) = beside_freeze s.
Proof.
  unfold Enemy.requestFreeze, freezeFrame.
  destruct (Enemy.combatSystem e && cs_game (combat s)); [|reflexivity].
  destruct (negb (isLightningStriking (combat s))); reflexivity.
Qed.

Lemma die_beside (e : Enemy.t) (s : Sys) :
  beside_freeze (snd (Enemy.die e s)) = beside_freeze s.
Proof.
  unfold Enemy.die. destruct (Enemy.isDead e); [reflexivity|].
  cbv zeta. cbn [snd]. apply requestFreeze_beside.
Qed.

(** A blow reaches the shared state through the freeze gate only. *)
Lemma takeDamage_beside (amount : Q) (attacker : option Vector3)
      (e : Enemy.t) (s : Sys) :
  beside_freeze (snd (Enemy.takeDamage amount attacker e s))
  = beside_freeze s.
Proof.
  unfold Enemy.takeDamage.
  destruct (Enemy.isDead e || Enemy.isHit e); [reflexivity|].
  cbv zeta.
  match goal with
  | |- context [Enemy.requestFreeze ?d ?x s] =>
      set (e1 := x);
      pose proof (requestFreeze_beside d e1 s) as Hb;
      set (s1 := Enemy.requestFreeze d e1 s) in *
  end.
  clearbody s1. clearbody e1.
  destruct (Num.leb (Enemy.health e1) 0).
  - rewrite die_beside. exact Hb.
  - exact Hb.
Qed.

Lemma attackOne_beside (p d : Vector3) (rng a : Q)
      (info : option DamageInfo) (e : Enemy.t) (s : Sys) :
  beside_freeze (snd (fst (EnemyManager.attackOne p d rng a info e s)))
  = beside_freeze s.
Proof.
  unfold EnemyManager.attackOne. cbv zeta.
  destruct (negb (Enemy.isDead e)); [|reflexivity].
  destruct (Num.leb _ rng); [|reflexivity].
  destruct (Num.leb _ _); [|reflexivity].
  match goal with
  | |- context [Enemy.takeDamage ?x ?y e s] =>
      pose proof (takeDamage_beside x y e s) as Hb;
      destruct (Enemy.takeDamage x y e s) as [e' s']
  end.
  exact Hb.
Qed.

Lemma handlePlayerAttack_beside (p d : Vector3) (rng a : Q)
      (info : option DamageInfo) (es : list Enemy.t) :
  forall s,
    beside_freeze
      (snd (fst (EnemyManager.handlePlayerAttack p d rng a info es s)))
    = beside_freeze s.
Proof.
  induction es as [|e rest IH]; intro s; [reflexivity|].
  cbn [EnemyManager.handlePlayerAttack].
  pose proof (attackOne_beside p d rng a info e s) as H1.
  destruct (EnemyManager.attackOne p d rng a info e s) as [[e' s'] h].
  pose proof (IH s') as H2.
  destruct (EnemyManager.handlePlayerAttack p d rng a info rest s')
    as [[rest' s''] hs].
  cbn [fst snd] in *. rewrite H2. exact H1.
Qed.

Lemma onSuccessfulHit_beside (hits : list Hit) (s : Sys) :
  beside_freeze (Game.onSuccessfulHit hits s) = beside_freeze s.
Proof.
  unfold Game.onSuccessfulHit. destruct (cs_game (combat s)); reflexivity.
Qed.

Lemma beside_combat (s s' : Sys) :
  beside_freeze s' = beside_freeze s -> combat s' = combat s.
Proof. unfold beside_freeze. intro H. inversion H. reflexivity. Qed.

(** The combat system after an accepted swing. *)
Lemma triggerAttack_combat (r1 r2 : Q) (g : Game) :
  canAttack (combat (sys g)) = true ->
  combat (sys (out_game (Game.triggerAttack r1 r2 g)))
  = set_cs_attackCooldown (cs_attackCooldownDuration (combat (sys g)))
      (set_attackTimer (attackDuration (combat (sys g)))
         (set_cs_isAttacking true (combat (sys g)))).
Proof.
  intro Hcan. unfold Game.triggerAttack. cbv zeta.
  unfold canAttack in Hcan. rewrite gtb_leb.
  apply andb_true_iff in Hcan. destruct Hcan as [H1 H2].
  rewrite H1. apply negb_true_iff in H2. rewrite H2. cbn [negb orb].
  match goal with
  | |- context [EnemyManager.handlePlayerAttack ?p ?d ?r ?a ?i ?es ?s] =>
      pose proof (handlePlayerAttack_beside p d r a i es s) as Hb;
      destruct (EnemyManager.handlePlayerAttack p d r a i es s)
        as [[es' s1] hits]
  end.
  cbn [fst snd] in Hb.
  assert (Hc : combat (fst (match hits with
                            | [] => (s1, [])
                            | _ :: _ =>
                                (Game.onSuccessfulHit (sort_hits hits) s1,
                                 sort_hits hits)
                            end)) = combat (sys g)).
  { destruct hits; cbn [fst].
    - apply beside_combat. exact Hb.
    - apply beside_combat. rewrite onSuccessfulHit_beside. exact Hb. }
  destruct (match hits with
            | [] => (s1, [])
            | _ :: _ => (Game.onSuccessfulHit (sort_hits hits) s1,
                         sort_hits hits)
            end) as [s2 effects].
  cbn [fst] in Hc. cbn [out_game sys combat set_combat]. rewrite Hc.
  reflexivity.
Qed.

End SwingCooldown.

(** X1.  [triggerAttack] accepts a swing exactly when [canAttack] says
    so; a refused swing returns false and changes nothing; an accepted
    one starts the swing timer and the cooldown; and whatever the
    outcome, a second swing requested at once is refused and changes
    nothing. *)
Theorem triggerAttack_follows_canAttack {M : MathLib} (r1 r2 r3 r4 : Q)
        (g : Game) :
  let c := combat (sys g) in
  let g' := out_game (Game.triggerAttack r1 r2 g) in
  out_result (Game.triggerAttack r1 r2 g) = canAttack c
  /\ (if canAttack c
      then cs_isAttacking (combat (sys g')) = true
           /\ attackTimer (combat (sys g')) = attackDuration c
           /\ cs_attackCooldown (combat (sys g')) = cs_attackCooldownDuration c
      else Game.triggerAttack r1 r2 g = mkOutcome false [] g)
  /\ Game.triggerAttack r3 r4 g' = mkOutcome false [] g'.
Proof.
  cbv zeta.
  assert (Hres : out_result (Game.triggerAttack r1 r2 g)
                 = canAttack (combat (sys g))).
  { unfold Game.triggerAttack, canAttack. cbv zeta. rewrite gtb_leb.
    destruct (Num.leb (cs_attackCooldown (combat (sys g))) 0);
      destruct (cs_isAttacking (combat (sys g))); cbn [negb orb andb];
      try reflexivity.
    destruct (EnemyManager.handlePlayerAttack _ _ _ _ _ _ _)
      as [[es' s1] hits].
    destruct hits; reflexivity. }
  assert (Hrej : forall q1 q2 h,
             canAttack (combat (sys h)) = false ->
             Game.triggerAttack q1 q2 h = mkOutcome false [] h).
  { intros q1 q2 h Hc. unfold Game.triggerAttack, canAttack in *.
    cbv zeta. rewrite gtb_leb.
    destruct (Num.leb (cs_attackCooldown (combat (sys h))) 0);
      destruct (cs_isAttacking (combat (sys h))); cbn [negb orb andb] in *;
      try reflexivity; discriminate. }
  split; [exact Hres|].
  destruct (canAttack (combat (sys g))) eqn:Hcan.
  - pose proof (triggerAttack_combat r1 r2 g Hcan) as Hc.
    split; [rewrite Hc; repeat split|].
    apply Hrej. rewrite Hc. unfold canAttack. cbn. apply andb_false_r.
  - rewrite (Hrej r1 r2 g Hcan). cbn [out_game].
    split; [reflexivity|]. apply (Hrej r3 r4 g Hcan).
Qed.

Lemma CombatSystem_updates_app (a b : list Q) :
  forall c,
    CombatSystem_updates (a ++ b) c
    = CombatSystem_updates b (CombatSystem_updates a c).
Proof.
  induction a as [|dt rest IH]; intro c; [reflexivity|].
  cbn [app CombatSystem_updates]. apply IH.
Qed.

(** No update lengthens the cooldown of the swing. *)
Lemma cooldown_never_longer (dts : list Q) :
  Forall (fun dt => 0 <= dt) dts ->
  forall c,
    cs_attackCooldown (CombatSystem_updates dts c) <= cs_attackCooldown c.
Proof.
  induction 1 as [|dt rest Hdt _ IH]; intro c; cbn [CombatSystem_updates].
  { apply Qle_refl. }
  apply (Qle_trans _ _ _ (IH _)).
  destruct (CombatSystem_update_fields dt c) as (-> & _).
  destruct (Num.gtb (cs_attackCooldown c) 0); lra.
Qed.

(** A swing that has become possible stays possible under updates. *)
Lemma canAttack_stays (dts : list Q) :
  forall c, canAttack c = true ->
            canAttack (CombatSystem_updates dts c) = true.
Proof.
  induction dts as [|dt rest IH]; intros c H; [exact H|].
  cbn [CombatSystem_updates]. apply IH.
  unfold canAttack in *. apply andb_true_iff in H. destruct H as (H1 & H2).
  apply negb_true_iff in H2.
  destruct (CombatSystem_update_fields dt c) as (-> & _ & -> & _).
  rewrite gtb_leb, H1, H2. cbn [negb andb]. rewrite H1. reflexivity.
Qed.

(** X2.  Right after an accepted swing the next one is not possible.  A
    single [CombatSystem.update] makes it possible exactly when its
    [deltaTime] covers both the cooldown and the duration of the swing.
    Whatever updates follow the swing, they never lengthen the cooldown,
    and once the next swing has become possible further updates keep it
    so. *)
Theorem next_attack_after_cooldown {M : MathLib} (r1 r2 dt : Q) (g : Game)
        (dts more : list Q) :
  canAttack (combat (sys g)) = true ->
  0 <= dt ->
  Forall (fun dt => 0 <= dt) dts ->
  let c := combat (sys g) in
  let c1 := combat (sys (out_game (Game.triggerAttack r1 r2 g))) in
  canAttack c1 = false
  /\ (canAttack (CombatSystem_update dt c1) = true
      <-> cs_attackCooldownDuration c <= dt /\ attackDuration c <= dt)
  /\ cs_attackCooldown (CombatSystem_updates dts c1)
     <= cs_attackCooldownDuration c
  /\ (canAttack (CombatSystem_updates dts c1) = true ->
      canAttack (CombatSystem_updates (dts ++ more) c1) = true).
Proof.
  intros Hcan Hdt Hdts. cbv zeta.
  rewrite (triggerAttack_combat r1 r2 g Hcan).
  set (c := combat (sys g)).
  set (c1 := set_cs_attackCooldown _ _).
  assert (E1 : cs_attackCooldown c1 = cs_attackCooldownDuration c)
    by reflexivity.
  assert (E2 : cs_isAttacking c1 = true) by reflexivity.
  assert (E3 : attackTimer c1 = attackDuration c) by reflexivity.
  clearbody c1.
  split.
  { unfold canAttack. rewrite E2. apply andb_false_r. }
  split.
  { unfold canAttack.
    destruct (CombatSystem_update_fields dt c1) as (-> & _ & -> & _).
    rewrite E1, E2, E3, gtb_leb. cbn [andb].
    rewrite andb_true_iff, negb_involutive, !leb_le.
    destruct (Num.leb (cs_attackCooldownDuration c) 0) eqn:E; cbn [negb].
    - apply leb_le in E. split; intros (A & B); split; lra.
    - split; intros (A & B); split; lra. }
  split.
  { rewrite <- E1. apply cooldown_never_longer. exact Hdts. }
  intro H. rewrite CombatSystem_updates_app. apply canAttack_stays. exact H.
Qed.


(* ------------------------------------------------------------------ *)
(** ** The player's health *)

Lemma handlePlayerDamage_accepts (d : Q) (s : Sys) :
  playerInvulnerable (combat s) = false ->
  fst (handlePlayerDamage d s) = true
  /\ playerHealth (combat (snd (handlePlayerDamage d s)))
     = playerHealth (combat s) - d
  /\ playerMaxHealth (combat (snd (handlePlayerDamage d s)))
     = playerMaxHealth (combat s)
  /\ playerInvulnerable (combat (snd (handlePlayerDamage d s))) = true
  /\ invulnerabilityTimer (combat (snd (handlePlayerDamage d s)))
     = invulnerabilityDuration (combat s).
Proof.
  intro H. unfold handlePlayerDamage. rewrite H. cbv zeta.
  cbn [fst snd]. split; [reflexivity|].
  destruct (cs_game _); repeat split.
Qed.

(** X3.  A hit on a vulnerable player is accepted, takes its damage off
    the health and makes the player invulnerable.  A single
    [CombatSystem.update] leaves the player invulnerable exactly when
    its [deltaTime] is less than [invulnerabilityDuration].  Whatever
    updates follow the hit, they never touch the health; while the
    player is invulnerable a hit is refused and changes nothing,
    afterwards it is accepted; and once the player is vulnerable again,
    further updates leave it so. *)
Theorem invulnerability_window (d d2 dt : Q) (s s2 : Sys)
        (dts more : list Q) :
  playerInvulnerable (combat s) = false ->
  combat s2
  = CombatSystem_updates dts (combat (snd (handlePlayerDamage d s))) ->
  let c1 := combat (snd (handlePlayerDamage d s)) in
  fst (handlePlayerDamage d s) = true
  /\ playerInvulnerable c1 = true
  /\ playerHealth (combat s2) = playerHealth (combat s) - d
  /\ (playerInvulnerable (CombatSystem_update dt c1) = true
      <-> dt < invulnerabilityDuration (combat s))
  /\ (playerInvulnerable (combat s2) = false ->
      playerInvulnerable (CombatSystem_updates more (combat s2)) = false)
  /\ (if playerInvulnerable (combat s2)
      then handlePlayerDamage d2 s2 = (false, s2)
      else fst (handlePlayerDamage d2 s2) = true).
Proof.
  intros Hv Hs2. cbv zeta.
  destruct (handlePlayerDamage_accepts d s Hv) as (H1 & H2 & _ & H4 & H5).
  split; [exact H1|]. split; [exact H4|].
  split.
  { rewrite Hs2, (proj1 (updates_keep dts _)). exact H2. }
  split.
  { destruct (CombatSystem_update_fields
                dt (combat (snd (handlePlayerDamage d s))))
      as (_ & _ & _ & _ & -> & _).
    rewrite H4, H5. cbn [andb]. rewrite negb_true_iff, leb_false.
    split; intro L; lra. }
  split; [apply vulnerable_stays|].
  destruct (playerInvulnerable (combat s2)) eqn:E.
  - unfold handlePlayerDamage. rewrite E. reflexivity.
  - apply handlePlayerDamage_accepts. exact E.
Qed.

Lemma min_le_l (a b : Q) : Num.min a b <= a.
Proof.
  unfold Num.min. destruct (Num.leb a b) eqn:E; [apply Qle_refl|].
  apply leb_false in E. lra.
Qed.

Lemma min_le_r (a b : Q) : Num.min a b <= b.
Proof.
  unfold Num.min. destruct (Num.leb a b) eqn:E; [|apply Qle_refl].
  apply leb_le in E. exact E.
Qed.

Lemma min_glb (a b x : Q) : x <= a -> x <= b -> x <= Num.min a b.
Proof. intros Ha Hb. unfold Num.min. destruct (Num.leb a b); assumption. Qed.

(** X4.  [restoreHealth] refuses at full health and changes nothing;
    below full health it adds [amount], stopping at [playerMaxHealth].
    After a hit of [d] on a player whose health did not exceed the
    maximum, restoring [d] gives the health back. *)
Theorem restoreHealth_undoes_hit (d amount : Q) (s : Sys) :
  playerInvulnerable (combat s) = false ->
  playerHealth (combat s) <= playerMaxHealth (combat s) ->
  0 < d -> 0 <= amount ->
  let c1 := combat (snd (handlePlayerDamage d s)) in
  let c2 := snd (restoreHealth amount c1) in
  fst (restoreHealth amount c1) = true
  /\ playerHealth c2 <= playerMaxHealth c2
  /\ playerHealth c1 <= playerHealth c2
  /\ playerHealth c2 <= playerHealth c1 + amount
  /\ (amount == d -> playerHealth c2 == playerHealth (combat s))
  /\ (forall c, playerMaxHealth c <= playerHealth c ->
                restoreHealth amount c = (false, c)).
Proof.
  intros Hv Hle Hd Ha. cbv zeta.
  destruct (handlePlayerDamage_accepts d s Hv) as (_ & H2 & H3 & _).
  set (c1 := combat (snd (handlePlayerDamage d s))) in *.
  assert (Hlt : playerHealth c1 < playerMaxHealth c1) by (rewrite H2, H3; lra).
  unfold restoreHealth.
  assert (Hg : Num.geb (playerHealth c1) (playerMaxHealth c1) = false)
    by (apply leb_false; exact Hlt).
  rewrite Hg. cbn [fst snd].
  change (playerHealth (set_playerHealth ?v c1)) with v.
  change (playerMaxHealth (set_playerHealth ?v c1)) with (playerMaxHealth c1).
  split; [reflexivity|].
  split; [apply min_le_l|].
  split; [apply min_glb; lra|].
  split; [apply min_le_r|].
  split.
  - intro E. apply Qle_antisym.
    + apply (Qle_trans _ _ _ (min_le_r _ _)). rewrite H2, E. lra.
    + apply min_glb; [rewrite H3; exact Hle | rewrite H2, E; lra].
  - intros c Hc. unfold Num.geb.
    apply leb_le in Hc. rewrite Hc. reflexivity.
Qed.

(** X5.  The cooldown bars of the skill display.  Each progress value
    is at least 1 whenever the skill can be used again, lies between 0
    and 1 while the cooldown is between 0 and its duration, and is 0
    when the cooldown has just been set to its duration. *)
Theorem cooldown_progress_full_when_ready (c : CombatSystem) :
  0 < cs_attackCooldownDuration c ->
  0 < lightningStrikeCooldownDuration c ->
  (cs_attackCooldown c <= 0 -> 1 <= getAttackCooldownProgress c)
  /\ (0 <= cs_attackCooldown c <= cs_attackCooldownDuration c ->
      0 <= getAttackCooldownProgress c <= 1)
  /\ (canUseLightningStrike c = true ->
      1 <= getLightningStrikeCooldownProgress c)
  /\ (0 <= lightningStrikeCooldown c <= lightningStrikeCooldownDuration c ->
      0 <= getLightningStrikeCooldownProgress c <= 1)
  /\ getAttackCooldownProgress
       (set_cs_attackCooldown (cs_attackCooldownDuration c) c) == 0
  /\ getLightningStrikeCooldownProgress
       (set_lightningStrikeCooldown (lightningStrikeCooldownDuration c) c)
     == 0.
Proof.
  intros Ha Hl.
  assert (Hfull : forall x D, 0 < D -> x <= 0 -> 1 <= 1 - x / D).
  { intros x D HD H.
    assert (Hx : x / D <= 0).
    { apply Qle_shift_div_r; [exact HD | lra]. }
    lra. }
  assert (Hbar : forall x D, 0 < D -> 0 <= x <= D -> 0 <= 1 - x / D <= 1).
  { intros x D HD (H0 & H1).
    assert (Hx : x / D <= 1).
    { apply Qle_shift_div_r; [exact HD | lra]. }
    assert (Hy : 0 <= x / D).
    { apply Qle_shift_div_l; [exact HD | lra]. }
    lra. }
  unfold getAttackCooldownProgress, getLightningStrikeCooldownProgress,
    canUseLightningStrike.
  split; [apply Hfull; exact Ha|].
  split; [apply Hbar; exact Ha|].
  split; [rewrite leb_le; apply Hfull; exact Hl|].
  split; [apply Hbar; exact Hl|].
  split.
  - change (cs_attackCooldown (set_cs_attackCooldown ?v c)) with v.
    change (cs_attackCooldownDuration (set_cs_attackCooldown ?v c))
      with (cs_attackCooldownDuration c).
    field. lra.
  - change (lightningStrikeCooldown (set_lightningStrikeCooldown ?v c))
      with v.
    change (lightningStrikeCooldownDuration
              (set_lightningStrikeCooldown ?v c))
      with (lightningStrikeCooldownDuration c).
    field. lra.
Qed.


(* ------------------------------------------------------------------ *)
(** ** The lightning strike *)

Section LightningStrike.
Context {M : MathLib}.

(** While a lightning strike is being resolved a blow leaves the shared
    state alone: no freeze frame is requested. *)
Lemma takeDamage_during_strike (amount : Q) (attacker : option Vector3)
      (e : Enemy.t) (s : Sys) :
  isLightningStriking (combat s) = true ->
  snd (Enemy.takeDamage amount attacker e s) = s.
Proof.
  intro H.
  assert (Hf : forall d x, Enemy.requestFreeze d x s = s).
  { intros d x. unfold Enemy.requestFreeze. rewrite H. cbn [negb].
    destruct (Enemy.combatSystem x && cs_game (combat s)); reflexivity. }
  unfold Enemy.takeDamage.
  destruct (Enemy.isDead e || Enemy.isHit e); [reflexivity|].
  cbv zeta. rewrite Hf.
  match goal with |- context [Num.leb ?a 0] => destruct (Num.leb a 0) end;
    [|reflexivity].
  unfold Enemy.die.
  match goal with |- context [if ?b then _ else _] => destruct b end;
    [reflexivity|].
  cbv zeta. cbn [snd]. apply Hf.
Qed.

Lemma findEnemiesInRange_spec (p : Vector3) (rng : Q) (es : list Enemy.t)
      (i : nat) :
  In i (Lightning.findEnemiesInRange p rng es)
  <-> exists e, nth_error es i = Some e /\ Lightning.inRange p rng e = true.
Proof.
  unfold Lightning.findEnemiesInRange. rewrite filter_In, in_seq.
  split.
  - intros (_ & H). destruct (nth_error es i) as [e|]; [|discriminate].
    exists e. auto.
  - intros (e & He & Hr). split.
    + split; [lia|]. cbn. apply nth_error_Some. congruence.
    + rewrite He. exact Hr.
Qed.

Lemma findEnemiesInRange_NoDup (p : Vector3) (rng : Q) (es : list Enemy.t) :
  NoDup (Lightning.findEnemiesInRange p rng es).
Proof. apply NoDup_filter. apply seq_NoDup. Qed.

Lemma firstn_incl {A : Type} (n : nat) (l : list A) (x : A) :
  In x (firstn n l) -> In x l.
Proof.
  revert n. induction l as [|y t IH]; intros [|n] H; cbn in *;
    try contradiction.
  destruct H as [H | H]; [left; exact H | right; exact (IH n H)].
Qed.

Lemma NoDup_firstn {A : Type} (n : nat) (l : list A) :
  NoDup l -> NoDup (firstn n l).
Proof.
  revert n. induction l as [|x t IH]; intros [|n] H; cbn;
    try constructor.
  - inversion H; subst. intro Hin. apply firstn_incl in Hin. contradiction.
  - inversion H; subst. apply IH. assumption.
Qed.

(** The [forEach] of the strike: the shared state is left alone, every
    target takes its own damage once, every other enemy is untouched. *)
Lemma strikeAll_spec (p : Vector3) (c : CombatSystem) (r : nat -> Q)
      (s : Sys) (targets : list nat) :
  isLightningStriking (combat s) = true ->
  forall (k : nat) (es : list Enemy.t),
    NoDup targets ->
    (forall i, In i targets -> (i < length es)%nat) ->
    let out := Lightning.strikeAll p c r k targets es s in
    snd (fst out) = s
    /\ length (fst (fst out)) = length es
    /\ map strike_enemy (snd out) = targets
    /\ (forall i, ~ In i targets ->
                  nth_error (fst (fst out)) i = nth_error es i)
    /\ (forall j i,
          nth_error targets j = Some i ->
          exists e,
            nth_error es i = Some e
            /\ nth_error (fst (fst out)) i
               = Some (fst (Enemy.takeDamage
                              (Lightning.strikeDamage c (r (k + j)%nat))
                              (Some p) e s))
            /\ nth_error (snd out) j
               = Some (mkStrike i
                         (Lightning.strikeDamage c (r (k + j)%nat))
                         (Enemy.isDead
                            (fst (Enemy.takeDamage
                                    (Lightning.strikeDamage c (r (k + j)%nat))
                                    (Some p) e s))))).
Proof.
  intro Hflag. induction targets as [|i rest IH]; intros k es Hnd Hlt;
    cbv zeta.
  { cbn. refine (conj eq_refl (conj eq_refl (conj eq_refl (conj _ _)))).
    - reflexivity.
    - intros [|j] i H; discriminate. }
  cbn [Lightning.strikeAll].
  assert (Hi : (i < length es)%nat) by (apply Hlt; left; reflexivity).
  destruct (nth_error es i) as [e|] eqn:He;
    [|apply nth_error_None in He; lia].
  cbv zeta.
  pose proof (takeDamage_during_strike
                (Lightning.strikeDamage c (r k)) (Some p) e s Hflag) as Hs.
  destruct (Enemy.takeDamage (Lightning.strikeDamage c (r k)) (Some p) e s)
    as [e' s'] eqn:Htd.
  cbn [snd] in Hs. subst s'.
  inversion Hnd as [|? ? Hnotin Hnd']; subst.
  destruct (IH (S k) (list_set i e' es) Hnd') as (A1 & A2 & A3 & A4 & A5).
  { intros i2 H2. rewrite length_list_set. apply Hlt. right. exact H2. }
  destruct (Lightning.strikeAll p c r (S k) rest (list_set i e' es) s)
    as [[es2 s2] hits].
  cbn [fst snd] in *.
  refine (conj A1 (conj _ (conj _ (conj _ _)))).
  - rewrite A2. apply length_list_set.
  - cbn [map strike_enemy]. rewrite A3. reflexivity.
  - intros i2 Hn. rewrite A4.
    + apply nth_error_list_set_neq. intro E. apply Hn. left. exact E.
    + intro Hin. apply Hn. right. exact Hin.
  - intros [|j] i2 Hj.
    + cbn in Hj. injection Hj as <-. exists e.
      rewrite Nat.add_0_r. rewrite Htd. cbn [fst].
      refine (conj He (conj _ eq_refl)).
      rewrite (A4 i Hnotin). apply nth_error_list_set_eq. exact Hi.
    + cbn in Hj. destruct (A5 j i2 Hj) as (e2 & B1 & B2 & B3).
      assert (Hne : i <> i2).
      { intro E. subst i2. apply Hnotin.
        apply (nth_error_In _ _ Hj). }
      rewrite (nth_error_list_set_neq i i2 e' es Hne) in B1.
      exists e2. replace (k + S j)%nat with (S k + j)%nat by lia.
      refine (conj B1 (conj B2 B3)).
Qed.

End LightningStrike.

(** X6.  [triggerLightningStrike], whatever order the shuffle gives:
    on cooldown it is refused and changes nothing; with no living enemy
    in range it returns false but still starts the cooldown; otherwise
    it strikes the first [lightningStrikeTargets] enemies of the
    shuffled list, all of them alive and within [lightningStrikeRange]
    before the strike, each once and with its own damage, leaves every
    other enemy as it was, starts the cooldown, and requests no freeze
    frame: apart from the combat system the shared state is
    untouched. *)
Theorem lightning_strike_targets {M : MathLib}
        (shuffle : list nat -> list nat) (r : nat -> Q) (g : Game) :
  (forall l, Permutation (shuffle l) l) ->
  let c := combat (sys g) in
  let p := pl_position (player (sys g)) in
  let inRange :=
    Lightning.findEnemiesInRange p (lightningStrikeRange c) (enemies g) in
  let out := Lightning.triggerLightningStrike shuffle r g in
  let g' := so_game out in
  let targets := map strike_enemy (so_hits out) in
  if Num.gtb (lightningStrikeCooldown c) 0 then out = mkStrikeOutcome false [] g
  else
    lightningStrikeCooldown (combat (sys g'))
    = lightningStrikeCooldownDuration c
    /\ sys g'
       = set_combat
           (set_lightningStrikeCooldown (lightningStrikeCooldownDuration c)
              (if so_result out then set_isLightningStriking true c else c))
           (sys g)
    /\ so_result out = negb (Nat.eqb (length inRange) 0)
    /\ targets = firstn (lightningStrikeTargets c) (shuffle inRange)
    /\ NoDup targets
    /\ (length targets <= lightningStrikeTargets c)%nat
    /\ (forall i, In i targets ->
                  exists e, nth_error (enemies g) i = Some e
                            /\ Enemy.isDead e = false
                            /\ V3.distanceTo (Enemy.position e) p
                               <= lightningStrikeRange c)
    /\ length (enemies g') = length (enemies g)
    /\ (forall i, ~ In i targets ->
                  nth_error (enemies g') i = nth_error (enemies g) i)
    /\ (forall j i,
          nth_error targets j = Some i ->
          exists e,
            nth_error (enemies g) i = Some e
            /\ nth_error (enemies g') i
               = Some (fst (Enemy.takeDamage
                              (Lightning.strikeDamage c (r j)) (Some p) e
                              (sys g)))).
Proof.
  intros Hperm. cbv zeta. unfold Lightning.triggerLightningStrike.
  cbv zeta.
  destruct (Num.gtb (lightningStrikeCooldown (combat (sys g))) 0);
    [reflexivity|].
  set (c := combat (sys g)). set (p := pl_position (player (sys g))).
  set (cand := Lightning.findEnemiesInRange p (lightningStrikeRange c)
                                            (enemies g)).
  assert (Hcand : forall i, In i (shuffle cand) ->
                            exists e, nth_error (enemies g) i = Some e
                                      /\ Lightning.inRange p
                                           (lightningStrikeRange c) e = true).
  { intros i Hin. apply findEnemiesInRange_spec.
    apply (Permutation_in _ (Hperm cand)). exact Hin. }
  assert (Hnd : NoDup (firstn (lightningStrikeTargets c) (shuffle cand))).
  { apply NoDup_firstn.
    apply (Permutation_NoDup (Permutation_sym (Hperm cand))).
    apply findEnemiesInRange_NoDup. }
  destruct cand as [|i0 cand'] eqn:Ecand.
  { cbn [so_game so_result so_hits sys enemies map length Nat.eqb negb].
    assert (Hnil : shuffle [] = [])
      by (apply Permutation_nil; apply Permutation_sym; apply Hperm).
    rewrite Hnil, firstn_nil.
    refine (conj eq_refl (conj eq_refl (conj eq_refl (conj eq_refl
              (conj (NoDup_nil _) (conj (Nat.le_0_l _) (conj _
              (conj eq_refl (conj _ _))))))))).
    - intros i [].
    - reflexivity.
    - intros [|j] i H; discriminate. }
  clear Ecand.
  set (targets := firstn (lightningStrikeTargets c) (shuffle (i0 :: cand')))
    in *.
  set (s1 := set_combat (set_isLightningStriking true c) (sys g)).
  assert (Hflag : isLightningStriking (combat s1) = true) by reflexivity.
  assert (Hlt : forall i, In i targets -> (i < length (enemies g))%nat).
  { intros i Hin. apply firstn_incl in Hin.
    destruct (Hcand i Hin) as (e & He & _).
    apply nth_error_Some. congruence. }
  destruct (strikeAll_spec p (combat s1) r s1 targets Hflag 0 (enemies g)
              Hnd Hlt) as (A1 & A2 & A3 & A4 & A5).
  destruct (Lightning.strikeAll p (combat s1) r 0 targets (enemies g) s1)
    as [[es2 s2] hits].
  cbn [fst snd] in *. subst s2.
  cbn [so_game so_result so_hits sys enemies].
  rewrite A3.
  refine (conj eq_refl (conj eq_refl (conj _ (conj eq_refl (conj Hnd
            (conj _ (conj _ (conj A2 (conj A4 _))))))))).
  - reflexivity.
  - subst targets. rewrite length_firstn. apply Nat.le_min_l.
  - intros i Hin. apply firstn_incl in Hin.
    destruct (Hcand i Hin) as (e & He & Hr).
    exists e. unfold Lightning.inRange in Hr.
    apply andb_true_iff in Hr. destruct Hr as [Hd Hr].
    apply negb_true_iff in Hd. apply leb_le in Hr. auto.
  - intros j i Hj. destruct (A5 j i Hj) as (e & B1 & B2 & _).
    exists e. split; [exact B1|]. rewrite B2. cbn [Nat.add].
    f_equal. apply takeDamage_fst. reflexivity.
Qed.

Lemma next_attack_after_cooldown_witness :
  let g := mkGame [Sample.grunt] Sample.world in
  let c := combat (sys g) in
  let c1 := combat (sys (out_game
                           (Game.triggerAttack (M := Sample.M) (1 # 2)
                                               (1 # 2) g))) in
  canAttack c1 = false
  /\ (canAttack (CombatSystem_update (1 # 5) c1) = true
      <-> cs_attackCooldownDuration c <= 1 # 5 /\ attackDuration c <= 1 # 5)
  /\ cs_attackCooldown (CombatSystem_updates [1 # 5; 1 # 5] c1)
     <= cs_attackCooldownDuration c
  /\ (canAttack (CombatSystem_updates [1 # 5; 1 # 5] c1) = true ->
      canAttack (CombatSystem_updates ([1 # 5; 1 # 5] ++ [1 # 60]) c1)
      = true).
Proof.
  apply (@next_attack_after_cooldown Sample.M (1 # 2) (1 # 2) (1 # 5)
           (mkGame [Sample.grunt] Sample.world) [1 # 5; 1 # 5] [1 # 60]).
  - vm_compute. reflexivity.
  - vm_compute. discriminate.
  - repeat constructor; vm_compute; discriminate.
Defined.

Lemma invulnerability_window_witness :
  let s := Sample.world in
  let c1 := combat (snd (handlePlayerDamage 1 s)) in
  let s2 := set_combat (CombatSystem_updates [1 # 2] c1) s in
  fst (handlePlayerDamage 1 s) = true
  /\ playerInvulnerable c1 = true
  /\ playerHealth (combat s2) = playerHealth (combat s) - 1
  /\ (playerInvulnerable (CombatSystem_update (1 # 60) c1) = true
      <-> 1 # 60 < invulnerabilityDuration (combat s))
  /\ (playerInvulnerable (combat s2) = false ->
      playerInvulnerable (CombatSystem_updates [1 # 60] (combat s2)) = false)
  /\ (if playerInvulnerable (combat s2)
      then handlePlayerDamage 1 s2 = (false, s2)
      else fst (handlePlayerDamage 1 s2) = true).
Proof.
  apply (@invulnerability_window 1 1 (1 # 60) Sample.world
           (set_combat
              (CombatSystem_updates [1 # 2]
                 (combat (snd (handlePlayerDamage 1 Sample.world))))
              Sample.world)
           [1 # 2] [1 # 60]).
  - vm_compute. reflexivity.
  - reflexivity.
Defined.

Lemma restoreHealth_undoes_hit_witness :
  let s := Sample.world in
  let c1 := combat (snd (handlePlayerDamage 1 s)) in
  let c2 := snd (restoreHealth 1 c1) in
  fst (restoreHealth 1 c1) = true
  /\ playerHealth c2 <= playerMaxHealth c2
  /\ playerHealth c1 <= playerHealth c2
  /\ playerHealth c2 <= playerHealth c1 + 1
  /\ (1 == 1 -> playerHealth c2 == playerHealth (combat s))
  /\ (forall c, playerMaxHealth c <= playerHealth c ->
                restoreHealth 1 c = (false, c)).
Proof.
  apply (@restoreHealth_undoes_hit 1 1 Sample.world).
  - vm_compute. reflexivity.
  - vm_compute. discriminate.
  - vm_compute. reflexivity.
  - vm_compute. discriminate.
Defined.

Lemma cooldown_progress_full_when_ready_witness :
  let c := CombatSystem_new true in
  1 <= getAttackCooldownProgress c
  /\ 1 <= getLightningStrikeCooldownProgress c.
Proof.
  pose proof (@cooldown_progress_full_when_ready (CombatSystem_new true))
    as H.
  destruct H as (H1 & _ & H3 & _).
  - vm_compute. reflexivity.
  - vm_compute. reflexivity.
  - split.
    + apply H1. vm_compute. discriminate.
    + apply H3. vm_compute. reflexivity.
Defined.

Lemma lightning_strike_targets_witness :
  let shuffle := fun l : list nat => l in
  let r := fun _ : nat => 1 # 2 in
  let g := mkGame [Sample.grunt] Sample.world in
  let out := Lightning.triggerLightningStrike (M := Sample.M) shuffle r g in
  (forall l, Permutation (shuffle l) l)
  /\ so_result out = true
  /\ map strike_enemy (so_hits out) = [0%nat]
  /\ lightningStrikeCooldown (combat (sys (so_game out))) = 3.
Proof.
  cbv zeta.
  pose proof (@lightning_strike_targets Sample.M (fun l => l)
                (fun _ => 1 # 2) (mkGame [Sample.grunt] Sample.world)
                (fun l => Permutation_refl l)) as H.
  cbv zeta in H.
  destruct (Num.gtb _ 0) eqn:E in H; [vm_compute in E; discriminate|].
  destruct H as (H1 & _ & H3 & H4 & _).
  split; [intro l; apply Permutation_refl|].
  split; [rewrite H3; vm_compute; reflexivity|].
  split; [rewrite H4; vm_compute; reflexivity|].
  rewrite H1. reflexivity.
Defined.

(* ------------------------------------------------------------------ *)
(** ** The life of an enemy under field updates *)

Lemma life_set_currentAttackIndex v e : life (Enemy.set_currentAttackIndex v e) = life e.
Proof. reflexivity. Qed.
Lemma life_set_frameTime v e : life (Enemy.set_frameTime v e) = life e.
Proof. reflexivity. Qed.
Lemma life_set_currentFrame v e : life (Enemy.set_currentFrame v e) = life e.
Proof. reflexivity. Qed.
Lemma life_set_elapsedTime v e : life (Enemy.set_elapsedTime v e) = life e.
Proof. reflexivity. Qed.
Lemma life_set_totalFrames v e : life (Enemy.set_totalFrames v e) = life e.
Proof. reflexivity. Qed.
Lemma life_set_isPlaying v e : life (Enemy.set_isPlaying v e) = life e.
Proof. reflexivity. Qed.
Lemma life_set_currentAnimation v e : life (Enemy.set_currentAnimation v e) = life e.
Proof. reflexivity. Qed.
Lemma life_set_currentDirection v e : life (Enemy.set_currentDirection v e) = life e.
Proof. reflexivity. Qed.
Lemma life_set_patrolAngle v e : life (Enemy.set_patrolAngle v e) = life e.
Proof. reflexivity. Qed.
Lemma life_set_currentState v e : life (Enemy.set_currentState v e) = life e.
Proof. reflexivity. Qed.
Lemma life_set_detectionTimer v e : life (Enemy.set_detectionTimer v e) = life e.
Proof. reflexivity. Qed.
Lemma life_set_lastKnownPlayerPosition v e : life (Enemy.set_lastKnownPlayerPosition v e) = life e.
Proof. reflexivity. Qed.
Lemma life_set_hasSeenPlayer v e : life (Enemy.set_hasSeenPlayer v e) = life e.
Proof. reflexivity. Qed.
Lemma life_set_searchTimer v e : life (Enemy.set_searchTimer v e) = life e.
Proof. reflexivity. Qed.
Lemma life_set_searchAngle v e : life (Enemy.set_searchAngle v e) = life e.
Proof. reflexivity. Qed.
Lemma life_set_attackCooldown v e : life (Enemy.set_attackCooldown v e) = life e.
Proof. reflexivity. Qed.
Lemma life_set_isAttacking v e : life (Enemy.set_isAttacking v e) = life e.
Proof. reflexivity. Qed.
Lemma life_set_currentTelegraph v e : life (Enemy.set_currentTelegraph v e) = life e.
Proof. reflexivity. Qed.
Lemma life_set_telegraphCreated v e : life (Enemy.set_telegraphCreated v e) = life e.
Proof. reflexivity. Qed.
Lemma life_set_isHit v e : life (Enemy.set_isHit v e) = life e.
Proof. reflexivity. Qed.
Lemma life_set_deathAnimationComplete v e : life (Enemy.set_deathAnimationComplete v e) = life e.
Proof. reflexivity. Qed.
Lemma life_set_isKnockedBack v e : life (Enemy.set_isKnockedBack v e) = life e.
Proof. reflexivity. Qed.
Lemma life_set_knockbackTimer v e : life (Enemy.set_knockbackTimer v e) = life e.
Proof. reflexivity. Qed.
Lemma life_set_knockbackOrigin v e : life (Enemy.set_knockbackOrigin v e) = life e.
Proof. reflexivity. Qed.
Lemma life_set_knockbackTarget v e : life (Enemy.set_knockbackTarget v e) = life e.
Proof. reflexivity. Qed.
Lemma life_set_scalePunchTimer v e : life (Enemy.set_scalePunchTimer v e) = life e.
Proof. reflexivity. Qed.
Lemma life_set_scale v e : life (Enemy.set_scale v e) = life e.
Proof. reflexivity. Qed.
Lemma life_set_position v e : life (Enemy.set_position v e) = life e.
Proof. reflexivity. Qed.

#[export] Hint Rewrite life_set_currentAttackIndex life_set_frameTime
  life_set_currentFrame life_set_elapsedTime life_set_totalFrames
  life_set_isPlaying life_set_currentAnimation life_set_currentDirection
  life_set_patrolAngle life_set_currentState life_set_detectionTimer
  life_set_lastKnownPlayerPosition life_set_hasSeenPlayer
  life_set_searchTimer life_set_searchAngle life_set_attackCooldown
  life_set_isAttacking life_set_currentTelegraph life_set_telegraphCreated
  life_set_isHit life_set_deathAnimationComplete life_set_isKnockedBack
  life_set_knockbackTimer life_set_knockbackOrigin life_set_knockbackTarget
  life_set_scalePunchTimer life_set_scale life_set_position
  : enemy_views.


(* ------------------------------------------------------------------ *)
(** ** The nearest enemy *)

Section Nearest.
Context {M : MathLib}.

Lemma getEnemies_app (l1 l2 : list Enemy.t) :
  EnemyManager.getEnemies (l1 ++ l2)
  = EnemyManager.getEnemies l1 ++ EnemyManager.getEnemies l2.
Proof. apply filter_app. Qed.

(** The pair the loop of [getNearestEnemy] holds after the array. *)
Lemma nearer_fold (p : Vector3) (es : list Enemy.t) :
  match fold_left (EnemyManager.nearer p) es None with
  | None => EnemyManager.getEnemies es = []
  | Some (e, d) =>
      d = V3.distanceTo (Enemy.position e) p
      /\ exists before after,
           EnemyManager.getEnemies es = before ++ e :: after
           /\ (forall e', In e' before ->
                          d < V3.distanceTo (Enemy.position e') p)
           /\ (forall e', In e' after ->
                          d <= V3.distanceTo (Enemy.position e') p)
  end.
Proof.
  induction es as [|x es IH] using rev_ind; [reflexivity|].
  rewrite fold_left_app. cbn [fold_left].
  rewrite getEnemies_app.
  unfold EnemyManager.nearer at 1.
  unfold EnemyManager.getEnemies at 2 4. cbn [filter].
  destruct (Enemy.isDead x); cbn [negb].
  - rewrite app_nil_r. exact IH.
  - cbv zeta.
    destruct (fold_left (EnemyManager.nearer p) es None) as [[e d]|].
    + destruct IH as (Hd & before & after & Hes & Hb & Ha).
      destruct (Num.ltb (V3.distanceTo (Enemy.position x) p) d) eqn:Hlt.
      * apply ltb_lt in Hlt. split; [reflexivity|].
        exists (EnemyManager.getEnemies es), []. split; [reflexivity|].
        split; [|intros e' []].
        intros e' Hin. rewrite Hes in Hin. apply in_app_or in Hin.
        destruct Hin as [Hin | [<- | Hin]].
        -- apply (Qlt_trans _ d); [exact Hlt | apply Hb; exact Hin].
        -- rewrite <- Hd. exact Hlt.
        -- apply (Qlt_le_trans _ d); [exact Hlt | apply Ha; exact Hin].
      * apply ltb_false in Hlt. split; [exact Hd|].
        exists before, (after ++ [x]). rewrite Hes, <- app_assoc.
        split; [reflexivity|]. split; [exact Hb|].
        intros e' Hin. apply in_app_or in Hin.
        destruct Hin as [Hin | [<- | []]]; [apply Ha; exact Hin | exact Hlt].
    + rewrite IH. split; [reflexivity|].
      exists [], []. split; [reflexivity|]. split; intros e' [].
Qed.

End Nearest.

(** X7.  [getNearestEnemy] returns [null] exactly when no enemy is
    alive; otherwise it returns a living enemy of the array that no
    living enemy is nearer than, and of several equally near ones the
    first in array order. *)
Theorem getNearestEnemy_nearest_living {M : MathLib} (p : Vector3)
        (es : list Enemy.t) :
  match EnemyManager.getNearestEnemy p es with
  | None => EnemyManager.getEnemies es = []
  | Some e =>
      In e es /\ Enemy.isDead e = false
      /\ exists before after,
           EnemyManager.getEnemies es = before ++ e :: after
           /\ (forall e', In e' before ->
                 V3.distanceTo (Enemy.position e) p
                 < V3.distanceTo (Enemy.position e') p)
           /\ (forall e', In e' after ->
                 V3.distanceTo (Enemy.position e) p
                 <= V3.distanceTo (Enemy.position e') p)
  end.
Proof.
  unfold EnemyManager.getNearestEnemy.
  pose proof (nearer_fold p es) as H.
  destruct (fold_left (EnemyManager.nearer p) es None) as [[e d]|];
    cbn [option_map fst]; [|exact H].
  destruct H as (Hd & before & after & Hes & Hb & Ha).
  assert (Hin : In e (EnemyManager.getEnemies es))
    by (rewrite Hes; apply in_or_app; right; left; reflexivity).
  apply filter_In in Hin. destruct Hin as (Hin & Hlive).
  apply negb_true_iff in Hlive.
  split; [exact Hin|]. split; [exact Hlive|].
  exists before, after. subst d. auto.
Qed.


(* ------------------------------------------------------------------ *)
(** ** What the update of an enemy leaves to [takeDamage] *)

Section Life.
Context {M : MathLib}.

Lemma switchAnimation_life (r : Q) (a : Animation) (e : Enemy.t) :
  life (Enemy.switchAnimation r a e) = life e.
Proof.
  unfold Enemy.switchAnimation.
  destruct (negb (Enemy.switches a e)); [reflexivity|].
  destruct a; cbv zeta; views.
Qed.

Lemma removeAttackTelegraph_life (e : Enemy.t) (s : Sys) :
  life (fst (Enemy.removeAttackTelegraph e s)) = life e.
Proof.
  unfold Enemy.removeAttackTelegraph.
  destruct (Enemy.currentTelegraph e); cbn [fst]; views.
Qed.

Lemma createAttackTelegraph_life (e : Enemy.t) (s : Sys) :
  life (fst (Enemy.createAttackTelegraph e s)) = life e.
Proof.
  unfold Enemy.createAttackTelegraph.
  destruct (negb (Enemy.telegraphManager e)); [reflexivity|].
  pose proof (removeAttackTelegraph_life e s) as H.
  destruct (Enemy.removeAttackTelegraph e s) as [e1 s1]. cbn [fst] in H.
  cbv zeta.
  destruct (TelegraphManager.createTelegraph _ _ _ _ _ _) as [tid tm].
  cbn [fst]. rewrite <- H. views.
Qed.

Lemma telegraphStep_life (e : Enemy.t) (s : Sys) :
  life (fst (Enemy.telegraphStep e s)) = life e.
Proof.
  unfold Enemy.telegraphStep.
  destruct ((Enemy.currentFrame e =? Enemy.telegraphFrame e)%Z
            && negb (Enemy.telegraphCreated e)); [|reflexivity].
  destruct (negb (Enemy.isFireballCaster e)).
  - pose proof (createAttackTelegraph_life e s) as H.
    destruct (Enemy.createAttackTelegraph e s) as [e1 s1].
    cbn [fst] in *. rewrite <- H. views.
  - cbn [fst]. views.
Qed.

Lemma finishAttack_life (e : Enemy.t) (s : Sys) :
  life (fst (Enemy.finishAttack e s)) = life e.
Proof.
  unfold Enemy.finishAttack.
  destruct (Enemy.totalFrames e <=? Enemy.currentFrame e)%Z; [|reflexivity].
  cbv zeta.
  match goal with
  | |- context [Enemy.removeAttackTelegraph ?x s] =>
      pose proof (removeAttackTelegraph_life x s) as H;
      destruct (Enemy.removeAttackTelegraph x s) as [e1 s1]
  end.
  cbn [fst] in *. autorewrite with enemy_views in *.
  rewrite switchAnimation_life. exact H.
Qed.

Lemma advanceAttack_life (rnd : Rand) (e : Enemy.t) (s : Sys) :
  life (fst (Enemy.advanceAttack rnd e s)) = life e.
Proof.
  unfold Enemy.advanceAttack. cbv zeta.
  match goal with
  | |- context [Enemy.telegraphStep ?x s] =>
      pose proof (telegraphStep_life x s) as H;
      destruct (Enemy.telegraphStep x s) as [e1 s1]
  end.
  cbn [fst] in H. autorewrite with enemy_views in H.
  rewrite finishAttack_life. exact H.
Qed.

Lemma advanceOther_life (e : Enemy.t) :
  life (Enemy.advanceOther e) = life e.
Proof.
  unfold Enemy.advanceOther.
  destruct (Enemy.currentAnimation e); cbv zeta; break_ifs;
    rewrite ?switchAnimation_life; views.
Qed.

Lemma updateAnimation_life (dt : Q) (rnd : Rand) (e : Enemy.t) (s : Sys) :
  life (fst (Enemy.updateAnimation dt rnd e s)) = life e.
Proof.
  unfold Enemy.updateAnimation.
  destruct ((Enemy.isDead e || Enemy.isPlaying e)
            && (1 <? Enemy.totalFrames e)%Z); [|reflexivity].
  cbv zeta.
  destruct (Num.geb _ _); [|cbn [fst]; views].
  match goal with
  | |- context [Enemy.currentAnimation ?x] =>
      set (e1 := x);
      assert (H1 : life e1 = life e) by (subst e1; views);
      clearbody e1
  end.
  rewrite <- H1.
  destruct (Enemy.currentAnimation e1); cbn [fst];
    first [apply advanceAttack_life | apply advanceOther_life].
Qed.

Lemma faceTarget_life (p : Vector3) (e : Enemy.t) :
  life (Enemy.faceTarget p e) = life e.
Proof. unfold Enemy.faceTarget. cbv zeta. break_ifs; views. Qed.

Lemma updateAI_life (dt : Q) (rnd : Rand) (p : Vector3) (e : Enemy.t) :
  life (Enemy.updateAI dt rnd p e) = life e.
Proof.
  unfold Enemy.updateAI.
  destruct (Enemy.isDead e || Enemy.isHit e); [reflexivity|]. cbv zeta.
  match goal with |- context [if ?c then _ else _] => destruct c end.
  2:{ views. }
  set (e1 := Enemy.set_detectionTimer 0
               (Enemy.set_detectionTimer (Enemy.detectionTimer e + dt) e)).
  assert (H1 : life e1 = life e) by (subst e1; views).
  rewrite <- H1. clearbody e1.
  destruct (Enemy.currentState e1); cbv zeta; break_ifs; views.
Qed.

Lemma stepAlong_life (d : Vector3) (v dt : Q) (e : Enemy.t) :
  life (Enemy.stepAlong d v dt e) = life e.
Proof. unfold Enemy.stepAlong. cbv zeta. break_ifs; views. Qed.

Lemma updateMovementByState_life (dt : Q) (p : Vector3) (e : Enemy.t) :
  life (Enemy.updateMovementByState dt p e) = life e.
Proof.
  unfold Enemy.updateMovementByState.
  destruct (Enemy.isKnockedBack e); [reflexivity|].
  destruct (Enemy.currentState e); try reflexivity.
  - unfold Enemy.patrolBehavior. cbv zeta. break_ifs; views.
  - unfold Enemy.chaseBehavior.
    destruct (negb (Enemy.target e)); [reflexivity|]. apply stepAlong_life.
  - unfold Enemy.searchBehavior. cbv zeta.
    destruct (Num.geb _ _); [views|].
    rewrite stepAlong_life. views.
  - unfold Enemy.returnBehavior. cbv zeta. apply stepAlong_life.
Qed.

Lemma updateKnockback_life (dt : Q) (e : Enemy.t) :
  life (Enemy.updateKnockback dt e) = life e.
Proof. unfold Enemy.updateKnockback. cbv zeta. break_ifs; views. Qed.

Lemma updateScalePunch_life (dt : Q) (e : Enemy.t) :
  life (Enemy.updateScalePunch dt e) = life e.
Proof. unfold Enemy.updateScalePunch. cbv zeta. break_ifs; views. Qed.

Lemma updateAttack_life (rnd : Rand) (e : Enemy.t) (s : Sys) :
  life (fst (Enemy.updateAttack rnd e s)) = life e.
Proof.
  unfold Enemy.updateAttack. cbv zeta.
  destruct (Enemy.target e && negb (Enemy.isHit e)); [|reflexivity].
  match goal with
  | |- context [match ?X with pair _ _ => _ end] => set (es := X)
  end.
  assert (H : life (fst es) = life e).
  { subst es. destruct (Enemy.currentState e); try reflexivity.
    destruct (negb (Enemy.isAttacking e)
              && Num.leb (Enemy.attackCooldown e) 0); [|reflexivity].
    cbn [fst]. rewrite switchAnimation_life. apply faceTarget_life. }
  clearbody es. destruct es as [e1 s1]. cbn [fst] in H.
  destruct (Enemy.isAttacking e1 && _); [|exact H].
  cbn [fst]. rewrite switchAnimation_life, <- H.
  destruct (Enemy.canSeePlayer _ e1); views.
Qed.

Lemma superUpdate_life (e : Enemy.t) : life (Enemy.superUpdate e) = life e.
Proof. unfold Enemy.superUpdate. views. Qed.

(** [update] never writes [isDead], [health] or [maxHealth]. *)
Lemma update_life (dt : Q) (rnd : Rand) (e : Enemy.t) (s : Sys) :
  life (fst (Enemy.update dt rnd e s)) = life e.
Proof.
  unfold Enemy.update. cbv zeta.
  pose proof (updateAnimation_life dt rnd (Enemy.superUpdate e) s) as H1.
  rewrite superUpdate_life in H1.
  destruct (Enemy.updateAnimation dt rnd (Enemy.superUpdate e) s)
    as [e1 s1].
  cbn [fst] in H1.
  destruct (Enemy.isDead e1); [exact H1|].
  set (ea := if Num.gtb (Enemy.attackCooldown e1) 0
             then Enemy.set_attackCooldown (Enemy.attackCooldown e1 - dt) e1
             else e1).
  assert (Ha : life ea = life e)
    by (subst ea; rewrite <- H1; break_ifs; views).
  clearbody ea.
  set (eb := Enemy.updateAI dt rnd (pl_position (player s1)) ea).
  assert (Hb : life eb = life e)
    by (subst eb; rewrite updateAI_life; exact Ha).
  clearbody eb.
  pose proof (updateAttack_life rnd eb s1) as Hc.
  destruct (Enemy.updateAttack rnd eb s1) as [ec sc]. cbn [fst] in Hc.
  rewrite Hb in Hc.
  set (ed := if Enemy.isAttacking ec && Enemy.target ec
             then Enemy.faceTarget (pl_position (player s1)) ec else ec).
  assert (Hd : life ed = life e).
  { subst ed. destruct (Enemy.isAttacking ec && Enemy.target ec);
      [rewrite faceTarget_life|]; exact Hc. }
  clearbody ed.
  set (ee := if negb (Enemy.isAttacking ed) && negb (Enemy.isHit ed)
             then Enemy.updateMovementByState dt (pl_position (player s1)) ed
             else ed).
  assert (He : life ee = life e).
  { subst ee. destruct (negb (Enemy.isAttacking ed) && negb (Enemy.isHit ed));
      [rewrite updateMovementByState_life|]; exact Hd. }
  clearbody ee.
  cbn [fst]. rewrite updateScalePunch_life, updateKnockback_life. exact He.
Qed.

Lemma life_fields (a b : Enemy.t) :
  life a = life b ->
  Enemy.isDead a = Enemy.isDead b /\ Enemy.health a = Enemy.health b
  /\ Enemy.maxHealth a = Enemy.maxHealth b.
Proof. unfold life. intro H. inversion H. auto. Qed.

End Life.

(** X8.  The loop of [EnemyManager.update] never kills, heals or loses
    an enemy: the living enemies after the call are those before it, in
    the same order and with the same health; the array never grows; and
    a dead enemy left in the array has not completed its death
    animation. *)
Theorem update_keeps_the_living {M : MathLib} (dt : Q) (rnd : nat -> Rand)
        (es : list Enemy.t) (s : Sys) :
  let es' := fst (EnemyManager.update dt rnd es s) in
  map (fun e => (Enemy.eid e, Enemy.health e)) (EnemyManager.getEnemies es')
  = map (fun e => (Enemy.eid e, Enemy.health e)) (EnemyManager.getEnemies es)
  /\ EnemyManager.getLivingEnemyCount es'
     = EnemyManager.getLivingEnemyCount es
  /\ (EnemyManager.getTotalEnemyCount es'
      <= EnemyManager.getTotalEnemyCount es)%nat
  /\ (forall e', In e' es' -> Enemy.isDead e' = true ->
                 Enemy.deathAnimationComplete e' = false).
Proof.
  cbv zeta. revert s.
  induction es as [|e rest IH]; intro s.
  { cbn. refine (conj eq_refl (conj eq_refl (conj (le_n _) _))).
    intros e' []. }
  cbn [EnemyManager.update].
  specialize (IH s).
  destruct (EnemyManager.update dt rnd rest s) as [rest' s1].
  cbn [fst] in IH. destruct IH as (I1 & I2 & I3 & I4).
  pose proof (update_life dt (rnd (Enemy.eid e)) e s1) as Hl.
  pose proof (update_eid dt (rnd (Enemy.eid e)) e s1) as Hid.
  destruct (Enemy.update dt (rnd (Enemy.eid e)) e s1) as [e1 s2].
  cbn [fst] in Hl, Hid.
  apply life_fields in Hl. destruct Hl as (Hdead & Hh & _).
  unfold EnemyManager.getLivingEnemyCount,
    EnemyManager.getTotalEnemyCount in *.
  unfold EnemyManager.getEnemies in *. cbn [filter length].
  rewrite <- Hdead.
  destruct (Enemy.isDead e1) eqn:Ed; cbn [negb andb].
  - destruct (Enemy.deathAnimationComplete e1) eqn:Ec; cbn [fst].
    + refine (conj I1 (conj I2 (conj _ I4))). lia.
    + cbn [filter]. rewrite Ed. cbn [negb length].
      refine (conj I1 (conj I2 (conj _ _))); [lia|].
      intros e' [<- | Hin] Hd; [exact Ec | exact (I4 e' Hin Hd)].
  - cbn [fst filter]. rewrite Ed. cbn [negb map length].
    rewrite I1, I2, Hid, Hh.
    refine (conj eq_refl (conj eq_refl (conj _ _))); [lia|].
    intros e' [<- | Hin] Hd; [congruence | exact (I4 e' Hin Hd)].
Qed.


(* ------------------------------------------------------------------ *)
(** ** A dead enemy *)

Section Dead.
Context {M : MathLib}.

(** The animation of a dead enemy: one frame of the death sheet at
    most, and nothing outside the enemy. *)
Lemma updateAnimation_dead (dt : Q) (rnd : Rand) (e : Enemy.t) (s : Sys) :
  Enemy.isDead e = true ->
  Enemy.currentAnimation e = anim_death ->
  let advanced :=
    (1 <? Enemy.totalFrames e)%Z
    && Num.geb (Enemy.elapsedTime e + dt) (Enemy.frameTime e) in
  let e' := fst (Enemy.updateAnimation dt rnd e s) in
  snd (Enemy.updateAnimation dt rnd e s) = s
  /\ Enemy.currentAnimation e' = anim_death
  /\ Enemy.currentState e' = Enemy.currentState e
  /\ Enemy.currentTelegraph e' = Enemy.currentTelegraph e
  /\ Enemy.position e' = Enemy.position e
  /\ Enemy.deathAnimationComplete e'
     = Enemy.deathAnimationComplete e
       || (advanced
           && (Enemy.totalFrames e <=? Enemy.currentFrame e + 1)%Z).
Proof.
  intros Hd Ha. cbv zeta. unfold Enemy.updateAnimation.
  rewrite Hd. cbn [orb].
  destruct (1 <? Enemy.totalFrames e)%Z; cbn [andb].
  2:{ cbn [fst snd]. rewrite orb_false_r.
      exact (conj eq_refl (conj Ha (conj eq_refl (conj eq_refl
               (conj eq_refl eq_refl))))). }
  cbv zeta.
  change (Enemy.elapsedTime (Enemy.set_elapsedTime ?v e)) with v.
  change (Enemy.frameTime (Enemy.set_elapsedTime ?v e))
    with (Enemy.frameTime e).
  destruct (Num.geb (Enemy.elapsedTime e + dt) (Enemy.frameTime e)).
  2:{ cbn [fst snd]. rewrite orb_false_r.
      refine (conj eq_refl (conj _ (conj _ (conj _ (conj _ _)))));
        try reflexivity. exact Ha. }
  set (e1 := Enemy.set_elapsedTime 0
               (Enemy.set_elapsedTime (Enemy.elapsedTime e + dt) e)).
  change (Enemy.currentAnimation e1) with (Enemy.currentAnimation e).
  rewrite Ha. cbn [fst snd]. unfold Enemy.advanceOther.
  change (Enemy.currentAnimation e1) with (Enemy.currentAnimation e).
  rewrite Ha. cbv zeta.
  change (Enemy.totalFrames (Enemy.set_currentFrame ?v e1))
    with (Enemy.totalFrames e).
  change (Enemy.currentFrame (Enemy.set_currentFrame ?v e1)) with v.
  change (Enemy.deathAnimationComplete (Enemy.set_currentFrame ?v e1))
    with (Enemy.deathAnimationComplete e).
  change (Enemy.currentFrame e1) with (Enemy.currentFrame e).
  destruct (Enemy.totalFrames e <=? Enemy.currentFrame e + 1)%Z;
    destruct (Enemy.deathAnimationComplete e) eqn:Ec; cbn [andb negb orb];
    refine (conj eq_refl (conj _ (conj _ (conj _ (conj _ _)))));
    try reflexivity; try exact Ha; try exact Ec.
Qed.

End Dead.

(** X9.  A dead enemy in its death animation is inert: its [update]
    leaves the shared state as it is (no damage, no fireball, no
    telegraph created or cancelled, no freeze), keeps its AI state, its
    telegraph reference and its place (pinned to [baseY]), and only
    plays the death sheet, whose completion it reports when the last
    frame is reached; [takeDamage] on it changes nothing. *)
Theorem dead_enemy_is_inert {M : MathLib} (dt amount : Q) (rnd : Rand)
        (attacker : option Vector3) (e : Enemy.t) (s : Sys) :
  Enemy.isDead e = true ->
  Enemy.currentAnimation e = anim_death ->
  let e' := fst (Enemy.update dt rnd e s) in
  let advanced :=
    (1 <? Enemy.totalFrames e)%Z
    && Num.geb (Enemy.elapsedTime e + dt) (Enemy.frameTime e) in
  snd (Enemy.update dt rnd e s) = s
  /\ Enemy.takeDamage amount attacker e s = (e, s)
  /\ Enemy.isDead e' = true
  /\ Enemy.health e' = Enemy.health e
  /\ Enemy.currentAnimation e' = anim_death
  /\ Enemy.currentState e' = Enemy.currentState e
  /\ Enemy.currentTelegraph e' = Enemy.currentTelegraph e
  /\ Enemy.position e' = V3.setY (Enemy.position e) (Enemy.baseY e)
  /\ Enemy.deathAnimationComplete e'
     = Enemy.deathAnimationComplete e
       || (advanced
           && (Enemy.totalFrames e <=? Enemy.currentFrame e + 1)%Z).
Proof.
  intros Hd Ha. cbv zeta.
  pose proof (update_life dt rnd e s) as Hl.
  apply life_fields in Hl. destruct Hl as (L1 & L2 & _).
  split.
  2:{ split.
      { unfold Enemy.takeDamage. rewrite Hd. reflexivity. }
      rewrite L1, L2. split; [exact Hd|]. split; [reflexivity|].
      unfold Enemy.update. cbv zeta.
      pose proof (updateAnimation_dead dt rnd (Enemy.superUpdate e) s
                    Hd Ha) as H.
      pose proof (updateAnimation_life dt rnd (Enemy.superUpdate e) s)
        as Hl1.
      cbv zeta in H.
      destruct (Enemy.updateAnimation dt rnd (Enemy.superUpdate e) s)
        as [e1 s1].
      cbn [fst snd] in *.
      apply life_fields in Hl1. destruct Hl1 as (D1 & _).
      change (Enemy.isDead (Enemy.superUpdate e)) with (Enemy.isDead e)
        in D1.
      rewrite D1, Hd. cbn [fst].
      destruct H as (_ & H2 & H3 & H4 & H5 & H6).
      auto. }
  unfold Enemy.update. cbv zeta.
  pose proof (updateAnimation_dead dt rnd (Enemy.superUpdate e) s Hd Ha)
    as H.
  pose proof (updateAnimation_life dt rnd (Enemy.superUpdate e) s) as Hl1.
  cbv zeta in H.
  destruct (Enemy.updateAnimation dt rnd (Enemy.superUpdate e) s)
    as [e1 s1].
  cbn [fst snd] in *.
  apply life_fields in Hl1. destruct Hl1 as (D1 & _).
  change (Enemy.isDead (Enemy.superUpdate e)) with (Enemy.isDead e) in D1.
  rewrite D1, Hd. cbn [snd]. exact (proj1 H).
Qed.

Lemma dead_enemy_is_inert_witness :
  let e := fst (Enemy.takeDamage (M := Sample.M) 1000 None Sample.grunt
                                 Sample.world) in
  let s := Sample.world in
  let e' := fst (Enemy.update (M := Sample.M) (1 # 10) Sample.noRand e s) in
  let advanced :=
    (1 <? Enemy.totalFrames e)%Z
    && Num.geb (Enemy.elapsedTime e + (1 # 10)) (Enemy.frameTime e) in
  snd (Enemy.update (M := Sample.M) (1 # 10) Sample.noRand e s) = s
  /\ Enemy.takeDamage (M := Sample.M) 5 None e s = (e, s)
  /\ Enemy.isDead e' = true
  /\ Enemy.health e' = Enemy.health e
  /\ Enemy.currentAnimation e' = anim_death
  /\ Enemy.currentState e' = Enemy.currentState e
  /\ Enemy.currentTelegraph e' = Enemy.currentTelegraph e
  /\ Enemy.position e' = V3.setY (Enemy.position e) (Enemy.baseY e)
  /\ Enemy.deathAnimationComplete e'
     = Enemy.deathAnimationComplete e
       || (advanced
           && (Enemy.totalFrames e <=? Enemy.currentFrame e + 1)%Z).
Proof.
  apply (@dead_enemy_is_inert Sample.M (1 # 10) 5 Sample.noRand None
           (fst (Enemy.takeDamage (M := Sample.M) 1000 None Sample.grunt
                                  Sample.world))
           Sample.world); vm_compute; reflexivity.
Defined.


(* ------------------------------------------------------------------ *)
(** ** What a blow does outside the enemy *)

Section Blow.
Context {M : MathLib}.

Lemma switchAnimation_currentTelegraph (r : Q) (a : Animation)
      (e : Enemy.t) :
  Enemy.currentTelegraph (Enemy.switchAnimation r a e)
  = Enemy.currentTelegraph e.
Proof.
  unfold Enemy.switchAnimation.
  destruct (negb (Enemy.switches a e)); [reflexivity|].
  destruct a; reflexivity.
Qed.

Lemma switchAnimation_combatSystem (r : Q) (a : Animation) (e : Enemy.t) :
  Enemy.combatSystem (Enemy.switchAnimation r a e) = Enemy.combatSystem e.
Proof.
  unfold Enemy.switchAnimation.
  destruct (negb (Enemy.switches a e)); [reflexivity|].
  destruct a; reflexivity.
Qed.

Lemma takeDamage_currentTelegraph (amount : Q) (attacker : option Vector3)
      (e : Enemy.t) (s : Sys) :
  Enemy.currentTelegraph (fst (Enemy.takeDamage amount attacker e s))
  = Enemy.currentTelegraph e.
Proof.
  unfold Enemy.takeDamage.
  destruct (Enemy.isDead e || Enemy.isHit e); [reflexivity|].
  cbv zeta.
  match goal with
  | |- context [Enemy.requestFreeze ?d ?x s] =>
      set (e1 := x);
      assert (H1 : Enemy.currentTelegraph e1 = Enemy.currentTelegraph e)
        by (subst e1; break_ifs; reflexivity);
      set (s1 := Enemy.requestFreeze d e1 s)
  end.
  clearbody s1. clearbody e1. rewrite <- H1.
  destruct (Num.leb (Enemy.health e1) 0).
  - unfold Enemy.die.
    change (Enemy.isDead (Enemy.set_health 0 e1)) with (Enemy.isDead e1).
    destruct (Enemy.isDead e1); [reflexivity|].
    cbv zeta. cbn [fst]. rewrite switchAnimation_currentTelegraph.
    reflexivity.
  - cbn [fst].
    change (Enemy.currentTelegraph (Enemy.set_scalePunchTimer ?v ?x))
      with (Enemy.currentTelegraph x).
    destruct attacker as [p|].
    + unfold Enemy.applyKnockback. cbv zeta.
      change (Enemy.currentTelegraph (Enemy.set_knockbackTimer ?v
                (Enemy.set_isKnockedBack ?b
                   (Enemy.set_knockbackTarget ?t
                      (Enemy.set_knockbackOrigin ?o ?x)))))
        with (Enemy.currentTelegraph x).
      apply switchAnimation_currentTelegraph.
    + apply switchAnimation_currentTelegraph.
Qed.

Lemma requestFreeze_freeze (d : Q) (e : Enemy.t) (s : Sys) :
  (freezeTime (Enemy.requestFreeze d e s),
   freezeDuration (Enemy.requestFreeze d e s))
  = if Enemy.combatSystem e && cs_game (combat s)
       && negb (isLightningStriking (combat s))
    then (d, d) else (freezeTime s, freezeDuration s).
Proof.
  unfold Enemy.requestFreeze, freezeFrame.
  destruct (Enemy.combatSystem e && cs_game (combat s)); [|reflexivity].
  destruct (negb (isLightningStriking (combat s))); reflexivity.
Qed.

Lemma requestFreeze_combat (d : Q) (e : Enemy.t) (s : Sys) :
  combat (Enemy.requestFreeze d e s) = combat s.
Proof. apply beside_combat. apply requestFreeze_beside. Qed.

End Blow.

(** X10.  Outside the enemy a blow reaches nothing but the freeze frame:
    player, combat system, fireballs, telegraphs, timers and record are
    as before, and the enemy keeps its telegraph reference, so neither a
    hit nor the death of an enemy cancels its telegraph.  The freeze is
    0.06 s for a blow the enemy survives and 0.15 s for a killing one,
    when the enemy is wired to a combat system with a game and no
    lightning strike is being resolved; otherwise it is not touched. *)
Theorem blow_only_freezes {M : MathLib} (amount : Q)
        (attacker : option Vector3) (e : Enemy.t) (s : Sys) :
  let r := Enemy.takeDamage amount attacker e s in
  let wired :=
    Enemy.combatSystem e && cs_game (combat s)
    && negb (isLightningStriking (combat s)) in
  beside_freeze (snd r) = beside_freeze s
  /\ Enemy.currentTelegraph (fst r) = Enemy.currentTelegraph e
  /\ (freezeTime (snd r), freezeDuration (snd r))
     = if negb (Enemy.isDead e || Enemy.isHit e) && wired
       then if Num.leb (Enemy.health e - amount) 0
            then (15 # 100, 15 # 100) else (6 # 100, 6 # 100)
       else (freezeTime s, freezeDuration s).
Proof.
  cbv zeta.
  split; [apply takeDamage_beside|].
  split; [apply takeDamage_currentTelegraph|].
  unfold Enemy.takeDamage.
  destruct (Enemy.isDead e || Enemy.isHit e) eqn:Hskip; [reflexivity|].
  cbv zeta. cbn [negb andb].
  match goal with
  | |- context [Enemy.requestFreeze ?d ?x s] =>
      set (e1 := x);
      assert (H1 : Enemy.combatSystem e1 = Enemy.combatSystem e)
        by (subst e1; break_ifs; reflexivity);
      assert (H2 : Enemy.health e1 = Enemy.health e - amount)
        by (subst e1; break_ifs; reflexivity);
      assert (H3 : Enemy.isDead e1 = Enemy.isDead e)
        by (subst e1; break_ifs; reflexivity);
      pose proof (requestFreeze_freeze d e1 s) as Hf;
      pose proof (requestFreeze_combat d e1 s) as Hc;
      set (s1 := Enemy.requestFreeze d e1 s) in *
  end.
  clearbody s1. clearbody e1. rewrite H1 in Hf. rewrite H2.
  destruct (Num.leb (Enemy.health e - amount) 0).
  - unfold Enemy.die.
    change (Enemy.isDead (Enemy.set_health 0 e1)) with (Enemy.isDead e1).
    rewrite H3. apply orb_false_iff in Hskip. rewrite (proj1 Hskip).
    cbv zeta. cbn [snd].
    rewrite requestFreeze_freeze.
    change (Enemy.combatSystem (Enemy.set_health 0 e1))
      with (Enemy.combatSystem e1).
    rewrite H1, Hc.
    destruct (Enemy.combatSystem e && cs_game (combat s)
              && negb (isLightningStriking (combat s)));
      [reflexivity | exact Hf].
  - cbn [snd]. exact Hf.
Qed.


(* ------------------------------------------------------------------ *)
(** ** The hit-stop of a swing *)

Section HitStop.
Context {M : MathLib}.

(** A swing that reaches no enemy leaves enemies and shared state
    alone. *)
Lemma handlePlayerAttack_miss (p d : Vector3) (rng a : Q)
      (info : option DamageInfo) (es : list Enemy.t) (s : Sys) :
  snd (EnemyManager.handlePlayerAttack p d rng a info es s) = [] ->
  EnemyManager.handlePlayerAttack p d rng a info es s = (es, s, []).
Proof.
  revert s. induction es as [|e rest IH]; intros s H; [reflexivity|].
  cbn [EnemyManager.handlePlayerAttack] in *.
  unfold EnemyManager.attackOne in *. cbv zeta in *.
  destruct (negb (Enemy.isDead e)).
  2:{ specialize (IH s).
      destruct (EnemyManager.handlePlayerAttack p d rng a info rest s)
        as [[rest' s'] hs].
      cbn [snd app] in H. subst hs.
      specialize (IH eq_refl). inversion IH. reflexivity. }
  destruct (Num.leb (EnemyManager.attackDistance p e) rng).
  2:{ specialize (IH s).
      destruct (EnemyManager.handlePlayerAttack p d rng a info rest s)
        as [[rest' s'] hs].
      cbn [snd app] in H. subst hs.
      specialize (IH eq_refl). inversion IH. reflexivity. }
  destruct (Num.leb (EnemyManager.attackAngleTo p d e) _).
  2:{ specialize (IH s).
      destruct (EnemyManager.handlePlayerAttack p d rng a info rest s)
        as [[rest' s'] hs].
      cbn [snd app] in H. subst hs.
      specialize (IH eq_refl). inversion IH. reflexivity. }
  destruct (Enemy.takeDamage _ _ e s) as [e' s'].
  destruct (EnemyManager.handlePlayerAttack p d rng a info rest s')
    as [[rest' s''] hs].
  cbn [snd app] in H. discriminate.
Qed.

(** Every entry of [hits] carries the critical flag of the swing. *)
Lemma handlePlayerAttack_critical (p d : Vector3) (rng a : Q)
      (info : DamageInfo) (es : list Enemy.t) (s : Sys) :
  Forall (fun h => hit_isCritical h = di_isCritical info)
         (snd (EnemyManager.handlePlayerAttack p d rng a (Some info) es s)).
Proof.
  destruct (handlePlayerAttack_spec p d rng a (Some info) es s s eq_refl)
    as (_ & H & _).
  cbv zeta in H. rewrite H. apply Forall_forall. intros h Hin.
  apply in_map_iff in Hin. destruct Hin as (e & <- & _). reflexivity.
Qed.

Lemma existsb_all (b : bool) (l : list Hit) :
  l <> [] -> Forall (fun h => hit_isCritical h = b) l ->
  existsb hit_isCritical l = b.
Proof.
  intros Hne H. induction H as [|h t Hh Ht IH]; [congruence|].
  cbn [existsb]. rewrite Hh. destruct b; [reflexivity|]. cbn [orb].
  destruct t as [|h' t']; [reflexivity|]. apply IH. discriminate.
Qed.

Lemma beside_set_combat (c' : CombatSystem) (x y : Sys) :
  beside_freeze x = beside_freeze y ->
  beside_freeze (set_combat (combat y) (set_combat c' x)) = beside_freeze y.
Proof.
  unfold beside_freeze. intro H. inversion H. cbn. reflexivity.
Qed.

End HitStop.

(** X11.  The hit-stop of an accepted swing.  A swing that reaches no
    enemy changes nothing but the swing timers of the combat system.  A
    swing that hits sets the freeze frame, when the combat system knows
    its game, to 0.18 s for a critical swing, else 0.15 s for more than
    two enemies hit, else 0.12 s, replacing the freeze the enemies asked
    for themselves; player, fireballs, telegraphs, timers and record
    are untouched either way. *)
Theorem swing_hit_stop {M : MathLib} (r1 r2 : Q) (g : Game) :
  canAttack (combat (sys g)) = true ->
  let c := combat (sys g) in
  let out := Game.triggerAttack r1 r2 g in
  let s' := sys (out_game out) in
  beside_freeze (set_combat c s') = beside_freeze (sys g)
  /\ match out_effects out with
     | [] =>
         enemies (out_game out) = enemies g
         /\ freezeTime s' = freezeTime (sys g)
         /\ freezeDuration s' = freezeDuration (sys g)
     | _ :: _ =>
         cs_game c = true ->
         let duration :=
           if di_isCritical (calculateDamage c r1 r2) then 18 # 100
           else if (2 <? length (out_effects out))%nat then 15 # 100
                else 12 # 100 in
         freezeTime s' = duration /\ freezeDuration s' = duration
     end.
Proof.
  intros Hcan. cbv zeta. unfold Game.triggerAttack. cbv zeta.
  unfold canAttack in Hcan. rewrite gtb_leb.
  apply andb_true_iff in Hcan. destruct Hcan as [H1 H2].
  rewrite H1. apply negb_true_iff in H2. rewrite H2. cbn [negb orb].
  set (p := pl_position (player (sys g))).
  set (d := V3.normalize (V3.setY (pl_lastDirection (player (sys g))) 0)).
  set (c := combat (sys g)).
  set (info := calculateDamage c r1 r2).
  pose proof (handlePlayerAttack_beside p d (cs_attackRange c)
                (cs_attackAngle c) (Some info) (enemies g) (sys g)) as Hb.
  pose proof (handlePlayerAttack_miss p d (cs_attackRange c)
                (cs_attackAngle c) (Some info) (enemies g) (sys g)) as Hm.
  pose proof (handlePlayerAttack_critical p d (cs_attackRange c)
                (cs_attackAngle c) info (enemies g) (sys g)) as Hc.
  destruct (EnemyManager.handlePlayerAttack p d (cs_attackRange c)
              (cs_attackAngle c) (Some info) (enemies g) (sys g))
    as [[es' s1] hits].
  cbn [fst snd] in Hb, Hm, Hc.
  destruct hits as [|h hs].
  - specialize (Hm eq_refl). inversion Hm; subst es' s1.
    cbn [out_game out_effects sys enemies].
    split; [reflexivity|]. split; [reflexivity|]. split; reflexivity.
  - clear Hm.
    pose proof (sort_hits_perm (h :: hs)) as Hperm.
    assert (Hne : sort_hits (h :: hs) <> []).
    { intro E. rewrite E in Hperm. apply Permutation_nil in Hperm.
      discriminate. }
    assert (Hall : Forall (fun x => hit_isCritical x = di_isCritical info)
                          (sort_hits (h :: hs))).
    { apply Forall_forall. intros x Hx.
      apply (Permutation_in _ Hperm) in Hx.
      exact (proj1 (Forall_forall _ _) Hc x Hx). }
    set (sorted := sort_hits (h :: hs)) in *.
    cbn [out_game out_effects sys].
    split.
    { apply beside_set_combat. rewrite onSuccessfulHit_beside. exact Hb. }
    destruct sorted as [|x xs] eqn:Es; [congruence|].
    intro Hgame. cbv zeta.
    assert (Hc1 : combat s1 = c) by (apply beside_combat; exact Hb).
    unfold Game.onSuccessfulHit. rewrite Hc1, Hgame.
    rewrite (existsb_all (di_isCritical info) (x :: xs) Hne Hall).
    split; reflexivity.
Qed.

Lemma swing_hit_stop_witness :
  let g := swing_game in
  let c := combat (sys g) in
  let out := Game.triggerAttack (M := Sample.M) (1 # 2) (1 # 2) g in
  let s' := sys (out_game out) in
  beside_freeze (set_combat c s') = beside_freeze (sys g)
  /\ match out_effects out with
     | [] =>
         enemies (out_game out) = enemies g
         /\ freezeTime s' = freezeTime (sys g)
         /\ freezeDuration s' = freezeDuration (sys g)
     | _ :: _ =>
         cs_game c = true ->
         let duration :=
           if di_isCritical (calculateDamage c (1 # 2) (1 # 2)) then 18 # 100
           else if (2 <? length (out_effects out))%nat then 15 # 100
                else 12 # 100 in
         freezeTime s' = duration /\ freezeDuration s' = duration
     end.
Proof.
  apply (@swing_hit_stop Sample.M (1 # 2) (1 # 2) swing_game).
  vm_compute. reflexivity.
Defined.


(* ------------------------------------------------------------------ *)
(** ** The transitions of the AI *)

Section Transitions.
Context {M : MathLib}.

(** The enemy at the perception poll: the detection timer reset. *)
Lemma canSeePlayer_polled (p : Vector3) (v w : Q) (e : Enemy.t) :
  Enemy.canSeePlayer p
    (Enemy.set_detectionTimer v (Enemy.set_detectionTimer w e))
  = Enemy.canSeePlayer p e.
Proof. reflexivity. Qed.

End Transitions.

(** X12.  The perception poll of the AI.  [updateAI] only makes the
    moves of [ai_move]: no state leads to STUNNED, PATROL is left only
    for CHASE, ATTACK is entered only from CHASE.  It does nothing to an
    enemy that is dead or in its hit reaction, and keeps the state
    between two polls.  It enters ATTACK only with a target within
    [attackRange] and the attack cooldown run out, and takes up the
    chase only when [canSeePlayer] answers true. *)
Theorem updateAI_transitions {M : MathLib} (dt : Q) (rnd : Rand)
        (p : Vector3) (e : Enemy.t) :
  let e' := Enemy.updateAI dt rnd p e in
  ai_move (Enemy.currentState e) (Enemy.currentState e') = true
  /\ (Enemy.isDead e || Enemy.isHit e = true -> e' = e)
  /\ (Enemy.detectionTimer e + dt < Enemy.detectionInterval e ->
      Enemy.currentState e' = Enemy.currentState e)
  /\ (Enemy.currentState e' = ATTACK ->
      Enemy.currentState e <> ATTACK ->
      Enemy.currentState e = CHASE
      /\ Enemy.target e = true
      /\ V3.distanceTo (Enemy.position e) p <= Enemy.attackRange e
      /\ Enemy.attackCooldown e <= 0)
  /\ (Enemy.currentState e' = CHASE ->
      Enemy.currentState e <> CHASE ->
      Enemy.canSeePlayer p e = true).
Proof.
  cbv zeta. unfold Enemy.updateAI.
  destruct (Enemy.isDead e || Enemy.isHit e) eqn:Hskip.
  { refine (conj _ (conj _ (conj _ (conj _ _)))); try congruence.
    destruct (Enemy.currentState e); reflexivity. }
  cbv zeta.
  change (Enemy.detectionTimer (Enemy.set_detectionTimer ?v e)) with v.
  change (Enemy.detectionInterval (Enemy.set_detectionTimer ?v e))
    with (Enemy.detectionInterval e).
  destruct (Num.geb (Enemy.detectionTimer e + dt) (Enemy.detectionInterval e))
    eqn:Hdue.
  2:{ change (Enemy.currentState (Enemy.set_detectionTimer ?v e))
        with (Enemy.currentState e).
      refine (conj _ (conj _ (conj _ (conj _ _)))); try congruence.
      destruct (Enemy.currentState e); reflexivity. }
  rewrite canSeePlayer_polled.
  set (e1 := Enemy.set_detectionTimer 0
               (Enemy.set_detectionTimer (Enemy.detectionTimer e + dt) e)).
  change (Enemy.currentState e) with (Enemy.currentState e1).
  change (Enemy.target e) with (Enemy.target e1).
  change (Enemy.position e) with (Enemy.position e1).
  change (Enemy.attackRange e) with (Enemy.attackRange e1).
  change (Enemy.attackCooldown e) with (Enemy.attackCooldown e1).
  set (sees := Enemy.canSeePlayer p e).
  apply geb_le in Hdue.
  assert (Hnot : ~ Enemy.detectionTimer e + dt < Enemy.detectionInterval e)
    by (intro Hlt; apply (Qlt_not_le _ _ Hlt); exact Hdue).
  clearbody e1. clearbody sees.
  assert (Hattack :
            forall x : Enemy.t,
              Enemy.attackRange x = Enemy.attackRange e1 ->
              Enemy.attackCooldown x = Enemy.attackCooldown e1 ->
              Enemy.currentState x <> ATTACK ->
              Enemy.currentState
                (if Enemy.target e1
                    && Num.leb (V3.distanceTo (Enemy.position e1) p)
                               (Enemy.attackRange x)
                    && Num.leb (Enemy.attackCooldown x) 0
                 then Enemy.set_currentState ATTACK x else x) = ATTACK ->
              Enemy.target e1 = true
              /\ V3.distanceTo (Enemy.position e1) p <= Enemy.attackRange e1
              /\ Enemy.attackCooldown e1 <= 0).
  { intros x -> -> Hx.
    destruct (Enemy.target e1); cbn [andb]; [|congruence].
    destruct (Num.leb (V3.distanceTo (Enemy.position e1) p)
                      (Enemy.attackRange e1)) eqn:Hr;
      cbn [andb]; [|congruence].
    destruct (Num.leb (Enemy.attackCooldown e1) 0) eqn:Hc; [|congruence].
    intros _. apply leb_le in Hr. apply leb_le in Hc. auto. }
  split.
  { destruct (Enemy.currentState e1) eqn:Hs; break_ifs; cbn;
      rewrite ?Hs; reflexivity. }
  split; [discriminate|].
  split; [intro Hlt; contradiction|].
  split.
  - destruct (Enemy.currentState e1) eqn:Hs; intros H Hne;
      try congruence;
      try (revert H; break_ifs; cbn; rewrite ?Hs; discriminate).
    split; [reflexivity|]. revert H.
    destruct sees;
      [|destruct (negb (Enemy.target e1)
                  || Num.gtb (V3.distanceTo (Enemy.position e1) p)
                             (Enemy.loseTargetRange e1))];
      apply Hattack; try reflexivity; cbn; rewrite ?Hs; discriminate.
  - destruct (Enemy.currentState e1) eqn:Hs; intros H Hne;
      try congruence; revert H;
      destruct sees; try reflexivity;
      break_ifs; cbn; rewrite ?Hs; discriminate.
Qed.


(* ------------------------------------------------------------------ *)
(** ** The melee blow of an enemy *)

(** X13.  The melee blow of an enemy at its damage frame.  It does
    nothing at all when the player is farther than [attackRange], or is
    already hurt, or is in the middle of a swing.  Otherwise the player
    is put in the hurt state, and loses [attackDamage] health exactly
    when the enemy has a combat system and the player is not
    invulnerable. *)
Theorem melee_blow_needs_open_player {M : MathLib} (rnd : Rand)
        (e : Enemy.t) (s : Sys) :
  Enemy.isFireballCaster e && Enemy.fireballManager e = false ->
  let s' := Enemy.dealDamage rnd e s in
  let inRange :=
    Num.leb (V3.distanceTo (Enemy.position e) (pl_position (player s)))
            (Enemy.attackRange e) in
  let open := negb (pl_isHurt (player s) || pl_isAttacking (player s)) in
  if inRange && open then
    pl_isHurt (player s') = true
    /\ pl_position (player s') = pl_position (player s)
    /\ playerHealth (combat s')
       = (if Enemy.combatSystem e && negb (playerInvulnerable (combat s))
          then playerHealth (combat s) - Enemy.attackDamage e
          else playerHealth (combat s))
    /\ playerInvulnerable (combat s')
       = playerInvulnerable (combat s) || Enemy.combatSystem e
  else s' = s.
Proof.
  intros Hmelee. cbv zeta. unfold Enemy.dealDamage. cbv zeta.
  rewrite Hmelee.
  destruct (Num.leb _ (Enemy.attackRange e)); cbn [andb]; [|reflexivity].
  unfold Player_hurt.
  destruct (pl_isHurt (player s) || pl_isAttacking (player s)) eqn:Hbusy;
    cbn [negb].
  { destruct s; reflexivity. }
  destruct (Enemy.combatSystem e); cbn [andb orb].
  - unfold handlePlayerDamage, emit.
    change (combat (set_log ?l (set_player ?p s))) with (combat s).
    destruct (playerInvulnerable (combat s)) eqn:Hinv; cbn [negb snd].
    + repeat split; try reflexivity; exact Hinv.
    + cbv zeta. destruct (cs_game _); repeat split.
  - rewrite orb_false_r. repeat split.
Qed.

Lemma melee_blow_needs_open_player_witness :
  let e := Sample.grunt in
  let s := Sample.world in
  let s' := Enemy.dealDamage (M := Sample.M) Sample.noRand e s in
  let inRange :=
    Num.leb (V3.distanceTo (M := Sample.M) (Enemy.position e)
                           (pl_position (player s)))
            (Enemy.attackRange e) in
  let open := negb (pl_isHurt (player s) || pl_isAttacking (player s)) in
  if inRange && open then
    pl_isHurt (player s') = true
    /\ pl_position (player s') = pl_position (player s)
    /\ playerHealth (combat s')
       = (if Enemy.combatSystem e && negb (playerInvulnerable (combat s))
          then playerHealth (combat s) - Enemy.attackDamage e
          else playerHealth (combat s))
    /\ playerInvulnerable (combat s')
       = playerInvulnerable (combat s) || Enemy.combatSystem e
  else s' = s.
Proof.
  apply (@melee_blow_needs_open_player Sample.M Sample.noRand Sample.grunt
           Sample.world).
  vm_compute. reflexivity.
Defined.


(* ------------------------------------------------------------------ *)
(** ** The life of a telegraph *)

(** With a positive duration [w], a progress has reached its end
    exactly when the time [x] has reached [w]. *)
Lemma reached_spec (x w : Q) :
  0 < w -> (Num.reached x w = true <-> w <= x).
Proof.
  intro Hw. unfold Num.reached.
  destruct (Qeq_bool w 0) eqn:E0.
  { apply Qeq_bool_eq in E0. lra. }
  rewrite geb_le. split; intro H.
  - assert (H1 : 1 <= x / w)
      by (apply (Qle_trans _ _ _ H); apply min_le_l).
    assert (E : x == x / w * w) by (field; lra).
    rewrite E. rewrite <- (Qmult_1_l w) at 1.
    apply Qmult_le_compat_r; lra.
  - apply min_glb; [|apply Qle_refl].
    apply Qle_shift_div_l; [exact Hw | lra].
Qed.

Lemma reached_pending (x w : Q) :
  0 < w -> (Num.reached x w = false <-> x < w).
Proof.
  intro Hw. pose proof (reached_spec x w Hw) as H.
  destruct (Num.reached x w).
  - split; [discriminate|]. intro L.
    pose proof (proj1 H eq_refl). lra.
  - split; [|reflexivity]. intros _.
    destruct (Qlt_le_dec x w) as [L | L]; [exact L|].
    apply H in L. discriminate.
Qed.

(** One [update] of an active telegraph without glow. *)
Lemma Tg_update_plain (dt : Q) (follow : option Vector3) (t : Tg.t) :
  Tg.isActive t = true -> Tg.hasGlowEffect t = false ->
  let t' := Tg.update dt follow t in
  let done := Num.reached (Tg.elapsedTime t + dt) (Tg.warningTime t) in
  Tg.warningTime t' = Tg.warningTime t
  /\ Tg.hasGlowEffect t' = false
  /\ Tg.explosionTriggered t' = Tg.explosionTriggered t
  /\ Tg.elapsedTime t' = Tg.elapsedTime t + dt
  /\ Tg.isActive t' = negb done
  /\ Tg.visible t' = Tg.visible t && negb done
  /\ Tg.parent t' = Tg.parent t.
Proof.
  intros Ha Hg. destruct t. cbn in Ha, Hg. subst.
  unfold Tg.update. cbn [Tg.isActive negb andb].
  cbv zeta.
  destruct followTarget as [id|], follow as [p|]; cbn;
    match goal with
    | |- context [Num.reached ?x ?w] => destruct (Num.reached x w)
    end; cbn; rewrite ?andb_true_r, ?andb_false_r; repeat split.
Qed.

(** A telegraph that is neither active nor fading is left alone. *)
Lemma Tg_updates_over (steps : list (Q * option Vector3)) (t : Tg.t) :
  Tg.isActive t = false -> Tg.explosionTriggered t = false ->
  Tg_updates steps t = t.
Proof.
  intros Ha He. induction steps as [|[dt f] rest IH]; [reflexivity|].
  cbn [Tg_updates]. unfold Tg.update at 1. rewrite Ha, He. exact IH.
Qed.

(** No [update] makes a telegraph active, or visible. *)
Lemma Tg_update_stays_inactive (dt : Q) (follow : option Vector3)
      (t : Tg.t) :
  Tg.isActive t = false -> Tg.isActive (Tg.update dt follow t) = false.
Proof.
  intro Ha. destruct t. cbn in Ha. subst.
  unfold Tg.update. cbn [Tg.isActive negb andb].
  destruct explosionTriggered; cbn [negb]; [|reflexivity].
  cbv zeta.
  destruct followTarget as [id|], follow as [p|], hasGlowEffect; cbn;
    repeat match goal with
           | |- context [Num.reached ?x ?w] => destruct (Num.reached x w)
           end; reflexivity.
Qed.

Lemma Tg_update_stays_hidden (dt : Q) (follow : option Vector3)
      (t : Tg.t) :
  Tg.visible t = false -> Tg.visible (Tg.update dt follow t) = false.
Proof.
  intro Hv. destruct t. cbn in Hv. subst.
  unfold Tg.update.
  destruct (negb _ && negb _); [reflexivity|].
  cbv zeta.
  destruct followTarget as [id|], follow as [p|], hasGlowEffect,
    explosionTriggered; cbn;
    repeat match goal with
           | |- context [Num.reached ?x ?w] => destruct (Num.reached x w)
           end; reflexivity.
Qed.

Lemma Tg_updates_stay_inactive (steps : list (Q * option Vector3)) :
  forall t, Tg.isActive t = false -> Tg.isActive (Tg_updates steps t) = false.
Proof.
  induction steps as [|[dt f] rest IH]; intros t Ha; [exact Ha|].
  cbn [Tg_updates]. apply IH, Tg_update_stays_inactive, Ha.
Qed.

Lemma Tg_updates_stay_hidden (steps : list (Q * option Vector3)) :
  forall t, Tg.visible t = false -> Tg.visible (Tg_updates steps t) = false.
Proof.
  induction steps as [|[dt f] rest IH]; intros t Hv; [exact Hv|].
  cbn [Tg_updates]. apply IH, Tg_update_stays_hidden, Hv.
Qed.

(** The telegraph without glow against its own clock. *)
Lemma plain_telegraph_run (steps : list (Q * option Vector3)) :
  forall t,
    Tg.hasGlowEffect t = false -> Tg.explosionTriggered t = false ->
    0 < Tg.warningTime t ->
    (Tg.isActive t = true <-> Tg.elapsedTime t < Tg.warningTime t) ->
    Tg.visible t = Tg.isActive t ->
    let t' := Tg_updates steps t in
    (Tg.isActive t' = true <-> Tg.elapsedTime t' < Tg.warningTime t)
    /\ Tg.visible t' = Tg.isActive t'
    /\ Tg.parent t' = Tg.parent t
    /\ Tg.explosionTriggered t' = false.
Proof.
  induction steps as [|[dt f] rest IH]; intros t Hg He Hw Hact Hvis;
    cbv zeta.
  { exact (conj Hact (conj Hvis (conj eq_refl He))). }
  cbn [Tg_updates].
  destruct (Tg.isActive t) eqn:Ha.
  - destruct (Tg_update_plain dt f t Ha Hg)
      as (U1 & U2 & U3 & U4 & U5 & U6 & U7).
    assert (Hw1 : 0 < Tg.warningTime (Tg.update dt f t))
      by (rewrite U1; exact Hw).
    assert (Hact1 : Tg.isActive (Tg.update dt f t) = true
                    <-> Tg.elapsedTime (Tg.update dt f t)
                        < Tg.warningTime (Tg.update dt f t)).
    { rewrite U1, U4, U5, negb_true_iff. apply reached_pending, Hw. }
    assert (Hvis1 : Tg.visible (Tg.update dt f t)
                    = Tg.isActive (Tg.update dt f t)).
    { rewrite U5, U6, Hvis. reflexivity. }
    destruct (IH (Tg.update dt f t) U2 (eq_trans U3 He) Hw1 Hact1 Hvis1)
      as (I1 & I2 & I3 & I4).
    rewrite U1 in I1. rewrite U7 in I3.
    exact (conj I1 (conj I2 (conj I3 I4))).
  - assert (Eu : Tg.update dt f t = t)
      by (unfold Tg.update; rewrite Ha, He; reflexivity).
    rewrite Eu, (Tg_updates_over rest t Ha He), Ha.
    exact (conj Hact (conj Hvis (conj eq_refl He))).
Qed.

(** X14.  A telegraph without glow (the melee telegraph of an enemy)
    started by [startTelegraph] with a positive [warningTime] lies on
    the ground under the given position.  Under any updates it is
    active exactly while its own clock, [elapsedTime], reads less than
    [warningTime]; it is visible exactly as long as it is active; no
    update detaches it from the scene; and once it has completed, no
    further update changes it. *)
Theorem telegraph_active_for_warningTime
        (pos : Vector3) (follow : option nat) (t0 : Tg.t)
        (steps more : list (Q * option Vector3)) :
  Tg.hasGlowEffect t0 = false ->
  Tg.explosionTriggered t0 = false ->
  0 < Tg.warningTime t0 ->
  let t := Tg.startTelegraph pos follow t0 in
  let t' := Tg_updates steps t in
  Tg.isActive t = true /\ Tg.visible t = true
  /\ Tg.position t = V3.setY pos 0
  /\ (Tg.isActive t' = true <-> Tg.elapsedTime t' < Tg.warningTime t0)
  /\ Tg.visible t' = Tg.isActive t'
  /\ Tg.parent t' = Tg.parent t0
  /\ (Tg.isActive t' = false -> Tg_updates more t' = t').
Proof.
  intros Hg He Hwt. cbv zeta.
  set (t := Tg.startTelegraph pos follow t0).
  split; [reflexivity|]. split; [reflexivity|]. split; [reflexivity|].
  assert (Hact : Tg.isActive t = true
                 <-> Tg.elapsedTime t < Tg.warningTime t).
  { change (Tg.elapsedTime t) with 0.
    change (Tg.warningTime t) with (Tg.warningTime t0).
    split; [intros _; exact Hwt | reflexivity]. }
  destruct (plain_telegraph_run steps t Hg He Hwt Hact eq_refl)
    as (H1 & H2 & H3 & H4).
  change (Tg.warningTime t) with (Tg.warningTime t0) in H1.
  change (Tg.parent t) with (Tg.parent t0) in H3.
  split; [exact H1|]. split; [exact H2|]. split; [exact H3|].
  intro Ha. apply Tg_updates_over; assumption.
Qed.

Lemma telegraph_active_for_warningTime_witness :
  let steps := [(1 # 4, None); (1 # 4, Some (vec3 2 0 0))] in
  let t0 := Tg.new melee 2 (1 # 2) in
  let t := Tg.startTelegraph (vec3 1 1 1) (Some 1%nat) t0 in
  let t' := Tg_updates steps t in
  Tg.isActive t = true /\ Tg.visible t = true
  /\ Tg.position t = V3.setY (vec3 1 1 1) 0
  /\ (Tg.isActive t' = true <-> Tg.elapsedTime t' < Tg.warningTime t0)
  /\ Tg.visible t' = Tg.isActive t'
  /\ Tg.parent t' = Tg.parent t0
  /\ (Tg.isActive t' = false -> Tg_updates [(1 # 4, None)] t' = t').
Proof.
  apply (@telegraph_active_for_warningTime (vec3 1 1 1) (Some 1%nat)
           (Tg.new melee 2 (1 # 2))
           [(1 # 4, None); (1 # 4, Some (vec3 2 0 0))] [(1 # 4, None)]).
  - reflexivity.
  - reflexivity.
  - reflexivity.
Defined.


(* ------------------------------------------------------------------ *)
(** ** The telegraph of a landing area *)

(** One [update] of an active telegraph with glow that has not
    completed. *)
Lemma Tg_update_glow (dt : Q) (follow : option Vector3) (t : Tg.t) :
  Tg.isActive t = true -> Tg.hasGlowEffect t = true ->
  Tg.explosionTriggered t = false ->
  let t' := Tg.update dt follow t in
  let done := Num.reached (Tg.elapsedTime t + dt) (Tg.warningTime t) in
  Tg.warningTime t' = Tg.warningTime t
  /\ Tg.glowFadeOutDuration t' = Tg.glowFadeOutDuration t
  /\ Tg.hasGlowEffect t' = true
  /\ Tg.explosionTriggered t' = done
  /\ (done = true -> Tg.explosionTime t' = 0)
  /\ Tg.elapsedTime t' = Tg.elapsedTime t + dt
  /\ Tg.isActive t' = negb done
  /\ Tg.visible t' = Tg.visible t.
Proof.
  intros Ha Hg He. destruct t. cbn in Ha, Hg, He. subst.
  unfold Tg.update. cbn [Tg.isActive negb andb].
  cbv zeta.
  destruct followTarget as [id|], follow as [p|]; cbn;
    match goal with
    | |- context [Num.reached ?x ?w] => destruct (Num.reached x w)
    end; cbn; repeat split; discriminate.
Qed.

(** One [update] of a telegraph whose glow is fading. *)
Lemma Tg_update_fading (dt : Q) (follow : option Vector3) (t : Tg.t) :
  Tg.isActive t = false -> Tg.hasGlowEffect t = true ->
  Tg.explosionTriggered t = true ->
  let t' := Tg.update dt follow t in
  let faded :=
    Num.reached (Tg.explosionTime t + dt) (Tg.glowFadeOutDuration t) in
  Tg.warningTime t' = Tg.warningTime t
  /\ Tg.glowFadeOutDuration t' = Tg.glowFadeOutDuration t
  /\ Tg.hasGlowEffect t' = true
  /\ Tg.explosionTriggered t' = true
  /\ Tg.explosionTime t' = Tg.explosionTime t + dt
  /\ Tg.elapsedTime t' = Tg.elapsedTime t + dt
  /\ Tg.isActive t' = false
  /\ Tg.visible t' = Tg.visible t && negb faded.
Proof.
  intros Ha Hg He. destruct t. cbn in Ha, Hg, He. subst.
  unfold Tg.update. cbn [Tg.isActive Tg.explosionTriggered negb andb].
  cbv zeta.
  destruct followTarget as [id|], follow as [p|]; cbn;
    repeat match goal with
           | |- context [Num.reached ?x ?w] => destruct (Num.reached x w)
           end; cbn; rewrite ?andb_true_r, ?andb_false_r; repeat split.
Qed.

Lemma glow_clocks_update (w fade dt : Q) (f : option Vector3) (t : Tg.t) :
  0 < w -> 0 < fade -> 0 <= dt ->
  glow_clocks w fade t -> glow_clocks w fade (Tg.update dt f t).
Proof.
  intros Hw Hfade Hdt (Hg & Ew & Ef & Hx & Hact & Hvis).
  destruct (Tg.isActive t) eqn:Ha; cbn [negb] in Hx.
  - destruct (Tg_update_glow dt f t Ha Hg Hx)
      as (U1 & U2 & U3 & U4 & U5 & U6 & U7 & U8).
    assert (Hv : Tg.visible t = true) by (apply Hvis; left; reflexivity).
    rewrite Ew in U4, U5, U7.
    unfold glow_clocks. rewrite U1, U2, U3, U4, U6, U7, U8, Hv.
    refine (conj eq_refl (conj Ew (conj Ef (conj _ (conj _ _))))).
    + rewrite negb_involutive. reflexivity.
    + rewrite negb_true_iff. apply reached_pending, Hw.
    + split; [|reflexivity]. intros _.
      destruct (Num.reached (Tg.elapsedTime t + dt) w) eqn:Hd.
      * right. rewrite (U5 eq_refl). exact Hfade.
      * left. reflexivity.
  - destruct (Tg_update_fading dt f t Ha Hg Hx)
      as (U1 & U2 & U3 & U4 & U5 & U6 & U7 & U8).
    rewrite Ef in U8.
    assert (Hel : ~ Tg.elapsedTime t < w).
    { intro L. apply Hact in L. discriminate. }
    unfold glow_clocks. rewrite U1, U2, U3, U4, U5, U6, U7, U8.
    refine (conj eq_refl (conj Ew (conj Ef (conj eq_refl (conj _ _))))).
    + split; [discriminate|]. intro L. exfalso. apply Hel. lra.
    + rewrite andb_true_iff, negb_true_iff.
      rewrite (reached_pending _ _ Hfade). rewrite Hvis.
      split.
      * intros (_ & L). right. exact L.
      * intros [C | L]; [discriminate|].
        split; [right; lra | exact L].
Qed.

Lemma glow_clocks_run (w fade : Q) (steps : list (Q * option Vector3)) :
  0 < w -> 0 < fade ->
  Forall (fun dt => 0 <= dt) (step_times steps) ->
  forall t, glow_clocks w fade t -> glow_clocks w fade (Tg_updates steps t).
Proof.
  intros Hw Hfade.
  induction steps as [|[dt f] rest IH]; intros Hpos t Ht; [exact Ht|].
  cbn [step_times map fst] in Hpos. inversion Hpos as [|? ? Hdt Hrest]; subst.
  cbn [Tg_updates]. apply (IH Hrest).
  apply glow_clocks_update; assumption.
Qed.

(** X15.  The telegraph of a landing area (with glow), started with a
    positive [warningTime] and updated forward in time.  It is active
    exactly while its clock [elapsedTime] reads less than [warningTime];
    the update that completes it triggers the glow explosion and leaves
    it visible; from then on it is visible exactly while the second
    clock, [explosionTime], reads less than [glowFadeOutDuration].  Once
    completed it is never active again, and once hidden never visible
    again. *)
Theorem area_telegraph_fades_after_completion
        (pos : Vector3) (follow : option nat) (t0 : Tg.t)
        (steps more : list (Q * option Vector3)) :
  Tg.hasGlowEffect t0 = true ->
  Tg.explosionTriggered t0 = false ->
  0 < Tg.warningTime t0 ->
  0 < Tg.glowFadeOutDuration t0 ->
  Forall (fun dt => 0 <= dt) (step_times steps) ->
  let t' := Tg_updates steps (Tg.startTelegraph pos follow t0) in
  (Tg.isActive t' = true <-> Tg.elapsedTime t' < Tg.warningTime t0)
  /\ Tg.explosionTriggered t' = negb (Tg.isActive t')
  /\ (Tg.visible t' = true
      <-> Tg.isActive t' = true
          \/ Tg.explosionTime t' < Tg.glowFadeOutDuration t0)
  /\ (Tg.isActive t' = false -> Tg.isActive (Tg_updates more t') = false)
  /\ (Tg.visible t' = false -> Tg.visible (Tg_updates more t') = false).
Proof.
  intros Hg He Hw Hfade Hsteps. cbv zeta.
  set (t := Tg.startTelegraph pos follow t0).
  assert (Ht : glow_clocks (Tg.warningTime t0) (Tg.glowFadeOutDuration t0) t).
  { unfold glow_clocks.
    change (Tg.hasGlowEffect t) with (Tg.hasGlowEffect t0).
    change (Tg.explosionTriggered t) with (Tg.explosionTriggered t0).
    change (Tg.isActive t) with true.
    change (Tg.visible t) with true.
    change (Tg.elapsedTime t) with 0.
    refine (conj Hg (conj eq_refl (conj eq_refl (conj He (conj _ _))))).
    - split; [intros _; exact Hw | reflexivity].
    - split; [left|]; reflexivity. }
  destruct (glow_clocks_run _ _ steps Hw Hfade Hsteps t Ht)
    as (_ & _ & _ & Hx & Hact & Hvis).
  split; [exact Hact|]. split; [exact Hx|]. split; [exact Hvis|].
  split; [apply Tg_updates_stay_inactive | apply Tg_updates_stay_hidden].
Qed.

Lemma area_telegraph_fades_after_completion_witness :
  let t0 := Tg.new area (83 # 100) (3 # 2) in
  let steps := [(1, None); (1, None); (1 # 2, None); (1 # 4, None)] in
  let t' := Tg_updates steps (Tg.startTelegraph (vec3 1 0 1) None t0) in
  (Tg.isActive t' = true <-> Tg.elapsedTime t' < Tg.warningTime t0)
  /\ Tg.explosionTriggered t' = negb (Tg.isActive t')
  /\ (Tg.visible t' = true
      <-> Tg.isActive t' = true
          \/ Tg.explosionTime t' < Tg.glowFadeOutDuration t0)
  /\ (Tg.isActive t' = false
      -> Tg.isActive (Tg_updates [(1 # 2, None)] t') = false)
  /\ (Tg.visible t' = false
      -> Tg.visible (Tg_updates [(1 # 2, None)] t') = false).
Proof.
  apply (@area_telegraph_fades_after_completion (vec3 1 0 1) None
           (Tg.new area (83 # 100) (3 # 2))
           [(1, None); (1, None); (1 # 2, None); (1 # 4, None)]
           [(1 # 2, None)]);
    try reflexivity.
  repeat constructor; vm_compute; discriminate.
Defined.


(* ------------------------------------------------------------------ *)
(** ** The update of the telegraph manager *)

(** Whether [cleanupCancelled] splices the telegraph out, and whether
    the loop of [update] keeps it. *)
Lemma cleanup_loop_filter (store : list Tg.t) (l : list nat) :
  TelegraphManager.cleanup_loop store l
  = filter (fun id => match nth_error store id with
                      | Some t => negb (negb (Tg.isActive t)
                                        && negb (Tg.parent t))
                      | None => true
                      end) l.
Proof.
  induction l as [|id rest IH]; [reflexivity|].
  cbn [TelegraphManager.cleanup_loop filter]. rewrite IH.
  destruct (nth_error store id) as [t|]; [|reflexivity].
  destruct (negb (Tg.isActive t) && negb (Tg.parent t)); reflexivity.
Qed.

Lemma update_loop_frame (dt : Q) (f : nat -> option Vector3) (l : list nat) :
  forall store,
    let r := TelegraphManager.update_loop dt f l store in
    length (snd r) = length store
    /\ (forall id, ~ In id l -> nth_error (snd r) id = nth_error store id)
    /\ (forall id, In id (fst r) -> In id l).
Proof.
  induction l as [|id rest IH]; intro store; cbv zeta.
  { cbn. auto. }
  cbn [TelegraphManager.update_loop].
  destruct (IH store) as (I1 & I2 & I3).
  destruct (TelegraphManager.update_loop dt f rest store) as [rest' store1].
  cbn [fst snd] in *. cbv zeta.
  set (step := fun t : Tg.t => Tg.update dt _ t).
  set (store2 := list_alter step id store1).
  assert (L2 : length store2 = length store)
    by (subst store2; rewrite length_list_alter; exact I1).
  assert (N2 : forall j, ~ In j (id :: rest) ->
                         nth_error store2 j = nth_error store j).
  { intros j Hj. subst store2.
    rewrite nth_error_list_alter_neq
      by (intro E; apply Hj; left; exact E).
    apply I2. intro Hin. apply Hj. right. exact Hin. }
  destruct (nth_error store2 id) as [t|].
  - destruct (negb (Tg.isActive t) && negb (Tg.visible t)); cbn [fst snd].
    + split; [rewrite length_list_alter; exact L2|].
      split.
      * intros j Hj. rewrite nth_error_list_alter_neq
          by (intro E; apply Hj; left; exact E).
        apply N2. exact Hj.
      * intros j Hj. right. apply I3. exact Hj.
    + split; [exact L2|]. split; [exact N2|].
      intros j [<- | Hj]; [left; reflexivity | right; apply I3; exact Hj].
  - cbn [fst snd]. split; [exact L2|]. split; [exact N2|].
    intros j [<- | Hj]; [left; reflexivity | right; apply I3; exact Hj].
Qed.

Lemma update_loop_kept (dt : Q) (f : nat -> option Vector3) (l : list nat) :
  forall store,
    NoDup l ->
    let r := TelegraphManager.update_loop dt f l store in
    fst r = filter (fun id => match nth_error (snd r) id with
                              | Some t => Tg.isActive t || Tg.visible t
                              | None => true
                              end) l.
Proof.
  induction l as [|id rest IH]; intros store Hnd; cbv zeta; [reflexivity|].
  inversion Hnd as [|? ? Hnotin Hnd']; subst.
  cbn [TelegraphManager.update_loop].
  specialize (IH store Hnd'). cbv zeta in IH.
  destruct (update_loop_frame dt f rest store) as (_ & _ & I3).
  destruct (TelegraphManager.update_loop dt f rest store) as [rest' store1].
  cbn [fst snd] in *. cbv zeta.
  set (step := fun t : Tg.t => Tg.update dt _ t).
  set (store2 := list_alter step id store1).
  assert (Hrest : forall store3,
             (forall j, j <> id -> nth_error store3 j = nth_error store1 j) ->
             filter (fun j => match nth_error store3 j with
                              | Some t => Tg.isActive t || Tg.visible t
                              | None => true
                              end) rest = rest').
  { intros store3 H3. rewrite IH. apply filter_ext_in.
    intros j Hj. rewrite H3; [reflexivity|].
    intro E. subst j. exact (Hnotin Hj). }
  destruct (nth_error store2 id) as [t|] eqn:Et.
  - destruct (negb (Tg.isActive t) && negb (Tg.visible t)) eqn:Eg;
      cbn [fst snd filter].
    + rewrite nth_error_list_alter_eq, Et. cbn [option_map].
      change (Tg.isActive (Tg.set_parent false t)) with (Tg.isActive t).
      change (Tg.visible (Tg.set_parent false t)) with (Tg.visible t).
      rewrite <- negb_orb in Eg. apply negb_true_iff in Eg. rewrite Eg.
      symmetry. apply Hrest. intros j Hj.
      rewrite nth_error_list_alter_neq by congruence.
      subst store2. apply nth_error_list_alter_neq. congruence.
    + rewrite Et. rewrite <- negb_orb in Eg. apply negb_false_iff in Eg.
      rewrite Eg. f_equal. symmetry. apply Hrest. intros j Hj.
      subst store2. apply nth_error_list_alter_neq. congruence.
  - cbn [fst snd filter]. rewrite Et. f_equal. symmetry. apply Hrest.
    intros j Hj. subst store2. apply nth_error_list_alter_neq. congruence.
Qed.

Lemma NoDup_filter (keep : nat -> bool) (l : list nat) :
  NoDup l -> NoDup (filter keep l).
Proof.
  induction 1 as [|x l Hx Hl IH]; cbn [filter]; [constructor|].
  destruct (keep x); [|exact IH].
  constructor; [|exact IH]. intro Hin. apply filter_In in Hin.
  exact (Hx (proj1 Hin)).
Qed.

Lemma filter_twice (g h : nat -> bool) (l : list nat) :
  filter h (filter g l) = filter (fun x => g x && h x) l.
Proof.
  induction l as [|x t IH]; [reflexivity|].
  cbn [filter]. destruct (g x); cbn [andb filter]; [|exact IH].
  destruct (h x); [f_equal|]; exact IH.
Qed.

(** A cancelled telegraph (inactive and detached, as [cancel] leaves
    it) is dropped by the next [update], which does not touch it. *)
Lemma update_drops_cancelled (dt : Q) (f : nat -> option Vector3)
      (m0 : TelegraphManager) (id : nat) (t : Tg.t) :
  nth_error (tm_store m0) id = Some t ->
  Tg.isActive t = false -> Tg.parent t = false ->
  ~ In id (activeTelegraphs (TelegraphManager.update dt f m0))
  /\ nth_error (tm_store (TelegraphManager.update dt f m0)) id = Some t.
Proof.
  intros Ht Ha Hp.
  unfold TelegraphManager.update, TelegraphManager.cleanupCancelled.
  cbv zeta. cbn [activeTelegraphs tm_store].
  rewrite cleanup_loop_filter.
  set (l := filter _ (activeTelegraphs m0)).
  assert (Hnot : ~ In id l).
  { subst l. intro Hin. apply filter_In in Hin. destruct Hin as (_ & Hk).
    rewrite Ht, Ha, Hp in Hk. discriminate. }
  destruct (update_loop_frame dt f l (tm_store m0)) as (_ & F2 & F3).
  destruct (TelegraphManager.update_loop dt f l (tm_store m0))
    as [l' store'].
  cbn [fst snd activeTelegraphs tm_store] in *.
  split; [intro Hin; exact (Hnot (F3 id Hin))|].
  rewrite (F2 id Hnot). exact Ht.
Qed.

Lemma cancel_cancelled (id : nat) (m : TelegraphManager) (t : Tg.t) :
  nth_error (tm_store m) id = Some t ->
  nth_error (tm_store (TelegraphManager.cancel id m)) id
  = Some (Tg.cancel t)
  /\ Tg.isActive (Tg.cancel t) = false /\ Tg.parent (Tg.cancel t) = false.
Proof.
  intro Ht. split.
  - unfold TelegraphManager.cancel. cbn [tm_store].
    rewrite nth_error_list_alter_eq, Ht. reflexivity.
  - unfold Tg.cancel. cbv zeta.
    destruct (Tg.parent (Tg.set_elapsedTime 0 _)) eqn:E;
      split; try reflexivity; exact E.
Qed.

(** X16.  [TelegraphManager.update] on a manager that lists no telegraph
    twice: it creates no object and lists none that was not listed; the
    telegraphs it keeps stay in their order and are each active or
    visible after their update; it never drops a telegraph that is
    still active; it does not touch an object that is not listed; and a
    cancelled telegraph (inactive and detached, as [cancel] leaves it)
    is dropped without being updated. *)
Theorem telegraph_manager_update (dt : Q) (f : nat -> option Vector3)
        (m : TelegraphManager) :
  tm_ok m ->
  let m' := TelegraphManager.update dt f m in
  tm_ok m'
  /\ length (tm_store m') = length (tm_store m)
  /\ (exists keep, activeTelegraphs m' = filter keep (activeTelegraphs m))
  /\ (forall id t', In id (activeTelegraphs m') ->
                    nth_error (tm_store m') id = Some t' ->
                    Tg.isActive t' = true \/ Tg.visible t' = true)
  /\ (forall id t', In id (activeTelegraphs m) ->
                    ~ In id (activeTelegraphs m') ->
                    nth_error (tm_store m') id = Some t' ->
                    Tg.isActive t' = false)
  /\ (forall id, ~ In id (activeTelegraphs m) ->
                 nth_error (tm_store m') id = nth_error (tm_store m) id)
  /\ (forall id t, nth_error (tm_store m) id = Some t ->
                   Tg.isActive t = false -> Tg.parent t = false ->
                   ~ In id (activeTelegraphs m')
                   /\ nth_error (tm_store m') id = Some t)
  /\ (forall id t, nth_error (tm_store m) id = Some t ->
                   let m2 := TelegraphManager.update dt f
                               (TelegraphManager.cancel id m) in
                   ~ In id (activeTelegraphs m2)
                   /\ nth_error (tm_store m2) id = Some (Tg.cancel t)).
Proof.
  intros (Hnd & Hval). cbv zeta.
  pose proof (update_drops_cancelled dt f) as Hcancelled.
  unfold TelegraphManager.update, TelegraphManager.cleanupCancelled.
  cbv zeta. cbn [activeTelegraphs tm_store].
  rewrite cleanup_loop_filter.
  set (alive := fun id => match nth_error (tm_store m) id with
                          | Some t => negb (negb (Tg.isActive t)
                                            && negb (Tg.parent t))
                          | None => true
                          end).
  set (l := filter alive (activeTelegraphs m)).
  assert (Hndl : NoDup l) by (apply NoDup_filter; exact Hnd).
  destruct (update_loop_frame dt f l (tm_store m)) as (F1 & F2 & F3).
  pose proof (update_loop_kept dt f l (tm_store m) Hndl) as Hk.
  cbv zeta in Hk.
  destruct (TelegraphManager.update_loop dt f l (tm_store m))
    as [l' store'] eqn:El.
  cbn [fst snd activeTelegraphs tm_store] in *.
  assert (Hin_l : forall id, In id l' -> In id (activeTelegraphs m)).
  { intros id Hin. apply F3 in Hin. subst l. apply filter_In in Hin.
    exact (proj1 Hin). }
  split.
  { unfold tm_ok. cbn [tm_store activeTelegraphs].
    split; [rewrite Hk; apply NoDup_filter; exact Hndl|].
    intros id Hin. rewrite F1. apply Hval. apply Hin_l. exact Hin. }
  split; [exact F1|].
  split.
  { eexists. rewrite Hk. subst l. apply filter_twice. }
  split.
  { intros id t' Hin Ht. rewrite Hk in Hin. apply filter_In in Hin.
    destruct Hin as (_ & Hkeep). rewrite Ht in Hkeep.
    apply orb_true_iff in Hkeep. exact Hkeep. }
  split.
  { intros id t' Hin Hnot Ht.
    destruct (alive id) eqn:Ea.
    - assert (Hl : In id l) by (subst l; apply filter_In; auto).
      destruct (Tg.isActive t') eqn:Eact; [|reflexivity].
      exfalso. apply Hnot. rewrite Hk. apply filter_In.
      split; [exact Hl|]. rewrite Ht, Eact. reflexivity.
    - assert (Hl : ~ In id l).
      { subst l. intro H. apply filter_In in H. destruct H as (_ & H).
        congruence. }
      rewrite (F2 id Hl) in Ht. subst alive. cbv beta in Ea.
      rewrite Ht in Ea. apply negb_false_iff in Ea.
      apply andb_true_iff in Ea. destruct Ea as (Ea & _).
      apply negb_true_iff in Ea. exact Ea. }
  split.
  { intros id Hnot. apply F2. intro Hin. apply Hnot.
    subst l. apply filter_In in Hin. exact (proj1 Hin). }
  split.
  { intros id t Ht Ha Hp.
    pose proof (Hcancelled m id t Ht Ha Hp) as H.
    unfold TelegraphManager.update, TelegraphManager.cleanupCancelled in H.
    cbv zeta in H. cbn [activeTelegraphs tm_store] in H.
    rewrite cleanup_loop_filter in H. fold alive in H. fold l in H.
    rewrite El in H. exact H. }
  intros id t Ht. cbv zeta.
  destruct (cancel_cancelled id m t Ht) as (C1 & C2 & C3).
  exact (Hcancelled _ id _ C1 C2 C3).
Qed.

Lemma telegraph_manager_update_witness :
  let m := snd (TelegraphManager.createTelegraph
                  melee (vec3 1 1 1) 2 (1 # 2) None TelegraphManager.new) in
  let dt := 1 # 4 in
  let f := fun _ : nat => @None Vector3 in
  let m' := TelegraphManager.update dt f m in
  tm_ok m'
  /\ length (tm_store m') = length (tm_store m)
  /\ (exists keep, activeTelegraphs m' = filter keep (activeTelegraphs m))
  /\ (forall id t', In id (activeTelegraphs m') ->
                    nth_error (tm_store m') id = Some t' ->
                    Tg.isActive t' = true \/ Tg.visible t' = true)
  /\ (forall id t', In id (activeTelegraphs m) ->
                    ~ In id (activeTelegraphs m') ->
                    nth_error (tm_store m') id = Some t' ->
                    Tg.isActive t' = false)
  /\ (forall id, ~ In id (activeTelegraphs m) ->
                 nth_error (tm_store m') id = nth_error (tm_store m) id)
  /\ (forall id t, nth_error (tm_store m) id = Some t ->
                   Tg.isActive t = false -> Tg.parent t = false ->
                   ~ In id (activeTelegraphs m')
                   /\ nth_error (tm_store m') id = Some t)
  /\ (forall id t, nth_error (tm_store m) id = Some t ->
                   let m2 := TelegraphManager.update dt f
                               (TelegraphManager.cancel id m) in
                   ~ In id (activeTelegraphs m2)
                   /\ nth_error (tm_store m2) id = Some (Tg.cancel t)).
Proof.
  apply (@telegraph_manager_update (1 # 4) (fun _ => None)
           (snd (TelegraphManager.createTelegraph
                   melee (vec3 1 1 1) 2 (1 # 2) None TelegraphManager.new))).
  split.
  - cbn. constructor; [intros []|constructor].
  - cbn. intros id [<- | []]. lia.
Defined.


(* ------------------------------------------------------------------ *)
(** ** Creating telegraphs and cancelling them all *)

Lemma cancel_fold (l : list nat) :
  forall store j,
    NoDup l ->
    nth_error (fold_left (fun st id => list_alter Tg.cancel id st) l store) j
    = if existsb (Nat.eqb j) l
      then option_map Tg.cancel (nth_error store j)
      else nth_error store j.
Proof.
  induction l as [|x rest IH]; intros store j Hnd; [reflexivity|].
  inversion Hnd as [|? ? Hx Hrest]; subst.
  cbn [fold_left existsb]. rewrite (IH _ j Hrest).
  destruct (Nat.eqb j x) eqn:E; cbn [orb].
  - apply Nat.eqb_eq in E. subst j.
    assert (Hm : existsb (Nat.eqb x) rest = false).
    { destruct (existsb (Nat.eqb x) rest) eqn:Em; [|reflexivity].
      apply existsb_exists in Em. destruct Em as (y & Hy & Ey).
      apply Nat.eqb_eq in Ey. subst y. contradiction. }
    rewrite Hm. apply nth_error_list_alter_eq.
  - apply Nat.eqb_neq in E.
    rewrite nth_error_list_alter_neq by congruence. reflexivity.
Qed.

Lemma length_cancel_fold (l : list nat) :
  forall store,
    length (fold_left (fun st id => list_alter Tg.cancel id st) l store)
    = length store.
Proof.
  induction l as [|x rest IH]; intro store; [reflexivity|].
  cbn [fold_left]. rewrite IH. apply length_list_alter.
Qed.

(** X17.  On a manager that lists no telegraph twice, [createTelegraph]
    makes one new object, lists it last and leaves the others as they
    are, so [getActiveCount] goes up by one; [cancelAll] empties the
    list, brings [getActiveCount] to 0 and cancels exactly the
    telegraphs that were listed. *)
Theorem telegraph_create_and_cancelAll
        (ty : AttackType) (pos : Vector3) (rng wt : Q)
        (follow : option nat) (m : TelegraphManager) :
  tm_ok m ->
  let id := fst (TelegraphManager.createTelegraph ty pos rng wt follow m) in
  let m1 := snd (TelegraphManager.createTelegraph ty pos rng wt follow m) in
  tm_ok m1
  /\ ~ In id (activeTelegraphs m)
  /\ activeTelegraphs m1 = activeTelegraphs m ++ [id]
  /\ (forall j, j <> id ->
                nth_error (tm_store m1) j = nth_error (tm_store m) j)
  /\ TelegraphManager.getActiveCount m1
     = S (TelegraphManager.getActiveCount m)
  /\ tm_ok (TelegraphManager.cancelAll m)
  /\ activeTelegraphs (TelegraphManager.cancelAll m) = []
  /\ TelegraphManager.getActiveCount (TelegraphManager.cancelAll m) = 0%nat
  /\ (forall j,
        nth_error (tm_store (TelegraphManager.cancelAll m)) j
        = if existsb (Nat.eqb j) (activeTelegraphs m)
          then option_map Tg.cancel (nth_error (tm_store m) j)
          else nth_error (tm_store m) j).
Proof.
  intros (Hnd & Hval). cbv zeta.
  unfold TelegraphManager.createTelegraph. cbv zeta. cbn [fst snd].
  set (t := Tg.startTelegraph pos follow (Tg.set_parent true (Tg.new ty rng wt))).
  assert (Hfresh : ~ In (length (tm_store m)) (activeTelegraphs m)).
  { intro Hin. apply Hval in Hin. lia. }
  split.
  { unfold tm_ok. cbn [tm_store activeTelegraphs]. split.
    - apply NoDup_app; [exact Hnd | repeat constructor; intros [] |].
      intros x Hx [<- | []]. exact (Hfresh Hx).
    - intros j Hj. rewrite length_app. cbn [length].
      apply in_app_or in Hj. destruct Hj as [Hj | [<- | []]];
        [apply Hval in Hj|]; lia. }
  split; [exact Hfresh|].
  split; [reflexivity|].
  split.
  { intros j Hj. cbn [tm_store].
    destruct (Nat.lt_ge_cases j (length (tm_store m))) as [L | L].
    - apply nth_error_app1. exact L.
    - rewrite (proj2 (nth_error_None _ _)) by (rewrite length_app; cbn; lia).
      symmetry. apply nth_error_None. exact L. }
  split.
  { unfold TelegraphManager.getActiveCount. cbn [tm_store activeTelegraphs].
    rewrite filter_app, length_app. cbn [filter].
    rewrite nth_error_app2 by apply Nat.le_refl.
    rewrite Nat.sub_diag. cbn [nth_error].
    change (Tg.isActive t) with true. cbn [length].
    rewrite Nat.add_1_r. f_equal. f_equal.
    apply filter_ext_in. intros j Hj.
    rewrite nth_error_app1 by (apply Hval; exact Hj). reflexivity. }
  split.
  { unfold tm_ok, TelegraphManager.cancelAll. cbn [activeTelegraphs].
    split; [constructor | intros j []]. }
  split; [reflexivity|]. split; [reflexivity|].
  intro j. unfold TelegraphManager.cancelAll. cbn [tm_store].
  apply cancel_fold. exact Hnd.
Qed.

Lemma telegraph_create_and_cancelAll_witness :
  let m := TelegraphManager.new in
  let id := fst (TelegraphManager.createTelegraph
                   melee (vec3 1 1 1) 2 (1 # 2) None m) in
  let m1 := snd (TelegraphManager.createTelegraph
                   melee (vec3 1 1 1) 2 (1 # 2) None m) in
  tm_ok m1
  /\ ~ In id (activeTelegraphs m)
  /\ activeTelegraphs m1 = activeTelegraphs m ++ [id]
  /\ (forall j, j <> id ->
                nth_error (tm_store m1) j = nth_error (tm_store m) j)
  /\ TelegraphManager.getActiveCount m1
     = S (TelegraphManager.getActiveCount m)
  /\ tm_ok (TelegraphManager.cancelAll m)
  /\ activeTelegraphs (TelegraphManager.cancelAll m) = []
  /\ TelegraphManager.getActiveCount (TelegraphManager.cancelAll m) = 0%nat
  /\ (forall j,
        nth_error (tm_store (TelegraphManager.cancelAll m)) j
        = if existsb (Nat.eqb j) (activeTelegraphs m)
          then option_map Tg.cancel (nth_error (tm_store m) j)
          else nth_error (tm_store m) j).
Proof.
  apply (@telegraph_create_and_cancelAll melee (vec3 1 1 1) 2 (1 # 2) None
           TelegraphManager.new).
  split; [constructor | intros id []].
Defined.


(* ------------------------------------------------------------------ *)
(** ** The launch of a fireball *)

Lemma min_cases (a b : Q) :
  (a <= b /\ Num.min a b = a) \/ (b < a /\ Num.min a b = b).
Proof.
  unfold Num.min. destruct (Num.leb a b) eqn:E.
  - left. split; [apply leb_le; exact E | reflexivity].
  - right. split; [apply leb_false; exact E | reflexivity].
Qed.

Lemma max_ge_r (a b : Q) : b <= Num.max a b.
Proof.
  unfold Num.max. destruct (Num.leb a b) eqn:E.
  - apply Qle_refl.
  - apply leb_false in E. lra.
Qed.

(** The fireball right after [launch]. *)
Lemma Fireball_launch_fireball (target : Vector3) (id : nat) (s : Sys)
      (fb : Fb.t) :
  FireballManager.fireball id s = Some fb ->
  exists fb',
    FireballManager.fireball id (FireballManager.Fireball_launch target id s)
    = Some fb'
    /\ Fb.isActive fb' = true /\ Fb.hasExploded fb' = false
    /\ Fb.visible fb' = true
    /\ Fb.lifetime fb' = 0
    /\ Fb.targetPosition fb' = target
    /\ Fb.position fb' = V3.setY target (Fb.startY fb)
    /\ Fb.velocity fb' = vec3 0 (- Fb.fallSpeed fb) 0
    /\ Fb.maxLifetime fb'
       = Num.max ((Fb.startY fb - 0) / Fb.fallSpeed fb + 1) 7
    /\ Fb.fallSpeed fb' = Fb.fallSpeed fb /\ Fb.startY fb' = Fb.startY fb
    /\ Fb.telegraph fb' = Fb.telegraph fb.
Proof.
  intro E. unfold FireballManager.Fireball_launch. rewrite E. cbv zeta.
  match goal with
  | |- context [FireballManager.on_fireball ?f id s] =>
      exists (f fb); split
  end.
  - destruct (Fb.telegraphManager fb);
      [change (FireballManager.fireball id (set_timers ?t ?x))
         with (FireballManager.fireball id x)|];
      rewrite fireball_on_fireball, E; reflexivity.
  - destruct fb. cbn. repeat split.
Qed.


(** X18.  [launch] puts the fireball in flight at height [startY] above
    the target with lifetime 0, falling at [fallSpeed], and gives it a
    [maxLifetime] of at least 7 s and at least one second more than the
    fall takes.  With a telegraph manager it schedules one telegraph:
    the delay and the duration of the telegraph add up to the time of
    the fall, the duration is at most 1.5 s, and the delay is 0 when
    the fall is shorter than that; without one it schedules nothing. *)
Theorem fireball_launch_timing (target : Vector3) (id : nat)
        (s : Sys) (fb : Fb.t) :
  FireballManager.fireball id s = Some fb ->
  0 < Fb.fallSpeed fb -> 0 <= Fb.startY fb ->
  let s' := FireballManager.Fireball_launch target id s in
  let fall := Fb.startY fb / Fb.fallSpeed fb in
  (exists fb',
     FireballManager.fireball id s' = Some fb'
     /\ Fb.isActive fb' = true /\ Fb.hasExploded fb' = false
     /\ Fb.lifetime fb' = 0
     /\ Fb.targetPosition fb' = target
     /\ Fb.position fb' = V3.setY target (Fb.startY fb)
     /\ Fb.velocity fb' = vec3 0 (- Fb.fallSpeed fb) 0
     /\ 7 <= Fb.maxLifetime fb' /\ fall + 1 <= Fb.maxLifetime fb')
  /\ (if Fb.telegraphManager fb
      then exists delay duration,
             timers s' = timers s ++ [mkTimer id delay duration]
             /\ delay + duration == fall
             /\ 0 <= delay /\ 0 <= duration /\ duration <= 3 # 2
             /\ (fall <= 3 # 2 -> delay == 0)
      else timers s' = timers s)
  /\ telegraphs s' = telegraphs s /\ combat s' = combat s
  /\ player s' = player s.
Proof.
  intros E Hfs Hy. cbv zeta.
  assert (Hfall : (Fb.startY fb - 0) / Fb.fallSpeed fb
                  == Fb.startY fb / Fb.fallSpeed fb) by (field; lra).
  assert (Hnn : 0 <= Fb.startY fb / Fb.fallSpeed fb)
    by (apply Qle_shift_div_l; [exact Hfs | lra]).
  split.
  { destruct (Fireball_launch_fireball target id s fb E)
      as (fb' & H1 & H2 & H3 & _ & H5 & H6 & H7 & H8 & H9 & _).
    exists fb'. repeat (split; [assumption|]).
    rewrite H9. split; [apply max_ge_r|].
    rewrite <- Hfall. apply max_ge_l. }
  unfold FireballManager.Fireball_launch. rewrite E. cbv zeta.
  destruct (Fb.telegraphManager fb).
  - split; [|repeat split].
    eexists _, _. split; [reflexivity|].
    set (T := (Fb.startY fb - 0) / Fb.fallSpeed fb) in *.
    destruct (min_cases (3 # 2) T) as [(L & ->) | (L & ->)].
    + repeat split; lra.
    + repeat split; lra.
  - repeat split.
Qed.

Lemma fireball_launch_timing_witness :
  let s := Sample.world in
  let target := vec3 2 0 3 in
  let fb := nth 14 (fm_store (fireballs s)) (Fb.new 6 5 12) in
  let s' := FireballManager.Fireball_launch target 14 s in
  let fall := Fb.startY fb / Fb.fallSpeed fb in
  (exists fb',
     FireballManager.fireball 14 s' = Some fb'
     /\ Fb.isActive fb' = true /\ Fb.hasExploded fb' = false
     /\ Fb.lifetime fb' = 0
     /\ Fb.targetPosition fb' = target
     /\ Fb.position fb' = V3.setY target (Fb.startY fb)
     /\ Fb.velocity fb' = vec3 0 (- Fb.fallSpeed fb) 0
     /\ 7 <= Fb.maxLifetime fb' /\ fall + 1 <= Fb.maxLifetime fb')
  /\ (if Fb.telegraphManager fb
      then exists delay duration,
             timers s' = timers s ++ [mkTimer 14 delay duration]
             /\ delay + duration == fall
             /\ 0 <= delay /\ 0 <= duration /\ duration <= 3 # 2
             /\ (fall <= 3 # 2 -> delay == 0)
      else timers s' = timers s)
  /\ telegraphs s' = telegraphs s /\ combat s' = combat s
  /\ player s' = player s.
Proof.
  apply (@fireball_launch_timing (vec3 2 0 3) 14 Sample.world
           (nth 14 (fm_store (fireballs Sample.world)) (Fb.new 6 5 12))).
  - vm_compute. reflexivity.
  - vm_compute. reflexivity.
  - vm_compute. discriminate.
Defined.

(* ------------------------------------------------------------------ *)
(** ** The fall of a fireball *)

Lemma div_lt_mul (x y fs : Q) : 0 < fs -> (x < y / fs <-> fs * x < y).
Proof.
  intro Hfs. assert (E : y / fs * fs == y) by (field; lra).
  split; intro H.
  - rewrite <- E. rewrite (Qmult_comm fs x).
    apply Qmult_lt_compat_r; assumption.
  - apply Qlt_shift_div_l; [exact Hfs|]. rewrite Qmult_comm. exact H.
Qed.

Lemma div_le_mul (x y fs : Q) : 0 < fs -> (y / fs <= x <-> y <= fs * x).
Proof.
  intro Hfs. pose proof (div_lt_mul x y fs Hfs) as H.
  split; intro L.
  - apply Qnot_lt_le. intro C. apply H in C. lra.
  - apply Qnot_lt_le. intro C. apply H in C. lra.
Qed.

Section Fall.
Context {M : MathLib}.

Lemma removeFireball_fireball (id : nat) (s : Sys) :
  FireballManager.fireball id (FireballManager.removeFireball id s)
  = option_map (fun fb => Fb.set_visible false (Fb.set_isActive false fb))
               (FireballManager.fireball id s).
Proof.
  unfold FireballManager.removeFireball.
  pose proof (fireball_on_fireball
                (fun fb => Fb.set_visible false (Fb.set_isActive false fb))
                id s) as H.
  set (s1 := FireballManager.on_fireball _ id s) in *.
  destruct (FireballManager.fireball id s1) as [fb1|] eqn:E1;
    [|rewrite E1; exact H].
  destruct (Fb.manager fb1); [|rewrite E1; exact H].
  rewrite <- H, <- E1.
  unfold FireballManager.fireball, FireballManager.returnFireballToPool.
  cbn [fireballs set_fireballs].
  destruct (indexOf id (activeFireballs (fireballs s1))); reflexivity.
Qed.

(** The fireball after its ground impact. *)
Lemma triggerGroundImpact_fireball (id : nat) (s : Sys) (fb : Fb.t) :
  FireballManager.fireball id s = Some fb ->
  Fb.hasExploded fb = false ->
  exists fb',
    FireballManager.fireball id (FireballManager.triggerGroundImpact id s)
    = Some fb'
    /\ Fb.isActive fb' = false /\ Fb.hasExploded fb' = true
    /\ Fb.visible fb' = false.
Proof.
  intros E Hx. unfold FireballManager.triggerGroundImpact. rewrite E, Hx.
  set (s1 := FireballManager.on_fireball (Fb.set_hasExploded true) id s).
  assert (E1 : FireballManager.fireball id s1
               = Some (Fb.set_hasExploded true fb))
    by (subst s1; rewrite fireball_on_fireball, E; reflexivity).
  destruct (removeFireballTelegraph_frame id s1)
    as (_ & _ & _ & _ & _ & _ & Hfb).
  destruct (Hfb _ E1) as (fb2 & E2 & _ & Hx2).
  set (s2 := FireballManager.removeFireballTelegraph id s1) in *.
  set (s3 := if Fb.onComplete fb
             then FireballManager.handleFireballExplosion id s2 else s2).
  assert (E3 : FireballManager.fireball id s3 = Some fb2).
  { subst s3. destruct (Fb.onComplete fb); [|exact E2].
    unfold FireballManager.fireball.
    rewrite (proj1 (handleFireballExplosion_frame id s2)). exact E2. }
  exists (Fb.set_visible false (Fb.set_isActive false fb2)).
  rewrite removeFireball_fireball, E3.
  split; [reflexivity|]. split; [reflexivity|].
  split; [exact Hx2 | reflexivity].
Qed.

Lemma explode_fireball (id : nat) (s : Sys) (fb : Fb.t) :
  FireballManager.fireball id s = Some fb ->
  Fb.hasExploded fb = false ->
  exists fb',
    FireballManager.fireball id (FireballManager.explode id s) = Some fb'
    /\ Fb.isActive fb' = false /\ Fb.hasExploded fb' = true
    /\ Fb.visible fb' = false.
Proof.
  intros E Hx. unfold FireballManager.explode. rewrite E, Hx.
  destruct (triggerGroundImpact_fireball id s fb E Hx)
    as (fb1 & E1 & _ & H2 & _).
  exists (Fb.set_visible false (Fb.set_isActive false fb1)).
  rewrite removeFireball_fireball, E1.
  split; [reflexivity|]. split; [reflexivity|].
  split; [exact H2 | reflexivity].
Qed.

Lemma Fireball_updates_landed (dts : list Q) (id : nat) (s : Sys)
      (fb : Fb.t) :
  FireballManager.fireball id s = Some fb ->
  Fb.isActive fb = false ->
  Fireball_updates dts id s = s.
Proof.
  intros E Ha. induction dts as [|dt rest IH]; [reflexivity|].
  cbn [Fireball_updates]. unfold FireballManager.Fireball_update at 1.
  rewrite E, Ha. exact IH.
Qed.

Variable target : Vector3.
Variables fs y0 Mx : Q.
Hypothesis fs_pos : 0 < fs.
Hypothesis Mx_late : y0 / fs < Mx.

(** One [update] of a fireball in flight: it goes on falling or
    lands. *)
Lemma flight_step (dt t : Q) (id : nat) (s : Sys) (fb : Fb.t) :
  FireballManager.fireball id s = Some fb ->
  in_flight target fs y0 t fb -> Fb.maxLifetime fb = Mx ->
  exists fb',
    FireballManager.fireball id (FireballManager.Fireball_update dt id s)
    = Some fb'
    /\ if Num.ltb (t + dt) (y0 / fs)
       then in_flight target fs y0 (t + dt) fb' /\ Fb.maxLifetime fb' = Mx
       else Fb.isActive fb' = false /\ Fb.hasExploded fb' = true
            /\ Fb.visible fb' = false.
Proof.
  intros E (Ha & Hx & Hv & Hl & Px & Py & Pz) Hm.
  unfold FireballManager.Fireball_update. rewrite E, Ha. cbn [negb].
  cbv zeta.
  set (s1 := FireballManager.on_fireball
               (fun fb0 => Fb.set_lifetime (Fb.lifetime fb0 + dt) fb0) id s).
  assert (E1 : FireballManager.fireball id s1
               = Some (Fb.set_lifetime (Fb.lifetime fb + dt) fb))
    by (subst s1; rewrite fireball_on_fireball, E; reflexivity).
  destruct (Num.ltb (t + dt) (y0 / fs)) eqn:Hfly.
  - apply ltb_lt in Hfly.
    assert (Hg : Num.geb (Fb.lifetime fb + dt) (Fb.maxLifetime fb) = false).
    { apply leb_false. rewrite Hm, Hl. lra. }
    rewrite Hg.
    set (pos := V3.add (Fb.position fb)
                       (V3.multiplyScalar (Fb.velocity fb) dt)).
    assert (Hy : vy pos == y0 - fs * (t + dt)).
    { subst pos. rewrite Hv. cbn. rewrite Py. ring. }
    assert (Hup : Num.leb (vy pos) 0 = false).
    { apply leb_false. rewrite Hy.
      apply (div_lt_mul _ _ _ fs_pos) in Hfly. lra. }
    rewrite Hup. cbn [andb].
    set (s2 := FireballManager.on_fireball (Fb.set_position pos) id s1).
    assert (E2 : FireballManager.fireball id s2
                 = Some (Fb.set_position pos
                           (Fb.set_lifetime (Fb.lifetime fb + dt) fb)))
      by (subst s2; rewrite fireball_on_fireball, E1; reflexivity).
    assert (Hin : forall g : Fb.t -> Fb.t,
               (forall x, Fb.isActive (g x) = Fb.isActive x) ->
               (forall x, Fb.hasExploded (g x) = Fb.hasExploded x) ->
               (forall x, Fb.velocity (g x) = Fb.velocity x) ->
               (forall x, Fb.lifetime (g x) = Fb.lifetime x) ->
               (forall x, Fb.position (g x) = Fb.position x) ->
               (forall x, Fb.maxLifetime (g x) = Fb.maxLifetime x) ->
               in_flight target fs y0 (t + dt)
                 (g (Fb.set_position pos
                       (Fb.set_lifetime (Fb.lifetime fb + dt) fb)))
               /\ Fb.maxLifetime
                    (g (Fb.set_position pos
                          (Fb.set_lifetime (Fb.lifetime fb + dt) fb))) = Mx).
    { intros g G1 G2 G3 G4 G5 G6. unfold in_flight.
      rewrite G1, G2, G3, G4, G5, G6.
      change (Fb.isActive (Fb.set_position pos (Fb.set_lifetime ?v fb)))
        with (Fb.isActive fb).
      change (Fb.hasExploded (Fb.set_position pos (Fb.set_lifetime ?v fb)))
        with (Fb.hasExploded fb).
      change (Fb.velocity (Fb.set_position pos (Fb.set_lifetime ?v fb)))
        with (Fb.velocity fb).
      change (Fb.lifetime (Fb.set_position pos (Fb.set_lifetime ?v fb)))
        with v.
      change (Fb.position (Fb.set_position pos (Fb.set_lifetime ?v fb)))
        with pos.
      change (Fb.maxLifetime (Fb.set_position pos (Fb.set_lifetime ?v fb)))
        with (Fb.maxLifetime fb).
      refine (conj (conj Ha (conj Hx (conj Hv (conj _ (conj _ (conj Hy _))))))
                   Hm).
      - rewrite Hl. reflexivity.
      - subst pos. rewrite Hv. cbn. rewrite Px. ring.
      - subst pos. rewrite Hv. cbn. rewrite Pz. ring. }
    destruct (Fb.isPlaying fb).
    + destruct (Num.geb (Fb.elapsedTime fb + dt) (Fb.frameTime fb)).
      * eexists. split; [rewrite fireball_on_fireball, E2; reflexivity|].
        apply (Hin (fun x => Fb.set_currentFrame _ (Fb.set_elapsedTime 0 x)));
          reflexivity.
      * eexists. split; [rewrite fireball_on_fireball, E2; reflexivity|].
        apply (Hin (Fb.set_elapsedTime _)); reflexivity.
    + eexists. split; [exact E2|]. apply (Hin (fun x => x)); reflexivity.
  - apply ltb_false in Hfly.
    destruct (Num.geb (Fb.lifetime fb + dt) (Fb.maxLifetime fb)).
    + apply (explode_fireball id s1 _ E1). exact Hx.
    + set (pos := V3.add (Fb.position fb)
                         (V3.multiplyScalar (Fb.velocity fb) dt)).
      assert (Hy : vy pos == y0 - fs * (t + dt)).
      { subst pos. rewrite Hv. cbn. rewrite Py. ring. }
      assert (Hdown : Num.leb (vy pos) 0 = true).
      { apply leb_le. rewrite Hy.
        apply (div_le_mul _ _ _ fs_pos) in Hfly. lra. }
      rewrite Hdown, Hx. cbn [negb andb].
      set (s2 := FireballManager.on_fireball (Fb.set_position pos) id s1).
      assert (E2 : FireballManager.fireball id s2
                   = Some (Fb.set_position pos
                             (Fb.set_lifetime (Fb.lifetime fb + dt) fb)))
        by (subst s2; rewrite fireball_on_fireball, E1; reflexivity).
      apply (triggerGroundImpact_fireball id s2 _ E2). exact Hx.
Qed.

Lemma flight_run (id : nat) (dts : list Q) :
  Forall (fun dt => 0 <= dt) dts ->
  forall (t : Q) (s : Sys) (fb : Fb.t),
    FireballManager.fireball id s = Some fb ->
    in_flight target fs y0 t fb -> Fb.maxLifetime fb = Mx ->
    t < y0 / fs ->
    exists fb',
      FireballManager.fireball id (Fireball_updates dts id s) = Some fb'
      /\ (Fb.isActive fb' = true <-> t + elapsed dts < y0 / fs)
      /\ if Fb.isActive fb'
         then in_flight target fs y0 (t + elapsed dts) fb'
              /\ Fb.maxLifetime fb' = Mx
         else Fb.hasExploded fb' = true /\ Fb.visible fb' = false.
Proof.
  induction 1 as [|dt rest Hdt Hrest IH]; intros t s fb E Hin Hm Ht.
  { exists fb. cbn [Fireball_updates elapsed]. split; [exact E|].
    pose proof Hin as (Ha & Hx & Hv & Hl & Px & Py & Pz).
    rewrite Ha. split; [split; [intros _; lra | reflexivity]|].
    refine (conj (conj Ha (conj Hx (conj Hv (conj _ (conj Px (conj _ Pz))))))
                 Hm).
    - rewrite Hl. ring.
    - rewrite Py. ring. }
  cbn [Fireball_updates elapsed].
  pose proof (elapsed_nonneg rest Hrest) as Hnn.
  destruct (flight_step dt t id s fb E Hin Hm) as (fb1 & E1 & H1).
  destruct (Num.ltb (t + dt) (y0 / fs)) eqn:Hfly.
  - apply ltb_lt in Hfly. destruct H1 as (Hin1 & Hm1).
    destruct (IH (t + dt) _ fb1 E1 Hin1 Hm1 Hfly) as (fb' & E' & I1 & I2).
    exists fb'. split; [exact E'|]. split.
    + rewrite I1. split; intro L; lra.
    + destruct (Fb.isActive fb'); [|exact I2].
      destruct I2 as ((Ha & Hx & Hv & Hl & Px & Py & Pz) & Hm').
      refine (conj (conj Ha (conj Hx (conj Hv
                      (conj _ (conj Px (conj _ Pz)))))) Hm').
      * rewrite Hl. ring.
      * rewrite Py. ring.
  - apply ltb_false in Hfly. destruct H1 as (Ha1 & Hx1 & Hv1).
    exists fb1. rewrite (Fireball_updates_landed rest id _ fb1 E1 Ha1).
    split; [exact E1|]. rewrite Ha1.
    split; [|split; assumption].
    split; [discriminate|]. intro L. lra.
Qed.

End Fall.

(** X19.  A fireball launched on [target] and updated forward in time
    falls straight down on it: as long as it is in flight it has not
    exploded, hangs over the target above the ground and no higher than
    [startY], and moves down at [fallSpeed]; an update that brings its
    height to the ground or below ends the flight.  Once the flight has
    ended the fireball has exploded, is inactive and hidden, and further
    updates change nothing. *)
Theorem fireball_lands_on_time {M : MathLib} (target : Vector3) (id : nat)
        (s : Sys) (fb : Fb.t) (dts more : list Q) :
  FireballManager.fireball id s = Some fb ->
  0 < Fb.fallSpeed fb -> 0 < Fb.startY fb ->
  Forall (fun dt => 0 <= dt) dts ->
  let s' := Fireball_updates dts id
              (FireballManager.Fireball_launch target id s) in
  exists fb',
    FireballManager.fireball id s' = Some fb'
    /\ (if Fb.isActive fb'
        then Fb.hasExploded fb' = false
             /\ Fb.velocity fb' = vec3 0 (- Fb.fallSpeed fb) 0
             /\ vx (Fb.position fb') == vx target
             /\ vz (Fb.position fb') == vz target
             /\ 0 < vy (Fb.position fb') <= Fb.startY fb
             /\ (forall dt,
                   vy (Fb.position fb') + vy (Fb.velocity fb') * dt <= 0 ->
                   exists fb2,
                     FireballManager.fireball
                       id (FireballManager.Fireball_update dt id s')
                     = Some fb2
                     /\ Fb.isActive fb2 = false
                     /\ Fb.hasExploded fb2 = true
                     /\ Fb.visible fb2 = false)
        else Fb.hasExploded fb' = true /\ Fb.visible fb' = false
             /\ Fireball_updates more id s' = s').
Proof.
  intros E Hfs Hy Hdts. cbv zeta.
  destruct (Fireball_launch_fireball target id s fb E)
    as (fb0 & E0 & H1 & H2 & _ & H4 & _ & H6 & H7 & H8 & _).
  assert (Hpos : 0 < Fb.startY fb / Fb.fallSpeed fb).
  { apply Qlt_shift_div_l; [exact Hfs | lra]. }
  assert (Hlate : Fb.startY fb / Fb.fallSpeed fb < Fb.maxLifetime fb0).
  { rewrite H8.
    assert (Hfall : (Fb.startY fb - 0) / Fb.fallSpeed fb
                    == Fb.startY fb / Fb.fallSpeed fb) by (field; lra).
    apply (Qlt_le_trans _ ((Fb.startY fb - 0) / Fb.fallSpeed fb + 1));
      [lra | apply max_ge_l]. }
  assert (Hin : in_flight target (Fb.fallSpeed fb) (Fb.startY fb) 0 fb0).
  { unfold in_flight. rewrite H1, H2, H4, H6, H7. cbn.
    repeat split; try reflexivity. ring. }
  pose proof (elapsed_nonneg dts Hdts) as Hnn.
  destruct (flight_run target (Fb.fallSpeed fb) (Fb.startY fb)
              (Fb.maxLifetime fb0) Hfs Hlate id dts Hdts 0 _ fb0 E0 Hin
              eq_refl Hpos) as (fb' & E' & I1 & I2).
  set (s' := Fireball_updates dts id
               (FireballManager.Fireball_launch target id s)) in *.
  exists fb'. split; [exact E'|].
  destruct (Fb.isActive fb') eqn:Ha'.
  - destruct I2 as (Hfl & Hm').
    pose proof Hfl as (_ & Hx & Hv & Hl & Px & Py & Pz).
    assert (Ht : 0 + elapsed dts < Fb.startY fb / Fb.fallSpeed fb)
      by (apply I1; reflexivity).
    apply (div_lt_mul _ _ _ Hfs) in Ht.
    refine (conj Hx (conj Hv (conj Px (conj Pz (conj _ _))))).
    + rewrite Py. split; [lra|].
      assert (0 <= Fb.fallSpeed fb * (0 + elapsed dts)).
      { apply Qmult_le_0_compat; lra. }
      lra.
    + intros dt Hland.
      destruct (flight_step target (Fb.fallSpeed fb) (Fb.startY fb)
                  (Fb.maxLifetime fb0) Hfs Hlate dt (0 + elapsed dts)
                  id s' fb' E' Hfl Hm') as (fb2 & E2 & H).
      exists fb2. split; [exact E2|].
      destruct (Num.ltb (0 + elapsed dts + dt)
                        (Fb.startY fb / Fb.fallSpeed fb)) eqn:Hfly;
        [|exact H].
      exfalso. apply ltb_lt in Hfly.
      apply (div_lt_mul _ _ _ Hfs) in Hfly.
      rewrite Hv, Py in Hland. cbn [vy] in Hland. lra.
  - destruct I2 as (Hx & Hv).
    refine (conj Hx (conj Hv _)).
    exact (Fireball_updates_landed more id s' fb' E' Ha').
Qed.

Lemma fireball_lands_on_time_witness :
  let s := Sample.world in
  let target := vec3 2 0 3 in
  let dts := [1; 2; 2] in
  let fb := nth 14 (fm_store (fireballs s)) (Fb.new 6 5 12) in
  let s' := Fireball_updates (M := Sample.M) dts 14
              (FireballManager.Fireball_launch target 14 s) in
  exists fb',
    FireballManager.fireball 14 s' = Some fb'
    /\ (if Fb.isActive fb'
        then Fb.hasExploded fb' = false
             /\ Fb.velocity fb' = vec3 0 (- Fb.fallSpeed fb) 0
             /\ vx (Fb.position fb') == vx target
             /\ vz (Fb.position fb') == vz target
             /\ 0 < vy (Fb.position fb') <= Fb.startY fb
             /\ (forall dt,
                   vy (Fb.position fb') + vy (Fb.velocity fb') * dt <= 0 ->
                   exists fb2,
                     FireballManager.fireball
                       14 (FireballManager.Fireball_update (M := Sample.M)
                             dt 14 s')
                     = Some fb2
                     /\ Fb.isActive fb2 = false
                     /\ Fb.hasExploded fb2 = true
                     /\ Fb.visible fb2 = false)
        else Fb.hasExploded fb' = true /\ Fb.visible fb' = false
             /\ Fireball_updates (M := Sample.M) [1] 14 s' = s').
Proof.
  apply (@fireball_lands_on_time Sample.M (vec3 2 0 3) 14 Sample.world
           (nth 14 (fm_store (fireballs Sample.world)) (Fb.new 6 5 12))
           [1; 2; 2] [1]).
  - vm_compute. reflexivity.
  - vm_compute. reflexivity.
  - vm_compute. reflexivity.
  - repeat constructor; vm_compute; discriminate.
Defined.


(* ------------------------------------------------------------------ *)
(** ** The fireball after a landing one *)

Lemma filter_out_absent (id : nat) (l : list nat) :
  ~ In id l -> filter (fun j => negb (Nat.eqb j id)) l = l.
Proof.
  induction l as [|x t IH]; intro H; [reflexivity|].
  cbn [filter]. destruct (Nat.eqb x id) eqn:E.
  - apply Nat.eqb_eq in E. subst x. exfalso. apply H. left. reflexivity.
  - cbn [negb]. f_equal. apply IH. intro Hin. apply H. right. exact Hin.
Qed.

Lemma splice1_filter (id : nat) (l : list nat) :
  NoDup l ->
  match indexOf id l with
  | Some i => splice1 i l
  | None => l
  end = filter (fun j => negb (Nat.eqb j id)) l.
Proof.
  induction 1 as [|x t Hx Ht IH]; [reflexivity|].
  cbn [indexOf filter]. destruct (Nat.eqb id x) eqn:E.
  - apply Nat.eqb_eq in E. subst x. rewrite Nat.eqb_refl. cbn [negb splice1].
    symmetry. apply filter_out_absent. exact Hx.
  - rewrite Nat.eqb_sym, E. cbn [negb]. rewrite <- IH.
    destruct (indexOf id t); reflexivity.
Qed.

Lemma filter_out_twice (id : nat) (l : list nat) :
  filter (fun j => negb (Nat.eqb j id))
         (filter (fun j => negb (Nat.eqb j id)) l)
  = filter (fun j => negb (Nat.eqb j id)) l.
Proof.
  rewrite filter_twice. apply filter_ext. intro j.
  destruct (negb (Nat.eqb j id)); reflexivity.
Qed.

Section Apart.
Context {M : MathLib}.

Lemma apart_refl (id : nat) (s : Sys) : apart_from id s s.
Proof. split; [reflexivity | left; reflexivity]. Qed.

Lemma apart_trans (id : nat) (s1 s2 s3 : Sys) :
  apart_from id s1 s2 -> apart_from id s2 s3 -> apart_from id s1 s3.
Proof.
  intros (A1 & A2) (B1 & B2). split.
  - intros j Hj. rewrite (B1 j Hj). apply A1. exact Hj.
  - destruct A2 as [A2 | A2], B2 as [B2 | B2]; rewrite B2, A2;
      [left | right | right | right]; try reflexivity.
    apply filter_out_twice.
Qed.

Lemma apart_NoDup (id : nat) (s s' : Sys) :
  apart_from id s s' ->
  NoDup (activeFireballs (fireballs s)) ->
  NoDup (activeFireballs (fireballs s')).
Proof.
  intros (_ & [A | A]) H; rewrite A; [exact H|].
  apply NoDup_filter. exact H.
Qed.

Lemma on_fireball_apart (f : Fb.t -> Fb.t) (id : nat) (s : Sys) :
  apart_from id s (FireballManager.on_fireball f id s).
Proof.
  split; [|left; reflexivity].
  intros j Hj. unfold FireballManager.fireball, FireballManager.on_fireball.
  cbn. apply nth_error_list_alter_neq. congruence.
Qed.

Lemma removeFireballTelegraph_apart (id : nat) (s : Sys) :
  apart_from id s (FireballManager.removeFireballTelegraph id s).
Proof.
  unfold FireballManager.removeFireballTelegraph.
  destruct (FireballManager.fireball id s) as [fb|]; [|apply apart_refl].
  destruct (Fb.telegraph fb); [|apply apart_refl].
  match goal with
  | |- apart_from id s (FireballManager.on_fireball ?f id ?x) =>
      apply (apart_trans id s x);
      [split; [reflexivity | left; reflexivity]
      | apply on_fireball_apart]
  end.
Qed.

Lemma handleFireballExplosion_apart (id : nat) (s : Sys) :
  apart_from id s (FireballManager.handleFireballExplosion id s).
Proof.
  destruct (handleFireballExplosion_frame id s) as (H & _).
  unfold apart_from, FireballManager.fireball. rewrite H.
  split; [reflexivity | left; reflexivity].
Qed.

Lemma removeFireball_apart (id : nat) (s : Sys) :
  NoDup (activeFireballs (fireballs s)) ->
  apart_from id s (FireballManager.removeFireball id s).
Proof.
  intro Hnd. unfold FireballManager.removeFireball.
  match goal with
  | |- context [FireballManager.on_fireball ?f id s] =>
      pose proof (on_fireball_apart f id s) as H1;
      set (s1 := FireballManager.on_fireball f id s) in *
  end.
  assert (Hnd1 : NoDup (activeFireballs (fireballs s1)))
    by (apply (apart_NoDup id s); assumption).
  destruct (FireballManager.fireball id s1) as [fb|]; [|exact H1].
  destruct (Fb.manager fb); [|exact H1].
  apply (apart_trans id s s1); [exact H1|].
  unfold apart_from, FireballManager.fireball,
    FireballManager.returnFireballToPool.
  cbn [fireballs set_fireballs].
  pose proof (splice1_filter id _ Hnd1) as Hs.
  destruct (indexOf id (activeFireballs (fireballs s1))).
  - cbn. split; [reflexivity|]. right. exact Hs.
  - split; [reflexivity | left; reflexivity].
Qed.

Lemma triggerGroundImpact_apart (id : nat) (s : Sys) :
  NoDup (activeFireballs (fireballs s)) ->
  apart_from id s (FireballManager.triggerGroundImpact id s).
Proof.
  intro Hnd. unfold FireballManager.triggerGroundImpact.
  destruct (FireballManager.fireball id s) as [fb|]; [|apply apart_refl].
  destruct (Fb.hasExploded fb); [apply apart_refl|].
  set (s1 := FireballManager.on_fireball (Fb.set_hasExploded true) id s).
  assert (H1 : apart_from id s s1) by apply on_fireball_apart.
  set (s2 := FireballManager.removeFireballTelegraph id s1).
  assert (H2 : apart_from id s s2)
    by (apply (apart_trans id s s1);
        [exact H1 | apply removeFireballTelegraph_apart]).
  set (s3 := if Fb.onComplete fb
             then FireballManager.handleFireballExplosion id s2 else s2).
  assert (H3 : apart_from id s s3).
  { subst s3. destruct (Fb.onComplete fb); [|exact H2].
    apply (apart_trans id s s2);
      [exact H2 | apply handleFireballExplosion_apart]. }
  apply (apart_trans id s s3); [exact H3|].
  apply removeFireball_apart. apply (apart_NoDup id s); assumption.
Qed.

Lemma explode_apart (id : nat) (s : Sys) :
  NoDup (activeFireballs (fireballs s)) ->
  apart_from id s (FireballManager.explode id s).
Proof.
  intro Hnd. unfold FireballManager.explode.
  destruct (FireballManager.fireball id s) as [fb|]; [|apply apart_refl].
  destruct (Fb.hasExploded fb); [apply removeFireball_apart; exact Hnd|].
  pose proof (triggerGroundImpact_apart id s Hnd) as H1.
  apply (apart_trans id s _ _ H1).
  apply removeFireball_apart. apply (apart_NoDup id s); assumption.
Qed.

(** The [update] of one fireball leaves the others alone and at most
    takes itself out of the active array. *)
Lemma Fireball_update_apart (dt : Q) (id : nat) (s : Sys) :
  NoDup (activeFireballs (fireballs s)) ->
  apart_from id s (FireballManager.Fireball_update dt id s).
Proof.
  intro Hnd. unfold FireballManager.Fireball_update.
  destruct (FireballManager.fireball id s) as [fb|]; [|apply apart_refl].
  destruct (negb (Fb.isActive fb)); [apply apart_refl|].
  cbv zeta.
  match goal with
  | |- context [FireballManager.explode id ?x] =>
      set (s1 := x);
      assert (H1 : apart_from id s s1) by apply on_fireball_apart
  end.
  assert (Hnd1 : NoDup (activeFireballs (fireballs s1)))
    by (apply (apart_NoDup id s); assumption).
  destruct (Num.geb _ (Fb.maxLifetime fb)).
  { apply (apart_trans id s s1 _ H1). apply explode_apart. exact Hnd1. }
  match goal with
  | |- context [FireballManager.triggerGroundImpact id ?x] =>
      set (s2 := x);
      assert (H2 : apart_from id s s2)
        by (apply (apart_trans id s s1 _ H1); apply on_fireball_apart)
  end.
  destruct (Num.leb _ 0 && negb (Fb.hasExploded fb)).
  { apply (apart_trans id s s2 _ H2). apply triggerGroundImpact_apart.
    apply (apart_NoDup id s); assumption. }
  destruct (Fb.isPlaying fb); [|exact H2].
  destruct (Num.geb _ (Fb.frameTime fb));
    apply (apart_trans id s s2 _ H2); apply on_fireball_apart.
Qed.

Lemma forEach_active_S (fuel k : nat) (dt : Q) (s : Sys) :
  FireballManager.forEach_active (S fuel) k dt s
  = match nth_error (activeFireballs (fireballs s)) k with
    | Some id =>
        FireballManager.forEach_active fuel (S k) dt
          (FireballManager.Fireball_update dt id s)
    | None => s
    end.
Proof. reflexivity. Qed.

(** From the second index on, the loop never comes back to the head of
    the array. *)
Lemma forEach_active_head (dt : Q) (b : nat) (fuel : nat) :
  forall (k : nat) (s : Sys) (t : list nat),
    (1 <= k)%nat ->
    activeFireballs (fireballs s) = b :: t ->
    NoDup (activeFireballs (fireballs s)) ->
    FireballManager.fireball b (FireballManager.forEach_active fuel k dt s)
    = FireballManager.fireball b s.
Proof.
  induction fuel as [|fuel IH]; intros k s t Hk Hact Hnd; [reflexivity|].
  cbn [FireballManager.forEach_active].
  destruct (nth_error (activeFireballs (fireballs s)) k) as [id|] eqn:E;
    [|reflexivity].
  assert (Hne : b <> id).
  { rewrite Hact in E, Hnd. destruct k as [|k]; [lia|]. cbn in E.
    inversion Hnd as [|? ? Hb _]; subst. intro C. subst id.
    apply Hb. eapply nth_error_In. exact E. }
  pose proof (Fireball_update_apart dt id s Hnd) as Hap.
  pose proof (apart_NoDup id _ _ Hap Hnd) as Hnd1.
  destruct Hap as (A1 & A2).
  assert (Hhead : exists t', activeFireballs
                               (fireballs
                                  (FireballManager.Fireball_update dt id s))
                             = b :: t').
  { destruct A2 as [A2 | A2]; rewrite A2, Hact; [eauto|].
    cbn [filter]. apply Nat.eqb_neq in Hne. rewrite Hne. cbn [negb]. eauto. }
  destruct Hhead as (t' & Ht').
  rewrite (IH (S k) _ t' ltac:(lia) Ht' Hnd1).
  apply A1. exact Hne.
Qed.

End Apart.

Lemma reachable_pool_inv {M : MathLib} (s0 : Sys) (ops : list PoolOp) :
  fresh_pool (fireballs s0) ->
  pool_inv None (fireballs (pool_run ops s0)).
Proof.
  intros (cs & tm & Hfresh).
  apply pool_run_inv. rewrite Hfresh.
  apply create_loop_inv. apply pool_inv_empty.
Qed.

(** X20.  In any state the fireball manager reaches from its initial
    pool: when the first fireball of the active array lands or times out
    during [FireballManager.update], the fireball listed right after it
    is not updated in that call.  It slides into the index the loop has
    just visited, and its lifetime, position and animation stay as they
    were. *)
Theorem landing_fireball_shields_next {M : MathLib} (s0 : Sys)
        (ops : list PoolOp) (dt : Q) (a b : nat) (rest : list nat)
        (fa : Fb.t) :
  fresh_pool (fireballs s0) ->
  let s := pool_run ops s0 in
  activeFireballs (fireballs s) = a :: b :: rest ->
  FireballManager.fireball a s = Some fa ->
  Fb.maxLifetime fa <= Fb.lifetime fa + dt
  \/ vy (Fb.position fa) + vy (Fb.velocity fa) * dt <= 0 ->
  let s' := FireballManager.update dt s in
  FireballManager.fireball b s' = FireballManager.fireball b s
  /\ ~ In a (activeFireballs (fireballs s')).
Proof.
  intros Hfresh s Hact Ha Hland. cbv zeta.
  pose proof (reachable_pool_inv s0 ops Hfresh) as Hinv.
  fold s in Hinv. clearbody s.
  assert (Hnd : NoDup (activeFireballs (fireballs s))).
  { destruct Hinv as (_ & H2 & _). apply NoDup_app_remove_l in H2.
    exact H2. }
  unfold FireballManager.update. rewrite Hact.
  cbn [length]. rewrite forEach_active_S, Hact.
  cbn [nth_error].
  destruct (Fireball_update_inv dt a s Hinv) as (Hinv1 & Hgone).
  cbv zeta in Hinv1, Hgone.
  assert (Hina : In a (activeFireballs (fireballs s)))
    by (rewrite Hact; left; reflexivity).
  destruct (Hgone fa Hina Ha Hland) as (_ & Hout).
  pose proof (Fireball_update_apart dt a s Hnd) as Hap.
  pose proof (apart_NoDup a _ _ Hap Hnd) as Hnd1.
  destruct Hap as (A1 & A2).
  set (s1 := FireballManager.Fireball_update dt a s) in *.
  assert (Hne : b <> a).
  { rewrite Hact in Hnd. inversion Hnd as [|? ? Hn _]; subst.
    intro C. subst b. apply Hn. left. reflexivity. }
  assert (Hact1 : activeFireballs (fireballs s1) = b :: rest).
  { destruct A2 as [A2 | A2].
    - exfalso. apply Hout. rewrite A2. exact Hina.
    - rewrite A2, Hact. cbn [filter]. rewrite Nat.eqb_refl. cbn [negb].
      apply Nat.eqb_neq in Hne. rewrite Hne. cbn [negb]. f_equal.
      apply filter_out_absent.
      rewrite Hact in Hnd. inversion Hnd as [|? ? Hn _]; subst.
      intro C. apply Hn. right. exact C. }
  split.
  - rewrite (forEach_active_head dt b _ 1 s1 rest (le_n 1) Hact1 Hnd1).
    apply A1. exact Hne.
  - assert (Hgen : forall fuel k x,
               NoDup (activeFireballs (fireballs x)) ->
               ~ In a (activeFireballs (fireballs x)) ->
               ~ In a (activeFireballs
                         (fireballs
                            (FireballManager.forEach_active fuel k dt x)))).
    { induction fuel as [|fuel IH]; intros k x Hn0 Hno; [exact Hno|].
      cbn [FireballManager.forEach_active].
      destruct (nth_error (activeFireballs (fireballs x)) k) as [id|];
        [|exact Hno].
      pose proof (Fireball_update_apart dt id x Hn0) as Hap0.
      apply IH; [apply (apart_NoDup id x); assumption|].
      destruct Hap0 as (_ & [B | B]); rewrite B; [exact Hno|].
      intro C. apply filter_In in C. exact (Hno (proj1 C)). }
    apply Hgen; assumption.
Qed.


Lemma landing_fireball_shields_next_witness :
  let s := pool_run (M := Sample.M)
             [OpLaunch (vec3 0 0 0); OpLaunch (vec3 3 0 0)] Sample.world in
  let s' := FireballManager.update (M := Sample.M) 6 s in
  FireballManager.fireball 13 s' = FireballManager.fireball 13 s
  /\ ~ In 14%nat (activeFireballs (fireballs s')).
Proof.
  apply (@landing_fireball_shields_next Sample.M Sample.world
           [OpLaunch (vec3 0 0 0); OpLaunch (vec3 3 0 0)] 6 14 13 []
           (nth 14 (fm_store (fireballs
                                (pool_run (M := Sample.M)
                                   [OpLaunch (vec3 0 0 0);
                                    OpLaunch (vec3 3 0 0)] Sample.world)))
                (Fb.new 6 5 12))).
  - exists true, true. reflexivity.
  - vm_compute. reflexivity.
  - vm_compute. reflexivity.
  - right. vm_compute. discriminate.
Defined.

(* ------------------------------------------------------------------ *)
(** ** The cooldown between two attacks *)

Section Cooldown.
Context {M : MathLib}.

Lemma switchAnimation_cooldown (r : Q) (a : Animation) (e : Enemy.t) :
  Enemy.attackCooldown (Enemy.switchAnimation r a e)
  = Enemy.attackCooldown e.
Proof.
  unfold Enemy.switchAnimation.
  destruct (negb (Enemy.switches a e)); [reflexivity|].
  destruct a; reflexivity.
Qed.

Lemma switchAnimation_animation (r : Q) (a : Animation) (e : Enemy.t) :
  Enemy.currentAnimation (Enemy.switchAnimation r a e)
  = if Enemy.switches a e then a else Enemy.currentAnimation e.
Proof.
  unfold Enemy.switchAnimation.
  destruct (Enemy.switches a e); cbn [negb]; [|reflexivity].
  destruct a; reflexivity.
Qed.

Lemma switchAnimation_not_attack (r : Q) (a : Animation) (e : Enemy.t) :
  a <> anim_attack ->
  Enemy.currentAnimation e <> anim_attack ->
  Enemy.currentAnimation (Enemy.switchAnimation r a e) <> anim_attack.
Proof.
  intros Ha He. rewrite switchAnimation_animation.
  destruct (Enemy.switches a e); assumption.
Qed.

Lemma animState_animation (a b : Enemy.t) :
  animState a = animState b ->
  Enemy.currentAnimation a = Enemy.currentAnimation b.
Proof. intro H. apply animState_fields in H. tauto. Qed.

Lemma advanceOther_idle (e : Enemy.t) :
  Enemy.currentAnimation e <> anim_attack ->
  Enemy.currentAnimation (Enemy.advanceOther e) <> anim_attack
  /\ Enemy.attackCooldown (Enemy.advanceOther e) = Enemy.attackCooldown e.
Proof.
  intro Hne. unfold Enemy.advanceOther.
  assert (Hframe : forall v,
             Enemy.currentAnimation (Enemy.set_currentFrame v e)
             <> anim_attack) by (intro v; exact Hne).
  destruct (Enemy.currentAnimation e) eqn:Ea; cbv zeta; try congruence.
  - split; [exact (Hframe _) | reflexivity].
  - destruct (Enemy.totalFrames _ <=? _)%Z.
    + rewrite switchAnimation_cooldown. split; [|reflexivity].
      apply switchAnimation_not_attack; [discriminate|].
      cbn. rewrite Ea. discriminate.
    + split; [exact (Hframe _) | reflexivity].
  - destruct ((Enemy.totalFrames _ <=? _)%Z && _).
    + split; [|reflexivity]. cbn. rewrite Ea. discriminate.
    + split; [exact (Hframe _) | reflexivity].
  - split; [exact (Hframe _) | reflexivity].
Qed.

Lemma updateAnimation_idle (dt : Q) (rnd : Rand) (e : Enemy.t) (s : Sys) :
  Enemy.currentAnimation e <> anim_attack ->
  snd (Enemy.updateAnimation dt rnd e s) = s
  /\ Enemy.currentAnimation (fst (Enemy.updateAnimation dt rnd e s))
     <> anim_attack
  /\ Enemy.attackCooldown (fst (Enemy.updateAnimation dt rnd e s))
     = Enemy.attackCooldown e.
Proof.
  intro Hne. unfold Enemy.updateAnimation.
  destruct ((Enemy.isDead e || Enemy.isPlaying e)
            && (1 <? Enemy.totalFrames e)%Z); [|auto].
  cbv zeta.
  destruct (Num.geb _ _); [|cbn [fst snd]; auto].
  match goal with
  | |- context [Enemy.currentAnimation ?x] => set (e1 := x)
  end.
  assert (H1 : Enemy.currentAnimation e1 = Enemy.currentAnimation e)
    by reflexivity.
  assert (H2 : Enemy.attackCooldown e1 = Enemy.attackCooldown e)
    by reflexivity.
  clearbody e1. rewrite <- H1 in Hne. rewrite <- H2.
  destruct (advanceOther_idle e1 Hne) as (A1 & A2).
  destruct (Enemy.currentAnimation e1); try congruence;
    cbn [fst snd]; auto.
Qed.

Lemma updateAI_cooldown (dt : Q) (rnd : Rand) (p : Vector3) (e : Enemy.t) :
  Enemy.attackCooldown (Enemy.updateAI dt rnd p e) = Enemy.attackCooldown e.
Proof.
  unfold Enemy.updateAI.
  destruct (Enemy.isDead e || Enemy.isHit e); [reflexivity|]. cbv zeta.
  match goal with |- context [if ?c then _ else _] => destruct c end;
    [|reflexivity].
  set (e1 := Enemy.set_detectionTimer 0 _).
  change (Enemy.attackCooldown e) with (Enemy.attackCooldown e1).
  clearbody e1.
  destruct (Enemy.currentState e1); cbv zeta; break_ifs; reflexivity.
Qed.

Lemma faceTarget_cooldown (p : Vector3) (e : Enemy.t) :
  Enemy.attackCooldown (Enemy.faceTarget p e) = Enemy.attackCooldown e.
Proof. unfold Enemy.faceTarget. cbv zeta. break_ifs; reflexivity. Qed.

Lemma stepAlong_cooldown (d : Vector3) (v dt : Q) (e : Enemy.t) :
  Enemy.attackCooldown (Enemy.stepAlong d v dt e) = Enemy.attackCooldown e.
Proof. unfold Enemy.stepAlong. cbv zeta. break_ifs; reflexivity. Qed.

Lemma updateMovementByState_cooldown (dt : Q) (p : Vector3) (e : Enemy.t) :
  Enemy.attackCooldown (Enemy.updateMovementByState dt p e)
  = Enemy.attackCooldown e.
Proof.
  unfold Enemy.updateMovementByState.
  destruct (Enemy.isKnockedBack e); [reflexivity|].
  destruct (Enemy.currentState e); try reflexivity.
  - unfold Enemy.patrolBehavior. cbv zeta. break_ifs; reflexivity.
  - unfold Enemy.chaseBehavior.
    destruct (negb (Enemy.target e)); [reflexivity|].
    apply stepAlong_cooldown.
  - unfold Enemy.searchBehavior. cbv zeta.
    destruct (Num.geb _ _); [reflexivity|].
    rewrite stepAlong_cooldown. reflexivity.
  - unfold Enemy.returnBehavior. cbv zeta. apply stepAlong_cooldown.
Qed.

Lemma updateKnockback_cooldown (dt : Q) (e : Enemy.t) :
  Enemy.attackCooldown (Enemy.updateKnockback dt e) = Enemy.attackCooldown e.
Proof. unfold Enemy.updateKnockback. cbv zeta. break_ifs; reflexivity. Qed.

Lemma updateScalePunch_cooldown (dt : Q) (e : Enemy.t) :
  Enemy.attackCooldown (Enemy.updateScalePunch dt e)
  = Enemy.attackCooldown e.
Proof. unfold Enemy.updateScalePunch. cbv zeta. break_ifs; reflexivity. Qed.

(** The attack block of [update] on an enemy still cooling down. *)
Lemma updateAttack_cooling (rnd : Rand) (e : Enemy.t) (s : Sys) :
  Enemy.currentAnimation e <> anim_attack ->
  0 < Enemy.attackCooldown e ->
  snd (Enemy.updateAttack rnd e s) = s
  /\ Enemy.currentAnimation (fst (Enemy.updateAttack rnd e s))
     <> anim_attack
  /\ Enemy.attackCooldown (fst (Enemy.updateAttack rnd e s))
     = Enemy.attackCooldown e.
Proof.
  intros Hne Hc. unfold Enemy.updateAttack. cbv zeta.
  destruct (Enemy.target e && negb (Enemy.isHit e)); [|auto].
  assert (Hl : Num.leb (Enemy.attackCooldown e) 0 = false)
    by (apply leb_false; exact Hc).
  rewrite Hl, andb_false_r.
  assert (E : (match Enemy.currentState e with
               | ATTACK => (e, s)
               | _ => (e, s)
               end) = (e, s))
    by (destruct (Enemy.currentState e); reflexivity).
  rewrite E.
  destruct (Enemy.isAttacking e && _); [|auto].
  cbn [fst snd]. rewrite switchAnimation_cooldown.
  split; [reflexivity|]. split.
  - apply switchAnimation_not_attack; [discriminate|].
    destruct (Enemy.canSeePlayer _ e); exact Hne.
  - destruct (Enemy.canSeePlayer _ e); reflexivity.
Qed.

(** One [update] of an enemy that is not attacking and whose cooldown
    outlasts the tick. *)
Lemma update_cooling (dt : Q) (rnd : Rand) (e : Enemy.t) (s : Sys) :
  Enemy.currentAnimation e <> anim_attack ->
  dt < Enemy.attackCooldown e ->
  0 <= dt ->
  snd (Enemy.update dt rnd e s) = s
  /\ Enemy.currentAnimation (fst (Enemy.update dt rnd e s)) <> anim_attack
  /\ (Enemy.attackCooldown (fst (Enemy.update dt rnd e s))
      = Enemy.attackCooldown e - dt
      \/ Enemy.attackCooldown (fst (Enemy.update dt rnd e s))
         = Enemy.attackCooldown e).
Proof.
  intros Hne Hlt Hdt. unfold Enemy.update. cbv zeta.
  destruct (updateAnimation_idle dt rnd (Enemy.superUpdate e) s Hne)
    as (U1 & U2 & U3).
  change (Enemy.attackCooldown (Enemy.superUpdate e))
    with (Enemy.attackCooldown e) in U3.
  destruct (Enemy.updateAnimation dt rnd (Enemy.superUpdate e) s)
    as [e1 s1].
  cbn [fst snd] in U1, U2, U3. subst s1.
  destruct (Enemy.isDead e1).
  { cbn [fst snd]. rewrite U3. split; [reflexivity|].
    split; [exact U2 | right; reflexivity]. }
  assert (Hg : Num.gtb (Enemy.attackCooldown e1) 0 = true)
    by (apply gtb_lt; rewrite U3; lra).
  rewrite Hg.
  set (ea := Enemy.set_attackCooldown (Enemy.attackCooldown e1 - dt) e1).
  assert (Ha1 : Enemy.currentAnimation ea <> anim_attack) by exact U2.
  assert (Ha2 : Enemy.attackCooldown ea = Enemy.attackCooldown e - dt)
    by (subst ea; cbn; rewrite U3; reflexivity).
  clearbody ea.
  set (eb := Enemy.updateAI dt rnd (pl_position (player s)) ea).
  assert (Hb1 : Enemy.currentAnimation eb <> anim_attack).
  { subst eb.
    rewrite (animState_animation _ _
               (proj2 (updateAI_quiet dt rnd (pl_position (player s)) ea))).
    exact Ha1. }
  assert (Hb2 : Enemy.attackCooldown eb = Enemy.attackCooldown e - dt)
    by (subst eb; rewrite updateAI_cooldown; exact Ha2).
  clearbody eb.
  assert (Hpos : 0 < Enemy.attackCooldown eb) by (rewrite Hb2; lra).
  destruct (updateAttack_cooling rnd eb s Hb1 Hpos) as (C1 & C2 & C3).
  destruct (Enemy.updateAttack rnd eb s) as [ec sc].
  cbn [fst snd] in C1, C2, C3. subst sc. rewrite Hb2 in C3.
  set (ed := if Enemy.isAttacking ec && Enemy.target ec
             then Enemy.faceTarget (pl_position (player s)) ec else ec).
  assert (Hd : Enemy.currentAnimation ed <> anim_attack
               /\ Enemy.attackCooldown ed = Enemy.attackCooldown e - dt).
  { subst ed. destruct (Enemy.isAttacking ec && Enemy.target ec);
      [|auto].
    rewrite faceTarget_cooldown.
    rewrite (animState_animation _ _
               (proj2 (faceTarget_quiet (pl_position (player s)) ec))).
    auto. }
  clearbody ed.
  set (ee := if negb (Enemy.isAttacking ed) && negb (Enemy.isHit ed)
             then Enemy.updateMovementByState dt (pl_position (player s)) ed
             else ed).
  assert (He : Enemy.currentAnimation ee <> anim_attack
               /\ Enemy.attackCooldown ee = Enemy.attackCooldown e - dt).
  { subst ee.
    destruct (negb (Enemy.isAttacking ed) && negb (Enemy.isHit ed));
      [|exact Hd].
    rewrite updateMovementByState_cooldown.
    rewrite (animState_animation _ _
               (proj2 (updateMovementByState_quiet
                         dt (pl_position (player s)) ed))).
    exact Hd. }
  clearbody ee. cbn [fst snd].
  rewrite updateScalePunch_cooldown, updateKnockback_cooldown.
  rewrite (animState_animation _ _
             (proj2 (updateScalePunch_quiet dt (Enemy.updateKnockback dt ee)))).
  rewrite (animState_animation _ _ (proj2 (updateKnockback_quiet dt ee))).
  destruct He as (He1 & He2). rewrite He2.
  split; [reflexivity|]. split; [exact He1 | left; reflexivity].
Qed.

(** A blow starts no attack and leaves the cooldown alone. *)
Lemma takeDamage_cooling (amount : Q) (attacker : option Vector3)
      (e : Enemy.t) (s : Sys) :
  Enemy.currentAnimation e <> anim_attack ->
  Enemy.currentAnimation (fst (Enemy.takeDamage amount attacker e s))
  <> anim_attack
  /\ Enemy.attackCooldown (fst (Enemy.takeDamage amount attacker e s))
     = Enemy.attackCooldown e.
Proof.
  intro Hne. unfold Enemy.takeDamage.
  destruct (Enemy.isDead e || Enemy.isHit e); [auto|].
  cbv zeta.
  match goal with
  | |- context [Enemy.requestFreeze ?d ?x s] =>
      set (e1 := x);
      assert (H1 : Enemy.currentAnimation e1 = Enemy.currentAnimation e)
        by (subst e1; break_ifs; reflexivity);
      assert (H2 : Enemy.attackCooldown e1 = Enemy.attackCooldown e)
        by (subst e1; break_ifs; reflexivity);
      set (s1 := Enemy.requestFreeze d e1 s)
  end.
  clearbody s1. clearbody e1. rewrite <- H1 in Hne. rewrite <- H2.
  destruct (Num.leb (Enemy.health e1) 0).
  - unfold Enemy.die.
    change (Enemy.isDead (Enemy.set_health 0 e1)) with (Enemy.isDead e1).
    destruct (Enemy.isDead e1); [cbn [fst]; auto|].
    cbv zeta. cbn [fst]. rewrite switchAnimation_cooldown.
    split; [|reflexivity].
    apply switchAnimation_not_attack; discriminate.
  - cbn [fst].
    assert (Hs : Enemy.currentAnimation (Enemy.switchAnimation 0 anim_hit e1)
                 <> anim_attack)
      by (apply switchAnimation_not_attack; [discriminate | exact Hne]).
    pose proof (switchAnimation_cooldown 0 anim_hit e1) as Hc.
    set (e2 := Enemy.switchAnimation 0 anim_hit e1) in *. clearbody e2.
    rewrite <- Hc.
    destruct attacker as [p|]; split; try exact Hs; reflexivity.
Qed.

End Cooldown.

(** X21.  Take an enemy that is not in its attack animation, and a run
    of updates and blows in which every update finds more attack
    cooldown left than its [deltaTime].  The enemy starts no attack in
    that run, whatever blows it takes: after every step it is out of the
    attack animation; each update leaves the shared state untouched (no
    telegraph, no damage, no fireball) and leaves a positive cooldown,
    no longer than before; each blow leaves the cooldown as it is. *)
Theorem no_attack_while_cooling_down {M : MathLib} (ks : list EnemyStep)
        (e : Enemy.t) :
  Enemy.currentAnimation e <> anim_attack ->
  cooling_throughout ks e ->
  idle_throughout ks e
  /\ Enemy.currentAnimation (enemy_steps ks e) <> anim_attack
  /\ Enemy.attackCooldown (enemy_steps ks e) <= Enemy.attackCooldown e.
Proof.
  revert e. induction ks as [|k rest IH]; intros e Hne Hcool.
  { cbn. split; [exact I|]. split; [exact Hne | apply Qle_refl]. }
  cbn [cooling_throughout] in Hcool. destruct Hcool as (Hk & Hrest).
  assert (Hstep : idle_step k e).
  { unfold idle_step.
    destruct k as [dt rnd s | amount attacker s];
      cbn [enemy_step] in *.
    - destruct Hk as (Hdt & Hlt).
      destruct (update_cooling dt rnd e s Hne Hlt Hdt) as (U1 & U2 & U3).
      split; [exact U2|]. split; [exact U1|].
      destruct U3 as [-> | ->]; split; lra.
    - destruct (takeDamage_cooling amount attacker e s Hne) as (T1 & T2).
      split; assumption. }
  destruct (IH (enemy_step k e) (proj1 Hstep) Hrest) as (I1 & I2 & I3).
  cbn [idle_throughout enemy_steps].
  split; [split; assumption|]. split; [exact I2|].
  apply (Qle_trans _ _ _ I3).
  destruct Hstep as (_ & Hc).
  destruct k as [dt rnd s | amount attacker s].
  - exact (proj2 (proj2 Hc)).
  - rewrite Hc. apply Qle_refl.
Qed.

Lemma no_attack_while_cooling_down_witness :
  let e := Enemy.set_attackCooldown 2 Sample.grunt in
  let ks := [StepUpdate (1 # 2) Sample.noRand Sample.world;
             StepBlow 10 None Sample.world;
             StepUpdate (1 # 2) Sample.noRand Sample.world] in
  idle_throughout (M := Sample.M) ks e
  /\ Enemy.currentAnimation (enemy_steps (M := Sample.M) ks e) <> anim_attack
  /\ Enemy.attackCooldown (enemy_steps (M := Sample.M) ks e)
     <= Enemy.attackCooldown e.
Proof.
  apply (@no_attack_while_cooling_down Sample.M
           [StepUpdate (1 # 2) Sample.noRand Sample.world;
            StepBlow 10 None Sample.world;
            StepUpdate (1 # 2) Sample.noRand Sample.world]
           (Enemy.set_attackCooldown 2 Sample.grunt)).
  - discriminate.
  - vm_compute. repeat split; discriminate.
Defined.


(* ------------------------------------------------------------------ *)
(** ** The end of an attack *)

(** X22.  When the attack animation has played its last frame, the
    enemy goes back to the first frame of the walk animation with the
    attack cooldown set to [attackCooldownDuration] and no telegraph of
    its own; the telegraph it had is cancelled, and the next update of
    the telegraph manager drops it from the list without updating it.
    Nothing else of the shared state changes. *)
Theorem attack_end_resets (e : Enemy.t) (s : Sys) :
  Enemy.currentAnimation e = anim_attack ->
  (Enemy.totalFrames e <= Enemy.currentFrame e)%Z ->
  let e' := fst (Enemy.finishAttack e s) in
  let s' := snd (Enemy.finishAttack e s) in
  Enemy.attackCooldown e' = Enemy.attackCooldownDuration e
  /\ Enemy.currentAnimation e' = anim_walk
  /\ Enemy.currentFrame e' = 0%Z
  /\ Enemy.totalFrames e' = Enemy.walkFrames e
  /\ Enemy.isAttacking e' = false
  /\ Enemy.telegraphCreated e' = false
  /\ Enemy.currentTelegraph e' = None
  /\ match Enemy.currentTelegraph e with
     | None => s' = s
     | Some tid =>
         s' = set_telegraphs (TelegraphManager.cancel tid (telegraphs s)) s
         /\ forall t dt f,
              nth_error (tm_store (telegraphs s)) tid = Some t ->
              let m := TelegraphManager.update dt f (telegraphs s') in
              ~ In tid (activeTelegraphs m)
              /\ nth_error (tm_store m) tid = Some (Tg.cancel t)
     end.
Proof.
  intros Ha Hlast. cbv zeta. unfold Enemy.finishAttack.
  apply Z.leb_le in Hlast. rewrite Hlast. cbv zeta.
  unfold Enemy.removeAttackTelegraph.
  change (Enemy.currentTelegraph
            (Enemy.set_attackCooldown ?v (Enemy.set_currentFrame ?w e)))
    with (Enemy.currentTelegraph e).
  assert (Hsw : forall x : Enemy.t,
             Enemy.currentAnimation x = anim_attack ->
             let y := Enemy.set_telegraphCreated false
                        (Enemy.switchAnimation 0 anim_walk x) in
             Enemy.attackCooldown y = Enemy.attackCooldown x
             /\ Enemy.currentAnimation y = anim_walk
             /\ Enemy.currentFrame y = 0%Z
             /\ Enemy.totalFrames y = Enemy.walkFrames x
             /\ Enemy.isAttacking y = false
             /\ Enemy.telegraphCreated y = false
             /\ Enemy.currentTelegraph y = Enemy.currentTelegraph x).
  { intros x Hx. cbv zeta. unfold Enemy.switchAnimation, Enemy.switches.
    rewrite Hx. cbn [Animation_eqb negb andb]. cbv zeta.
    repeat split. }
  destruct (Enemy.currentTelegraph e) as [tid|] eqn:Et; cbn [fst snd].
  - match goal with
    | |- context [Enemy.switchAnimation 0 anim_walk ?x] =>
        destruct (Hsw x Ha) as (H1 & H2 & H3 & H4 & H5 & H6 & H7)
    end.
    refine (conj H1 (conj H2 (conj H3 (conj H4 (conj H5 (conj H6
             (conj H7 (conj eq_refl _)))))))).
    intros t dt f Ht. cbv zeta. cbn [telegraphs set_telegraphs].
    destruct (cancel_cancelled tid (telegraphs s) t Ht) as (C1 & C2 & C3).
    exact (update_drops_cancelled dt f _ tid _ C1 C2 C3).
  - match goal with
    | |- context [Enemy.switchAnimation 0 anim_walk ?x] =>
        destruct (Hsw x Ha) as (H1 & H2 & H3 & H4 & H5 & H6 & H7)
    end.
    rewrite H7.
    exact (conj H1 (conj H2 (conj H3 (conj H4 (conj H5 (conj H6
             (conj Et eq_refl))))))).
Qed.

Lemma attack_end_resets_witness :
  let e := Enemy.set_currentFrame 9
             (Enemy.switchAnimation 0 anim_attack Sample.grunt) in
  let s := Sample.world in
  let e' := fst (Enemy.finishAttack e s) in
  let s' := snd (Enemy.finishAttack e s) in
  Enemy.attackCooldown e' = Enemy.attackCooldownDuration e
  /\ Enemy.currentAnimation e' = anim_walk
  /\ Enemy.currentFrame e' = 0%Z
  /\ Enemy.totalFrames e' = Enemy.walkFrames e
  /\ Enemy.isAttacking e' = false
  /\ Enemy.telegraphCreated e' = false
  /\ Enemy.currentTelegraph e' = None
  /\ match Enemy.currentTelegraph e with
     | None => s' = s
     | Some tid =>
         s' = set_telegraphs (TelegraphManager.cancel tid (telegraphs s)) s
         /\ forall t dt f,
              nth_error (tm_store (telegraphs s)) tid = Some t ->
              let m := TelegraphManager.update dt f (telegraphs s') in
              ~ In tid (activeTelegraphs m)
              /\ nth_error (tm_store m) tid = Some (Tg.cancel t)
     end.
Proof.
  apply (@attack_end_resets
           (Enemy.set_currentFrame 9
              (Enemy.switchAnimation 0 anim_attack Sample.grunt))
           Sample.world).
  - vm_compute. reflexivity.
  - vm_compute. discriminate.
Defined.


(* ------------------------------------------------------------------ *)
(** ** Spawning *)

(** The statistics of the special types leave the enemy alive, at full
    health, in the walk animation and on patrol. *)
Lemma specialize_fields (ty : EnemyType) (position : Vector3) (e : Enemy.t) :
  Enemy.health e = Enemy.maxHealth e ->
  let e' := fst (Spawn.specialize ty position e) in
  let p' := snd (Spawn.specialize ty position e) in
  Enemy.eid e' = Enemy.eid e
  /\ Enemy.isDead e' = Enemy.isDead e
  /\ Enemy.health e' = Enemy.maxHealth e'
  /\ Enemy.currentState e' = Enemy.currentState e
  /\ Enemy.currentAnimation e' = Enemy.currentAnimation e
  /\ Enemy.isFireballCaster e'
     = match ty with enemy_5 => true | _ => Enemy.isFireballCaster e end
  /\ vx p' = vx position /\ vz p' = vz position
  /\ vy p' = match ty with
             | enemy_3 => 3 # 2
             | enemy_4 => 0
             | enemy_5 => 1
             | _ => vy position
             end
  /\ Enemy.maxHealth e'
     = match ty with
       | enemy_3 => 30
       | enemy_4 => 45
       | enemy_5 => 35
       | _ => Enemy.maxHealth e
       end.
Proof.
  intro Hh. destruct ty; cbn; repeat split; exact Hh.
Qed.

(** X23.  [spawnEnemy] returns [null] and leaves the manager as it is
    when no texture set is picked (none loaded) or the set picked lacks
    a texture.  Otherwise the new enemy is pushed last and the others
    are kept; it is alive, at full health (30, 45, 35 for the types
    enemy_3, enemy_4, enemy_5, else 50), patrolling, holds the
    collaborators of the manager, and casts fireballs exactly when its
    type is enemy_5.  Whatever the type, it stands above the given
    position at height 0.7 with [baseY] 0.7: the heights 1.5, 0 and 1.0
    that the special types write are kept only in the patrol centre. *)
Theorem spawnEnemy_spec (r1 r2 : Q) (id : nat) (position : Vector3)
        (patrolRadius : Q) (m : Spawner) :
  let out := Spawn.spawnEnemy r1 r2 id position patrolRadius m in
  let index :=
    Z.to_nat
      (Num.floor (r1 * inject_Z (Z.of_nat (length (enemyTextureSets m))))) in
  match nth_error (enemyTextureSets m) index with
  | None => out = (None, m)
  | Some ts =>
      if match ts_walkTexture ts, ts_attackTextures ts,
               ts_hitTexture ts, ts_deathTexture ts with
         | Some _, _ :: _, Some _, Some _ => false
         | _, _, _, _ => true
         end
      then out = (None, m)
      else
        exists e,
          out = (Some e,
                 mkSpawner (enemyTextureSets m) (sp_player m)
                           (sp_combatSystem m) (sp_telegraphManager m)
                           (sp_fireballManager m) (sp_enemies m ++ [e]))
          /\ Enemy.eid e = id
          /\ Enemy.isDead e = false
          /\ Enemy.health e = Enemy.maxHealth e
          /\ Enemy.maxHealth e
             = match ts_enemyType ts with
               | enemy_3 => 30
               | enemy_4 => 45
               | enemy_5 => 35
               | _ => 50
               end
          /\ Enemy.currentState e = PATROL
          /\ Enemy.currentAnimation e = anim_walk
          /\ Enemy.position e = V3.setY position (7 # 10)
          /\ Enemy.baseY e = 7 # 10
          /\ Enemy.patrolCenter e
             = V3.setY position
                 match ts_enemyType ts with
                 | enemy_3 => 3 # 2
                 | enemy_4 => 0
                 | enemy_5 => 1
                 | _ => vy position
                 end
          /\ Enemy.patrolRadius e = patrolRadius
          /\ Enemy.target e = sp_player m
          /\ Enemy.combatSystem e = sp_combatSystem m
          /\ Enemy.telegraphManager e = sp_telegraphManager m
          /\ Enemy.fireballManager e = sp_fireballManager m
          /\ Enemy.isFireballCaster e
             = match ts_enemyType ts with enemy_5 => true | _ => false end
  end.
Proof.
  cbv zeta. unfold Spawn.spawnEnemy. cbv zeta.
  destruct (nth_error (enemyTextureSets m) _) as [ts|]; [|reflexivity].
  destruct (ts_walkTexture ts) as [walk|]; [|reflexivity].
  destruct (ts_attackTextures ts) as [|a attacks]; [reflexivity|].
  destruct (ts_hitTexture ts) as [hit|]; [|reflexivity].
  destruct (ts_deathTexture ts) as [death|]; [|reflexivity].
  set (e0 := Spawn.newEnemy id _ _ _ _ _ 8 r2).
  pose proof (specialize_fields (ts_enemyType ts) position e0 eq_refl) as H.
  cbv zeta in H.
  destruct (Spawn.specialize (ts_enemyType ts) position e0) as [e1 p1].
  cbn [fst snd] in H.
  destruct H as (H1 & H2 & H3 & H4 & H5 & H6 & H7 & H8 & H9 & H10).
  eexists. split; [reflexivity|].
  cbn. rewrite H1, H2, H3, H4, H5, H6, H10.
  destruct p1 as [px py pz]. cbn in H7, H8, H9. subst px pz py.
  destruct position as [x y z]. cbn.
  destruct (ts_enemyType ts); repeat split.
Qed.


(* ------------------------------------------------------------------ *)
(** ** The swing, from the key to the combat system *)

(** X24.  [PlayerController.triggerAttack] starts a swing exactly when
    the combat system can attack and the sprite is not already swinging.
    A swing it starts is never refused by [CombatSystem.triggerAttack]:
    the combat system ends up swinging, with its cooldown set, and the
    sprite is marked as attacking, its position and direction unchanged.
    A request it refuses changes nothing, and so does a second request
    made at once. *)
Theorem controller_swing_reaches_combat {M : MathLib} (r1 r2 r3 r4 : Q)
        (g : Game) :
  let c := combat (sys g) in
  let p := player (sys g) in
  let out := PlayerController_triggerAttack r1 r2 g in
  let g' := snd out in
  fst out = canAttack c && negb (pl_isAttacking p)
  /\ (if fst out
      then out_result
             (Game.triggerAttack r1 r2
                (mkGame (enemies g)
                        (set_player (snd (Player_attack p)) (sys g)))) = true
           /\ cs_isAttacking (combat (sys g')) = true
           /\ cs_attackCooldown (combat (sys g'))
              = cs_attackCooldownDuration c
           /\ pl_isAttacking (player (sys g')) = true
           /\ pl_position (player (sys g')) = pl_position p
           /\ pl_lastDirection (player (sys g')) = pl_lastDirection p
      else g' = g)
  /\ PlayerController_triggerAttack r3 r4 g' = (false, g').
Proof.
  cbv zeta.
  assert (Hrej : forall q1 q2 h,
             canAttack (combat (sys h)) && negb (pl_isAttacking (player (sys h)))
             = false ->
             PlayerController_triggerAttack q1 q2 h = (false, h)).
  { intros q1 q2 h Hc. unfold PlayerController_triggerAttack, Player_attack.
    destruct (canAttack (combat (sys h))); cbn [negb andb] in *;
      [|reflexivity].
    apply negb_false_iff in Hc. rewrite Hc. reflexivity. }
  destruct (canAttack (combat (sys g)) && negb (pl_isAttacking (player (sys g))))
    eqn:Hok.
  2:{ rewrite (Hrej r1 r2 g Hok). cbn [fst snd].
      split; [reflexivity|]. split; [reflexivity|]. apply Hrej. exact Hok. }
  apply andb_true_iff in Hok. destruct Hok as (Hcan & Hfree).
  apply negb_true_iff in Hfree.
  unfold PlayerController_triggerAttack, Player_attack.
  rewrite Hcan, Hfree. cbn [negb fst snd].
  set (g1 := mkGame (enemies g) (set_player _ (sys g))).
  assert (Hcan1 : canAttack (combat (sys g1)) = true) by exact Hcan.
  pose proof (triggerAttack_combat r1 r2 g1 Hcan1) as Hc.
  assert (Hres : out_result (Game.triggerAttack r1 r2 g1) = true).
  { unfold Game.triggerAttack. cbv zeta.
    unfold canAttack in Hcan1. rewrite gtb_leb.
    apply andb_true_iff in Hcan1. destruct Hcan1 as (H1 & H2).
    rewrite H1. apply negb_true_iff in H2. rewrite H2. cbn [negb orb].
    destruct (EnemyManager.handlePlayerAttack _ _ _ _ _ _ _)
      as [[es' s1] hits].
    destruct hits; reflexivity. }
  assert (Hpl : player (sys (out_game (Game.triggerAttack r1 r2 g1)))
                = player (sys g1)).
  { unfold Game.triggerAttack. cbv zeta.
    unfold canAttack in Hcan1. rewrite gtb_leb.
    apply andb_true_iff in Hcan1. destruct Hcan1 as (H1 & H2).
    rewrite H1. apply negb_true_iff in H2. rewrite H2. cbn [negb orb].
    match goal with
    | |- context [EnemyManager.handlePlayerAttack ?p ?d ?r ?a ?i ?es ?s] =>
        pose proof (handlePlayerAttack_beside p d r a i es s) as Hb;
        destruct (EnemyManager.handlePlayerAttack p d r a i es s)
          as [[es' s1] hits]
    end.
    cbn [fst snd] in Hb.
    assert (Hbp : forall x y, beside_freeze x = beside_freeze y ->
                              player x = player y).
    { intros x y H. unfold beside_freeze in H. inversion H. reflexivity. }
    destruct hits as [|h hs]; cbn [out_game sys player set_combat].
    - apply Hbp. exact Hb.
    - apply Hbp. rewrite onSuccessfulHit_beside. exact Hb. }
  split; [reflexivity|].
  split.
  { split; [exact Hres|]. rewrite Hc, Hpl.
    repeat split. }
  apply Hrej. rewrite Hc. unfold canAttack. cbn.
  rewrite andb_false_r. reflexivity.
Qed.


(* ------------------------------------------------------------------ *)
(** ** The telegraph of a fireball *)

Section FireballTelegraph.
Context {M : MathLib}.

Lemma removeFireball_telegraphs (id : nat) (s : Sys) :
  telegraphs (FireballManager.removeFireball id s) = telegraphs s.
Proof.
  unfold FireballManager.removeFireball.
  match goal with
  | |- context [FireballManager.fireball id ?x] =>
      destruct (FireballManager.fireball id x) as [fb|];
      [destruct (Fb.manager fb)|]; reflexivity
  end.
Qed.

(** The ground impact of a fireball that carries a telegraph. *)
Lemma triggerGroundImpact_telegraph (id tid : nat) (s : Sys) (fb : Fb.t) :
  FireballManager.fireball id s = Some fb ->
  Fb.hasExploded fb = false ->
  Fb.telegraph fb = Some tid ->
  let s' := FireballManager.triggerGroundImpact id s in
  telegraphs s' = TelegraphManager.cancel tid (telegraphs s)
  /\ exists fb', FireballManager.fireball id s' = Some fb'
                 /\ Fb.telegraph fb' = None.
Proof.
  intros E Hx Ht. cbv zeta. unfold FireballManager.triggerGroundImpact.
  rewrite E, Hx.
  set (s1 := FireballManager.on_fireball (Fb.set_hasExploded true) id s).
  assert (E1 : FireballManager.fireball id s1
               = Some (Fb.set_hasExploded true fb))
    by (subst s1; rewrite fireball_on_fireball, E; reflexivity).
  set (s2 := FireballManager.removeFireballTelegraph id s1).
  assert (H2 : telegraphs s2 = TelegraphManager.cancel tid (telegraphs s)
               /\ FireballManager.fireball id s2
                  = Some (Fb.set_telegraph None (Fb.set_hasExploded true fb))).
  { subst s2. unfold FireballManager.removeFireballTelegraph.
    rewrite E1.
    change (Fb.telegraph (Fb.set_hasExploded true fb)) with (Fb.telegraph fb).
    rewrite Ht. split; [reflexivity|].
    rewrite fireball_on_fireball.
    change (FireballManager.fireball id (set_telegraphs ?t s1))
      with (FireballManager.fireball id s1).
    rewrite E1. reflexivity. }
  destruct H2 as (T2 & F2).
  set (s3 := if Fb.onComplete fb
             then FireballManager.handleFireballExplosion id s2 else s2).
  assert (H3 : telegraphs s3 = telegraphs s2
               /\ FireballManager.fireball id s3
                  = FireballManager.fireball id s2).
  { subst s3. destruct (Fb.onComplete fb); [|auto].
    destruct (handleFireballExplosion_frame id s2) as (Hf & _ & Hg).
    split; [exact Hg|]. unfold FireballManager.fireball. rewrite Hf.
    reflexivity. }
  destruct H3 as (T3 & F3).
  rewrite removeFireball_telegraphs, T3, T2. split; [reflexivity|].
  eexists. rewrite removeFireball_fireball, F3, F2.
  split; reflexivity.
Qed.

End FireballTelegraph.

(** X25.  The telegraph of a fireball.  When the timer of
    [createFireballTelegraph] fires on a fireball that is no longer in
    flight, nothing happens.  On a fireball in flight it creates one
    telegraph of the landing area, on the ground under the target, with
    the radius [telegraphRadius] and the duration computed at launch,
    and the fireball keeps a reference to it.  The ground impact then
    cancels this telegraph, clears the reference, and the next update of
    the telegraph manager drops the telegraph without updating it. *)
Theorem fireball_telegraph_life {M : MathLib} (t : Timer) (s : Sys)
        (fb : Fb.t) :
  FireballManager.fireball (tmr_fireball t) s = Some fb ->
  let id := tmr_fireball t in
  let tid := length (tm_store (telegraphs s)) in
  let s1 := FireballManager.telegraphTimeout t s in
  if Fb.isActive fb && negb (Fb.hasExploded fb) then
    exists tg,
      FireballManager.fireball id s1 = Some (Fb.set_telegraph (Some tid) fb)
      /\ nth_error (tm_store (telegraphs s1)) tid = Some tg
      /\ activeTelegraphs (telegraphs s1)
         = activeTelegraphs (telegraphs s) ++ [tid]
      /\ Tg.attackType tg = area /\ Tg.isActive tg = true
      /\ Tg.position tg = V3.setY (Fb.targetPosition fb) 0
      /\ Tg.range tg = Fb.telegraphRadius fb
      /\ Tg.warningTime tg = tmr_telegraphDuration t
      /\ Tg.followTarget tg = None
      /\ let s2 := FireballManager.triggerGroundImpact id s1 in
         (exists fb2, FireballManager.fireball id s2 = Some fb2
                      /\ Fb.telegraph fb2 = None)
         /\ nth_error (tm_store (telegraphs s2)) tid = Some (Tg.cancel tg)
         /\ forall dt f,
              ~ In tid (activeTelegraphs
                          (TelegraphManager.update dt f (telegraphs s2)))
  else s1 = s.
Proof.
  intros E. cbv zeta. unfold FireballManager.telegraphTimeout. rewrite E.
  destruct (Fb.isActive fb && negb (Fb.hasExploded fb)) eqn:Hfly;
    [|reflexivity].
  apply andb_true_iff in Hfly. destruct Hfly as (_ & Hx).
  apply negb_true_iff in Hx.
  unfold TelegraphManager.createTelegraph. cbv zeta.
  set (tg := Tg.startTelegraph (Fb.targetPosition fb) None
               (Tg.set_parent true
                  (Tg.new area (Fb.telegraphRadius fb)
                          (tmr_telegraphDuration t)))).
  set (tid := length (tm_store (telegraphs s))).
  set (tm1 := mkTM (tm_store (telegraphs s) ++ [tg])
                   (activeTelegraphs (telegraphs s) ++ [tid])).
  set (s1 := FireballManager.on_fireball (Fb.set_telegraph (Some tid))
               (tmr_fireball t) (set_telegraphs tm1 s)).
  assert (E1 : FireballManager.fireball (tmr_fireball t) s1
               = Some (Fb.set_telegraph (Some tid) fb)).
  { subst s1. rewrite fireball_on_fireball.
    change (FireballManager.fireball (tmr_fireball t) (set_telegraphs tm1 s))
      with (FireballManager.fireball (tmr_fireball t) s).
    rewrite E. reflexivity. }
  assert (Htg : nth_error (tm_store (telegraphs s1)) tid = Some tg).
  { subst s1 tm1 tid. cbn [telegraphs FireballManager.on_fireball
                             set_fireballs set_telegraphs tm_store].
    rewrite nth_error_app2 by apply Nat.le_refl.
    rewrite Nat.sub_diag. reflexivity. }
  exists tg.
  split; [exact E1|]. split; [exact Htg|].
  split; [reflexivity|].
  split; [reflexivity|]. split; [reflexivity|]. split; [reflexivity|].
  split; [reflexivity|]. split; [reflexivity|]. split; [reflexivity|].
  cbv zeta.
  destruct (triggerGroundImpact_telegraph (tmr_fireball t) tid s1 _ E1 Hx
              eq_refl) as (T & fb2 & F2 & N2).
  cbv zeta in T.
  split; [exists fb2; split; assumption|].
  destruct (cancel_cancelled tid (telegraphs s1) tg Htg) as (C1 & C2 & C3).
  rewrite T. split; [exact C1|].
  intros dt f.
  exact (proj1 (update_drops_cancelled dt f _ tid _ C1 C2 C3)).
Qed.

Lemma fireball_telegraph_life_witness :
  let s := snd (FireballManager.launchFireball (vec3 2 0 3) Sample.world) in
  let t := mkTimer 14 (9 # 2) (3 # 2) in
  let fb := nth 14 (fm_store (fireballs s)) (Fb.new 6 5 12) in
  let id := tmr_fireball t in
  let tid := length (tm_store (telegraphs s)) in
  let s1 := FireballManager.telegraphTimeout t s in
  if Fb.isActive fb && negb (Fb.hasExploded fb) then
    exists tg,
      FireballManager.fireball id s1 = Some (Fb.set_telegraph (Some tid) fb)
      /\ nth_error (tm_store (telegraphs s1)) tid = Some tg
      /\ activeTelegraphs (telegraphs s1)
         = activeTelegraphs (telegraphs s) ++ [tid]
      /\ Tg.attackType tg = area /\ Tg.isActive tg = true
      /\ Tg.position tg = V3.setY (Fb.targetPosition fb) 0
      /\ Tg.range tg = Fb.telegraphRadius fb
      /\ Tg.warningTime tg = tmr_telegraphDuration t
      /\ Tg.followTarget tg = None
      /\ let s2 := FireballManager.triggerGroundImpact (M := Sample.M)
                     id s1 in
         (exists fb2, FireballManager.fireball id s2 = Some fb2
                      /\ Fb.telegraph fb2 = None)
         /\ nth_error (tm_store (telegraphs s2)) tid = Some (Tg.cancel tg)
         /\ forall dt f,
              ~ In tid (activeTelegraphs
                          (TelegraphManager.update dt f (telegraphs s2)))
  else s1 = s.
Proof.
  apply (@fireball_telegraph_life Sample.M (mkTimer 14 (9 # 2) (3 # 2))
           (snd (FireballManager.launchFireball (vec3 2 0 3) Sample.world))
           (nth 14
                (fm_store
                   (fireballs
                      (snd (FireballManager.launchFireball (vec3 2 0 3)
                              Sample.world))))
                (Fb.new 6 5 12))).
  vm_compute. reflexivity.
Defined.


(* ------------------------------------------------------------------ *)
(** ** The cooldown and the hit-stop of the lightning strike *)

Section StrikeCycle.
Context {M : MathLib}.

(** During the strike no enemy reaches the shared state. *)
Lemma strikeAll_state (p : Vector3) (c : CombatSystem) (r : nat -> Q)
      (s : Sys) (targets : list nat) :
  isLightningStriking (combat s) = true ->
  forall (k : nat) (es : list Enemy.t),
    snd (fst (Lightning.strikeAll p c r k targets es s)) = s.
Proof.
  intro Hflag. induction targets as [|i rest IH]; intros k es;
    [reflexivity|].
  cbn [Lightning.strikeAll].
  destruct (nth_error es i) as [e|]; [|apply IH].
  cbv zeta.
  pose proof (takeDamage_during_strike
                (Lightning.strikeDamage c (r k)) (Some p) e s Hflag) as Hs.
  destruct (Enemy.takeDamage (Lightning.strikeDamage c (r k)) (Some p) e s)
    as [e' s'].
  cbn [snd] in Hs. subst s'.
  specialize (IH (S k) (list_set i e' es)).
  destruct (Lightning.strikeAll p c r (S k) rest (list_set i e' es) s)
    as [[es' s'] hits].
  exact IH.
Qed.

(** The shared state after a strike that was not refused. *)
Lemma triggerLightningStrike_sys (shuffle : list nat -> list nat)
      (r : nat -> Q) (g : Game) :
  Num.gtb (lightningStrikeCooldown (combat (sys g))) 0 = false ->
  let out := Lightning.triggerLightningStrike shuffle r g in
  sys (so_game out)
  = set_combat
      (set_lightningStrikeCooldown
         (lightningStrikeCooldownDuration (combat (sys g)))
         (if so_result out
          then set_isLightningStriking true (combat (sys g))
          else combat (sys g)))
      (sys g).
Proof.
  intro Hready. cbv zeta. unfold Lightning.triggerLightningStrike.
  cbv zeta. rewrite Hready.
  destruct (Lightning.findEnemiesInRange _ _ _) as [|i0 cand];
    [reflexivity|].
  match goal with
  | |- context [Lightning.strikeAll ?p ?c ?r 0 ?t ?es ?s] =>
      pose proof (strikeAll_state p c r s t eq_refl 0%nat es) as Hs;
      destruct (Lightning.strikeAll p c r 0 t es s) as [[es' s'] hits]
  end.
  cbn [fst snd] in Hs. subst s'. reflexivity.
Qed.

End StrikeCycle.

(** A lightning strike that has become possible stays possible under
    updates. *)
Lemma canUseLightningStrike_stays (dts : list Q) :
  forall c, canUseLightningStrike c = true ->
            canUseLightningStrike (CombatSystem_updates dts c) = true.
Proof.
  induction dts as [|dt rest IH]; intros c H; [exact H|].
  cbn [CombatSystem_updates]. apply IH.
  unfold canUseLightningStrike in *.
  destruct (CombatSystem_update_fields dt c) as (_ & -> & _).
  rewrite gtb_leb, H. cbn [negb]. exact H.
Qed.

(** X26.  A lightning strike that is not refused starts the cooldown
    whether or not it hits.  A single update of the combat system makes
    the next strike possible exactly when its [deltaTime] covers
    [lightningStrikeCooldownDuration], and once the next strike has
    become possible further updates keep it so.  The strike leaves the
    freeze frame alone; the freeze comes with the callback scheduled
    100 ms later, which ends the strike and, when the combat system
    knows its game, freezes for 0.12 s for more than two enemies hit,
    0.10 s for two, 0.08 s otherwise. *)
Theorem lightning_strike_cooldown {M : MathLib}
        (shuffle : list nat -> list nat) (r : nat -> Q) (g : Game)
        (dt : Q) (dts more : list Q) :
  canUseLightningStrike (combat (sys g)) = true ->
  0 <= dt ->
  let c := combat (sys g) in
  let out := Lightning.triggerLightningStrike shuffle r g in
  let s' := sys (so_game out) in
  let s2 := Lightning.strikeTimeout (so_hits out) s' in
  lightningStrikeCooldown (combat s') = lightningStrikeCooldownDuration c
  /\ (canUseLightningStrike (CombatSystem_update dt (combat s')) = true
      <-> lightningStrikeCooldownDuration c <= dt)
  /\ (canUseLightningStrike (CombatSystem_updates dts (combat s')) = true ->
      canUseLightningStrike
        (CombatSystem_updates (dts ++ more) (combat s')) = true)
  /\ isLightningStriking (combat s')
     = so_result out || isLightningStriking c
  /\ freezeTime s' = freezeTime (sys g)
  /\ isLightningStriking (combat s2) = false
  /\ lightningStrikeCooldown (combat s2) = lightningStrikeCooldownDuration c
  /\ freezeTime s2
     = if cs_game c
       then if (2 <? length (so_hits out))%nat then 12 # 100
            else if (1 <? length (so_hits out))%nat then 10 # 100
                 else 8 # 100
       else freezeTime (sys g).
Proof.
  intros Hcan Hdt. cbv zeta.
  assert (Hready : Num.gtb (lightningStrikeCooldown (combat (sys g))) 0
                   = false).
  { rewrite gtb_leb. unfold canUseLightningStrike in Hcan. rewrite Hcan.
    reflexivity. }
  rewrite (triggerLightningStrike_sys shuffle r g Hready).
  set (out := Lightning.triggerLightningStrike shuffle r g).
  split.
  { cbn [combat set_combat]. destruct (so_result out); reflexivity. }
  split.
  { unfold canUseLightningStrike.
    match goal with
    | |- context [CombatSystem_update dt ?c1] =>
        destruct (CombatSystem_update_fields dt c1) as (_ & -> & _);
        assert (E : lightningStrikeCooldown c1
                    = lightningStrikeCooldownDuration (combat (sys g)))
          by (cbn [combat set_combat]; destruct (so_result out);
              reflexivity);
        rewrite E
    end.
    rewrite gtb_leb, leb_le.
    destruct (Num.leb (lightningStrikeCooldownDuration (combat (sys g))) 0)
      eqn:E0; cbn [negb].
    - apply leb_le in E0. split; intro; lra.
    - split; intro; lra. }
  split.
  { intro H. rewrite CombatSystem_updates_app.
    apply canUseLightningStrike_stays. exact H. }
  split.
  { cbn [combat set_combat]. destruct (so_result out); reflexivity. }
  split; [reflexivity|].
  unfold Lightning.strikeTimeout, Lightning.onLightningStrikeHit.
  cbv zeta. cbn [combat set_combat].
  destruct (so_result out); cbn;
    destruct (cs_game (combat (sys g))); repeat split.
Qed.

Lemma lightning_strike_cooldown_witness :
  let shuffle := fun l : list nat => l in
  let r := fun _ : nat => 1 # 2 in
  let g := swing_game in
  let c := combat (sys g) in
  let out := Lightning.triggerLightningStrike (M := Sample.M) shuffle r g in
  let s' := sys (so_game out) in
  canUseLightningStrike (CombatSystem_update 1 (combat s')) = true
  <-> lightningStrikeCooldownDuration c <= 1.
Proof.
  refine (proj1 (proj2 (@lightning_strike_cooldown Sample.M (fun l => l)
                          (fun _ => 1 # 2) swing_game 1 [1; 1; 1] [1]
                          _ _))).
  - vm_compute. reflexivity.
  - vm_compute. discriminate.
Defined.
